(* ===== verification/_CoqProject ===== *)
-Q . S2P
Prelude.v
Error.v
Time.v
Event.v
Trace.v
Mailbox.v
Relate.v
Isa.v
IsaEncoding.v
ControlCommand.v
Image.v
Memory.v
Feedback.v
Profile.v
TraceJson.v
Arguments.v
Protocol.v
TimingControl.v
Tcu.v
Sync.v
Backend.v
Resources.v
Gates.v
Readouts.v
Electronics.v
Pipeline.v
Mmio.v
Decoder.v
Core.v
Handshake.v
Ports.v
MemoryOrder.v
Interleave.v
Simulator.v
Schedule.v
ProfileJson.v
Runtime.v
PythonBackend.v
BackendContract.v
CheckedBackend.v
RunConfig.v
Output.v
Main.v
PythonMain.v
