(* ===== verification/Prelude.v ===== *)
(** * Verification of qsbit-sim

    qsbit-sim simulates distributed controllers of a quantum device: RISC-V cores that queue timed
    operations, the units that fire them at their cycles, the control electronics that turn them into
    work of a quantum backend, and the way measurement results take back.  This library models the C++
    sources (src/src, src/include, src/contracts) and proves that the model keeps the promises the
    components make to each other.

    ** How a run works

    [Main] reads the command line ([RunConfig], [Arguments], [ProfileJson]), builds the simulator and
    hands it to the SystemC kernel.  [Simulator] owns the cores, the synchronization network, the
    decoders and the device.  Its processes are the CPU, memory and TCU edges of all cores, a wake-up and
    a barrier.  A [Core] composes a CPU pipeline ([Pipeline] over [Isa]), a memory ([Memory] over
    [Image]), timing control ([TimingControl]), measurement registers ([Feedback]), a timing control unit
    ([Tcu]) and a synchronization unit ([Sync]); clocked mailboxes ([Mailbox], carrying the messages of
    [Protocol]) connect them.  A codeword the CPU executes is decoded to operations by the [Profile];
    timing control collects them into time points and sends them to the TCU, which fires each point at
    its cycle; the device ([Electronics], with [Resources], [Gates] and [Readouts]) accepts the launch,
    drives the [Backend] and delivers measurement results to the cores.  Cores reach the decoders
    ([Mmio], [Decoder]) through memory.  Every component records events ([Trace]); [TraceJson] is the file
    they end in, [Output] the summary.

    ** Files

    Foundations: this file (record update, machine integers, lists); [Error] (error.cpp: faults, the
    monads [result] and [M], the logics [keeps] and [preserves]); [Time] (time.hpp); [Relate] (two runs
    compared: [simulates]).
    Data: [Event] (event.hpp, measurement.hpp, profile.cpp 10-63); [Profile] (profile.cpp,
    timing_config.cpp, defaults.cpp); [Protocol] (control_protocol.cpp, control_links.hpp).
    Core: [Mailbox] (mailbox.hpp); [Isa], [IsaEncoding] (isa.cpp); [ControlCommand] (control_command.cpp,
    cpu/vliw.cpp); [Image] (image.cpp); [Memory] (memory.cpp); [Feedback] (feedback.cpp); [TimingControl]
    (timing_control.cpp); [Tcu] (tcu.cpp); [Sync] (sync.cpp); [Pipeline] (cpu/pipeline.cpp); [Core]
    (core.cpp); [Handshake], [Ports], [MemoryOrder], [Interleave] (what the parts of a core promise each
    other).
    Device: [Backend] (backend.cpp); [Resources], [Gates], [Readouts], [Electronics] (device/*.cpp);
    [PythonBackend] (python_backend.cpp); [BackendContract] (what the device promises a backend);
    [CheckedBackend] (backends that check their batches as protocol.py does).
    Decoders: [Mmio] (decoder/mmio.cpp); [Decoder] (decoder.cpp).
    System: [Simulator] (simulator.cpp); [Schedule] (what holds for every schedule).
    Program: [Trace], [TraceJson] (trace.cpp); [ProfileJson] (config_json.cpp); [Arguments], [RunConfig]
    (app/config.cpp, app/run_config.cpp); [Runtime] (runtime.cpp); [Output] (app/output.cpp); [Main]
    (main.cpp); [PythonMain] (main.cpp with QSBIT_HAS_PYTHON).

    ** How the code is represented

    A class is a record of its members, a method a definition of the same name (with the class as a
    prefix where names clash).  A method that updates members is a computation [M S A], a function from
    the state to a result and the state reached, also when it throws; a method that only checks returns
    a [result].  Objects shared by reference (the trace, the network, the links of a core, the mailboxes)
    are threaded through the state of the components that share them; [m_zoom] runs a component's
    operation on its part.  Unsigned integers are [Z] with [wrap32] and [wrap64] where the source can
    wrap.  Ordered maps are [gmap]s; where the order is used the text says so.

    ** What is proved

    A claim's theorem carries its number.
    - The core's timing: requests that timing control builds are always valid, a codeword is all or
      nothing, the TCU step implements an abstract queue of requests, never misses a cycle it could meet
      and changes nothing when it faults ([every_request_valid], [codeword_atomic], [tcu_step_refines],
      [firing_never_faults], [tcu_step_atomic]).
    - The links: mailboxes deliver once, in order, at the receiver's edge; the two ends of the links and
      of the memory ports always agree, so that no protocol error can occur; CPU and TCU edges of one tick
      commute ([mailbox_delivers_on_edge], [links_agree], [ports_agree], [edges_commute]), and so, without a
      number, do CPU and memory edges ([memory_and_cpu_commute]).
    - The processor: the decoder is the inverse of the instruction formats, every instruction has the
      effect of its arithmetic, the pipeline executes the
      sequential machine, faults included ([encode_decode], [decode_encode], [evaluate_effect],
      [pipeline_refines_isa], [oldest_instruction_executes]); program images load and are protected
      ([elf_loads], [image_access_protected], [image_read_write]); memory answers on time
      ([memory_latency]).
    - Feedback and synchronization: registers block exactly while a result is outstanding, reservations
      commit, rendezvous complete at the same edge ([measurement_read_blocks], [reservation_commits],
      [sync_rendezvous]).
    - The device: a launch is reserved exactly if it is free of conflicts, what preflight accepts is
      accepted, gates and readouts are resolved completely, batching cannot be observed by a backend that
      keeps the documented contract (also one that rejects other batches, [checked_lawful]), every batch
      passes the backend API's own check and can be read from what Python is given ([reserve_exact],
      [preflight_decides_accept], [gate_outputs_complete], [prepared_readouts], [batching_unobservable],
      [batches_bounded], [batches_conform], [batch_read_back]).
    - The decoders: their bookkeeping stays consistent ([decoder_consistent]); without a number, their
      registers submit what was written ([submission_as_written]).
    - The simulation: in every schedule of the kernel it ends, resets happen once, identities survive
      the way to the device and back ([simulation_terminates], [resets_exactly_once],
      [identities_round_trip]).
    - The program: what is accepted is valid and can be built, profiles and traces can be read back, the
      exit code, the trace and the summary agree ([parsed_run_valid], [accepted_core_builds],
      [validate_sound], [profile_round_trip], [trace_file_faithful],
      [exit_code_reports]).

    ** Bounds and fuel

    Recursion follows the data, with these exceptions.  [take_loop] has one unit of fuel more than the
    mailbox has messages and its bodies add none ([take_while_enough]).  [search_path] has one more than
    the text is long ([search_path_first]).  [drive], an executable schedule, has [kernel_measure], which
    every step of the kernel decreases ([drive_done]).  The kernel itself is a relation, [kernel_step], and
    its runs are finite because that measure is bounded by the watchdog ([simulation_terminates]).

    ** Parameters

    - SystemC: [kernel_step] runs the processes due at a tick once each, in any order, the notified barrier
      before time advances.  [exit_code_reports] takes [sc_start] as any complete run of it.
    - A quantum backend: the class [QuantumBackend], with [MockBackend] and the adapter [PythonBackend] as
      instances; its laws [LawfulBackend], which docs/backends.md promises for the batches it admits and
      which [MockBackend], also behind the check of protocol.py, satisfies.
    - What QSBIT_HAS_PYTHON selects in main.cpp: the record [Adapters], with the instances [no_python] and
      [with_python].
    - CPython and pybind11: the class [Python].
    - The JSON library: the class [JsonLib], its laws [LawfulJson], with the instance [Json].
    - A decoder's function from measurements to corrections, the device behind a memory, and the checks one
      component passes to another as callbacks, in the files of the components that call them; [Core]
      and [Simulator] instantiate the callbacks.
    - The printed form of a double, the file system, paths, the environment and the text of a fault.

    ** Not modelled

    The browser player, the Python packages (except [validate_batch]) and the build scripts (other
    languages); the text of error messages and of --help; how SystemC registers processes (any order is
    covered by [kernel_step]). *)

From stdpp Require Export prelude gmap strings sorting.
From Stdlib Require Export ZArith Lia.
#[global] Open Scope Z_scope.

Declare Scope qsbit_scope.
Delimit Scope qsbit_scope with qsbit.
#[global] Open Scope qsbit_scope.

(** ** Record update

    [r <| f := v |>] and [r <| f ::= g |>] rebuild a record with one field changed.  A record type
    opts in by an instance of [Eta], its eta-expansion. *)
Class Eta (R : Type) := eta_expand : R -> R.
Class Update {R E : Type} (field : R -> E) := update : (E -> E) -> R -> R.
Arguments update {R E} field {_} _ _ /.

Ltac head_of t := lazymatch t with ?h _ => head_of h | ?h => h end.
Ltac derive_update field :=
  lazymatch type of field with
  | ?R -> ?E =>
    let inst := constr:(_ : Eta R) in
    let h := head_of inst in
    let body := eval cbv beta delta [h] in (inst : R -> R) in
    lazymatch eval pattern field in body with
    | ?ctx field =>
      let upd := eval cbv beta in
        (fun (g : E -> E) (r : R) => ctx (fun r' : R => g (field r')) r) in
      exact upd
    end
  end.
#[global] Hint Extern 1 (@Update _ _ ?field) => derive_update field : typeclass_instances.

#[warnings="-postfix-notation-not-level-1"]
Notation "r <| field := v |>" := (update field (fun _ => v) r)
  (at level 12, field at next level, left associativity, format "r <| field  :=  v |>")
  : qsbit_scope.
#[warnings="-postfix-notation-not-level-1"]
Notation "r <| field ::= f |>" := (update field f r)
  (at level 12, field at next level, left associativity, format "r <| field  ::=  f |>")
  : qsbit_scope.

(** ** Machine integers

    A [std::uint32_t] or [std::uint64_t] value is the integer it denotes; every operation that can
    wrap in the source is followed by [wrap32], [wrap64]. *)
Definition max32 : Z := 4294967295.
Definition max64 : Z := 18446744073709551615.
Definition wrap32 (z : Z) : Z := z mod 4294967296.
Definition wrap64 (z : Z) : Z := z mod 18446744073709551616.
Definition u32 (z : Z) : Prop := 0 <= z <= max32.
Definition u64 (z : Z) : Prop := 0 <= z <= max64.

Lemma wrap32_u32 z : u32 (wrap32 z).
Proof. unfold u32, wrap32, max32. pose proof (Z.mod_pos_bound z 4294967296). lia. Qed.

Lemma wrap32_small z : u32 z -> wrap32 z = z.
Proof. unfold u32, wrap32, max32. intros. apply Z.mod_small. lia. Qed.

Lemma wrap64_u64 z : u64 (wrap64 z).
Proof. unfold u64, wrap64, max64. pose proof (Z.mod_pos_bound z 18446744073709551616). lia. Qed.

Lemma wrap64_small z : u64 z -> wrap64 z = z.
Proof. unfold u64, wrap64, max64. intros. apply Z.mod_small. lia. Qed.

Create HintDb qsbit discriminated.
Create Rewrite HintDb qsbit.
Create Rewrite HintDb size_of.
#[export] Hint Resolve wrap32_u32 wrap64_u64 : qsbit.
#[export] Hint Rewrite wrap32_small wrap64_small using (unfold u32, u64, max32, max64 in *; lia)
  : qsbit.

(** Bit operators of the source; a left shift is followed by the wrap of its type. *)
Notation "a '.&' b" := (Z.land a b) (at level 40, left associativity) : qsbit_scope.
Notation "a '.|' b" := (Z.lor a b) (at level 42, left associativity) : qsbit_scope.
Notation "a '.^' b" := (Z.lxor a b) (at level 41, left associativity) : qsbit_scope.
Notation "a '>>>' b" := (Z.shiftr a b) (at level 39, left associativity) : qsbit_scope.
Notation "a '<<<' b" := (Z.shiftl a b) (at level 39, left associativity) : qsbit_scope.

(** The length of a container, as the code's [size()]. *)
Definition size_of {A} (l : list A) : Z := Z.of_nat (length l).

Lemma size_of_nonneg {A} (l : list A) : 0 <= size_of l.
Proof. unfold size_of. lia. Qed.

Lemma size_of_nil {A} : size_of (@nil A) = 0.
Proof. reflexivity. Qed.

Lemma size_of_cons {A} (x : A) l : size_of (x :: l) = 1 + size_of l.
Proof. unfold size_of. simpl. lia. Qed.

Lemma size_of_app {A} (l k : list A) : size_of (l ++ k) = size_of l + size_of k.
Proof. unfold size_of. rewrite length_app. lia. Qed.

Lemma size_of_map {A B} (f : A -> B) l : size_of (map f l) = size_of l.
Proof. unfold size_of. by rewrite length_map. Qed.

#[export] Hint Rewrite @size_of_nil @size_of_cons @size_of_app @size_of_map : size_of.
#[export] Hint Resolve size_of_nonneg : qsbit.

(** ** Tactics *)

(** Turn the boolean tests of the code into propositions. *)
Ltac reflect :=
  repeat match goal with
  | H : _ && _ = true |- _ => apply andb_true_iff in H; destruct H
  | H : _ || _ = false |- _ => apply orb_false_iff in H; destruct H
  | H : _ && _ = false |- _ => apply andb_false_iff in H
  | H : _ || _ = true |- _ => apply orb_true_iff in H
  | H : negb _ = true |- _ => apply negb_true_iff in H
  | H : negb _ = false |- _ => apply negb_false_iff in H
  | H : (_ <? _) = true |- _ => apply Z.ltb_lt in H
  | H : (_ <? _) = false |- _ => apply Z.ltb_ge in H
  | H : (_ <=? _) = true |- _ => apply Z.leb_le in H
  | H : (_ <=? _) = false |- _ => apply Z.leb_gt in H
  | H : (_ =? _) = true |- _ => apply Z.eqb_eq in H
  | H : (_ =? _) = false |- _ => apply Z.eqb_neq in H
  | H : bool_decide _ = true |- _ => apply bool_decide_eq_true in H
  | H : bool_decide _ = false |- _ => apply bool_decide_eq_false in H
  end.

(** Case on the scrutinee of the first [match] or [if] of the goal. *)
Ltac case_scrutinee :=
  match goal with
  | |- context [match ?x with _ => _ end] => destruct x eqn:?
  end.

(** Prove [Forall] of a list written out. *)
Ltac forall_list tac :=
  repeat (apply Forall_cons; split; [tac|]); apply Forall_nil; exact I.

(** ** Lists *)

(** The number of elements that satisfy a boolean test, as [std::count_if]. *)
Definition count_if {A} (p : A -> bool) (l : list A) : Z := size_of (List.filter p l).

Lemma count_if_nil {A} (p : A -> bool) : count_if p [] = 0.
Proof. reflexivity. Qed.

Lemma count_if_cons {A} (p : A -> bool) x l :
  count_if p (x :: l) = (if p x then 1 else 0) + count_if p l.
Proof. unfold count_if. simpl. destruct (p x); [by rewrite size_of_cons | lia]. Qed.

Lemma count_if_app {A} (p : A -> bool) l k : count_if p (l ++ k) = count_if p l + count_if p k.
Proof. unfold count_if. by rewrite List.filter_app, size_of_app. Qed.

Lemma count_if_nonneg {A} (p : A -> bool) l : 0 <= count_if p l.
Proof. apply size_of_nonneg. Qed.

Lemma count_if_bound {A} (p : A -> bool) l : count_if p l <= size_of l.
Proof.
  induction l as [|x l IH]; [reflexivity|].
  rewrite count_if_cons, size_of_cons. destruct (p x); lia.
Qed.

Lemma count_if_pos {A} (p : A -> bool) l x : x ∈ l -> p x = true -> 0 < count_if p l.
Proof.
  intros Hin Hp. apply list_elem_of_split in Hin as (a & b & ->).
  rewrite count_if_app, count_if_cons, Hp.
  pose proof (count_if_nonneg p a). pose proof (count_if_nonneg p b). lia.
Qed.

Lemma count_if_exists {A} (p : A -> bool) l : count_if p l = 0 \/ exists x, x ∈ l /\ p x = true.
Proof.
  induction l as [|x l IH]; [by left|]. rewrite count_if_cons. destruct (p x) eqn:E.
  - right. exists x. split; [by left | done].
  - destruct IH as [->|(y & Hy & Hp)]; [by left|]. right. exists y. split; [by right | done].
Qed.

Lemma count_if_perm {A} (p : A -> bool) l k : l ≡ₚ k -> count_if p l = count_if p k.
Proof. induction 1; rewrite ?count_if_cons; lia. Qed.

Lemma count_if_ext {A} (p q : A -> bool) l : (forall x, x ∈ l -> p x = q x) -> count_if p l = count_if q l.
Proof.
  induction l as [|x l IH]; intros H; [done|]. rewrite !count_if_cons, (H x), IH; [done | | by left].
  intros y Hy. apply H. by right.
Qed.

#[export] Hint Rewrite @count_if_nil @count_if_cons @count_if_app : size_of.
#[export] Hint Resolve count_if_nonneg : qsbit.

Lemma sorted_snoc {A} (R : A -> A -> Prop) l x :
  StronglySorted R l -> Forall (fun y => R y x) l -> StronglySorted R (l ++ [x]).
Proof.
  induction 1 as [|y l Hs IH Hall]; intros HF; simpl; [repeat constructor|].
  inversion HF; subst. constructor; [by apply IH | apply Forall_app; split; [done | by constructor]].
Qed.

(** The indices of a counting loop [for (i = 0; i < n; ++i)]. *)
Definition upto (n : Z) : list Z := map Z.of_nat (seq 0 (Z.to_nat n)).

Lemma elem_of_upto i n : i ∈ upto n <-> 0 <= i < n.
Proof.
  unfold upto. rewrite list_elem_of_In, in_map_iff. setoid_rewrite in_seq. split.
  - intros (k & <- & Hk). lia.
  - intros Hi. exists (Z.to_nat i). lia.
Qed.

Lemma upto_snoc n : 0 <= n -> upto (n + 1) = upto n ++ [n].
Proof.
  intros Hn. unfold upto. replace (Z.to_nat (n + 1)) with (S (Z.to_nat n)) by lia.
  rewrite seq_S, map_app. simpl. by rewrite Z2Nat.id.
Qed.

(** An element read by index; the code's accesses are proved to be in range. *)
Definition at_index (l : list Z) (i : Z) : Z := nth (Z.to_nat i) l 0.

(** [std::copy(src.begin(), src.end(), dst.begin() + offset)]. *)
Definition blit {A} (offset : Z) (src dst : list A) : list A :=
  take (Z.to_nat offset) dst ++ src ++ drop (Z.to_nat offset + length src) dst.

Lemma size_of_blit {A} offset (src dst : list A) :
  0 <= offset -> offset + size_of src <= size_of dst -> size_of (blit offset src dst) = size_of dst.
Proof.
  unfold size_of, blit. intros Ho Hs. rewrite !length_app, length_take, length_drop. lia.
Qed.

Lemma at_index_blit offset src dst i :
  0 <= offset -> offset + size_of src <= size_of dst -> 0 <= i ->
  at_index (blit offset src dst) i =
    if (offset <=? i) && (i <? offset + size_of src) then at_index src (i - offset)
    else at_index dst i.
Proof.
  unfold at_index, blit, size_of. intros Ho Hs Hi.
  destruct (Z.leb_spec offset i); simpl.
  - rewrite app_nth2; rewrite length_take; [|lia].
    replace (Z.to_nat i - Z.to_nat offset `min` length dst)%nat with (Z.to_nat (i - offset)) by lia.
    destruct (Z.ltb_spec i (offset + Z.of_nat (length src))); [by rewrite app_nth1 by lia|].
    rewrite app_nth2 by lia. rewrite nth_skipn. f_equal. lia.
  - rewrite app_nth1 by (rewrite length_take; lia). rewrite nth_firstn.
    by destruct (Nat.ltb_spec (Z.to_nat i) (Z.to_nat offset)); [|lia].
Qed.

Lemma at_index_insert l i j v :
  0 <= i < size_of l -> 0 <= j ->
  at_index (<[Z.to_nat i := v]> l) j = if j =? i then v else at_index l j.
Proof.
  unfold at_index, size_of. intros Hi Hj. rewrite !nth_lookup.
  destruct (Z.eqb_spec j i) as [->|Hne].
  - by rewrite list_lookup_insert_eq by lia.
  - by rewrite list_lookup_insert_ne by lia.
Qed.

(** ** Bit fields as arithmetic *)
Lemma land_mask x n m : 0 <= n -> m = 2 ^ n - 1 -> x .& m = x mod 2 ^ n.
Proof. intros Hn ->. rewrite <-Z.land_ones by done. by rewrite Z.ones_equiv, <-Z.sub_1_r. Qed.

Lemma land_field x k n m :
  0 <= k -> 0 <= n -> m = (2 ^ n - 1) * 2 ^ k -> x .& m = (x / 2 ^ k) mod 2 ^ n * 2 ^ k.
Proof.
  intros Hk Hn ->. rewrite <-Z.shiftr_div_pow2, <-Z.land_ones, <-!Z.shiftl_mul_pow2 by done.
  replace (2 ^ n - 1) with (Z.ones n) by (rewrite Z.ones_equiv; lia).
  apply Z.bits_inj'. intros i Hi. rewrite Z.land_spec, !Z.shiftl_spec by done.
  destruct (Z.ltb_spec i k).
  - rewrite (Z.testbit_neg_r (Z.ones n)), andb_false_r by lia.
    by rewrite (Z.testbit_neg_r (_ .& _)) by lia.
  - rewrite Z.land_spec, Z.shiftr_spec by lia. by replace (i - k + k) with i by lia.
Qed.

Lemma lor_disjoint a b k :
  0 <= k -> a mod 2 ^ k = 0 -> 0 <= b < 2 ^ k -> a .| b = a + b.
Proof.
  intros Hk Ha Hb.
  assert (Hland : a .& b = 0).
  { apply Z.bits_inj'. intros i Hi. rewrite Z.land_spec, Z.bits_0.
    destruct (Z.ltb_spec i k).
    - rewrite <-(Z.mod_pow2_bits_low a k i), Ha, Z.bits_0 by lia. done.
    - rewrite <-(Z.mod_small b (2 ^ k)) by done.
      by rewrite Z.mod_pow2_bits_high, andb_false_r by lia. }
  by rewrite Z.add_nocarry_lxor, Z.lxor_lor by done.
Qed.

Lemma lxor_top_bit m k :
  0 <= k -> 0 <= m < 2 * 2 ^ k ->
  m .^ 2 ^ k = if m <? 2 ^ k then m + 2 ^ k else m - 2 ^ k.
Proof.
  intros Hk Hm.
  assert (Hlow : forall x, 0 <= x < 2 ^ k -> x .& 2 ^ k = 0).
  { intros x Hx. apply Z.bits_inj'. intros i Hi. rewrite Z.land_spec, Z.bits_0.
    destruct (Z.eq_dec i k) as [->|Hne].
    - rewrite <-(Z.mod_small x (2 ^ k)) by done. by rewrite Z.mod_pow2_bits_high by lia.
    - by rewrite Z.pow2_bits_false, andb_false_r by lia. }
  destruct (Z.ltb_spec m (2 ^ k)).
  - rewrite <-Z.add_nocarry_lxor; [done | apply Hlow; lia].
  - replace (m .^ 2 ^ k) with ((m - 2 ^ k + 2 ^ k) .^ 2 ^ k) by (f_equal; lia).
    rewrite (Z.add_nocarry_lxor (m - 2 ^ k)) by (apply Hlow; lia).
    by rewrite Z.lxor_assoc, Z.lxor_nilpotent, Z.lxor_0_r.
Qed.

Lemma shiftr_arith x n p : 0 <= n -> p = 2 ^ n -> x >>> n = x / p.
Proof. intros ? ->. by apply Z.shiftr_div_pow2. Qed.

Lemma shiftl_arith x n p : 0 <= n -> p = 2 ^ n -> x <<< n = x * p.
Proof. intros ? ->. by apply Z.shiftl_mul_pow2. Qed.

(** Rewrite literal shifts and masks to divisions and remainders; [lia_div] then decides. *)
Ltac literal z := lazymatch z with Z0 => idtac | Zpos _ => idtac | Zneg _ => idtac end.
Ltac shifts_to_arith :=
  repeat match goal with
  | |- context [?x >>> ?n] => literal n;
      let p := eval vm_compute in (2 ^ n) in rewrite (shiftr_arith x n p) by (lia || reflexivity)
  | |- context [?x <<< ?n] => literal n;
      let p := eval vm_compute in (2 ^ n) in rewrite (shiftl_arith x n p) by (lia || reflexivity)
  end.
Ltac masks_to_arith :=
  repeat match goal with
  | |- context [?x .& ?m] => literal m;
      let n := eval vm_compute in (Z.log2 m + 1) in
      let p := eval vm_compute in (2 ^ n) in
      replace (x .& m) with (x mod p) by (symmetry; apply (land_mask x n m); [lia | reflexivity])
  end.
Ltac bits_to_arith := shifts_to_arith; masks_to_arith.
Ltac lia_div := Z.div_mod_to_equations; lia.

(** Bitwise operations stay within 32 bits. *)
Lemma u32_ones z : u32 (z .& Z.ones 32).
Proof.
  rewrite Z.land_ones by lia. unfold u32, max32. change (2 ^ 32) with 4294967296.
  pose proof (Z.mod_pos_bound z 4294967296). lia.
Qed.

Lemma u32_land_ones z : u32 z -> z .& Z.ones 32 = z.
Proof.
  unfold u32, max32. intros. rewrite Z.land_ones by lia. apply Z.mod_small.
  change (2 ^ 32) with 4294967296. lia.
Qed.

Lemma u32_lor a b : u32 a -> u32 b -> u32 (a .| b).
Proof.
  intros Ha Hb. rewrite <-(u32_land_ones a Ha), <-(u32_land_ones b Hb), <-Z.land_lor_distr_l.
  apply u32_ones.
Qed.

Lemma u32_land a b : u32 a -> u32 (a .& b).
Proof.
  intros Ha. rewrite <-(u32_land_ones a Ha), <-Z.land_assoc, (Z.land_comm _ b), Z.land_assoc.
  apply u32_ones.
Qed.

Lemma u32_lxor a b : u32 a -> u32 b -> u32 (a .^ b).
Proof.
  intros Ha Hb. rewrite <-(u32_land_ones a Ha), <-(u32_land_ones b Hb).
  replace (_ .^ _) with ((a .^ b) .& Z.ones 32); [apply u32_ones|].
  apply Z.bits_inj'. intros i Hi. rewrite !Z.land_spec, !Z.lxor_spec, !Z.land_spec.
  by destruct (Z.testbit a i), (Z.testbit b i), (Z.testbit _ i).
Qed.

Lemma u32_shiftr a n : u32 a -> 0 <= n -> u32 (a >>> n).
Proof.
  unfold u32. intros Ha Hn. rewrite Z.shiftr_div_pow2 by done.
  assert (0 < 2 ^ n) by (apply Z.pow_pos_nonneg; lia).
  split; [apply Z.div_pos; lia|]. apply Z.div_le_upper_bound; nia.
Qed.

#[export] Hint Resolve u32_lor u32_land u32_lxor u32_shiftr : qsbit.

(** ** Ordered maps

    Iterating over a [std::map] visits its entries in key order. *)
Definition key_le {K A} (leb : K -> K -> bool) (a b : K * A) : Prop := Is_true (leb (fst a) (fst b)).
#[global] Instance key_le_dec {K A} (leb : K -> K -> bool) : RelDecision (key_le (A:=A) leb).
Proof. intros a b. unfold key_le. apply _. Defined.

Definition ordered_entries `{Countable K} {A} (leb : K -> K -> bool) (m : gmap K A) : list (K * A) :=
  merge_sort (key_le leb) (map_to_list m).

Lemma ordered_entries_perm `{Countable K} {A} leb (m : gmap K A) :
  ordered_entries leb m ≡ₚ map_to_list m.
Proof. apply merge_sort_Permutation. Qed.

Lemma elem_of_ordered_entries `{Countable K} {A} leb (m : gmap K A) k v :
  (k, v) ∈ ordered_entries leb m <-> m !! k = Some v.
Proof. rewrite ordered_entries_perm. apply elem_of_map_to_list. Qed.

(** [m[k]], then an update of the value. *)
Definition upsert `{Countable K} {A} (empty : A) (f : A -> A) (k : K) (m : gmap K A) : gmap K A :=
  partial_alter (fun v => Some (f (default empty v))) k m.

Lemma lookup_upsert `{Countable K} {A} (empty : A) f (k j : K) (m : gmap K A) :
  upsert empty f k m !! j = if decide (j = k) then Some (f (default empty (m !! k))) else m !! j.
Proof.
  unfold upsert. destruct (decide (j = k)) as [->|Hne]; [by rewrite lookup_partial_alter_eq | by rewrite lookup_partial_alter_ne].
Qed.

(** The least key, [begin()->first]. *)
Definition least_key {A} (m : gmap Z A) : option Z := option_map fst (head (ordered_entries Z.leb m)).

(** Counting the entries of a map. *)
Definition count_map `{Countable K} {A} (p : A -> bool) (m : gmap K A) : Z :=
  count_if (fun entry => p (snd entry)) (map_to_list m).

Lemma count_map_insert `{Countable K} {A} (p : A -> bool) k v (m : gmap K A) :
  count_map p (<[k := v]> m) =
    count_map p m - (match m !! k with Some o => if p o then 1 else 0 | None => 0 end) + (if p v then 1 else 0).
Proof.
  assert (Hnew : forall m : gmap K A, m !! k = None -> count_map p (<[k := v]> m) = (if p v then 1 else 0) + count_map p m).
  { intros m0 Hm. unfold count_map. rewrite (count_if_perm _ _ _ (map_to_list_insert m0 k v Hm)). by rewrite count_if_cons. }
  destruct (m !! k) as [o|] eqn:E; [|rewrite Hnew by done; lia].
  rewrite <-insert_delete_eq, Hnew by apply lookup_delete_eq.
  rewrite <-(insert_delete_id m k o E) at 2.
  unfold count_map at 2. rewrite (count_if_perm _ _ _ (map_to_list_insert (delete k m) k o (lookup_delete_eq _ _))).
  rewrite count_if_cons. cbn [snd]. fold (count_map p (delete k m)). lia.
Qed.
