(* ===== verification/Error.v ===== *)
(** * Faults (src/error.cpp, include/qsbit/error.hpp)

    [Fault] carries an [ErrorCode]; the human-readable text is not part of the model.  Two monads
    carry faults: [result] for [const] code that only checks, and [M S] for code that updates a
    state [S].  A fault raised by [M S] code keeps the state reached when it was thrown, as a C++
    exception does, so a statement that a failed operation changed nothing is a theorem. *)

From S2P Require Import Prelude.

Inductive ErrorCode :=
| InvalidProfile | TimeOverflow | IllegalInstruction | InstructionMisaligned | InstructionAccess
| LoadMisaligned | StoreMisaligned | LoadAccess | StoreAccess | EnvironmentCall | Breakpoint
| InvalidImage | UnsupportedSynchronization | InvalidPort | InvalidCodeword | InvalidOperand
| Capacity | LateAdmission | ManifestMismatch | Protocol | ResourceConflict | GateInputMismatch
| UnsupportedCapability | InvalidMeasurement | DuplicateResult | BackendFailure | Watchdog.

#[global] Instance ErrorCode_eq_dec : EqDecision ErrorCode.
Proof. solve_decision. Defined.

(** [name]: the text a trace records for a fault. *)
Definition error_name (code : ErrorCode) : string :=
  match code with
  | InvalidProfile => "InvalidProfile"
  | TimeOverflow => "TimeOverflow"
  | IllegalInstruction => "IllegalInstruction"
  | InstructionMisaligned => "InstructionMisaligned"
  | InstructionAccess => "InstructionAccess"
  | LoadMisaligned => "LoadMisaligned"
  | StoreMisaligned => "StoreMisaligned"
  | LoadAccess => "LoadAccess"
  | StoreAccess => "StoreAccess"
  | EnvironmentCall => "EnvironmentCall"
  | Breakpoint => "Breakpoint"
  | InvalidImage => "InvalidImage"
  | UnsupportedSynchronization => "UnsupportedSynchronization"
  | InvalidPort => "InvalidPort"
  | InvalidCodeword => "InvalidCodeword"
  | InvalidOperand => "InvalidOperand"
  | Capacity => "Capacity"
  | LateAdmission => "LateAdmission"
  | ManifestMismatch => "ManifestMismatch"
  | Protocol => "Protocol"
  | ResourceConflict => "ResourceConflict"
  | GateInputMismatch => "GateInputMismatch"
  | UnsupportedCapability => "UnsupportedCapability"
  | InvalidMeasurement => "InvalidMeasurement"
  | DuplicateResult => "DuplicateResult"
  | BackendFailure => "BackendFailure"
  | Watchdog => "Watchdog"
  end%string.

(** ** Checked computations *)
Inductive result (A : Type) : Type :=
| Ok (a : A)
| Fault (code : ErrorCode).
Arguments Ok {A} _.
Arguments Fault {A} _.

#[global] Instance result_eq_dec `{EqDecision A} : EqDecision (result A).
Proof. solve_decision. Defined.

Definition result_bind {A B} (m : result A) (k : A -> result B) : result B :=
  match m with Ok a => k a | Fault e => Fault e end.

(** [require] throws when the condition does not hold. *)
Definition require (condition : bool) (code : ErrorCode) : result unit :=
  if condition then Ok () else Fault code.

Notation "'let?' p ':=' c 'in' k" := (result_bind c (fun p => k))
  (at level 10, p pattern, c at level 99, k at level 200) : qsbit_scope.
Notation "'do?' c 'in' k" := (result_bind c (fun _ : unit => k))
  (at level 10, c at level 99, k at level 200) : qsbit_scope.

Fixpoint result_fold {A B} (f : B -> A -> result B) (l : list A) (b : B) : result B :=
  match l with
  | [] => Ok b
  | x :: l' => let? b' := f b x in result_fold f l' b'
  end.

Definition result_each {A} (f : A -> result unit) (l : list A) : result unit :=
  result_fold (fun _ x => f x) l ().

Definition is_ok {A} (r : result A) : bool := match r with Ok _ => true | Fault _ => false end.

(** ** Stateful computations *)
Definition M (S A : Type) : Type := S -> result A * S.

Definition m_ret {S A} (a : A) : M S A := fun s => (Ok a, s).
Definition m_fault {S A} (e : ErrorCode) : M S A := fun s => (Fault e, s).
Definition m_bind {S A B} (m : M S A) (k : A -> M S B) : M S B :=
  fun s => match m s with
           | (Ok a, s') => k a s'
           | (Fault e, s') => (Fault e, s')
           end.
Definition m_lift {S A} (r : result A) : M S A := fun s => (r, s).
Definition m_get {S} : M S S := fun s => (Ok s, s).
Definition m_gets {S A} (f : S -> A) : M S A := fun s => (Ok (f s), s).
Definition m_modify {S} (f : S -> S) : M S unit := fun s => (Ok (), f s).
(** [m_zoom get set m] runs [m] on a part of the state. *)
Definition m_zoom {S T A} (get : S -> T) (set : T -> S -> S) (m : M T A) : M S A :=
  fun s => let '(r, t) := m (get s) in (r, set t s).

Notation "'let!' p ':=' c 'in' k" := (m_bind c (fun p => k))
  (at level 10, p pattern, c at level 99, k at level 200) : qsbit_scope.
Notation "'do!' c 'in' k" := (m_bind c (fun _ : unit => k))
  (at level 10, c at level 99, k at level 200) : qsbit_scope.
(** Run the operations of a component held in field [f]. *)
Notation "'on' f m" := (m_zoom f (fun v => update f (fun _ => v)) m)
  (at level 10, f at next level, m at next level, only parsing) : qsbit_scope.

Fixpoint m_each {S A} (f : A -> M S unit) (l : list A) : M S unit :=
  match l with
  | [] => m_ret ()
  | x :: l' => do! f x in m_each f l'
  end.

(** ** Reasoning *)
Section Inversion.
Context {S A B : Type}.

Lemma result_bind_ok (m : result A) (k : A -> result B) b :
  result_bind m k = Ok b -> exists a, m = Ok a /\ k a = Ok b.
Proof. destruct m; simpl; [eauto | discriminate]. Qed.

Lemma result_bind_fault (m : result A) (k : A -> result B) e :
  result_bind m k = Fault e -> m = Fault e \/ exists a, m = Ok a /\ k a = Fault e.
Proof. destruct m; simpl; [eauto | intros [= ->]; auto]. Qed.

Lemma require_ok b e u : require b e = Ok u -> b = true.
Proof. destruct b; [done | discriminate]. Qed.

Lemma require_fault b e e' : require b e = Fault e' -> b = false /\ e' = e.
Proof. destruct b; [discriminate | by intros [= ->]]. Qed.

Lemma m_bind_ok (m : M S A) (k : A -> M S B) b s s2 :
  m_bind m k s = (Ok b, s2) -> exists a s1, m s = (Ok a, s1) /\ k a s1 = (Ok b, s2).
Proof. unfold m_bind. destruct (m s) as [[a|] s1]; [eauto | discriminate]. Qed.

Lemma m_bind_fault (m : M S A) (k : A -> M S B) e s s2 :
  m_bind m k s = (Fault e, s2) ->
  m s = (Fault e, s2) \/ exists a s1, m s = (Ok a, s1) /\ k a s1 = (Fault e, s2).
Proof. unfold m_bind. destruct (m s) as [[a|e'] s1]; [eauto | intros [= -> ->]; auto]. Qed.

Lemma m_bind_lift_ok (r : result A) (k : A -> M S B) b s s2 :
  m_bind (m_lift r) k s = (Ok b, s2) -> exists a, r = Ok a /\ k a s = (Ok b, s2).
Proof. unfold m_bind, m_lift. destruct r; [eauto | discriminate]. Qed.

Lemma m_lift_ok (r : result A) a (s s2 : S) : m_lift r s = (Ok a, s2) -> r = Ok a /\ s2 = s.
Proof. unfold m_lift. by intros [= -> ->]. Qed.

Lemma Ok_inj (a b : A) : Ok a = Ok b -> a = b.
Proof. by intros [=]. Qed.

Lemma m_ret_ok (a b : A) (s s2 : S) : m_ret a s = (Ok b, s2) -> b = a /\ s2 = s.
Proof. unfold m_ret. by intros [= -> ->]. Qed.

Lemma m_gets_ok (f : S -> A) b (s s2 : S) : m_gets f s = (Ok b, s2) -> b = f s /\ s2 = s.
Proof. unfold m_gets. by intros [= -> ->]. Qed.

Lemma m_modify_ok (f : S -> S) u (s s2 : S) : m_modify f s = (Ok u, s2) -> s2 = f s.
Proof. unfold m_modify. by intros [=]. Qed.

Lemma m_zoom_ok {T} (get : S -> T) (set : T -> S -> S) (m : M T A) a s s2 :
  m_zoom get set m s = (Ok a, s2) -> exists t, m (get s) = (Ok a, t) /\ s2 = set t s.
Proof. unfold m_zoom. destruct (m (get s)) as [r t]. intros [= -> <-]. by exists t. Qed.

Lemma m_bind_step (m : M S A) (k : A -> M S B) a s s1 :
  m s = (Ok a, s1) -> m_bind m k s = k a s1.
Proof. unfold m_bind. by intros ->. Qed.
End Inversion.

(** Invert a successful computation into the steps it took. *)
Ltac inv_ok H :=
  lazymatch type of H with
  | result_bind _ _ = Ok _ =>
    let a := fresh "a" in let H1 := fresh "H" in let H2 := fresh "H" in
    apply result_bind_ok in H as (a & H1 & H2); inv_ok H1; inv_ok H2
  | m_bind (m_lift _) _ _ = (Ok _, _) =>
    let a := fresh "a" in let H1 := fresh "H" in let H2 := fresh "H" in
    apply m_bind_lift_ok in H as (a & H1 & H2); inv_ok H1; inv_ok H2
  | m_bind (m_ret _) _ _ = (Ok _, _) => unfold m_bind at 1, m_ret at 1 in H; inv_ok H
  | m_bind m_get _ _ = (Ok _, _) => unfold m_bind at 1, m_get at 1 in H; inv_ok H
  | m_bind (m_gets _) _ _ = (Ok _, _) => unfold m_bind at 1, m_gets at 1 in H; inv_ok H
  | m_bind (m_modify _) _ _ = (Ok _, _) => unfold m_bind at 1, m_modify at 1 in H; inv_ok H
  | m_bind _ _ _ = (Ok _, _) =>
    let a := fresh "a" in let s := fresh "s" in
    let H1 := fresh "H" in let H2 := fresh "H" in
    apply m_bind_ok in H as (a & s & H1 & H2); inv_ok H1; inv_ok H2
  | require _ _ = Ok _ => apply require_ok in H
  | Ok _ = Ok _ => apply Ok_inj in H; try subst
  | Fault _ = Ok _ => discriminate H
  | m_ret _ _ = (Ok _, _) =>
    let H1 := fresh "H" in apply m_ret_ok in H as [H H1]; try subst
  | m_fault _ _ = (Ok _, _) => discriminate H
  | m_get _ = (Ok _, _) => change m_get with (m_gets (fun s => s)) in H; inv_ok H
  | m_gets _ _ = (Ok _, _) =>
    let H1 := fresh "H" in apply m_gets_ok in H as [H H1]; cbv beta in H; try subst
  | m_modify _ _ = (Ok _, _) => apply m_modify_ok in H; cbv beta in H; try subst
  | m_lift _ _ = (Ok _, _) =>
    let H1 := fresh "H" in
    apply m_lift_ok in H as [H H1]; try subst; inv_ok H
  | _ => idtac
  end.

(** An invariant that the body keeps holds after a checked fold. *)
Lemma result_fold_invariant {A B} (I : B -> Prop) (f : B -> A -> result B) l b b' :
  I b -> (forall b x b', x ∈ l -> I b -> f b x = Ok b' -> I b') ->
  result_fold f l b = Ok b' -> I b'.
Proof.
  revert b; induction l as [|x l IH]; intros b Hb Hf H; simpl in H.
  - by injection H as <-.
  - inv_ok H. eapply (IH a); [eapply Hf; [left | exact Hb | done] | | done].
    intros; eapply Hf; [right | |]; eauto.
Qed.

(** The same for a property of the elements visited so far. *)
Lemma result_fold_prefix {A B} (I : list A -> B -> Prop) (f : B -> A -> result B) l done b b' :
  I done b -> (forall d x b b', x ∈ l -> I d b -> f b x = Ok b' -> I (d ++ [x]) b') ->
  result_fold f l b = Ok b' -> I (done ++ l) b'.
Proof.
  revert done b; induction l as [|x l IH]; intros done b Hb Hf H; simpl in H.
  - inv_ok H. by rewrite app_nil_r.
  - inv_ok H. rewrite cons_middle, app_assoc. eapply IH; [| | eassumption].
    + eapply Hf; [left | exact Hb | eassumption].
    + intros; eapply Hf; [right | |]; eauto.
Qed.

Lemma result_each_ok {A} (f : A -> result unit) l :
  result_each f l = Ok () <-> Forall (fun x => f x = Ok ()) l.
Proof.
  unfold result_each. induction l as [|x l IH]; simpl; [split; [constructor | done]|].
  split.
  - intros H. inv_ok H. destruct a. constructor; [done | by apply IH].
  - intros H. inversion H; subst. rewrite H2. simpl. by apply IH.
Qed.

Lemma m_each_ok {S A} (f : A -> M S unit) (I : list A -> S -> Prop) l done s s' :
  I done s ->
  (forall d x s s', x ∈ l -> I d s -> f x s = (Ok (), s') -> I (d ++ [x]) s') ->
  m_each f l s = (Ok (), s') -> I (done ++ l) s'.
Proof.
  revert done s; induction l as [|x l IH]; intros done s HI Hf H; simpl in H.
  - inv_ok H. by rewrite app_nil_r.
  - inv_ok H. destruct a. rewrite cons_middle, app_assoc. eapply IH; [| | done].
    + eapply Hf; [left | done | done].
    + intros; eapply Hf; [by right | done | done].
Qed.

(** ** Invariants that survive exceptions *)
(** [keeps I m]: whatever [m] does, normal return or fault, it leaves [I] true. *)
Definition keeps {S A} (I : S -> Prop) (m : M S A) : Prop :=
  forall s r s', I s -> m s = (r, s') -> I s'.

Section Keeps.
Context {S A B : Type} (I : S -> Prop).

Lemma keeps_ret (a : A) : keeps I (m_ret a).
Proof. intros s r s' HI [= <- <-]. done. Qed.

Lemma keeps_fault e : keeps I (m_fault e : M S A).
Proof. intros s r s' HI [= <- <-]. done. Qed.

Lemma keeps_lift (x : result A) : keeps I (m_lift x).
Proof. intros s r s' HI [= <- <-]. done. Qed.

Lemma keeps_get : keeps I m_get.
Proof. intros s r s' HI [= <- <-]. done. Qed.

Lemma keeps_gets (f : S -> A) : keeps I (m_gets f).
Proof. intros s r s' HI [= <- <-]. done. Qed.

Lemma keeps_modify (f : S -> S) : (forall s, I s -> I (f s)) -> keeps I (m_modify f).
Proof. intros Hf s r s' HI [= <- <-]. auto. Qed.

Lemma keeps_bind (m : M S A) (k : A -> M S B) :
  keeps I m -> (forall a, keeps I (k a)) -> keeps I (m_bind m k).
Proof.
  unfold m_bind. intros Hm Hk s r s' HI H. destruct (m s) as [[a|e] s1] eqn:E.
  - eapply Hk; [eapply Hm; [exact HI | exact E] | exact H].
  - injection H as <- <-. eapply Hm; [exact HI | exact E].
Qed.

Lemma keeps_zoom {T} (get : S -> T) (set : T -> S -> S) (m : M T A) :
  (forall t s, I s -> I (set t s)) -> keeps I (m_zoom get set m).
Proof.
  unfold m_zoom. intros Hs s r s' HI H. destruct (m (get s)) as [r1 t]. injection H as <- <-. auto.
Qed.

Lemma keeps_focus {T} (J : T -> Prop) (get : S -> T) (set : T -> S -> S) (m : M T A) :
  (forall t s, get (set t s) = t) -> keeps J m -> keeps (fun s => J (get s)) (m_zoom get set m).
Proof.
  unfold m_zoom. intros Hs Hm s r s' HJ H. destruct (m (get s)) as [r1 t] eqn:E. injection H as <- <-.
  rewrite Hs. by apply (Hm _ _ _ HJ E).
Qed.

Lemma keeps_each {X} (f : X -> M S unit) l : (forall x, keeps I (f x)) -> keeps I (m_each f l).
Proof.
  intros Hf. induction l as [|x l IH]; intros s r s' HI H; simpl in H.
  - by injection H as <- <-.
  - unfold m_bind in H. destruct (f x s) as [[u|e] s1] eqn:E.
    + eapply IH; [eapply Hf; [exact HI | exact E] | exact H].
    + injection H as <- <-. eapply Hf; [exact HI | exact E].
Qed.
End Keeps.

(** [preserves I m]: [m] leaves [I] true when it succeeds. *)
Definition preserves {S A} (I : S -> Prop) (m : M S A) : Prop :=
  forall s a s', I s -> m s = (Ok a, s') -> I s'.

Section Preserves.
Context {S A B : Type} (I : S -> Prop).

Lemma preserves_keeps (m : M S A) : keeps I m -> preserves I m.
Proof. intros Hm s a s' HI H. by apply (Hm _ _ _ HI H). Qed.

Lemma preserves_fault e : preserves I (m_fault e : M S A).
Proof. intros s a s' HI H. discriminate H. Qed.

Lemma preserves_bind (m : M S A) (k : A -> M S B) :
  preserves I m -> (forall a, preserves I (k a)) -> preserves I (m_bind m k).
Proof. intros Hm Hk s b s' HI H. apply m_bind_ok in H as (a & s1 & H1 & H2). exact (Hk a _ _ _ (Hm _ _ _ HI H1) H2). Qed.

Lemma preserves_each {X} (f : X -> M S unit) l : (forall x, preserves I (f x)) -> preserves I (m_each f l).
Proof.
  intros Hf. induction l as [|x l IH]; intros s a s' HI H; simpl in H.
  - by apply m_ret_ok in H as [_ ->].
  - apply m_bind_ok in H as (u & s1 & H1 & H2). exact (IH _ _ _ (Hf x _ _ _ HI H1) H2).
Qed.

Lemma preserves_focus {T} (J : T -> Prop) (get : S -> T) (set : T -> S -> S) (m : M T A) :
  (forall t s, I s -> J t -> I (set t s)) -> (forall s, I s -> J (get s)) -> preserves J m ->
  preserves I (m_zoom get set m).
Proof.
  unfold m_zoom. intros Hset Hget Hm s a s' HI H. destruct (m (get s)) as [r t] eqn:E. injection H as -> <-.
  apply Hset; [done|]. exact (Hm _ _ _ (Hget _ HI) E).
Qed.
End Preserves.

(** Split a computation into the steps that keep the invariant by form, leaving the others. *)
Ltac keep_steps :=
  repeat
    lazymatch goal with
    | |- keeps _ (m_ret _) => apply keeps_ret
    | |- keeps _ (m_fault _) => apply keeps_fault
    | |- keeps _ (m_lift _) => apply keeps_lift
    | |- keeps _ m_get => apply keeps_get
    | |- keeps _ (m_gets _) => apply keeps_gets
    | |- keeps _ (m_bind _ _) => apply keeps_bind; [|intros ?]
    | |- keeps _ (if ?b then _ else _) => destruct b
    | |- keeps _ (match ?x with _ => _ end) => destruct x
    end.

(** The same for steps that need only be preserved on success. *)
Ltac preserve_steps :=
  repeat
    lazymatch goal with
    | |- preserves _ (m_ret _) => apply preserves_keeps, keeps_ret
    | |- preserves _ (m_fault _) => apply preserves_fault
    | |- preserves _ (m_lift _) => apply preserves_keeps, keeps_lift
    | |- preserves _ m_get => apply preserves_keeps, keeps_get
    | |- preserves _ (m_gets _) => apply preserves_keeps, keeps_gets
    | |- preserves _ (m_bind _ _) => apply preserves_bind; [|intros ?]
    | |- preserves _ (if ?b then _ else _) => destruct b
    | |- preserves _ (match ?x with _ => _ end) => destruct x
    end.
