(* ===== verification/Time.v ===== *)
(** * Simulation time (include/qsbit/time.hpp)

    Ticks, identities and epochs are unsigned 64-bit integers; [checked_add] and [checked_mul] throw
    instead of wrapping.  [Clock] describes the rising edges of a periodic clock. *)

From S2P Require Import Prelude Error.

Abbreviation Tick := Z (only parsing).
Abbreviation Id := Z (only parsing).
Abbreviation Epoch := Z (only parsing).
(** [struct TcuCycle]: a cycle count, kept apart from ticks by its name. *)
Abbreviation TcuCycle := Z (only parsing).

Definition checked_add (a b : Tick) : result Tick :=
  do? require (b <=? max64 - a) TimeOverflow in Ok (a + b).

Definition checked_mul (a b : Tick) : result Tick :=
  do? require ((a =? 0) || (b <=? max64 / a)) TimeOverflow in Ok (a * b).

Record Clock := mkClock { period : Tick; phase : Tick }.
#[global] Instance Clock_eq_dec : EqDecision Clock.
Proof. solve_decision. Defined.

Definition clock_validate (c : Clock) : result unit :=
  require ((0 <? period c) && (phase c <? period c)) InvalidProfile.

Definition clock_edge (c : Clock) (t : Tick) : bool :=
  (phase c <=? t) && ((t - phase c) mod period c =? 0).

Definition clock_after (c : Clock) (publication : Tick) (latency : Z) : result Tick :=
  do? clock_validate c in
  do? require (0 <? latency) InvalidProfile in
  let? first :=
    if phase c <=? publication then
      let? n := checked_add ((publication - phase c) / period c) 1 in
      let? d := checked_mul n (period c) in
      checked_add (phase c) d
    else Ok (phase c) in
  let? rest := checked_mul (latency - 1) (period c) in
  checked_add first rest.

(** ** Properties *)

Definition clock_valid (c : Clock) : Prop := 0 < period c /\ 0 <= phase c < period c.

Lemma checked_add_ok a b t : checked_add a b = Ok t <-> a + b <= max64 /\ t = a + b.
Proof.
  unfold checked_add, require. destruct (Z.leb_spec b (max64 - a)); simpl.
  - split; [intros [= <-]; lia | intros [_ ->]; done].
  - split; [done | lia].
Qed.

Lemma checked_add_eq a b : a + b <= max64 -> checked_add a b = Ok (a + b).
Proof. intros. by apply checked_add_ok. Qed.

Lemma checked_add_fault a b e : checked_add a b = Fault e <-> max64 < a + b /\ e = TimeOverflow.
Proof.
  unfold checked_add, require. destruct (Z.leb_spec b (max64 - a)); simpl.
  - split; [done | lia].
  - split; [intros [= <-]; split; [lia | done] | intros [_ ->]; done].
Qed.

Lemma checked_mul_cond a b : 0 <= a -> ((a =? 0) || (b <=? max64 / a)) = (a * b <=? max64).
Proof.
  intros Ha. destruct (Z.eqb_spec a 0) as [->|]; simpl; [reflexivity|].
  apply eq_iff_eq_true. rewrite !Z.leb_le. split; intros H.
  - pose proof (Z.mul_div_le max64 a ltac:(lia)).
    pose proof (Z.mul_le_mono_nonneg_l b (max64 / a) a Ha H). lia.
  - apply Z.div_le_lower_bound; lia.
Qed.

Lemma checked_mul_ok a b t : 0 <= a -> checked_mul a b = Ok t <-> a * b <= max64 /\ t = a * b.
Proof.
  intros Ha. unfold checked_mul. rewrite checked_mul_cond by done. unfold require.
  destruct (Z.leb_spec (a * b) max64); simpl.
  - split; [intros [= <-]; lia | intros [_ ->]; done].
  - split; [done | lia].
Qed.

Lemma checked_mul_eq a b : 0 <= a -> a * b <= max64 -> checked_mul a b = Ok (a * b).
Proof. intros. by apply checked_mul_ok. Qed.

Lemma checked_mul_fault a b e :
  0 <= a -> checked_mul a b = Fault e <-> max64 < a * b /\ e = TimeOverflow.
Proof.
  intros Ha. unfold checked_mul. rewrite checked_mul_cond by done. unfold require.
  destruct (Z.leb_spec (a * b) max64); simpl.
  - split; [done | lia].
  - split; [intros [= <-]; split; [lia | done] | intros [_ ->]; done].
Qed.

Lemma clock_validate_ok c : 0 <= phase c -> clock_validate c = Ok () <-> clock_valid c.
Proof.
  intros Hp. unfold clock_validate, require, clock_valid.
  destruct (Z.ltb_spec 0 (period c)), (Z.ltb_spec (phase c) (period c)); simpl;
    split; try done; lia.
Qed.

Lemma clock_edge_iff c t :
  clock_valid c -> clock_edge c t = true <-> exists k, 0 <= k /\ t = phase c + k * period c.
Proof.
  intros [Hp Hph]. unfold clock_edge. rewrite andb_true_iff, Z.leb_le, Z.eqb_eq. split.
  - intros [Hle Hmod]. exists ((t - phase c) / period c). split.
    + apply Z.div_pos; lia.
    + pose proof (Z.div_mod (t - phase c) (period c)). lia.
  - intros (k & Hk & ->). split; [nia|].
    replace (phase c + k * period c - phase c) with (k * period c) by lia.
    by apply Z.mod_mul; lia.
Qed.

(** The abstract meaning of latency: [edges_after c p n t] when [t] is the [n]-th edge of [c]
    strictly after [p]. *)
Definition is_next_edge (c : Clock) (p t : Tick) : Prop :=
  clock_edge c t = true /\ p < t /\ forall t', clock_edge c t' = true -> p < t' -> t <= t'.

Inductive edges_after (c : Clock) (p : Tick) : nat -> Tick -> Prop :=
| edges_after_one t : is_next_edge c p t -> edges_after c p 1 t
| edges_after_more n t t' : edges_after c p n t -> is_next_edge c t t' -> edges_after c p (S n) t'.

(** The closed form the proofs compute with. *)
Definition next_edge (c : Clock) (p : Tick) : Tick :=
  if phase c <=? p then phase c + ((p - phase c) / period c + 1) * period c else phase c.

Lemma next_edge_index c p :
  clock_valid c -> exists k, 0 <= k /\ next_edge c p = phase c + k * period c /\
    p < phase c + k * period c /\ (k = 0 \/ phase c + (k - 1) * period c <= p).
Proof.
  intros [Hp Hph]. unfold next_edge. destruct (Z.leb_spec (phase c) p).
  - exists ((p - phase c) / period c + 1).
    pose proof (Z.div_mod (p - phase c) (period c)).
    pose proof (Z.mod_pos_bound (p - phase c) (period c)).
    assert (0 <= (p - phase c) / period c) by (apply Z.div_pos; lia).
    split_and!; [lia | lia | nia | right; nia].
  - exists 0. split_and!; [lia | lia | lia | by left].
Qed.

Lemma next_edge_spec c p : clock_valid c -> is_next_edge c p (next_edge c p).
Proof.
  intros Hc. destruct (next_edge_index c p Hc) as (k & Hk & -> & Hlt & Hprev).
  split_and!; [apply clock_edge_iff; eauto | done |].
  intros t' He Ht'. apply clock_edge_iff in He as (j & Hj & ->); [|done].
  destruct Hc as [Hp Hph]. destruct Hprev as [-> | Hprev]; [nia|].
  assert (k <= j) by nia. nia.
Qed.

Lemma is_next_edge_unique c p t t' : is_next_edge c p t -> is_next_edge c p t' -> t = t'.
Proof. intros (He & Hlt & Hm) (He' & Hlt' & Hm'). specialize (Hm t' He' Hlt'); specialize (Hm' t He Hlt). lia. Qed.

Lemma next_edge_of_edge c t :
  clock_valid c -> clock_edge c t = true -> next_edge c t = t + period c.
Proof.
  intros Hc He. apply clock_edge_iff in He as (k & Hk & ->); [|done].
  destruct Hc as [Hp Hph]. unfold next_edge. destruct (Z.leb_spec (phase c) (phase c + k * period c)).
  - replace (phase c + k * period c - phase c) with (k * period c) by lia.
    rewrite Z.div_mul by lia. lia.
  - nia.
Qed.

Lemma edges_after_closed c p n t :
  clock_valid c -> edges_after c p (S n) t <-> t = next_edge c p + Z.of_nat n * period c.
Proof.
  intros Hc. revert t. induction n as [|n IH]; intros t.
  - split.
    + intros H; inversion H as [? Hn|? ? ? Hbad]; subst; [|inversion Hbad].
      rewrite (is_next_edge_unique c p t (next_edge c p)); [lia | done | by apply next_edge_spec].
    + intros ->. rewrite Z.mul_0_l, Z.add_0_r. constructor. by apply next_edge_spec.
  - assert (Hedge : clock_edge c (next_edge c p + Z.of_nat n * period c) = true).
    { destruct (next_edge_index c p Hc) as (k & Hk & -> & _).
      apply clock_edge_iff; [done|]. exists (k + Z.of_nat n). lia. }
    split.
    + intros H; inversion H as [|? u ? Hu Hn]; subst. apply IH in Hu as ->.
      rewrite (is_next_edge_unique _ _ _ _ Hn (next_edge_spec c _ Hc)).
      rewrite next_edge_of_edge by done. lia.
    + intros ->. eapply edges_after_more; [by apply IH|].
      replace (next_edge c p + Z.of_nat (S n) * period c)
        with (next_edge c (next_edge c p + Z.of_nat n * period c))
        by (rewrite next_edge_of_edge by done; lia).
      by apply next_edge_spec.
Qed.

Lemma clock_after_closed c p l :
  clock_valid c -> 0 <= p -> 0 < l ->
  clock_after c p l =
    let t := next_edge c p + (l - 1) * period c in
    if t <=? max64 then Ok t else Fault TimeOverflow.
Proof.
  intros Hc Hp Hl. pose proof Hc as [Hper Hph].
  unfold clock_after. rewrite (proj2 (clock_validate_ok c (proj1 Hph)) Hc). simpl.
  unfold require at 1. rewrite (proj2 (Z.ltb_lt 0 l) Hl). simpl. unfold next_edge.
  destruct (Z.leb_spec (phase c) p) as [Hle|Hgt]; simpl.
  - set (k := (p - phase c) / period c).
    assert (0 <= k) by (apply Z.div_pos; lia).
    destruct (Z.leb_spec (phase c + (k + 1) * period c + (l - 1) * period c) max64).
    + rewrite (checked_add_eq k) by nia; simpl. rewrite checked_mul_eq by nia; simpl.
      rewrite checked_add_eq by nia; simpl. rewrite checked_mul_eq by nia; simpl.
      by rewrite checked_add_eq by nia.
    + destruct (checked_add k 1) as [n|e] eqn:E1;
        [apply checked_add_ok in E1 as [_ ->] | by apply checked_add_fault in E1 as [_ ->]]; simpl.
      destruct (checked_mul (k + 1) (period c)) as [d|e] eqn:E2;
        [apply checked_mul_ok in E2 as [_ ->]; [|lia]
        | by apply checked_mul_fault in E2 as [_ ->]; [|lia]]; simpl.
      destruct (checked_add (phase c) ((k + 1) * period c)) as [f|e] eqn:E3;
        [apply checked_add_ok in E3 as [_ ->] | by apply checked_add_fault in E3 as [_ ->]]; simpl.
      destruct (checked_mul (l - 1) (period c)) as [r|e] eqn:E4;
        [apply checked_mul_ok in E4 as [_ ->]; [|lia]
        | by apply checked_mul_fault in E4 as [_ ->]; [|lia]]; simpl.
      by apply checked_add_fault.
  - destruct (checked_mul (l - 1) (period c)) as [r|e] eqn:E4; simpl.
    + apply checked_mul_ok in E4 as [_ ->]; [|lia].
      destruct (Z.leb_spec (phase c + (l - 1) * period c) max64);
        [by apply checked_add_ok | by apply checked_add_fault].
    + apply checked_mul_fault in E4 as [? ->]; [|lia].
      destruct (Z.leb_spec (phase c + (l - 1) * period c) max64); [lia | done].
Qed.

Lemma clock_after_cases c p l t :
  clock_valid c -> 0 < l -> edges_after c p (Z.to_nat l) t <-> t = next_edge c p + (l - 1) * period c.
Proof.
  intros Hc Hl. replace (Z.to_nat l) with (S (Z.to_nat (l - 1))) by lia.
  rewrite edges_after_closed by done. by rewrite Z2Nat.id by lia.
Qed.

Lemma clock_after_ok c p l t :
  clock_valid c -> 0 <= p -> 0 < l -> clock_after c p l = Ok t ->
  edges_after c p (Z.to_nat l) t /\ t <= max64.
Proof.
  intros Hc Hp Hl. rewrite clock_after_closed, clock_after_cases by done. simpl.
  destruct (Z.leb_spec (next_edge c p + (l - 1) * period c) max64); [|done].
  by intros [= <-].
Qed.

(** C32. [Clock::after] returns exactly the [latency]-th rising edge strictly after the publication
    tick; it throws [TimeOverflow] exactly when that edge lies beyond the last 64-bit tick. *)
Theorem clock_after_nth_edge (c : Clock) (publication latency : Z)
    (Hc : clock_valid c) (Hp : 0 <= publication) (Hl : 0 < latency) :
  (forall t, clock_after c publication latency = Ok t <->
     edges_after c publication (Z.to_nat latency) t /\ t <= max64) /\
  (forall e, clock_after c publication latency = Fault e <->
     e = TimeOverflow /\
     exists t, edges_after c publication (Z.to_nat latency) t /\ max64 < t).
Proof.
  rewrite clock_after_closed by done. setoid_rewrite clock_after_cases; [|done..]. simpl.
  set (t0 := next_edge c publication + (latency - 1) * period c).
  destruct (Z.leb_spec t0 max64); split; intros.
  - split; [intros [= <-]; done | by intros [-> _]].
  - split; [done | intros (_ & t & -> & ?); lia].
  - split; [done | intros [-> ?]; lia].
  - split; [intros [= <-]; eauto | by intros [-> _]].
Qed.

Lemma clock_after_nth_edge_witness :
  clock_after (mkClock 20 5) 1000 2 = Ok 1025 /\
  edges_after (mkClock 20 5) 1000 (Z.to_nat 2) 1025.
Proof.
  split; [vm_compute; reflexivity|].
  apply (proj1 (clock_after_nth_edge (mkClock 20 5) 1000 2
    ltac:(unfold clock_valid; simpl; lia) ltac:(lia) ltac:(lia)) 1025).
  vm_compute; reflexivity.
Defined.
