(* ===== verification/Event.v ===== *)
(** * Event descriptors (include/qsbit/event.hpp, include/qsbit/measurement.hpp,
    src/profile.cpp lines 10-63, src/device/action_kind.hpp)

    A codeword maps to a list of [EventSpec]: an output port, a delay, a duration and one of five
    kinds of specification.  Amplitudes are IEEE doubles, modelled by [spec_float]; their equality is
    the source's [==] on doubles. *)

From Stdlib Require Import SpecFloat.
From S2P Require Import Prelude Error Time.

Inductive ExecutionFlag := Always | LastOne | LastZero | Equal.
#[global] Instance ExecutionFlag_eq_dec : EqDecision ExecutionFlag.
Proof. solve_decision. Defined.

Record MeasurementReference := mkReference {
  ref_epoch : Epoch; ref_measurement : Id; ref_target : Z }.
#[global] Instance MeasurementReference_eq_dec : EqDecision MeasurementReference.
Proof. solve_decision. Defined.
#[global] Instance eta_MeasurementReference : Eta MeasurementReference :=
  fun r => mkReference (ref_epoch r) (ref_measurement r) (ref_target r).

Record Completion := mkCompletion { comp_reference : MeasurementReference; comp_value : bool }.
#[global] Instance Completion_eq_dec : EqDecision Completion.
Proof. solve_decision. Defined.
#[global] Instance eta_Completion : Eta Completion :=
  fun c => mkCompletion (comp_reference c) (comp_value c).

Inductive ActionKind := IdealGate | Pulse | Acquire | DiscriminatorArm | GateOutput.
#[global] Instance ActionKind_eq_dec : EqDecision ActionKind.
Proof. solve_decision. Defined.

Record ResourceUse := mkResource { res_id : Z; res_exclusive : bool }.
#[global] Instance ResourceUse_eq_dec : EqDecision ResourceUse.
Proof. solve_decision. Defined.

Record QuantumOperands := mkOperands { op_targets : list Z; op_resources : list ResourceUse }.
#[global] Instance QuantumOperands_eq_dec : EqDecision QuantumOperands.
Proof. solve_decision. Defined.

(** A [double]. *)
Abbreviation double := spec_float (only parsing).

Record GateSpec := mkGate {
  gate_operation : string; gate_operands : QuantumOperands; gate_amplitude : double;
  gate_flag : ExecutionFlag }.
Record PulseSpec := mkPulse {
  pulse_operation : string; pulse_operands : QuantumOperands; pulse_amplitude : double;
  pulse_axis : string; pulse_flag : ExecutionFlag }.
Record AcquireSpec := mkAcquire {
  acquire_operation : string; acquire_operands : QuantumOperands; discriminator_delay : Tick;
  separate_arm : bool }.
Record DiscriminatorArmSpec := mkArm { arm_operation : string; arm_operands : QuantumOperands }.
Record GateOutputSpec := mkGateOutput { output_gate : string }.

Inductive Spec :=
| SpecGate (g : GateSpec)
| SpecPulse (p : PulseSpec)
| SpecAcquire (a : AcquireSpec)
| SpecArm (d : DiscriminatorArmSpec)
| SpecGateOutput (o : GateOutputSpec).

Record EventSpec := mkEvent {
  ev_port : Z; ev_delay : Tick; ev_duration : Tick; ev_spec : Spec }.
#[global] Instance eta_EventSpec : Eta EventSpec :=
  fun e => mkEvent (ev_port e) (ev_delay e) (ev_duration e) (ev_spec e).

(** The default member initialisers. *)
Definition no_operands : QuantumOperands := mkOperands [] [].
Definition default_gate : GateSpec := mkGate "x" no_operands (S754_zero false) Always.
Definition default_pulse : PulseSpec := mkPulse "x" no_operands (S754_zero false) "x" Always.
Definition default_acquire : AcquireSpec := mkAcquire "x" no_operands 20 false.
Definition default_event : EventSpec := mkEvent 0 0 20 (SpecGate default_gate).

Record Mapping := mkMapping { map_port : Z; map_codeword : Z; map_actions : list EventSpec }.
Record GateInput := mkInput { in_core : Z; in_port : Z; in_codeword : Z }.
#[global] Instance GateInput_eq_dec : EqDecision GateInput.
Proof. solve_decision. Defined.
Record TwoQubitGate := mkTwoQubit {
  tq_name : string; tq_operation : string; tq_targets : list Z; tq_inputs : list GateInput;
  tq_resources : list ResourceUse; tq_duration : Tick }.
#[global] Instance TwoQubitGate_eq_dec : EqDecision TwoQubitGate.
Proof. solve_decision. Defined.

(** ** Accessors *)
Definition kind (e : EventSpec) : ActionKind :=
  match ev_spec e with
  | SpecGate _ => IdealGate
  | SpecPulse _ => Pulse
  | SpecAcquire _ => Acquire
  | SpecArm _ => DiscriminatorArm
  | SpecGateOutput _ => GateOutput
  end.

Definition operands (e : EventSpec) : option QuantumOperands :=
  match ev_spec e with
  | SpecGate g => Some (gate_operands g)
  | SpecPulse p => Some (pulse_operands p)
  | SpecAcquire a => Some (acquire_operands a)
  | SpecArm d => Some (arm_operands d)
  | SpecGateOutput _ => None
  end.

Definition targets (e : EventSpec) : list Z := from_option op_targets [] (operands e).
Definition resources (e : EventSpec) : list ResourceUse := from_option op_resources [] (operands e).

Definition operation (e : EventSpec) : string :=
  match ev_spec e with
  | SpecGate g => gate_operation g
  | SpecPulse p => pulse_operation p
  | SpecAcquire a => acquire_operation a
  | SpecArm d => arm_operation d
  | SpecGateOutput _ => ""
  end.

Definition execution_flag (e : EventSpec) : ExecutionFlag :=
  match ev_spec e with
  | SpecGate g => gate_flag g
  | SpecPulse p => pulse_flag p
  | _ => Always
  end.

Definition is_arm (e : EventSpec) : bool := bool_decide (kind e = DiscriminatorArm).
Definition is_gate (e : EventSpec) : bool :=
  bool_decide (kind e = IdealGate) || bool_decide (kind e = GateOutput).
Definition is_acquire (e : EventSpec) : bool := bool_decide (kind e = Acquire).

(** ** Defaulted [operator==] *)
Definition spec_eqb (a b : Spec) : bool :=
  match a, b with
  | SpecGate x, SpecGate y =>
      bool_decide (gate_operation x = gate_operation y) &&
      bool_decide (gate_operands x = gate_operands y) &&
      SFeqb (gate_amplitude x) (gate_amplitude y) && bool_decide (gate_flag x = gate_flag y)
  | SpecPulse x, SpecPulse y =>
      bool_decide (pulse_operation x = pulse_operation y) &&
      bool_decide (pulse_operands x = pulse_operands y) &&
      SFeqb (pulse_amplitude x) (pulse_amplitude y) &&
      bool_decide (pulse_axis x = pulse_axis y) && bool_decide (pulse_flag x = pulse_flag y)
  | SpecAcquire x, SpecAcquire y =>
      bool_decide (acquire_operation x = acquire_operation y) &&
      bool_decide (acquire_operands x = acquire_operands y) &&
      (discriminator_delay x =? discriminator_delay y) &&
      bool_decide (separate_arm x = separate_arm y)
  | SpecArm x, SpecArm y =>
      bool_decide (arm_operation x = arm_operation y) &&
      bool_decide (arm_operands x = arm_operands y)
  | SpecGateOutput x, SpecGateOutput y => bool_decide (output_gate x = output_gate y)
  | _, _ => false
  end.

Definition event_eqb (a b : EventSpec) : bool :=
  (ev_port a =? ev_port b) && (ev_delay a =? ev_delay b) && (ev_duration a =? ev_duration b) &&
  spec_eqb (ev_spec a) (ev_spec b).

(** [std::isfinite]. *)
Definition isfinite (d : double) : bool :=
  match d with S754_zero _ | S754_finite _ _ _ => true | _ => false end.

Definition amplitude (e : EventSpec) : option double :=
  match ev_spec e with
  | SpecGate g => Some (gate_amplitude g)
  | SpecPulse p => Some (pulse_amplitude p)
  | _ => None
  end.

Definition finite_amplitude (e : EventSpec) : bool := from_option isfinite true (amplitude e).

(** ** Lemmas *)
Lemma SFeqb_refl d : isfinite d = true -> SFeqb d d = true.
Proof.
  unfold SFeqb, SFcompare. destruct d as [s|s| |s m e]; simpl; try done.
  intros _. rewrite Z.compare_refl, Pos.compare_cont_refl. by destruct s.
Qed.

(** A descriptor equals itself exactly when its amplitude is not a NaN or infinity; configuration
    validation guarantees that ([Profile.v]). *)
Lemma event_eqb_refl e : finite_amplitude e = true -> event_eqb e e = true.
Proof.
  unfold finite_amplitude, amplitude, event_eqb. rewrite !Z.eqb_refl. simpl.
  destruct (ev_spec e); simpl; intros H; rewrite ?SFeqb_refl by done;
    repeat rewrite bool_decide_eq_true_2 by done; rewrite ?Z.eqb_refl; done.
Qed.

Lemma event_eqb_port a b : event_eqb a b = true -> ev_port a = ev_port b.
Proof. unfold event_eqb. intros H. by reflect. Qed.

Lemma event_eqb_kind a b : event_eqb a b = true -> kind a = kind b.
Proof.
  unfold event_eqb, kind. intros H. reflect.
  destruct (ev_spec a), (ev_spec b); simpl in *; congruence.
Qed.

Lemma event_eqb_targets a b : event_eqb a b = true -> targets a = targets b.
Proof.
  unfold event_eqb, targets, operands. intros H. reflect.
  destruct (ev_spec a), (ev_spec b); simpl in *; try discriminate; reflect; congruence.
Qed.

Lemma is_acquire_iff e : is_acquire e = true <-> kind e = Acquire.
Proof. unfold is_acquire. apply bool_decide_eq_true. Qed.
