(* ===== verification/Trace.v ===== *)
(** * Traces (src/trace.cpp, include/qsbit/trace.hpp)

    Every component reports through a [Trace].  A core's trace forwards to the simulator's and stamps
    the core number; [tr_destination] is that view, so one value of [Trace] is threaded through all
    components.  [trace_emit] rejects an event whose kind and payload differ and an event older than
    the last one recorded. *)

From S2P Require Import Prelude Error Time.

Record CpuPipelineInstruction := mkPipeInstr {
  pi_id : Id; pi_pc : Z; pi_word : option Z; pi_discarded : bool }.
#[global] Instance CpuPipelineInstruction_eq_dec : EqDecision CpuPipelineInstruction.
Proof. solve_decision. Defined.

(** [std::array<std::optional<CpuPipelineInstruction>, 4>] in stage order. *)
Record CpuPipelineState := mkPipeState {
  ps_fetch : option CpuPipelineInstruction; ps_fetched : option CpuPipelineInstruction;
  ps_decode : option CpuPipelineInstruction; ps_execute : option CpuPipelineInstruction;
  ps_halted : bool }.
#[global] Instance CpuPipelineState_eq_dec : EqDecision CpuPipelineState.
Proof. solve_decision. Defined.

Inductive DecoderEventKind :=
| RequestSubmitted | RequestSent | RequestArrived | Started | Completed | ResultReturned | Reset
| ResultConsumed.
#[global] Instance DecoderEventKind_eq_dec : EqDecision DecoderEventKind.
Proof. solve_decision. Defined.

Record DecoderTrace := mkDecoderTrace {
  dt_id : Z; dt_tag : Z; dt_requests : Z; dt_resets : Z; dt_jobs : Z }.
Record DecoderEvent := mkDecoderEvent { de_kind : DecoderEventKind; de_state : DecoderTrace }.

Record InstructionRetired := mkRetired {
  ir_pc : Z; ir_word : Z; ir_rd : Z; ir_next_pc : Z; ir_value : Z; ir_registers : list Z }.

Inductive Payload :=
| NoPayload
| PipelinePayload (s : CpuPipelineState)
| RetiredPayload (r : InstructionRetired)
| DecoderPayload (d : DecoderEvent).

Record TraceEvent := mkTraceEvent {
  te_tick : Tick; te_epoch : Epoch; te_kind : string; te_id : Id; te_label : Id; te_cycle : Tick;
  te_port : Z; te_codeword : Z; te_targets : list Z; te_operation : string; te_detail : string;
  te_value : Z; te_core : option Z; te_payload : Payload }.
#[global] Instance eta_TraceEvent : Eta TraceEvent := fun e =>
  mkTraceEvent (te_tick e) (te_epoch e) (te_kind e) (te_id e) (te_label e) (te_cycle e) (te_port e)
    (te_codeword e) (te_targets e) (te_operation e) (te_detail e) (te_value e) (te_core e)
    (te_payload e).

(** The constructors of [TraceEvent]. *)
Definition trace_event (at_ : Tick) (session : Epoch) (type : string) (identity timing_label : Id)
    (local_cycle : Tick) : TraceEvent :=
  mkTraceEvent at_ session type identity timing_label local_cycle 0 0 [] "" "" 0 None NoPayload.

Definition pipeline_event (at_ : Tick) (session : Epoch) (local_cycle : Tick)
    (state : CpuPipelineState) : TraceEvent :=
  trace_event at_ session "CpuPipelineUpdated" 0 0 local_cycle <| te_payload := PipelinePayload state |>.

Definition retired_event (at_ : Tick) (session : Epoch) (instruction : Id) (local_cycle : Tick)
    (state : InstructionRetired) : TraceEvent :=
  trace_event at_ session "InstructionRetired" instruction 0 local_cycle
    <| te_payload := RetiredPayload state |>.

Definition decoder_name (k : DecoderEventKind) : string :=
  match k with
  | RequestSubmitted => "DecoderRequestSubmitted"
  | RequestSent => "DecoderRequestSent"
  | RequestArrived => "DecoderRequestArrived"
  | Started => "DecoderStarted"
  | Completed => "DecoderCompleted"
  | ResultReturned => "DecoderResultReturned"
  | Reset => "DecoderReset"
  | ResultConsumed => "DecoderResultConsumed"
  end%string.

Definition decoder_event (at_ : Tick) (session : Epoch) (request : Id) (core_id : Z)
    (event : DecoderEvent) : TraceEvent :=
  trace_event at_ session (decoder_name (de_kind event)) request 0 0
    <| te_core := Some core_id |> <| te_payload := DecoderPayload event |>.

Record Trace := mkTrace {
  tr_events : list TraceEvent; tr_include_stalls : bool; tr_destination : option (option Z) }.
#[global] Instance eta_Trace : Eta Trace :=
  fun t => mkTrace (tr_events t) (tr_include_stalls t) (tr_destination t).

Definition trace_new : Trace := mkTrace [] true None.

(** The view a component of core [c] has of the simulator's trace, and back. *)
Definition trace_for (c : option Z) (t : Trace) : Trace := t <| tr_destination := Some c |>.
Definition trace_root (t : Trace) : Trace := t <| tr_destination := None |>.

Definition kind_matches_payload (e : TraceEvent) : bool :=
  Bool.eqb (String.eqb (te_kind e) "InstructionRetired")
    (match te_payload e with RetiredPayload _ => true | _ => false end) &&
  Bool.eqb (String.eqb (te_kind e) "CpuPipelineUpdated")
    (match te_payload e with PipelinePayload _ => true | _ => false end) &&
  Bool.eqb (String.prefix "Decoder" (te_kind e))
    (match te_payload e with DecoderPayload _ => true | _ => false end).

Definition decoder_kind_matches (e : TraceEvent) : bool :=
  match te_payload e with
  | DecoderPayload d => String.eqb (te_kind e) (decoder_name (de_kind d))
  | _ => true
  end.

Definition stamp_core (t : Trace) (e : TraceEvent) : TraceEvent :=
  match tr_destination t with Some c => e <| te_core := c |> | None => e end.

Definition trace_emit (e : TraceEvent) : M Trace unit := fun t =>
  (do! m_lift (require (kind_matches_payload e) Protocol) in
   do! m_lift (require (decoder_kind_matches e) Protocol) in
   if negb (tr_include_stalls t) && String.eqb (te_kind e) "CpuStalled" then m_ret () else
   do! m_lift (require (match last (tr_events t) with
                        | Some back => te_tick back <=? te_tick e
                        | None => true
                        end) Protocol) in
   m_modify (fun t => t <| tr_events ::= fun l => l ++ [stamp_core t e] |>)) t.

(** ** Properties *)

(** Emission at [now] cannot run backwards in time. *)
Definition trace_ready (now : Tick) (t : Trace) : Prop :=
  match last (tr_events t) with Some back => te_tick back <= now | None => True end.

(** The kinds without a payload of their own, decided on the literal in the source. *)
Definition plain (e : TraceEvent) : bool :=
  kind_matches_payload e && match te_payload e with NoPayload => true | _ => false end.

(** What a successful emission leaves. *)
Definition trace_push (e : TraceEvent) (t : Trace) : Trace :=
  if negb (tr_include_stalls t) && String.eqb (te_kind e) "CpuStalled" then t
  else t <| tr_events ::= fun l => l ++ [stamp_core t e] |>.

Lemma stamp_core_tick t e : te_tick (stamp_core t e) = te_tick e.
Proof. unfold stamp_core. by destruct (tr_destination t). Qed.

Lemma trace_emit_ok e t :
  kind_matches_payload e = true -> decoder_kind_matches e = true -> trace_ready (te_tick e) t ->
  trace_emit e t = (Ok (), trace_push e t).
Proof.
  intros Hk Hd Hr. unfold trace_emit, trace_push, m_bind, m_lift. rewrite Hk, Hd. simpl.
  destruct (negb _ && _); [done|].
  unfold trace_ready in Hr. destruct (last (tr_events t)) as [b|]; simpl; [|done].
  apply Z.leb_le in Hr. by rewrite Hr.
Qed.

Lemma trace_emit_plain e t :
  plain e = true -> trace_ready (te_tick e) t -> trace_emit e t = (Ok (), trace_push e t).
Proof.
  unfold plain. intros Hp Hr. reflect. apply trace_emit_ok; [done | | done].
  unfold decoder_kind_matches. by destruct (te_payload e).
Qed.

Lemma trace_ready_push now e t :
  te_tick e = now -> trace_ready now t -> trace_ready now (trace_push e t).
Proof.
  intros Ht Hr. unfold trace_push. destruct (negb _ && _); [done|].
  unfold trace_ready. simpl. rewrite last_snoc, stamp_core_tick. lia.
Qed.

Lemma trace_emit_fault e t c t' : trace_emit e t = (Fault c, t') -> t' = t /\ c = Protocol.
Proof.
  unfold trace_emit, m_bind, m_lift, require.
  repeat case_match; simplify_eq; intros; simplify_eq; auto.
Qed.

Definition trace_sorted (t : Trace) : Prop :=
  StronglySorted Z.le (map te_tick (tr_events t)).

Lemma trace_emit_ok_inv e t u t' :
  trace_emit e t = (Ok u, t') -> t' = trace_push e t /\ (t' = t \/ trace_ready (te_tick e) t).
Proof.
  unfold trace_emit, trace_push. intros H.
  apply m_bind_ok in H as (? & ? & H1 & H). unfold m_lift in H1. simplify_eq.
  apply m_bind_ok in H as (? & ? & H1 & H). unfold m_lift in H1. simplify_eq.
  destruct (negb _ && _); [inv_ok H; auto|].
  apply m_bind_ok in H as (? & ? & H2 & H). unfold m_lift in H2. injection H2 as Hr ->.
  apply require_ok in Hr. inv_ok H. split; [done | right].
  unfold trace_ready. destruct (last _); [by apply Z.leb_le | done].
Qed.

Lemma strongly_sorted_snoc l (x : Z) :
  StronglySorted Z.le l -> (forall b, last l = Some b -> b <= x) -> StronglySorted Z.le (l ++ [x]).
Proof.
  induction 1 as [|y l Hs IH Hall]; intros Hlast; simpl.
  - repeat constructor.
  - constructor.
    + apply IH. intros b Hb. apply Hlast. rewrite last_cons. by rewrite Hb.
    + apply Forall_app. split; [done|]. constructor; [|constructor].
      destruct (last l) as [b|] eqn:E.
      * transitivity b; [|apply Hlast; rewrite last_cons; by rewrite E].
        rewrite Forall_forall in Hall. apply Hall. apply last_Some_elem_of in E. done.
      * apply Hlast. rewrite last_cons. by rewrite E.
Qed.

(** A trace only grows, and its events are ordered by tick whatever components emit. *)
Theorem trace_emit_sorted (e : TraceEvent) (t : Trace) :
  trace_sorted t -> trace_sorted (snd (trace_emit e t)) /\
  exists suffix, tr_events (snd (trace_emit e t)) = tr_events t ++ suffix.
Proof.
  intros Hs. destruct (trace_emit e t) as [[u|c] t'] eqn:E; simpl.
  - apply trace_emit_ok_inv in E as [-> Hready]. unfold trace_push in *.
    destruct (negb _ && _); [split; [done | exists []; by rewrite app_nil_r]|].
    split; [|simpl; eauto].
    destruct Hready as [Heq | Hready].
    { apply (f_equal (fun t => length (tr_events t))) in Heq. simpl in Heq.
      rewrite length_app in Heq. simpl in Heq. lia. }
    unfold trace_sorted in *. simpl. rewrite map_app. simpl. rewrite stamp_core_tick.
    apply strongly_sorted_snoc; [done|]. intros b Hb.
    unfold trace_ready in Hready. change (map te_tick) with (fmap (M:=list) te_tick) in Hb.
    rewrite fmap_last in Hb. destruct (last (tr_events t)); simpl in Hb; simplify_eq. done.
  - apply trace_emit_fault in E as [-> _]. split; [done | exists []; by rewrite app_nil_r].
Qed.

Lemma trace_emit_sorted_witness :
  let t := snd (trace_emit (trace_event 4 1 "CpuStalled" 0 0 2) trace_new) in
  let e := trace_event 3 1 "CpuStalled" 0 0 1 in
  trace_sorted t /\ trace_sorted (snd (trace_emit e t)) /\
  exists suffix, tr_events (snd (trace_emit e t)) = tr_events t ++ suffix.
Proof.
  assert (Hs : trace_sorted (snd (trace_emit (trace_event 4 1 "CpuStalled" 0 0 2) trace_new)))
    by (vm_compute; repeat constructor).
  split; [exact Hs | apply (trace_emit_sorted _ _ Hs)].
Defined.
