(* ===== verification/Mailbox.v ===== *)
(** * Mailboxes (include/qsbit/mailbox.hpp)

    A bounded FIFO between clocked components.  A message published at [now] becomes readable at the
    receiver's [latency]-th edge after [now]. *)

From S2P Require Import Prelude Error Time.

Section Mailbox.
Context {T : Type}.

Record Envelope := mkEnvelope {
  published : Tick; eligible : Tick; env_epoch : Epoch; value : T }.

Record Mailbox := mkMailbox {
  capacity : Z; receiver : Clock; latency : Z; entries : list Envelope }.
#[global] Instance eta_Mailbox : Eta Mailbox :=
  fun m => mkMailbox (capacity m) (receiver m) (latency m) (entries m).

Definition mailbox_new (cap : Z) (rx : Clock) (lat : Z) : result Mailbox :=
  do? require (0 <? cap) InvalidProfile in
  do? clock_validate rx in
  do? require (0 <? lat) InvalidProfile in
  Ok (mkMailbox cap rx lat []).

Definition mailbox_full (m : Mailbox) : bool := size_of (entries m) =? capacity m.
Definition mailbox_empty (m : Mailbox) : bool :=
  match entries m with [] => true | _ => false end.

Definition mailbox_publish (now : Tick) (epoch : Epoch) (v : T) : M Mailbox unit := fun m =>
  (do! m_lift (require (negb (mailbox_full m)) Capacity) in
   let! e := m_lift (clock_after (receiver m) now (latency m)) in
   do! m_lift (require (match last (entries m) with
                        | Some back => published back <=? now
                        | None => true
                        end) Protocol) in
   m_modify (fun m => m <| entries ::= fun l => l ++ [mkEnvelope now e epoch v] |>)) m.

Definition mailbox_peek (m : Mailbox) (now : Tick) : option Envelope :=
  match entries m with
  | e :: _ => if eligible e <=? now then Some e else None
  | [] => None
  end.

Definition mailbox_take (now : Tick) : M Mailbox (option Envelope) := fun m =>
  match mailbox_peek m now with
  | None => (Ok None, m)
  | Some e => (Ok (Some e), m <| entries ::= tail |>)
  end.

Definition mailbox_reset (m : Mailbox) : Mailbox := m <| entries := [] |>.

(** ** Invariant *)
Definition envelope_ok (rx : Clock) (lat : Z) (e : Envelope) : Prop :=
  0 <= published e /\ edges_after rx (published e) (Z.to_nat lat) (eligible e).

Record mailbox_wf (m : Mailbox) : Prop := {
  wf_capacity : 0 < capacity m;
  wf_receiver : clock_valid (receiver m);
  wf_latency : 0 < latency m;
  wf_size : size_of (entries m) <= capacity m;
  wf_envelopes : Forall (envelope_ok (receiver m) (latency m)) (entries m);
  wf_order : StronglySorted (fun a b => published a <= published b) (entries m) }.

Lemma mailbox_new_wf cap rx lat m :
  0 <= phase rx -> mailbox_new cap rx lat = Ok m -> mailbox_wf m /\ entries m = [].
Proof.
  intros Hph H. unfold mailbox_new in H. inv_ok H. reflect.
  match goal with Hv : clock_validate _ = Ok ?u |- _ =>
    destruct u; apply clock_validate_ok in Hv; [|done] end.
  split; [|done]. constructor; simpl; rewrite ?size_of_nil; try done; try lia; constructor.
Qed.

Lemma edges_after_monotone c n p q t u :
  clock_valid c -> p <= q -> edges_after c p n t -> edges_after c q n u -> t <= u.
Proof.
  intros Hc Hpq Ht Hu. destruct n as [|n]; [inversion Ht|].
  apply edges_after_closed in Ht as ->; [|done]. apply edges_after_closed in Hu as ->; [|done].
  destruct (next_edge_spec c p Hc) as (_ & _ & Hmin).
  destruct (next_edge_spec c q Hc) as (He & Hlt & _).
  specialize (Hmin _ He). lia.
Qed.

(** Publication order is readability order. *)
Lemma mailbox_eligible_order m :
  mailbox_wf m -> StronglySorted (fun a b => eligible a <= eligible b) (entries m).
Proof.
  intros [_ Hrx _ _ Henv Hord]. induction Hord as [|a l Hs IH Hall]; constructor.
  - apply IH. by inversion Henv.
  - inversion Henv as [|? ? [_ Ha] Hl]; subst. rewrite Forall_forall in *.
    intros b Hb. destruct (Hl b Hb) as [_ Hb'].
    eapply edges_after_monotone; [exact Hrx | by apply Hall | done | done].
Qed.

Lemma strongly_sorted_last {A} (R : A -> A -> Prop) `{!Reflexive R} `{!Transitive R} l b :
  StronglySorted R l -> last l = Some b -> Forall (fun y => R y b) l.
Proof.
  induction 1 as [|y l Hs IH Hall]; intros Hl; [constructor|].
  rewrite last_cons in Hl. destruct (last l) as [b'|] eqn:E; simplify_eq.
  - constructor; [|by apply IH]. rewrite Forall_forall in Hall. apply Hall.
    by apply last_Some_elem_of.
  - apply last_None in E as ->. by constructor.
Qed.

#[global] Instance published_le_refl : Reflexive (fun a b : Envelope => published a <= published b).
Proof. intros a. lia. Qed.
#[global] Instance published_le_trans : Transitive (fun a b : Envelope => published a <= published b).
Proof. intros a b c. lia. Qed.

Lemma mailbox_publish_inv now epoch v m u m' :
  0 <= now -> mailbox_wf m -> mailbox_publish now epoch v m = (Ok u, m') ->
  exists e, edges_after (receiver m) now (Z.to_nat (latency m)) e /\ e <= max64 /\
    m' = m <| entries := entries m ++ [mkEnvelope now e epoch v] |> /\
    size_of (entries m) < capacity m /\
    Forall (fun y => published y <= now) (entries m).
Proof.
  intros Hnow Hwf H. pose proof Hwf as [Hcap Hrx Hlat Hsz Henv Hord].
  unfold mailbox_publish in H. inv_ok H. reflect.
  match goal with Ha : clock_after _ _ _ = Ok ?t |- _ =>
    apply clock_after_ok in Ha as [He Hmax]; [|done..]; exists t end.
  split_and!; try done.
  - unfold mailbox_full in *. reflect. lia.
  - destruct (last (entries m)) as [b|] eqn:E.
    + reflect. eapply Forall_impl; [exact (strongly_sorted_last _ _ _ Hord E)|].
      simpl. intros. lia.
    + apply last_None in E as ->. constructor.
Qed.

Lemma mailbox_publish_wf now epoch v m u m' :
  0 <= now -> mailbox_wf m -> mailbox_publish now epoch v m = (Ok u, m') -> mailbox_wf m'.
Proof.
  intros Hnow Hwf H. destruct (mailbox_publish_inv _ _ _ _ _ _ Hnow Hwf H)
    as (e & He & _ & -> & Hlt & Hall).
  destruct Hwf as [Hcap Hrx Hlat Hsz Henv Hord]. constructor; simpl; try done.
  - rewrite size_of_app, size_of_cons, size_of_nil. lia.
  - apply Forall_app. split; [done|]. by repeat constructor.
  - by apply sorted_snoc.
Qed.

Lemma mailbox_publish_fault now epoch v m e m' :
  mailbox_publish now epoch v m = (Fault e, m') -> m' = m.
Proof.
  unfold mailbox_publish, m_bind, m_lift, m_modify. intros H.
  repeat (case_match; simplify_eq; try done).
Qed.

Lemma mailbox_tail_wf m : mailbox_wf m -> mailbox_wf (m <| entries ::= tail |>).
Proof.
  intros [Hcap Hrx Hlat Hsz Henv Hord]. destruct m as [c r l es]; simpl in *.
  destruct es as [|e es]; [by constructor|]. rewrite size_of_cons in Hsz.
  inversion Henv; inversion Hord; subst. constructor; simpl; try done. lia.
Qed.

Lemma mailbox_take_wf now m r m' :
  mailbox_wf m -> mailbox_take now m = (r, m') -> mailbox_wf m'.
Proof.
  unfold mailbox_take. intros Hwf H. case_match; simplify_eq; [by apply mailbox_tail_wf | done].
Qed.

Lemma mailbox_reset_wf m : mailbox_wf m -> mailbox_wf (mailbox_reset m).
Proof. intros [Hcap Hrx Hlat _ _ _]. constructor; simpl; rewrite ?size_of_nil; try done; try lia; constructor. Qed.

(** ** [while (auto message = mailbox.take(now)) body(message)] *)
Fixpoint take_while {S : Type} (get : S -> Mailbox) (set : Mailbox -> S -> S)
    (body : Envelope -> M S unit) (now : Tick) (fuel : nat) : M S unit :=
  match fuel with
  | O => m_ret ()
  | Datatypes.S fuel' =>
      let! message := m_zoom get set (mailbox_take now) in
      match message with
      | None => m_ret ()
      | Some e => do! body e in take_while get set body now fuel'
      end
  end.

Definition take_loop {S : Type} (get : S -> Mailbox) (set : Mailbox -> S -> S)
    (body : Envelope -> M S unit) (now : Tick) : M S unit :=
  fun s => take_while get set body now (Datatypes.S (length (entries (get s)))) s.

Lemma keeps_take_loop {S : Type} (I : S -> Prop) (get : S -> Mailbox) (set : Mailbox -> S -> S)
    (body : Envelope -> M S unit) now :
  (forall b s, I s -> I (set b s)) -> (forall e, keeps I (body e)) ->
  keeps I (take_loop get set body now).
Proof.
  intros Hset Hbody s r s' HI H. unfold take_loop in H.
  enough (Hk : forall fuel, keeps I (take_while get set body now fuel)) by (eapply Hk; eauto).
  induction fuel as [|fuel IH]; simpl; [apply keeps_ret|].
  apply keeps_bind; [by apply keeps_zoom|]. intros [e|]; [|apply keeps_ret].
  apply keeps_bind; [apply Hbody | done].
Qed.

(** The messages the loop visits: the longest readable prefix. *)
Fixpoint readable_prefix (now : Tick) (l : list Envelope) : list Envelope :=
  match l with
  | e :: l' => if eligible e <=? now then e :: readable_prefix now l' else []
  | [] => []
  end.

Lemma readable_prefix_filter now l :
  StronglySorted (fun a b => eligible a <= eligible b) l ->
  readable_prefix now l = List.filter (fun e => eligible e <=? now) l.
Proof.
  induction 1 as [|e l Hs IH Hall]; simpl; [done|].
  destruct (Z.leb_spec (eligible e) now); [by rewrite IH|].
  symmetry. clear IH Hs. induction Hall as [|b l Hb Hl IH]; simpl; [done|].
  destruct (Z.leb_spec (eligible b) now); [lia | done].
Qed.

(** A loop that only collects: what a receiver sees when it empties its mailbox at [now]. *)
Definition mailbox_collect (now : Tick) (m : Mailbox) : result unit * (Mailbox * list Envelope) :=
  take_loop fst (fun mb s => (mb, snd s))
    (fun e => m_modify (fun s => (fst s, snd s ++ [e]))) now (m, []).

Lemma take_while_collect now fuel m acc :
  (length (entries m) < fuel)%nat ->
  take_while fst (fun mb s => (mb, snd s)) (fun e => m_modify (fun s => (fst s, snd s ++ [e])))
    now fuel (m, acc) =
  (Ok (), (m <| entries := drop (length (readable_prefix now (entries m))) (entries m) |>,
           acc ++ readable_prefix now (entries m))).
Proof.
  revert m acc. induction fuel as [|fuel IH]; intros [c r l es] acc Hf; simpl in *; [lia|].
  unfold m_bind, m_zoom, mailbox_take, mailbox_peek. simpl.
  destruct es as [|e es]; simpl; [by rewrite app_nil_r|].
  destruct (Z.leb_spec (eligible e) now); simpl; [|by rewrite app_nil_r].
  rewrite IH by (simpl in *; lia). simpl. by rewrite <-app_assoc.
Qed.

Lemma drop_readable_prefix now l :
  StronglySorted (fun a b => eligible a <= eligible b) l ->
  drop (length (readable_prefix now l)) l = List.filter (fun e => now <? eligible e) l.
Proof.
  induction 1 as [|e l Hs IH Hall]; simpl; [done|].
  destruct (Z.leb_spec (eligible e) now), (Z.ltb_spec now (eligible e)); simpl; try lia; [done|].
  f_equal. clear IH Hs. induction Hall as [|b l Hb Hl IH]; simpl; [done|].
  destruct (Z.ltb_spec now (eligible b)); [by rewrite <-IH | lia].
Qed.

Lemma mailbox_collect_spec now m :
  mailbox_wf m ->
  mailbox_collect now m =
    (Ok (), (m <| entries := List.filter (fun e => now <? eligible e) (entries m) |>,
             List.filter (fun e => eligible e <=? now) (entries m))).
Proof.
  intros Hwf. pose proof (mailbox_eligible_order m Hwf) as Hs.
  unfold mailbox_collect, take_loop. simpl fst. rewrite take_while_collect by lia.
  by rewrite drop_readable_prefix, readable_prefix_filter.
Qed.

(** C33. A published message arrives exactly once, at the receiver's [latency]-th edge after its
    publication: emptying the mailbox at any tick [t] returns, in publication order, the messages
    whose arrival edge is not after [t], keeps the others, and the new message is among the
    returned ones exactly when its edge has come. *)
Theorem mailbox_delivers_on_edge (m m' : Mailbox) (now : Tick) (epoch : Epoch) (v : T) :
  mailbox_wf m -> 0 <= now -> mailbox_publish now epoch v m = (Ok (), m') ->
  exists arrival, edges_after (receiver m) now (Z.to_nat (latency m)) arrival /\
    forall t, exists kept got,
      mailbox_collect t m' = (Ok (), (m' <| entries := kept |>, got)) /\
      got = List.filter (fun e => eligible e <=? t) (entries m') /\
      got ++ kept = entries m' /\
      (mkEnvelope now arrival epoch v ∈ got <-> arrival <= t).
Proof.
  intros Hwf Hnow H. pose proof (mailbox_publish_wf _ _ _ _ _ _ Hnow Hwf H) as Hwf'.
  destruct (mailbox_publish_inv _ _ _ _ _ _ Hnow Hwf H) as (e & He & _ & Hm' & _ & _).
  exists e. split; [done|]. intros t.
  pose proof (mailbox_eligible_order m' Hwf') as Hs.
  eexists _, _. split_and!; [by apply mailbox_collect_spec | done | | ].
  - rewrite <-readable_prefix_filter, <-drop_readable_prefix by done.
    clear. induction (entries m') as [|b l IH]; simpl; [done|].
    destruct (eligible b <=? t); simpl; [by f_equal | done].
  - rewrite list_elem_of_In, filter_In, <-list_elem_of_In. simpl. rewrite Z.leb_le.
    split; [by intros [_ ?]|]. intros Hle. split; [|done]. subst m'. simpl.
    apply elem_of_app. right. by constructor.
Qed.
End Mailbox.
Arguments Envelope : clear implicits.
Arguments Mailbox : clear implicits.

Definition example_mailbox : Mailbox Z := mkMailbox 4 (mkClock 20 0) 2 [].

Lemma mailbox_delivers_on_edge_witness :
  exists m', mailbox_publish 1005 1 7 example_mailbox = (Ok (), m') /\
  exists arrival, edges_after (mkClock 20 0) 1005 2 arrival /\
      forall t, exists kept got,
        mailbox_collect t m' = (Ok (), (m' <| entries := kept |>, got)) /\
        got = List.filter (fun e => eligible e <=? t) (entries m') /\
        got ++ kept = entries m' /\
        (mkEnvelope 1005 arrival 1 7 ∈ got <-> arrival <= t).
Proof.
  eexists. split; [vm_compute; reflexivity|].
  refine (mailbox_delivers_on_edge example_mailbox _ 1005 1 7 _ _ _);
    [|lia|vm_compute; reflexivity].
  constructor; simpl; rewrite ?size_of_nil; try lia; try constructor; simpl; lia.
Defined.
