(* ===== verification/Relate.v ===== *)
(** * Relating two runs

    [simulates R m n]: started in states related by [R], [n] succeeds whenever [m] does, with the same
    result and in states related by [R] again.  The structural rules mirror those of [keeps]; the
    lemmas on mailboxes and traces relate a run to one that finds more messages waiting, or fewer. *)

From S2P Require Import Prelude Error Time Trace Mailbox.

Definition simulates {S T A} (R : S -> T -> Prop) (m : M S A) (n : M T A) : Prop :=
  forall s t a s', R s t -> m s = (Ok a, s') -> exists t', n t = (Ok a, t') /\ R s' t'.

Section Rules.
Context {S T : Type} (R : S -> T -> Prop).

Lemma sim_ret {A} (a : A) : simulates R (m_ret a) (m_ret a).
Proof. intros s t b s' HR H. apply m_ret_ok in H as [-> ->]. by exists t. Qed.

Lemma sim_fault {A} e (n : M T A) : simulates R (m_fault e) n.
Proof. intros s t b s' HR H. discriminate H. Qed.

Lemma sim_lift {A} (x : result A) : simulates R (m_lift x) (m_lift x).
Proof. intros s t b s' HR H. apply m_lift_ok in H as [-> ->]. by exists t. Qed.

Lemma sim_gets {A} (f : S -> A) (g : T -> A) :
  (forall s t, R s t -> f s = g t) -> simulates R (m_gets f) (m_gets g).
Proof. intros Hf s t b s' HR H. apply m_gets_ok in H as [-> ->]. exists t. by rewrite (Hf s t HR). Qed.

Lemma sim_modify (f : S -> S) (g : T -> T) :
  (forall s t, R s t -> R (f s) (g t)) -> simulates R (m_modify f) (m_modify g).
Proof. intros Hf s t [] s' HR H. apply m_modify_ok in H as ->. exists (g t). split; [done | by apply Hf]. Qed.

Lemma sim_bind {A B} (m : M S A) (n : M T A) (k : A -> M S B) (h : A -> M T B) :
  simulates R m n -> (forall a, simulates R (k a) (h a)) -> simulates R (m_bind m k) (m_bind n h).
Proof.
  intros Hm Hk s t b s' HR H. apply m_bind_ok in H as (a & s1 & H1 & H2).
  destruct (Hm _ _ _ _ HR H1) as (t1 & K1 & HR1). destruct (Hk a _ _ _ _ HR1 H2) as (t2 & K2 & HR2).
  exists t2. split; [|done]. by rewrite (m_bind_step _ _ _ _ _ K1).
Qed.

(** Observations that differ between the runs. *)
Lemma sim_bind_gets {A A' B} (Q : A -> A' -> Prop) (f : S -> A) (g : T -> A') (k : A -> M S B) (h : A' -> M T B) :
  (forall s t, R s t -> Q (f s) (g t)) -> (forall x y, Q x y -> simulates R (k x) (h y)) ->
  simulates R (m_bind (m_gets f) k) (m_bind (m_gets g) h).
Proof. intros Hf Hk s t b s' HR H. exact (Hk _ _ (Hf s t HR) s t b s' HR H). Qed.

Lemma sim_zoom {S' T' A} (R' : S' -> T' -> Prop) (get : S -> S') set (get' : T -> T') set' (m : M S' A) (n : M T' A) :
  (forall s t, R s t -> R' (get s) (get' t)) ->
  (forall x y s t, R s t -> R' x y -> R (set x s) (set' y t)) ->
  simulates R' m n -> simulates R (m_zoom get set m) (m_zoom get' set' n).
Proof.
  intros Hget Hset Hm s t a s' HR H. apply m_zoom_ok in H as (x & H & ->).
  destruct (Hm _ _ _ _ (Hget s t HR) H) as (y & K & HR'). exists (set' y t). split; [|by apply Hset].
  unfold m_zoom. by rewrite K.
Qed.

Lemma sim_each {X} (f : X -> M S unit) (g : X -> M T unit) l :
  (forall x, simulates R (f x) (g x)) -> simulates R (m_each f l) (m_each g l).
Proof. intros Hf. induction l as [|x l IH]; simpl; [apply sim_ret|]. by apply sim_bind. Qed.
End Rules.

Lemma sim_eq {S A} (m : M S A) : simulates eq m m.
Proof. intros s t a s' <- H. by exists s'. Qed.

(** A run is related to itself in a part both states share. *)
Lemma sim_zoom_same {S T X A} (R : S -> T -> Prop) (get : S -> X) set (get' : T -> X) set' (m : M X A) :
  (forall s t, R s t -> get s = get' t) ->
  (forall x s t, R s t -> R (set x s) (set' x t)) ->
  simulates R (m_zoom get set m) (m_zoom get' set' m).
Proof.
  intros Hget Hset. apply (sim_zoom R eq); [done | | apply sim_eq]. intros x y s t HR <-. by apply Hset.
Qed.

(** Split two runs of one program into the steps that are related by form, leaving the others. *)
Ltac sim_steps :=
  repeat
    lazymatch goal with
    | |- simulates _ (m_ret _) (m_ret _) => apply sim_ret
    | |- simulates _ (m_fault _) _ => apply sim_fault
    | |- simulates _ (m_lift _) (m_lift _) => apply sim_lift
    | |- simulates _ (m_gets _) (m_gets _) => apply sim_gets
    | |- simulates _ (m_bind _ _) (m_bind _ _) => apply sim_bind; [|intros ?]
    | |- simulates _ (if ?b then _ else _) (if ?b then _ else _) => destruct b
    | |- simulates _ (match ?x with _ => _ end) (match ?x with _ => _ end) => destruct x
    end.

(** ** Mailboxes *)
Lemma clock_after_later c p l t : clock_after c p l = Ok t -> p < t.
Proof.
  unfold clock_after. intros H. apply result_bind_ok in H as ([] & Hc & H). apply require_ok in Hc.
  apply result_bind_ok in H as ([] & Hl & H). apply require_ok in Hl. reflect.
  apply result_bind_ok in H as (first & Hf & H). apply result_bind_ok in H as (rest & Hr & H).
  apply checked_mul_ok in Hr as [_ ->]; [|lia]. apply checked_add_ok in H as [_ ->].
  enough (p < first) by nia. destruct (Z.leb_spec (phase c) p); [|by apply Ok_inj in Hf as <-].
  apply result_bind_ok in Hf as (n & Hn & Hf). apply checked_add_ok in Hn as [_ ->].
  apply result_bind_ok in Hf as (t' & Ht & Hf). pose proof (Z.div_pos (p - phase c) (period c)).
  apply checked_mul_ok in Ht as [_ ->]; [|lia]. apply checked_add_ok in Hf as [_ ->].
  pose proof (Z.mul_succ_div_gt (p - phase c) (period c)). nia.
Qed.

Section Mailboxes.
Context {X : Type}.
#[local] Abbreviation Box := (Mailbox X).
#[local] Abbreviation Letter := (Envelope X).

Definition extended (es : list Letter) (b : Box) : Box := b <| entries ::= fun l => l ++ es |>.
Definition preceded (ds : list Letter) (b : Box) : Box := b <| entries ::= fun l => ds ++ l |>.

(** Messages no receiver can read yet. *)
Definition unread (now : Tick) (es : list Letter) : Prop := Forall (fun e => now < eligible e) es.

Definition grown (now : Tick) (b0 b : Box) : Prop := 
  exists es, b = extended es b0 /\ unread now es.
Definition shrunk (b0 b : Box) : Prop := exists ds, b0 = preceded ds b.

(** A mailbox that holds no more messages than fit. *)
Definition sound (b : Box) : Prop := size_of (entries b) <= capacity b.

Lemma extended_nil b : extended [] b = b.
Proof. destruct b as [c r l es]. unfold extended. simpl. by rewrite app_nil_r. Qed.
Lemma extended_app es es' b : extended es' (extended es b) = extended (es ++ es') b.
Proof. destruct b as [c r l fs]. unfold extended. simpl. by rewrite app_assoc. Qed.
Lemma preceded_nil b : preceded [] b = b.
Proof. by destruct b. Qed.
Lemma preceded_app ds ds' b : preceded ds (preceded ds' b) = preceded (ds ++ ds') b.
Proof. destruct b as [c r l fs]. unfold preceded. simpl. by rewrite app_assoc. Qed.
Lemma preceded_extended ds es b : preceded ds (extended es b) = extended es (preceded ds b).
Proof. destruct b as [c r l fs]. unfold preceded, extended. simpl. by rewrite app_assoc. Qed.
Lemma preceded_inj ds b b' : preceded ds b = preceded ds b' -> b = b'.
Proof.
  destruct b as [c r l fs], b' as [c' r' l' fs']. unfold preceded. simpl. intros [= -> -> -> H].
  by apply app_inv_head in H as ->.
Qed.
Lemma extended_inj es b b' : extended es b = extended es b' -> b = b'.
Proof.
  destruct b as [c r l fs], b' as [c' r' l' fs']. unfold extended. simpl. intros [= -> -> -> H].
  by apply app_inv_tail in H as ->.
Qed.

Lemma grown_refl now b : grown now b b.
Proof. exists []. split; [by rewrite extended_nil | constructor]. Qed.
Lemma shrunk_refl b : shrunk b b.
Proof. exists []. by rewrite preceded_nil. Qed.
Lemma grown_trans now a b c : grown now a b -> grown now b c -> grown now a c.
Proof.
  intros (es & -> & H) (es' & -> & H'). exists (es ++ es'). split; [apply extended_app|].
  by apply Forall_app.
Qed.
Lemma shrunk_trans a b c : shrunk a b -> shrunk b c -> shrunk a c.
Proof. intros (ds & ->) (ds' & ->). exists (ds ++ ds'). apply preceded_app. Qed.
Lemma shrunk_sound b0 b : shrunk b0 b -> sound b0 -> sound b.
Proof.
  unfold sound. intros (ds & ->) Hs. simpl in Hs. rewrite size_of_app in Hs. pose proof (size_of_nonneg ds). lia.
Qed.

Lemma peek_extended now es b : unread now es -> mailbox_peek (extended es b) now = mailbox_peek b now.
Proof.
  destruct b as [c r l [|e fs]]; [|done]. intros H. destruct es as [|e es]; [done|]. inversion H; subst.
  unfold mailbox_peek, extended. simpl. destruct (Z.leb_spec (eligible e) now); [lia | done].
Qed.

Lemma take_extended now es b :
  unread now es ->
  mailbox_take now (extended es b) = (fst (mailbox_take now b), extended es (snd (mailbox_take now b))).
Proof.
  intros H. unfold mailbox_take. rewrite peek_extended by done.
  destruct b as [c r l [|e fs]]; [done|]. unfold mailbox_peek. simpl. by destruct (eligible e <=? now).
Qed.

Lemma take_shrunk now b o b' : mailbox_take now b = (Ok o, b') -> shrunk b b'.
Proof.
  unfold mailbox_take, mailbox_peek. destruct b as [c r l [|e fs]]; simpl; [intros [= <- <-]; apply shrunk_refl|].
  destruct (eligible e <=? now); intros [= <- <-]; [|apply shrunk_refl]. by exists [e].
Qed.

(** Both runs take from a mailbox, one of them with unreadable messages behind. *)
Lemma sim_take_extended now es :
  unread now es -> simulates (fun b b' : Box => b = extended es b') (mailbox_take now) (mailbox_take now).
Proof.
  intros H s t a s' -> K. rewrite take_extended in K by done. destruct (mailbox_take now t) as [r t1].
  injection K as -> <-. by exists t1.
Qed.

Lemma publish_ok now epoch (v : X) b u b' :
  mailbox_publish now epoch v b = (Ok u, b') ->
  mailbox_full b = false /\ exists t, clock_after (receiver b) now (latency b) = Ok t /\
    (match last (entries b) with Some back => published back <=? now | None => true end) = true /\
    b' = extended [mkEnvelope now t epoch v] b.
Proof.
  unfold mailbox_publish. intros H. apply m_bind_lift_ok in H as (? & H1 & H). apply require_ok in H1.
  apply m_bind_lift_ok in H as (t & H2 & H). apply m_bind_lift_ok in H as (? & H3 & H). apply require_ok in H3.
  apply m_modify_ok in H as ->. split; [by destruct (mailbox_full b)|]. by exists t.
Qed.

(** Nothing is readable at the tick it is published. *)
Lemma publish_grown now epoch (v : X) b u b' :
  sound b -> mailbox_publish now epoch v b = (Ok u, b') -> grown now b b' /\ sound b'.
Proof.
  unfold sound. intros Hs H. apply publish_ok in H as (Hf & t & Ht & _ & ->). split.
  - eexists. split; [reflexivity|]. constructor; [|constructor]. simpl. by apply clock_after_later in Ht.
  - unfold mailbox_full in Hf. apply Z.eqb_neq in Hf. simpl. rewrite size_of_app, size_of_cons, size_of_nil. lia.
Qed.

(** A message that fits in a mailbox fits when fewer wait there. *)
Lemma publish_preceded now epoch (v : X) ds b u b' :
  sound (preceded ds b) -> mailbox_publish now epoch v (preceded ds b) = (Ok u, b') ->
  exists b1, mailbox_publish now epoch v b = (Ok u, b1) /\ b' = preceded ds b1.
Proof.
  unfold sound. intros Hsize H. destruct u. apply publish_ok in H as (Hf & t & Ht & Hlast & ->).
  exists (extended [mkEnvelope now t epoch v] b). split; [|symmetry; apply preceded_extended].
  unfold mailbox_publish, m_bind, m_lift. replace (mailbox_full b) with false.
  - simpl in Ht. rewrite Ht. simpl. simpl in Hlast. destruct (entries b) as [|e es] eqn:E; simpl; [by destruct b; simpl in *; subst|].
    rewrite last_app in Hlast. destruct (last (e :: es)) as [back|] eqn:El; [|by apply last_None in El].
    rewrite Hlast. done.
  - symmetry. unfold mailbox_full in *. apply Z.eqb_neq. apply Z.eqb_neq in Hf. simpl in *.
    rewrite size_of_app in *. pose proof (size_of_nonneg ds). lia.
Qed.
End Mailboxes.

(** ** Loops

    Fuel beyond the messages that wait is not used. *)
Section Loops.
Context {X S : Type} (get : S -> Mailbox X) (set : Mailbox X -> S -> S) (body : Envelope X -> M S unit).
Context (Hget : forall b s, get (set b s) = b).
Context (Hbody : forall e l, keeps (fun s => entries (get s) = l) (body e)).

Lemma take_while_enough now n n' s :
  (length (entries (get s)) < n)%nat -> (n <= n')%nat ->
  take_while get set body now n' s = take_while get set body now n s.
Proof using Hget Hbody.
  revert n' s. induction n as [|n IH]; intros [|n'] s Hn Hle; [lia..|]. simpl. unfold m_bind.
  destruct (m_zoom get set (mailbox_take now) s) as [[o|e] s1] eqn:E; [|done]. destruct o as [e|]; [|done].
  apply m_zoom_ok in E as (b & Ht & ->). destruct (body e (set b s)) as [[u|] s2] eqn:Eb; [|done].
  apply IH; [|lia]. apply (Hbody e (entries b)) in Eb; [|by rewrite Hget]. rewrite Eb.
  unfold mailbox_take, mailbox_peek in Ht. destruct (get s) as [c r l [|e' es]]; [discriminate Ht|]. simpl in Ht.
  destruct (eligible e' <=? now); [|discriminate Ht]. injection Ht as -> <-. simpl in *. lia.
Qed.
End Loops.

Section LoopRule.
Context {X S T : Type} (R : S -> T -> Prop) (es : list (Envelope X)).
Context (get : S -> Mailbox X) (set : Mailbox X -> S -> S) (get' : T -> Mailbox X) (set' : Mailbox X -> T -> T).
Context (Hrel : forall s t, R s t -> get s = extended es (get' t)).
Context (Hset : forall b s t, R s t -> shrunk (get' t) b -> R (set (extended es b) s) (set' b t)).

Lemma sim_take_while now (body : Envelope X -> M S unit) (body' : Envelope X -> M T unit) n :
  unread now es -> (forall e, simulates R (body e) (body' e)) ->
  simulates R (take_while get set body now n) (take_while get' set' body' now n).
Proof using Hrel Hset.
  intros Hes Hbody. induction n as [|n IH]; simpl; [apply sim_ret|]. apply sim_bind.
  - intros s t a s' HR H. apply m_zoom_ok in H as (b & H & ->). rewrite (Hrel s t HR), take_extended in H by done.
    destruct (mailbox_take now (get' t)) as [r b'] eqn:E. injection H as -> <-. exists (set' b' t).
    split; [unfold m_zoom; by rewrite E|]. apply Hset; [done|]. by eapply take_shrunk.
  - intros [e|]; [|apply sim_ret]. by apply sim_bind.
Qed.

Lemma sim_take_loop now (body : Envelope X -> M S unit) (body' : Envelope X -> M T unit) :
  unread now es -> (forall e, simulates R (body e) (body' e)) ->
  (forall b t, get' (set' b t) = b) -> (forall e l, keeps (fun t => entries (get' t) = l) (body' e)) ->
  simulates R (take_loop get set body now) (take_loop get' set' body' now).
Proof using Hrel Hset.
  intros Hes Hbody Hg Hk s t a s' HR H. unfold take_loop in *.
  destruct (sim_take_while now body body' _ Hes Hbody s t a s' HR H) as (t' & K & HR'). exists t'. split; [|done].
  rewrite <-K. symmetry. apply take_while_enough; [done.. | lia|]. rewrite (Hrel s t HR). simpl. rewrite length_app. lia.
Qed.
End LoopRule.

(** ** Traces

    Two runs that record the same events at [now], on top of different pasts. *)
Definition not_after (now : Tick) (l : list TraceEvent) : Prop :=
  match last l with Some back => te_tick back <= now | None => True end.

Record same_records (now : Tick) (stalls : bool) (past past' added : list TraceEvent) (s t : Trace) : Prop := {
  sr_left : tr_events s = past ++ added;
  sr_right : tr_events t = past' ++ added;
  sr_now : Forall (fun e => te_tick e = now) added;
  sr_stalls : tr_include_stalls s = stalls /\ tr_include_stalls t = stalls;
  sr_destination : tr_destination s = tr_destination t }.

Section Traces.
Context (now : Tick) (stalls : bool) (past past' : list TraceEvent).
Context (Hpast : past = past' \/ not_after now past').

Definition alike (s t : Trace) : Prop := exists added, same_records now stalls past past' added s t.

Lemma sim_emit e : te_tick e = now -> simulates alike (trace_emit e) (trace_emit e).
Proof using Hpast.
  intros He s t [] s' (added & [H1 H2 H3 [H4 H4'] H5]) H.
  assert (Hlast : match last (tr_events s) with Some back => te_tick back <=? te_tick e | None => true end = true ->
                  match last (tr_events t) with Some back => te_tick back <=? te_tick e | None => true end = true).
  { rewrite H1, H2, !last_app. destruct (last added); [done|]. destruct Hpast as [->|Hn]; [done|]. intros _.
    unfold not_after in Hn. destruct (last past'); [|done]. apply Z.leb_le. lia. }
  unfold trace_emit in *. unfold m_bind, m_lift in *. destruct (require (kind_matches_payload e) _); [|discriminate H].
  destruct (require (decoder_kind_matches e) _); [|discriminate H]. rewrite H4'. rewrite H4 in H.
  destruct (negb _ && _); [injection H as <-; exists t; split; [done | by exists added]|].
  destruct (require _ _) as [u|] eqn:Er in H; [|discriminate H]. apply require_ok in Er. rewrite (Hlast Er). simpl.
  injection H as <-. eexists. split; [reflexivity|]. exists (added ++ [stamp_core s e]).
  constructor; simpl; [by rewrite H1, app_assoc | | | done..].
  - rewrite H2, <-app_assoc. do 2 f_equal. unfold stamp_core. by rewrite H5.
  - apply Forall_app. split; [done|]. constructor; [by rewrite stamp_core_tick | constructor].
Qed.
End Traces.
