(* ===== verification/Isa.v ===== *)
(** * Instruction decoding and semantics (src/isa.cpp, include/qsbit/isa.hpp,
    contracts/include/qsbit/contracts/isa.hpp)

    RV32I plus the control instructions of opcode 0x0b.  Register values, addresses and encodings are
    32-bit unsigned. *)

From S2P Require Import Prelude Error.

Inductive Op :=
| Lui | Auipc | Jal | Jalr | Beq | Bne | Blt | Bge | Bltu | Bgeu | Lb | Lh | Lw | Lbu | Lhu
| Sb | Sh | Sw | Addi | Slti | Sltiu | Xori | Ori | Andi | Slli | Srli | Srai | Add | Sub | Sll
| Slt | Sltu | Xor | Srl | Sra | Or | And | Fence | Ecall | Ebreak | Quantum.
#[global] Instance Op_eq_dec : EqDecision Op.
Proof. solve_decision. Defined.

Record Decoded := mkDecoded {
  op : Op; word : Z; immediate : Z; rd : Z; rs1 : Z; rs2 : Z;
  reads_rs1 : bool; reads_rs2 : bool; writes_rd : bool }.
#[global] Instance eta_Decoded : Eta Decoded := fun d =>
  mkDecoded (op d) (word d) (immediate d) (rd d) (rs1 d) (rs2 d) (reads_rs1 d) (reads_rs2 d)
    (writes_rd d).

Inductive MemoryKind := MemNone | MemLoad | MemStore.
#[global] Instance MemoryKind_eq_dec : EqDecision MemoryKind.
Proof. solve_decision. Defined.

Record Effect := mkEffect {
  next_pc : Z; eff_value : Z; address : Z; store_value : Z; eff_writes_rd : bool;
  branch_taken : bool; sign_extend_load : bool; memory : MemoryKind; width : Z }.
#[global] Instance eta_Effect : Eta Effect := fun e =>
  mkEffect (next_pc e) (eff_value e) (address e) (store_value e) (eff_writes_rd e)
    (branch_taken e) (sign_extend_load e) (memory e) (width e).

(** ** The encoding contract *)
Definition ControlOpcode : Z := 0x0b.
Definition BundleOpcode : Z := 0x2b.

Inductive ControlFunction := CodewordF | WaitF | WaitImmediateF | FetchMeasurementF | SynchronizeF.

Definition control_function (f : Z) : option ControlFunction :=
  if f =? 0 then Some CodewordF
  else if f =? 1 then Some WaitF
  else if f =? 2 then Some WaitImmediateF
  else if f =? 3 then Some FetchMeasurementF
  else if f =? 6 then Some SynchronizeF
  else None.

Definition valid_control_word (w : Z) : bool :=
  if negb (w .& 127 =? ControlOpcode) then false else
  let rd := (w >>> 7) .& 31 in
  let rs2 := (w >>> 20) .& 31 in
  let mode := w >>> 25 in
  match control_function ((w >>> 12) .& 7) with
  | Some CodewordF => (mode <=? 3) && (rd =? 0)
  | Some WaitF => (mode =? 0) && (rd =? 0) && (rs2 =? 0)
  | Some WaitImmediateF | Some SynchronizeF => rd =? 0
  | Some FetchMeasurementF => (mode =? 0) && (rs2 =? 0)
  | None => false
  end.

(** ** Decoding *)
Definition sign_extend (v bits : Z) : result Z :=
  do? require ((0 <? bits) && (bits <=? 32)) InvalidOperand in
  if bits =? 32 then Ok v else
  let mask := wrap32 (1 <<< bits) - 1 in
  let sign := wrap32 (1 <<< (bits - 1)) in
  Ok (wrap32 (((v .& mask) .^ sign) - sign)).

(** [switch (x)] over numbered cases whose [default] is [illegal()]. *)
Fixpoint switch {A} (x : Z) (cases : list (Z * A)) : result A :=
  match cases with
  | [] => Fault IllegalInstruction
  | (n, a) :: rest => if x =? n then Ok a else switch x rest
  end.

Definition decode (w : Z) : result Decoded :=
  let d := mkDecoded Fence w 0 ((w >>> 7) .& 31) ((w >>> 15) .& 31) ((w >>> 20) .& 31)
             false false false in
  let f3 := (w >>> 12) .& 7 in
  let f7 := w >>> 25 in
  let opcode := w .& 127 in
  if opcode =? 0x37 then
    Ok (d <| op := Lui |> <| immediate := w .& 0xfffff000 |> <| writes_rd := true |>)
  else if opcode =? 0x17 then
    Ok (d <| op := Auipc |> <| immediate := w .& 0xfffff000 |> <| writes_rd := true |>)
  else if opcode =? 0x6f then
    let? i := sign_extend (((w >>> 31) <<< 20) .| (w .& 0xff000) .|
                           (((w >>> 20) .& 1) <<< 11) .| (((w >>> 21) .& 1023) <<< 1)) 21 in
    Ok (d <| op := Jal |> <| writes_rd := true |> <| immediate := i |>)
  else if opcode =? 0x67 then
    do? require (f3 =? 0) IllegalInstruction in
    let? i := sign_extend (w >>> 20) 12 in
    Ok (d <| op := Jalr |> <| writes_rd := true |> <| reads_rs1 := true |> <| immediate := i |>)
  else if opcode =? 0x63 then
    let? o := switch f3 [(0, Beq); (1, Bne); (4, Blt); (5, Bge); (6, Bltu); (7, Bgeu)] in
    let? i := sign_extend (((w >>> 31) <<< 12) .| (((w >>> 7) .& 1) <<< 11) .|
                           (((w >>> 25) .& 63) <<< 5) .| (((w >>> 8) .& 15) <<< 1)) 13 in
    Ok (d <| op := o |> <| reads_rs1 := true |> <| reads_rs2 := true |> <| immediate := i |>)
  else if opcode =? 0x03 then
    let? o := switch f3 [(0, Lb); (1, Lh); (2, Lw); (4, Lbu); (5, Lhu)] in
    let? i := sign_extend (w >>> 20) 12 in
    Ok (d <| op := o |> <| reads_rs1 := true |> <| writes_rd := true |> <| immediate := i |>)
  else if opcode =? 0x23 then
    let? o := switch f3 [(0, Sb); (1, Sh); (2, Sw)] in
    let? i := sign_extend (((w >>> 25) <<< 5) .| ((w >>> 7) .& 31)) 12 in
    Ok (d <| op := o |> <| reads_rs1 := true |> <| reads_rs2 := true |> <| immediate := i |>)
  else if opcode =? 0x13 then
    let? i := sign_extend (w >>> 20) 12 in
    let d := d <| reads_rs1 := true |> <| writes_rd := true |> <| immediate := i |> in
    if f3 =? 1 then
      do? require (f7 =? 0) IllegalInstruction in
      Ok (d <| op := Slli |> <| immediate := rs2 d |>)
    else if f3 =? 5 then
      do? require ((f7 =? 0) || (f7 =? 32)) IllegalInstruction in
      Ok (d <| op := if f7 =? 0 then Srli else Srai |> <| immediate := rs2 d |>)
    else
      let? o := switch f3 [(0, Addi); (2, Slti); (3, Sltiu); (4, Xori); (6, Ori); (7, Andi)] in
      Ok (d <| op := o |>)
  else if opcode =? 0x33 then
    let d := d <| reads_rs1 := true |> <| reads_rs2 := true |> <| writes_rd := true |> in
    do? require ((f7 =? 0) || (((f3 =? 0) || (f3 =? 5)) && (f7 =? 32))) IllegalInstruction in
    let? o := switch f3 [(0, if f7 =? 0 then Add else Sub); (1, Sll); (2, Slt); (3, Sltu);
                         (4, Xor); (5, if f7 =? 0 then Srl else Sra); (6, Or); (7, And)] in
    Ok (d <| op := o |>)
  else if opcode =? 0x0f then
    do? require (f3 =? 0) IllegalInstruction in
    Ok (d <| op := Fence |>)
  else if opcode =? 0x73 then
    if w =? 0x00000073 then Ok (d <| op := Ecall |>)
    else if w =? 0x00100073 then Ok (d <| op := Ebreak |>)
    else Fault IllegalInstruction
  else if opcode =? ControlOpcode then
    do? require (valid_control_word w) IllegalInstruction in
    Ok (d <| op := Quantum |>
          <| reads_rs1 := ((f3 =? 0) && (f7 .& 1 =? 0)) || (f3 =? 1) |>
          <| reads_rs2 := (f3 =? 0) && (f7 .& 2 =? 0) |>
          <| writes_rd := f3 =? 3 |>)
  else Fault IllegalInstruction.

(** ** Evaluation *)
Definition signed_value (x : Z) : Z := if x <? 2147483648 then x else x - 4294967296.

Definition sar (x amount : Z) : Z := wrap32 (signed_value x >>> (amount .& 31)).

Definition of_bool (b : bool) : Z := if b then 1 else 0.

Definition is_branch (o : Op) : bool :=
  match o with Beq | Bne | Blt | Bge | Bltu | Bgeu => true | _ => false end.

Definition evaluate (d : Decoded) (pc a b : Z) : result Effect :=
  do? require (pc .& 3 =? 0) InstructionMisaligned in
  let e := mkEffect (wrap32 (pc + 4)) 0 0 0 (writes_rd d) false false MemNone 0 in
  let i := immediate d in
  let? e :=
    match op d with
    | Lui => Ok (e <| eff_value := i |>)
    | Auipc => Ok (e <| eff_value := wrap32 (pc + i) |>)
    | Jal => Ok (e <| eff_value := wrap32 (pc + 4) |> <| next_pc := wrap32 (pc + i) |>
                   <| branch_taken := true |>)
    | Jalr => Ok (e <| eff_value := wrap32 (pc + 4) |>
                    <| next_pc := wrap32 (a + i) .& 0xfffffffe |> <| branch_taken := true |>)
    | Beq => Ok (e <| branch_taken := a =? b |>)
    | Bne => Ok (e <| branch_taken := negb (a =? b) |>)
    | Blt => Ok (e <| branch_taken := signed_value a <? signed_value b |>)
    | Bge => Ok (e <| branch_taken := signed_value b <=? signed_value a |>)
    | Bltu => Ok (e <| branch_taken := a <? b |>)
    | Bgeu => Ok (e <| branch_taken := b <=? a |>)
    | Lb | Lh | Lw | Lbu | Lhu =>
        Ok (e <| memory := MemLoad |> <| address := wrap32 (a + i) |>
              <| width := match op d with Lb | Lbu => 1 | Lw => 4 | _ => 2 end |>
              <| sign_extend_load := match op d with Lb | Lh => true | _ => false end |>)
    | Sb | Sh | Sw =>
        Ok (e <| memory := MemStore |> <| address := wrap32 (a + i) |> <| store_value := b |>
              <| width := match op d with Sb => 1 | Sh => 2 | _ => 4 end |>)
    | Addi => Ok (e <| eff_value := wrap32 (a + i) |>)
    | Slti => Ok (e <| eff_value := of_bool (signed_value a <? signed_value i) |>)
    | Sltiu => Ok (e <| eff_value := of_bool (a <? i) |>)
    | Xori => Ok (e <| eff_value := a .^ i |>)
    | Ori => Ok (e <| eff_value := a .| i |>)
    | Andi => Ok (e <| eff_value := a .& i |>)
    | Slli => Ok (e <| eff_value := wrap32 (a <<< (i .& 31)) |>)
    | Srli => Ok (e <| eff_value := a >>> (i .& 31) |>)
    | Srai => Ok (e <| eff_value := sar a i |>)
    | Add => Ok (e <| eff_value := wrap32 (a + b) |>)
    | Sub => Ok (e <| eff_value := wrap32 (a - b) |>)
    | Sll => Ok (e <| eff_value := wrap32 (a <<< (b .& 31)) |>)
    | Slt => Ok (e <| eff_value := of_bool (signed_value a <? signed_value b) |>)
    | Sltu => Ok (e <| eff_value := of_bool (a <? b) |>)
    | Xor => Ok (e <| eff_value := a .^ b |>)
    | Srl => Ok (e <| eff_value := a >>> (b .& 31) |>)
    | Sra => Ok (e <| eff_value := sar a b |>)
    | Or => Ok (e <| eff_value := a .| b |>)
    | And => Ok (e <| eff_value := a .& b |>)
    | Fence => Ok e
    | Ecall => Fault EnvironmentCall
    | Ebreak => Fault Breakpoint
    | Quantum => Ok e
    end in
  let e := if is_branch (op d) && branch_taken e then e <| next_pc := wrap32 (pc + i) |> else e in
  do? require (next_pc e .& 3 =? 0) InstructionMisaligned in
  Ok e.

(** ** Sign extension *)
Lemma sign_extend_closed v b :
  0 < b <= 32 -> u32 v ->
  sign_extend v b =
    Ok (if v mod 2 ^ b <? 2 ^ (b - 1) then v mod 2 ^ b else wrap32 (v mod 2 ^ b - 2 ^ b)).
Proof.
  intros Hb Hv. unfold sign_extend. unfold require.
  replace ((0 <? b) && (b <=? 32)) with true
    by (symmetry; apply andb_true_iff; rewrite Z.ltb_lt, Z.leb_le; lia). simpl.
  unfold u32, max32 in Hv. destruct (Z.eqb_spec b 32) as [->|Hne].
  - f_equal. change (2 ^ 32) with 4294967296. change (2 ^ (32 - 1)) with 2147483648.
    rewrite Z.mod_small by lia. destruct (Z.ltb_spec v 2147483648); [done|].
    unfold wrap32. lia_div.
  - assert (Hpow : 2 ^ b = 2 * 2 ^ (b - 1)) by (rewrite <-Z.pow_succ_r by lia; f_equal; lia).
    assert (Hle : 2 ^ b <= 2 ^ 31) by (apply Z.pow_le_mono_r; lia).
    assert (Hpos : 0 < 2 ^ (b - 1)) by (apply Z.pow_pos_nonneg; lia).
    change (2 ^ 31) with 2147483648 in Hle.
    rewrite (shiftl_arith 1 b (2 ^ b)) by lia.
    rewrite (shiftl_arith 1 (b - 1) (2 ^ (b - 1))) by lia. rewrite !Z.mul_1_l.
    rewrite (wrap32_small (2 ^ b)), (wrap32_small (2 ^ (b - 1))) by (unfold u32, max32; lia).
    rewrite (land_mask v b) by (lia || done).
    pose proof (Z.mod_pos_bound v (2 ^ b) ltac:(lia)).
    rewrite lxor_top_bit by (lia || done). f_equal.
    destruct (Z.ltb_spec (v mod 2 ^ b) (2 ^ (b - 1))).
    + rewrite Z.add_simpl_r. apply wrap32_small. unfold u32, max32. lia.
    + f_equal. lia.
Qed.

Lemma signed_value_wrap z : -2147483648 <= z < 2147483648 -> signed_value (wrap32 z) = z.
Proof.
  intros Hz. unfold signed_value, wrap32.
  destruct (Z.ltb_spec (z mod 4294967296) 2147483648); lia_div.
Qed.

Lemma signed_value_small z : 0 <= z < 2147483648 -> signed_value z = z.
Proof. intros Hz. unfold signed_value. destruct (Z.ltb_spec z 2147483648); lia. Qed.

(** [sign_extend] reads the low [bits] bits as a two's-complement number: the result is a 32-bit
    word whose signed value is the one number in [-2^(bits-1), 2^(bits-1)) congruent to the argument
    modulo [2^bits]. *)
Theorem sign_extend_signed (v bits : Z) (Hb : 0 < bits <= 32) (Hv : u32 v) :
  exists r, sign_extend v bits = Ok r /\ u32 r /\
    - 2 ^ (bits - 1) <= signed_value r < 2 ^ (bits - 1) /\
    (signed_value r) mod 2 ^ bits = v mod 2 ^ bits.
Proof.
  rewrite sign_extend_closed by done. eexists. split; [done|].
  assert (Hpow : 2 ^ bits = 2 * 2 ^ (bits - 1)) by (rewrite <-Z.pow_succ_r by lia; f_equal; lia).
  assert (Hle : 2 ^ (bits - 1) <= 2 ^ 31) by (apply Z.pow_le_mono_r; lia).
  assert (Hpos : 0 < 2 ^ (bits - 1)) by (apply Z.pow_pos_nonneg; lia).
  change (2 ^ 31) with 2147483648 in Hle.
  pose proof (Z.mod_pos_bound v (2 ^ bits) ltac:(lia)).
  destruct (Z.ltb_spec (v mod 2 ^ bits) (2 ^ (bits - 1))).
  - rewrite signed_value_small by lia. split_and!; [unfold u32, max32; lia | lia | lia |].
    apply Z.mod_small. lia.
  - rewrite signed_value_wrap by lia. split_and!; [auto with qsbit | lia | lia |].
    rewrite <-(Z.mod_add _ 1) by lia. rewrite Z.mul_1_l, Z.sub_add.
    apply Z.mod_small. lia.
Qed.

Lemma sign_extend_signed_witness :
  exists r, sign_extend 0xfff 12 = Ok r /\ u32 r /\
    - 2 ^ (12 - 1) <= signed_value r < 2 ^ (12 - 1) /\ (signed_value r) mod 2 ^ 12 = 0xfff mod 2 ^ 12.
Proof. apply (sign_extend_signed 0xfff 12); [lia | unfold u32, max32; lia]. Defined.

(** ** Facts about every decoded instruction *)
Record decoded_wf (d : Decoded) : Prop := {
  dec_word : u32 (word d);
  dec_immediate : u32 (immediate d);
  dec_rd : 0 <= rd d < 32;
  dec_rs1 : 0 <= rs1 d < 32;
  dec_rs2 : 0 <= rs2 d < 32 }.

Lemma sign_extend_u32 v b r : 0 < b <= 32 -> u32 v -> sign_extend v b = Ok r -> u32 r.
Proof.
  intros Hb Hv. rewrite sign_extend_closed by done. intros [= <-].
  assert (Hpow : 2 ^ b = 2 * 2 ^ (b - 1)) by (rewrite <-Z.pow_succ_r by lia; f_equal; lia).
  assert (2 ^ (b - 1) <= 2 ^ 31) by (apply Z.pow_le_mono_r; lia).
  assert (0 < 2 ^ (b - 1)) by (apply Z.pow_pos_nonneg; lia).
  change (2 ^ 31) with 2147483648 in *.
  pose proof (Z.mod_pos_bound v (2 ^ b) ltac:(lia)).
  case_match; reflect; [unfold u32, max32; lia | apply wrap32_u32].
Qed.

Lemma register_field_bound x : 0 <= x .& 31 < 32.
Proof. rewrite (land_mask x 5) by (lia || reflexivity). apply Z.mod_pos_bound. lia. Qed.

Lemma shifted_field_u32 x n k :
  0 <= n -> 0 <= k -> n + k <= 32 -> 0 <= x < 2 ^ n -> u32 (x <<< k).
Proof.
  intros Hn Hk Hnk Hx. rewrite Z.shiftl_mul_pow2 by done.
  assert (x * 2 ^ k < 2 ^ n * 2 ^ k)
    by (apply Z.mul_lt_mono_pos_r; [apply Z.pow_pos_nonneg|]; lia).
  rewrite <-Z.pow_add_r in * by lia.
  assert (2 ^ (n + k) <= 2 ^ 32) by (apply Z.pow_le_mono_r; lia).
  assert (0 <= x * 2 ^ k) by (apply Z.mul_nonneg_nonneg; [lia | apply Z.pow_nonneg; lia]).
  change (2 ^ 32) with 4294967296 in *. unfold u32, max32. lia.
Qed.

Lemma masked_bound x n m : 0 <= n -> m = 2 ^ n - 1 -> 0 <= x .& m < 2 ^ n.
Proof.
  intros Hn Hm. rewrite (land_mask x n) by done. apply Z.mod_pos_bound, Z.pow_pos_nonneg; lia.
Qed.

Lemma high_bits_bound w n k : u32 w -> 0 <= n -> 0 <= k -> n + k = 32 -> 0 <= w >>> k < 2 ^ n.
Proof.
  unfold u32, max32. intros Hw Hn Hk Hnk. rewrite Z.shiftr_div_pow2 by done.
  assert (0 < 2 ^ k) by (apply Z.pow_pos_nonneg; lia).
  split; [apply Z.div_pos; lia|]. apply Z.div_lt_upper_bound; [done|].
  rewrite <-Z.pow_add_r by lia. replace (k + n) with 32 by lia.
  change (2 ^ 32) with 4294967296. lia.
Qed.

(** A field of [w] shifted into place, or a combination of fields. *)
Ltac field_u32 :=
  lazymatch goal with
  | |- u32 (_ .| _) => apply u32_lor; field_u32
  | |- u32 ((_ .& ?m) <<< _) =>
      let n := eval vm_compute in (Z.log2 m + 1) in
      apply (shifted_field_u32 _ n); [lia.. |]; apply masked_bound; [lia | reflexivity]
  | |- u32 ((_ >>> ?k) <<< _) =>
      let n := eval vm_compute in (32 - k) in
      apply (shifted_field_u32 _ n); [lia.. |]; apply high_bits_bound; [done | lia..]
  | |- u32 (_ .& 31) => unfold u32, max32; lia
  | |- u32 (_ .& _) => apply u32_land; field_u32
  | |- u32 (_ >>> _) => apply u32_shiftr; [field_u32 | lia]
  | |- u32 0 => unfold u32, max32; lia
  | |- _ => assumption
  end.

Lemma decode_wf w d : u32 w -> decode w = Ok d -> decoded_wf d /\ word d = w.
Proof.
  intros Hw H. unfold decode in H.
  pose proof (register_field_bound (w >>> 7)). pose proof (register_field_bound (w >>> 15)).
  pose proof (register_field_bound (w >>> 20)).
  repeat match goal with
  | Hd : (if ?b then _ else _) = Ok d |- _ => destruct b; inv_ok Hd
  end;
  repeat match goal with
  | Hs : sign_extend _ _ = Ok _ |- _ => apply sign_extend_u32 in Hs; [|lia | field_u32]
  end; (split; [|reflexivity]); constructor; cbn [update op word immediate rd rs1 rs2]; auto; field_u32.
Qed.

(** ** Effects *)
Lemma sar_u32 x n : u32 (sar x n).
Proof. apply wrap32_u32. Qed.

Lemma of_bool_u32 b : u32 (of_bool b).
Proof. destruct b; unfold u32, max32; simpl; lia. Qed.

#[export] Hint Resolve sar_u32 of_bool_u32 : qsbit.

(** A jump or a taken branch. *)
Definition transfers (d : Decoded) (a b : Z) : bool :=
  match op d with
  | Jal | Jalr => true
  | Beq => a =? b
  | Bne => negb (a =? b)
  | Blt => signed_value a <? signed_value b
  | Bge => signed_value b <=? signed_value a
  | Bltu => a <? b
  | Bgeu => b <=? a
  | _ => false
  end.

Definition transfer_target (d : Decoded) (pc a : Z) : Z :=
  match op d with
  | Jalr => wrap32 (a + immediate d) .& 0xfffffffe
  | _ => wrap32 (pc + immediate d)
  end.

(** Control flow, as the architecture describes it. *)
Definition successor (d : Decoded) (pc a b : Z) : Z :=
  if transfers d a b then transfer_target d pc a else wrap32 (pc + 4).

Definition access_width (o : Op) : Z :=
  match o with
  | Lb | Lbu | Sb => 1
  | Lh | Lhu | Sh => 2
  | Lw | Sw => 4
  | _ => 0
  end.

Definition access_kind (o : Op) : MemoryKind :=
  match o with
  | Lb | Lh | Lw | Lbu | Lhu => MemLoad
  | Sb | Sh | Sw => MemStore
  | _ => MemNone
  end.

(** The value written to the destination register, in arithmetic on 32-bit numbers. *)
Definition shifted_left (x n : Z) : Z := x * 2 ^ (n mod 32) mod 2 ^ 32.
Definition shifted_right (x n : Z) : Z := x / 2 ^ (n mod 32).

Definition result_value (d : Decoded) (pc a b : Z) : Z :=
  let i := immediate d in
  match op d with
  | Lui => i
  | Auipc => (pc + i) mod 2 ^ 32
  | Jal | Jalr => (pc + 4) mod 2 ^ 32
  | Addi => (a + i) mod 2 ^ 32
  | Slti => if signed_value a <? signed_value i then 1 else 0
  | Sltiu => if a <? i then 1 else 0
  | Xori => Z.lxor a i
  | Ori => Z.lor a i
  | Andi => Z.land a i
  | Slli => shifted_left a i
  | Srli => shifted_right a i
  | Srai => shifted_right (signed_value a) i mod 2 ^ 32
  | Add => (a + b) mod 2 ^ 32
  | Sub => (a - b) mod 2 ^ 32
  | Sll => shifted_left a b
  | Slt => if signed_value a <? signed_value b then 1 else 0
  | Sltu => if a <? b then 1 else 0
  | Xor => Z.lxor a b
  | Srl => shifted_right a b
  | Sra => shifted_right (signed_value a) b mod 2 ^ 32
  | Or => Z.lor a b
  | And => Z.land a b
  | _ => 0
  end.

Definition access_address (d : Decoded) (a : Z) : Z :=
  match access_kind (op d) with MemNone => 0 | _ => (a + immediate d) mod 2 ^ 32 end.

Definition stored (d : Decoded) (b : Z) : Z := match access_kind (op d) with MemStore => b | _ => 0 end.

Definition extends (o : Op) : bool := match o with Lb | Lh => true | _ => false end.

(** Shifts as the code writes them. *)
Lemma shift_amount n : n .& 31 = n mod 32.
Proof. by rewrite (land_mask n 5) by (lia || reflexivity). Qed.

Lemma shifted_left_eq x n : wrap32 (x <<< (n .& 31)) = shifted_left x n.
Proof.
  rewrite shift_amount. pose proof (Z.mod_pos_bound n 32 ltac:(lia)).
  by rewrite Z.shiftl_mul_pow2 by lia.
Qed.

Lemma shifted_right_eq x n : x >>> (n .& 31) = shifted_right x n.
Proof.
  rewrite shift_amount. pose proof (Z.mod_pos_bound n 32 ltac:(lia)).
  by rewrite Z.shiftr_div_pow2 by lia.
Qed.

Lemma shifted_right_u32 x n : u32 x -> u32 (shifted_right x n).
Proof. rewrite <-shifted_right_eq. intros H. apply u32_shiftr; [done|]. by apply register_field_bound. Qed.

Lemma result_value_u32 d pc a b : decoded_wf d -> u32 a -> u32 b -> u32 (result_value d pc a b).
Proof.
  intros [_ Hi _ _ _] Ha Hb. unfold result_value. set (i := immediate d) in *. clearbody i.
  assert (Hmod : forall z, u32 (z mod 2 ^ 32)) by (intros z; exact (wrap32_u32 z)).
  assert (Hbit : forall c : bool, u32 (if c then 1 else 0)) by exact of_bool_u32.
  destruct (op d); cbv beta iota zeta; try apply Hmod; try apply Hbit;
    first [ done | by apply u32_lxor | by apply u32_lor | by apply u32_land | by apply shifted_right_u32
          | unfold u32, max32; lia ].
Qed.

Lemma successor_aligned pc : pc .& 3 = 0 -> wrap32 (pc + 4) .& 3 = 0.
Proof.
  rewrite !(land_mask _ 2) by (lia || reflexivity). change (2 ^ 2) with 4. unfold wrap32. intros H. lia_div.
Qed.

Lemma successor_u32 d pc a b : u32 (successor d pc a b).
Proof.
  unfold successor, transfer_target. destruct (transfers d a b); [|apply wrap32_u32].
  destruct (op d); try apply wrap32_u32. apply u32_land, wrap32_u32.
Qed.

(** C17. What an instruction does.  [evaluate] fails on a misaligned PC, on ECALL, on EBREAK and on a jump
    or taken branch to a misaligned target, with the fault of each, and on nothing else.  Otherwise
    control goes to the architectural successor, [branch_taken] says whether it is a transfer, the
    result is the operation's arithmetic on 32-bit numbers, and a memory access has the operation's
    kind, width and sign extension, the sum of base and offset as its address and, for a store, the
    second operand as its value. *)
Theorem evaluate_effect (d : Decoded) (pc a b : Z) :
  decoded_wf d -> u32 pc -> u32 a -> u32 b ->
  match evaluate d pc a b with
  | Ok e =>
      pc .& 3 = 0 /\ op d <> Ecall /\ op d <> Ebreak /\
      next_pc e = successor d pc a b /\ u32 (next_pc e) /\ next_pc e .& 3 = 0 /\
      branch_taken e = transfers d a b /\
      eff_value e = result_value d pc a b /\ u32 (eff_value e) /\ eff_writes_rd e = writes_rd d /\
      memory e = access_kind (op d) /\ width e = access_width (op d) /\
      sign_extend_load e = extends (op d) /\ address e = access_address d a /\ u32 (address e) /\
      store_value e = stored d b
  | Fault code =>
      pc .& 3 <> 0 /\ code = InstructionMisaligned \/
      pc .& 3 = 0 /\
      (op d = Ecall /\ code = EnvironmentCall \/ op d = Ebreak /\ code = Breakpoint \/
       transfers d a b = true /\ transfer_target d pc a .& 3 <> 0 /\ code = InstructionMisaligned)
  end.
Proof.
  intros Hd Hpc Ha Hb. unfold evaluate. destruct (Z.eqb_spec (pc .& 3) 0) as [Hal|Hal]; [|by left].
  pose proof (successor_aligned pc Hal) as Hseq. pose proof (successor_u32 d pc a b) as Hnext.
  pose proof (result_value_u32 d pc a b Hd Ha Hb) as Hres.
  assert (Hadr : u32 (access_address d a)).
  { unfold access_address. destruct (access_kind (op d)); [unfold u32, max32; lia | apply wrap32_u32..]. }
  revert Hnext Hres Hadr.
  unfold successor, transfers, transfer_target, result_value, access_address, stored.
  destruct (op d) eqn:Eop; simpl; unfold require, sar;
  rewrite ?shifted_left_eq, ?shifted_right_eq;
  repeat match goal with
  | |- context [if ?c then _ else _] =>
      lazymatch c with context [if _ then _ else _] => fail | _ => destruct c eqn:?; simpl end
  end; intros Hnext Hres Hadr; try congruence;
  try (by right; split; [done | right; right; reflect]); try (by right; split; auto);
  split_and!; try done; by reflect.
Qed.

Lemma evaluate_effect_witness :
  exists d, decode 0xfe0598e3 = Ok d /\
  match evaluate d 100 1 2 with
  | Ok e =>
      100 .& 3 = 0 /\ op d <> Ecall /\ op d <> Ebreak /\
      next_pc e = successor d 100 1 2 /\ u32 (next_pc e) /\ next_pc e .& 3 = 0 /\
      branch_taken e = transfers d 1 2 /\
      eff_value e = result_value d 100 1 2 /\ u32 (eff_value e) /\ eff_writes_rd e = writes_rd d /\
      memory e = access_kind (op d) /\ width e = access_width (op d) /\
      sign_extend_load e = extends (op d) /\ address e = access_address d 1 /\ u32 (address e) /\
      store_value e = stored d 2
  | Fault code =>
      100 .& 3 <> 0 /\ code = InstructionMisaligned \/
      100 .& 3 = 0 /\
      (op d = Ecall /\ code = EnvironmentCall \/ op d = Ebreak /\ code = Breakpoint \/
       transfers d 1 2 = true /\ transfer_target d 100 1 .& 3 <> 0 /\ code = InstructionMisaligned)
  end.
Proof.
  eexists. split; [vm_compute; reflexivity|].
  apply evaluate_effect; [constructor | ..]; unfold u32, max32; simpl; lia.
Defined.

(** A store of 0xbeef to the word below address 0x1000, and a logical against an arithmetic shift. *)
Example store_effect :
  (let? d := decode 0xfe52ae23 in evaluate d 8 0x1000 0xbeef) =
    Ok (mkEffect 12 0 0xffc 0xbeef false false false MemStore 4).
Proof. vm_compute. reflexivity. Qed.

Example shift_results :
  let d o := mkDecoded o 0 0 1 2 3 true true true in
  result_value (d Srl) 0 0x80000010 36 = 0x08000001 /\ result_value (d Sra) 0 0x80000010 36 = 0xf8000001.
Proof. vm_compute. done. Qed.
