(* ===== verification/IsaEncoding.v ===== *)
(** * The decoder against the instruction formats

    A reference encoder written from the format tables: R, I, S, B, U, J, the shift-immediate form, FENCE
    and the system instructions of RV32I, and the control instructions of docs/interfaces.md ("Quantum
    instruction encoding").  The two theorems make [decode] its inverse on every instruction. *)

From S2P Require Import Prelude Error Isa.

Inductive Format :=
| FmtR (opcode f3 f7 : Z)
| FmtI (opcode f3 : Z)
| FmtShift (opcode f3 f7 : Z)
| FmtS (opcode f3 : Z)
| FmtB (opcode f3 : Z)
| FmtU (opcode : Z)
| FmtJ (opcode : Z)
| FmtSystem (w : Z)
| FmtFence
| FmtCw (mode : Z)
| FmtWait
| FmtLong (f3 : Z)
| FmtFmr.

(** The operations that have one format. *)
Definition format_of (o : Op) : option Format :=
  match o with
  | Lui => Some (FmtU 0x37) | Auipc => Some (FmtU 0x17)
  | Jal => Some (FmtJ 0x6f) | Jalr => Some (FmtI 0x67 0)
  | Beq => Some (FmtB 0x63 0) | Bne => Some (FmtB 0x63 1) | Blt => Some (FmtB 0x63 4)
  | Bge => Some (FmtB 0x63 5) | Bltu => Some (FmtB 0x63 6) | Bgeu => Some (FmtB 0x63 7)
  | Lb => Some (FmtI 0x03 0) | Lh => Some (FmtI 0x03 1) | Lw => Some (FmtI 0x03 2)
  | Lbu => Some (FmtI 0x03 4) | Lhu => Some (FmtI 0x03 5)
  | Sb => Some (FmtS 0x23 0) | Sh => Some (FmtS 0x23 1) | Sw => Some (FmtS 0x23 2)
  | Addi => Some (FmtI 0x13 0) | Slti => Some (FmtI 0x13 2) | Sltiu => Some (FmtI 0x13 3)
  | Xori => Some (FmtI 0x13 4) | Ori => Some (FmtI 0x13 6) | Andi => Some (FmtI 0x13 7)
  | Slli => Some (FmtShift 0x13 1 0) | Srli => Some (FmtShift 0x13 5 0)
  | Srai => Some (FmtShift 0x13 5 32)
  | Add => Some (FmtR 0x33 0 0) | Sub => Some (FmtR 0x33 0 32) | Sll => Some (FmtR 0x33 1 0)
  | Slt => Some (FmtR 0x33 2 0) | Sltu => Some (FmtR 0x33 3 0) | Xor => Some (FmtR 0x33 4 0)
  | Srl => Some (FmtR 0x33 5 0) | Sra => Some (FmtR 0x33 5 32) | Or => Some (FmtR 0x33 6 0)
  | And => Some (FmtR 0x33 7 0)
  | Ecall => Some (FmtSystem 0x73) | Ebreak => Some (FmtSystem 0x100073)
  | Fence | Quantum => None
  end.

(** The formats of an operation: [cw.r.r], [cw.i.r], [cw.r.i], [cw.i.i], [wait.r], [wait.i], [fmr] and
    [sync] are the control instructions. *)
Definition formats_of (o : Op) : list Format :=
  match o with
  | Fence => [FmtFence]
  | Quantum => [FmtCw 0; FmtCw 1; FmtCw 2; FmtCw 3; FmtWait; FmtLong 2; FmtFmr; FmtLong 6]
  | _ => match format_of o with Some f => [f] | None => [] end
  end.

(** Bits [hi..lo] of an immediate, [n] of them starting at [lo]. *)
Definition field (imm lo n : Z) : Z := (imm / 2 ^ lo) mod 2 ^ n.

(** Assemble a word from register numbers and an immediate: of 32 bits in the formats of RV32I, the
    ordering bits 31..20 of FENCE, the 17-bit field of [wait.i] and [sync]. *)
Definition encode (f : Format) (rd rs1 rs2 imm : Z) : Z :=
  match f with
  | FmtR opc f3 f7 =>
      opc + rd * 2 ^ 7 + f3 * 2 ^ 12 + rs1 * 2 ^ 15 + rs2 * 2 ^ 20 + f7 * 2 ^ 25
  | FmtI opc f3 => opc + rd * 2 ^ 7 + f3 * 2 ^ 12 + rs1 * 2 ^ 15 + field imm 0 12 * 2 ^ 20
  | FmtShift opc f3 f7 =>
      opc + rd * 2 ^ 7 + f3 * 2 ^ 12 + rs1 * 2 ^ 15 + imm * 2 ^ 20 + f7 * 2 ^ 25
  | FmtS opc f3 =>
      opc + field imm 0 5 * 2 ^ 7 + f3 * 2 ^ 12 + rs1 * 2 ^ 15 + rs2 * 2 ^ 20 +
      field imm 5 7 * 2 ^ 25
  | FmtB opc f3 =>
      opc + field imm 11 1 * 2 ^ 7 + field imm 1 4 * 2 ^ 8 + f3 * 2 ^ 12 + rs1 * 2 ^ 15 +
      rs2 * 2 ^ 20 + field imm 5 6 * 2 ^ 25 + field imm 12 1 * 2 ^ 31
  | FmtU opc => opc + rd * 2 ^ 7 + field imm 12 20 * 2 ^ 12
  | FmtJ opc =>
      opc + rd * 2 ^ 7 + field imm 12 8 * 2 ^ 12 + field imm 11 1 * 2 ^ 20 +
      field imm 1 10 * 2 ^ 21 + field imm 20 1 * 2 ^ 31
  | FmtSystem w => w
  | FmtFence => 0x0f + rd * 2 ^ 7 + rs1 * 2 ^ 15 + imm * 2 ^ 20
  | FmtCw mode => 0x0b + rs1 * 2 ^ 15 + rs2 * 2 ^ 20 + mode * 2 ^ 25
  | FmtWait => 0x0b + 1 * 2 ^ 12 + rs1 * 2 ^ 15
  | FmtLong f3 => 0x0b + f3 * 2 ^ 12 + imm * 2 ^ 15
  | FmtFmr => 0x0b + rd * 2 ^ 7 + 3 * 2 ^ 12 + rs1 * 2 ^ 15
  end.

(** The immediates a format can express. *)
Definition valid_immediate (f : Format) (imm : Z) : Prop :=
  match f with
  | FmtR _ _ _ | FmtSystem _ | FmtCw _ | FmtWait | FmtFmr => imm = 0
  | FmtFence => 0 <= imm < 4096
  | FmtLong _ => 0 <= imm < 131072
  | FmtI _ _ | FmtS _ _ => u32 imm /\ -2048 <= signed_value imm < 2048
  | FmtShift _ _ _ => 0 <= imm < 32
  | FmtB _ _ => u32 imm /\ -4096 <= signed_value imm < 4096 /\ imm mod 2 = 0
  | FmtU _ => u32 imm /\ imm mod 4096 = 0
  | FmtJ _ => u32 imm /\ -1048576 <= signed_value imm < 1048576 /\ imm mod 2 = 0
  end.

(** The immediate the decoder reports: it leaves FENCE's and the long control field in the word. *)
Definition shown_immediate (f : Format) (imm : Z) : Z :=
  match f with FmtFence | FmtLong _ => 0 | _ => imm end.

(** The register fields a format has. *)
Definition has_rd (f : Format) : bool :=
  match f with
  | FmtS _ _ | FmtB _ _ | FmtSystem _ | FmtCw _ | FmtWait | FmtLong _ => false
  | _ => true
  end.
Definition has_rs1 (f : Format) : bool :=
  match f with FmtU _ | FmtJ _ | FmtSystem _ | FmtLong _ => false | _ => true end.
Definition has_rs2 (f : Format) : bool :=
  match f with FmtR _ _ _ | FmtS _ _ | FmtB _ _ | FmtCw _ => true | _ => false end.

(** The registers among them an instruction writes and reads: a field of a codeword may hold an
    immediate, [fmr]'s first field is a qubit index, FENCE's are reserved. *)
Definition uses_rd (f : Format) : bool :=
  match f with FmtFence => false | _ => has_rd f end.
Definition uses_rs1 (f : Format) : bool :=
  match f with FmtFence | FmtFmr => false | FmtCw mode => (mode =? 0) || (mode =? 2) | _ => has_rs1 f end.
Definition uses_rs2 (f : Format) : bool :=
  match f with FmtCw mode => (mode =? 0) || (mode =? 1) | _ => has_rs2 f end.

(** ** Field extraction *)
Lemma imm_j_arith w : u32 w ->
  ((w >>> 31) <<< 20) .| (w .& 0xff000) .| (((w >>> 20) .& 1) <<< 11) .|
    (((w >>> 21) .& 1023) <<< 1) =
  w / 2147483648 * 1048576 + w / 4096 mod 256 * 4096 + w / 1048576 mod 2 * 2048 +
    w / 2097152 mod 1024 * 2.
Proof.
  intros Hw. unfold u32, max32 in Hw.
  rewrite (land_field w 12 8 0xff000) by (lia || reflexivity).
  bits_to_arith. change (2 ^ 12) with 4096. change (2 ^ 8) with 256.
  rewrite (lor_disjoint (w / 2147483648 * 1048576) _ 20) by (lia || (change (2 ^ 20) with 1048576; lia_div)).
  rewrite (lor_disjoint (_ + _) _ 12) by (lia || (change (2 ^ 12) with 4096; lia_div)).
  rewrite (lor_disjoint (_ + _) _ 11) by (lia || (change (2 ^ 11) with 2048; lia_div)).
  done.
Qed.

Lemma imm_b_arith w : u32 w ->
  ((w >>> 31) <<< 12) .| (((w >>> 7) .& 1) <<< 11) .| (((w >>> 25) .& 63) <<< 5) .|
    (((w >>> 8) .& 15) <<< 1) =
  w / 2147483648 * 4096 + w / 128 mod 2 * 2048 + w / 33554432 mod 64 * 32 + w / 256 mod 16 * 2.
Proof.
  intros Hw. unfold u32, max32 in Hw. bits_to_arith.
  rewrite (lor_disjoint (w / 2147483648 * 4096) _ 12) by (lia || (change (2 ^ 12) with 4096; lia_div)).
  rewrite (lor_disjoint (_ + _) _ 11) by (lia || (change (2 ^ 11) with 2048; lia_div)).
  rewrite (lor_disjoint (_ + _) _ 5) by (lia || (change (2 ^ 5) with 32; lia_div)).
  done.
Qed.

Lemma imm_s_arith w : u32 w ->
  ((w >>> 25) <<< 5) .| ((w >>> 7) .& 31) = w / 33554432 * 32 + w / 128 mod 32.
Proof.
  intros Hw. unfold u32, max32 in Hw. bits_to_arith.
  by rewrite (lor_disjoint _ _ 5) by (lia || (change (2 ^ 5) with 32; lia_div)).
Qed.

Lemma imm_u_arith w : u32 w -> w .& 0xfffff000 = w / 4096 * 4096.
Proof.
  intros Hw. unfold u32, max32 in Hw.
  rewrite (land_field w 12 20 0xfffff000) by (lia || reflexivity).
  change (2 ^ 12) with 4096. change (2 ^ 20) with 1048576. lia_div.
Qed.

(** [decode] with its fields as quotients and remainders. *)
Ltac pow_literals :=
  repeat match goal with
  | |- context [2 ^ ?n] => literal n; let p := eval vm_compute in (2 ^ n) in change (2 ^ n) with p
  end.

Lemma switch_ok {A} x (cases : list (Z * A)) a :
  switch x cases = Ok a -> exists n, x = n /\ (n, a) ∈ cases.
Proof.
  induction cases as [|[n b] cases IH]; simpl; [done|].
  destruct (Z.eqb_spec x n) as [->|]; [intros [= ->]; exists n; split; [done | left]|].
  intros H. destruct (IH H) as (m & ? & ?). exists m. split; [done | by right].
Qed.

(** The sign-extended fields, as the immediates a format can express. *)
Definition sext (v b : Z) : Z :=
  if v mod 2 ^ b <? 2 ^ (b - 1) then v mod 2 ^ b else v mod 2 ^ b - 2 ^ b + 4294967296.

Lemma sign_extend_sext v b : 0 < b <= 32 -> u32 v -> sign_extend v b = Ok (sext v b).
Proof.
  intros Hb Hv. rewrite sign_extend_closed by done. unfold sext. f_equal.
  assert (Hle : 0 < 2 ^ b <= 2 ^ 32)
    by (split; [apply Z.pow_pos_nonneg | apply Z.pow_le_mono_r]; lia).
  change (2 ^ 32) with 4294967296 in Hle.
  pose proof (Z.mod_pos_bound v (2 ^ b) ltac:(lia)).
  destruct (_ <? _); [done|]. unfold wrap32.
  rewrite <-(Z.mod_add _ 1), Z.mul_1_l by lia. apply Z.mod_small. lia.
Qed.

Ltac decode_arith :=
  unfold decode; rewrite ?imm_j_arith, ?imm_b_arith, ?imm_s_arith, ?imm_u_arith by done;
  bits_to_arith; rewrite !sign_extend_sext by (unfold u32, max32 in *; lia || lia_div);
  cbn [result_bind].

Ltac close_case := unfold encode, field, valid_immediate, signed_value, sext, u32, max32 in *;
  cbn [rd rs1 rs2 immediate] in *; pow_literals;
  repeat match goal with
  | |- context [?a <? ?b] => destruct (Z.ltb_spec a b)
  | H : context [?a <? ?b] |- _ => destruct (Z.ltb_spec a b)
  end; try lia_div.

(** Each format: the fields the decoder extracts rebuild the word. *)
Section Rebuild.
Context (w : Z) (Hw : u32 w).

Lemma rebuild_I opc f3 r2 :
  w mod 128 = opc -> w / 4096 mod 8 = f3 ->
  encode (FmtI opc f3) (w / 128 mod 32) (w / 32768 mod 32) r2 (sext (w / 1048576) 12) = w /\
  valid_immediate (FmtI opc f3) (sext (w / 1048576) 12).
Proof. intros. split; close_case. all: split; lia_div. Qed.

Lemma rebuild_shift opc f3 f7 r2 :
  w mod 128 = opc -> w / 4096 mod 8 = f3 -> w / 33554432 = f7 ->
  encode (FmtShift opc f3 f7) (w / 128 mod 32) (w / 32768 mod 32) r2 (w / 1048576 mod 32) = w /\
  valid_immediate (FmtShift opc f3 f7) (w / 1048576 mod 32).
Proof. intros. split; close_case. Qed.

Lemma rebuild_R opc f3 f7 imm :
  w mod 128 = opc -> w / 4096 mod 8 = f3 -> w / 33554432 = f7 -> imm = 0 ->
  encode (FmtR opc f3 f7) (w / 128 mod 32) (w / 32768 mod 32) (w / 1048576 mod 32) imm = w /\
  valid_immediate (FmtR opc f3 f7) imm.
Proof. intros. split; close_case. Qed.

Lemma rebuild_S opc f3 r :
  w mod 128 = opc -> w / 4096 mod 8 = f3 ->
  encode (FmtS opc f3) r (w / 32768 mod 32) (w / 1048576 mod 32)
    (sext (w / 33554432 * 32 + w / 128 mod 32) 12) = w /\
  valid_immediate (FmtS opc f3) (sext (w / 33554432 * 32 + w / 128 mod 32) 12).
Proof. intros. split; close_case. all: split; lia_div. Qed.

Lemma rebuild_B opc f3 r :
  w mod 128 = opc -> w / 4096 mod 8 = f3 ->
  let i := w / 2147483648 * 4096 + w / 128 mod 2 * 2048 + w / 33554432 mod 64 * 32 +
           w / 256 mod 16 * 2 in
  encode (FmtB opc f3) r (w / 32768 mod 32) (w / 1048576 mod 32) (sext i 13) = w /\
  valid_immediate (FmtB opc f3) (sext i 13).
Proof. intros. subst i. split; close_case. all: split; [|split]; lia_div. Qed.

Lemma rebuild_U opc r1 r2 :
  w mod 128 = opc ->
  encode (FmtU opc) (w / 128 mod 32) r1 r2 (w / 4096 * 4096) = w /\
  valid_immediate (FmtU opc) (w / 4096 * 4096).
Proof. intros. split; close_case. Qed.

Lemma rebuild_J opc r1 r2 :
  w mod 128 = opc ->
  let i := w / 2147483648 * 1048576 + w / 4096 mod 256 * 4096 + w / 1048576 mod 2 * 2048 +
           w / 2097152 mod 1024 * 2 in
  encode (FmtJ opc) (w / 128 mod 32) r1 r2 (sext i 21) = w /\
  valid_immediate (FmtJ opc) (sext i 21).
Proof. intros. subst i. split; close_case. all: split; [|split]; lia_div. Qed.
End Rebuild.

Ltac split_switch :=
  repeat match goal with
  | H : switch _ _ = Ok _ |- _ =>
    apply switch_ok in H as (? & ? & H);
    repeat (apply elem_of_cons in H as [[= -> ->]|H]); try (by apply elem_of_nil in H)
  end.

(** What an accepted word says about its instruction. *)
Record encoded_as (f : Format) (imm : Z) (d : Decoded) (w : Z) : Prop := {
  en_word : encode f (rd d) (rs1 d) (rs2 d) imm = w;
  en_immediate : valid_immediate f imm /\ shown_immediate f imm = immediate d;
  en_uses : writes_rd d = uses_rd f /\ reads_rs1 d = uses_rs1 f /\ reads_rs2 d = uses_rs2 f }.

(** The operations with one format. *)
Lemma accepted_base w d f :
  u32 w -> decode w = Ok d -> format_of (op d) = Some f -> encoded_as f (immediate d) d w.
Proof.
  intros Hw H Hf.
  enough ((encode f (rd d) (rs1 d) (rs2 d) (immediate d) = w /\ valid_immediate f (immediate d)) /\
    shown_immediate f (immediate d) = immediate d /\
    writes_rd d = uses_rd f /\ reads_rs1 d = uses_rs1 f /\ reads_rs2 d = uses_rs2 f) as ([? ?] & ? & ?)
    by by constructor.
  revert H. decode_arith.
  repeat match goal with
  | |- context [if ?b then _ else _] => destruct b eqn:?
  end; intros H; inv_ok H; reflect;
  repeat match goal with H : _ \/ _ |- _ => destruct H; reflect end;
  split_switch; simpl in *; simplify_eq; try lia; (split; [|done]);
  first [ by apply rebuild_I | by apply rebuild_S | by apply rebuild_B | by apply rebuild_U
        | by apply rebuild_J | by apply rebuild_R | by apply rebuild_shift | by split ].
Qed.

(** The control words the contract admits, with their fields as quotients and remainders. *)
Lemma valid_control_arith w : u32 w ->
  valid_control_word w =
  ((w mod 128 =? 11) &&
   match control_function (w / 4096 mod 8) with
   | Some CodewordF => (w / 33554432 <=? 3) && (w / 128 mod 32 =? 0)
   | Some WaitF => (w / 33554432 =? 0) && (w / 128 mod 32 =? 0) && (w / 1048576 mod 32 =? 0)
   | Some WaitImmediateF | Some SynchronizeF => w / 128 mod 32 =? 0
   | Some FetchMeasurementF => (w / 33554432 =? 0) && (w / 1048576 mod 32 =? 0)
   | None => false
   end).
Proof.
  intros Hw. unfold valid_control_word, ControlOpcode. bits_to_arith. by destruct (w mod 128 =? 11).
Qed.

Lemma control_function_some f c : control_function f = Some c ->
  f = match c with CodewordF => 0 | WaitF => 1 | WaitImmediateF => 2 | FetchMeasurementF => 3 | SynchronizeF => 6 end.
Proof.
  intros H. unfold control_function in H.
  repeat match type of H with context [if ?b then _ else _] => destruct b eqn:? end;
    try discriminate H; injection H as <-; by reflect.
Qed.

(** Which registers a control word uses. *)
Definition control_uses (w : Z) : bool * bool * bool :=
  let f3 := w / 4096 mod 8 in
  let f7 := w / 33554432 in
  (f3 =? 3, ((f3 =? 0) && (f7 .& 1 =? 0)) || (f3 =? 1), (f3 =? 0) && (f7 .& 2 =? 0)).

Lemma control_word_format w : u32 w -> valid_control_word w = true ->
  exists f imm, f ∈ formats_of Quantum /\ valid_immediate f imm /\ shown_immediate f imm = 0 /\
    encode f (w / 128 mod 32) (w / 32768 mod 32) (w / 1048576 mod 32) imm = w /\
    (uses_rd f, uses_rs1 f, uses_rs2 f) = control_uses w.
Proof.
  intros Hw H. rewrite valid_control_arith in H by done. apply andb_true_iff in H as [Ho H].
  apply Z.eqb_eq in Ho. unfold u32, max32 in Hw. unfold control_uses.
  destruct (control_function _) as [c|] eqn:Ef; [|done]. apply control_function_some in Ef.
  assert (Hin : forall f, f ∈ formats_of Quantum <-> In f (formats_of Quantum)) by (intros; apply list_elem_of_In).
  rewrite Ef. destruct c; reflect.
  - exists (FmtCw (w / 33554432)), 0. assert (Hm : w / 33554432 ∈ [0; 1; 2; 3]).
    { rewrite !elem_of_cons. assert (0 <= w / 33554432) by (apply Z.div_pos; lia). lia. }
    split_and!; [| done | done | close_case |].
    + rewrite Hin. rewrite !elem_of_cons, elem_of_nil in Hm. simpl. destruct Hm as [->|[->|[->|[->|[]]]]]; tauto.
    + rewrite !elem_of_cons, elem_of_nil in Hm. destruct Hm as [->|[->|[->|[->|[]]]]]; reflexivity.
  - exists FmtWait, 0. split_and!; [rewrite Hin; simpl; tauto | done | done | close_case | reflexivity].
  - exists (FmtLong 2), (w / 32768). split_and!; [rewrite Hin; simpl; tauto | close_case | done | close_case | reflexivity].
  - exists FmtFmr, 0. split_and!; [rewrite Hin; simpl; tauto | done | done | close_case | reflexivity].
  - exists (FmtLong 6), (w / 32768). split_and!; [rewrite Hin; simpl; tauto | close_case | done | close_case | reflexivity].
Qed.

(** FENCE and the control words. *)
Lemma accepted_fence w d :
  u32 w -> decode w = Ok d -> op d = Fence -> encoded_as FmtFence (w / 1048576) d w.
Proof.
  intros Hw H Hf.
  enough ((encode FmtFence (rd d) (rs1 d) (rs2 d) (w / 1048576) = w /\ valid_immediate FmtFence (w / 1048576)) /\
    0 = immediate d /\ writes_rd d = false /\ reads_rs1 d = false /\ reads_rs2 d = false) as ([? ?] & ? & ?)
    by by constructor.
  revert H. decode_arith.
  repeat match goal with |- context [if ?b then _ else _] => destruct b eqn:? end;
    intros H; inv_ok H; split_switch; simpl in Hf; try discriminate; reflect.
  cbn [rd rs1 rs2 immediate writes_rd reads_rs1 reads_rs2 update]. split; [|done]. split; close_case.
Qed.

Lemma accepted_control w d :
  u32 w -> decode w = Ok d -> op d = Quantum ->
  exists f imm, f ∈ formats_of Quantum /\ encoded_as f imm d w.
Proof.
  intros Hw H Hf.
  enough (valid_control_word w = true /\ (rd d, rs1 d, rs2 d) = (w / 128 mod 32, w / 32768 mod 32, w / 1048576 mod 32) /\
    immediate d = 0 /\ (writes_rd d, reads_rs1 d, reads_rs2 d) = control_uses w) as (Hv & [= E1 E2 E3] & E4 & E5).
  { destruct (control_word_format w Hw Hv) as (f & imm & Hin & Hi & Hs & He & Hu). rewrite <-E5 in Hu.
    injection Hu as U1 U2 U3. exists f, imm. split; [done|]. constructor; [by rewrite E1, E2, E3 | split; congruence | done]. }
  unfold control_uses. revert H. decode_arith.
  repeat match goal with |- context [if ?b then _ else _] => destruct b eqn:? end;
    intros H; inv_ok H; split_switch; simpl in Hf; try discriminate; reflect.
  simpl. split_and!; [done..|]. unfold control_uses. by bits_to_arith.
Qed.

(** Nothing but [IllegalInstruction] is reported. *)
Lemma decode_fault w e : u32 w -> decode w = Fault e -> e = IllegalInstruction.
Proof.
  intros Hw. decode_arith.
  assert (Hsw : forall A x (cases : list (Z * A)) e, switch x cases = Fault e -> e = IllegalInstruction).
  { intros A x cases e'. induction cases as [|[n a] cases IH]; simpl; [by intros [= <-]|].
    by destruct (x =? n). }
  unfold require. repeat match goal with
  | |- context [if ?b then _ else _] => destruct b eqn:?; simpl
  | |- context [switch ?x ?c] => destruct (switch x c) eqn:?; simpl
  end; try discriminate; intros [= <-]; try done; by eapply Hsw.
Qed.

(** C18. Soundness of [decode].  Whatever word it accepts is exactly the encoding, in a format of the
    operation it returns, of the fields it returns: for RV32I, FENCE and the control instructions
    alike, the immediate is one the format can express, and the register-use flags are the format's.
    Any other word is [IllegalInstruction]. *)
Theorem encode_decode (w : Z) :
  u32 w ->
  match decode w with
  | Ok d => word d = w /\ exists f imm, f ∈ formats_of (op d) /\ encoded_as f imm d w
  | Fault e => e = IllegalInstruction
  end.
Proof.
  intros Hw. destruct (decode w) as [d|e] eqn:H; [|by apply (decode_fault w)].
  split; [by apply decode_wf|]. destruct (format_of (op d)) as [f|] eqn:Ef.
  - exists f, (immediate d). split; [|by apply accepted_base].
    unfold formats_of. rewrite Ef. destruct (op d); try (by apply list_elem_of_singleton); discriminate.
  - destruct (op d) eqn:Eo; try discriminate Ef.
    + exists FmtFence, (w / 1048576). split; [by apply list_elem_of_singleton | by apply accepted_fence].
    + by apply accepted_control.
Qed.

(** A branch, and [cw.i.r] with port 5 and its codeword in register 6. *)
Lemma encode_decode_witness :
  (exists d, decode 0xfe0598e3 = Ok d /\ word d = 0xfe0598e3 /\
    exists f imm, f ∈ formats_of (op d) /\ encoded_as f imm d 0xfe0598e3) /\
  (exists d, decode 0x0262800b = Ok d /\ word d = 0x0262800b /\
    exists f imm, f ∈ formats_of (op d) /\ encoded_as f imm d 0x0262800b).
Proof.
  split; eexists; (split; [vm_compute; reflexivity|]).
  - exact (encode_decode 0xfe0598e3 ltac:(unfold u32, max32; lia)).
  - exact (encode_decode 0x0262800b ltac:(unfold u32, max32; lia)).
Defined.

(** Each format: the fields of an assembled word are the ones it was assembled from. *)
Section Fields.
Context (opc f3 f7 r r1 r2 imm : Z).
Context (Hopc : 0 <= opc < 128) (Hf3 : 0 <= f3 < 8) (Hf7 : 0 <= f7 < 128).
Context (Hr : 0 <= r < 32) (Hr1 : 0 <= r1 < 32) (Hr2 : 0 <= r2 < 32).

Lemma fields_R w :
  w = encode (FmtR opc f3 f7) r r1 r2 imm ->
  u32 w /\ w mod 128 = opc /\ w / 128 mod 32 = r /\ w / 4096 mod 8 = f3 /\
  w / 32768 mod 32 = r1 /\ w / 1048576 mod 32 = r2 /\ w / 33554432 = f7.
Proof using All. intros ->. split_and!; close_case. Qed.

Lemma fields_I w :
  valid_immediate (FmtI opc f3) imm -> w = encode (FmtI opc f3) r r1 r2 imm ->
  u32 w /\ w mod 128 = opc /\ w / 128 mod 32 = r /\ w / 4096 mod 8 = f3 /\
  w / 32768 mod 32 = r1 /\ sext (w / 1048576) 12 = imm.
Proof using All. intros [Hi Hs] ->. split_and!; close_case. Qed.

Lemma fields_shift w :
  valid_immediate (FmtShift opc f3 f7) imm -> w = encode (FmtShift opc f3 f7) r r1 r2 imm ->
  u32 w /\ w mod 128 = opc /\ w / 128 mod 32 = r /\ w / 4096 mod 8 = f3 /\
  w / 32768 mod 32 = r1 /\ w / 1048576 mod 32 = imm /\ w / 33554432 = f7.
Proof using All. intros Hi ->. unfold valid_immediate in Hi. split_and!; close_case. Qed.

Lemma fields_S w :
  valid_immediate (FmtS opc f3) imm -> w = encode (FmtS opc f3) r r1 r2 imm ->
  u32 w /\ w mod 128 = opc /\ w / 4096 mod 8 = f3 /\ w / 32768 mod 32 = r1 /\
  w / 1048576 mod 32 = r2 /\ sext (w / 33554432 * 32 + w / 128 mod 32) 12 = imm.
Proof using All. intros [Hi Hs] ->. split_and!; close_case. Qed.

Lemma fields_U w :
  valid_immediate (FmtU opc) imm -> w = encode (FmtU opc) r r1 r2 imm ->
  u32 w /\ w mod 128 = opc /\ w / 128 mod 32 = r /\ w / 4096 * 4096 = imm.
Proof using All. intros [Hi Hs] ->. split_and!; close_case. Qed.

Lemma fields_B w :
  valid_immediate (FmtB opc f3) imm -> w = encode (FmtB opc f3) r r1 r2 imm ->
  u32 w /\ w mod 128 = opc /\ w / 4096 mod 8 = f3 /\ w / 32768 mod 32 = r1 /\
  w / 1048576 mod 32 = r2 /\
  sext (w / 2147483648 * 4096 + w / 128 mod 2 * 2048 + w / 33554432 mod 64 * 32 +
        w / 256 mod 16 * 2) 13 = imm.
Proof using All.
  intros (Hi & Hs & He) Hw.
  assert (Hparts : w / 128 mod 2 = field imm 11 1 /\ w / 256 mod 16 = field imm 1 4 /\
    w / 33554432 mod 64 = field imm 5 6 /\ w / 2147483648 = field imm 12 1).
  { rewrite Hw. unfold encode. pow_literals.
    assert (0 <= field imm 11 1 < 2 /\ 0 <= field imm 1 4 < 16 /\ 0 <= field imm 5 6 < 64 /\
      0 <= field imm 12 1 < 2) by (unfold field; split_and!; pow_literals; lia_div).
    split_and!; lia_div. }
  destruct Hparts as (-> & -> & -> & ->). split_and!; [subst w; close_case..|].
  clear Hw. close_case.
Qed.

Lemma fields_J w :
  valid_immediate (FmtJ opc) imm -> w = encode (FmtJ opc) r r1 r2 imm ->
  u32 w /\ w mod 128 = opc /\ w / 128 mod 32 = r /\
  sext (w / 2147483648 * 1048576 + w / 4096 mod 256 * 4096 + w / 1048576 mod 2 * 2048 +
        w / 2097152 mod 1024 * 2) 21 = imm.
Proof using All.
  intros (Hi & Hs & He) Hw.
  assert (Hparts : w / 4096 mod 256 = field imm 12 8 /\ w / 1048576 mod 2 = field imm 11 1 /\
    w / 2097152 mod 1024 = field imm 1 10 /\ w / 2147483648 = field imm 20 1).
  { rewrite Hw. unfold encode. pow_literals.
    assert (0 <= field imm 12 8 < 256 /\ 0 <= field imm 11 1 < 2 /\ 0 <= field imm 1 10 < 1024 /\
      0 <= field imm 20 1 < 2) by (unfold field; split_and!; pow_literals; lia_div).
    split_and!; lia_div. }
  destruct Hparts as (-> & -> & -> & ->). split_and!; [subst w; close_case..|].
  clear Hw. close_case.
Qed.
End Fields.

(** What a decoded instruction says about the operation it was assembled as. *)
Definition decodes_as (o : Op) (f : Format) (r r1 r2 imm : Z) (d : Decoded) : Prop :=
  op d = o /\ immediate d = shown_immediate f imm /\
  writes_rd d = uses_rd f /\ (has_rd f = true -> rd d = r) /\
  reads_rs1 d = uses_rs1 f /\ (has_rs1 f = true -> rs1 d = r1) /\
  reads_rs2 d = uses_rs2 f /\ (has_rs2 f = true -> rs2 d = r2).

(** Decoding a word whose fields are known, format by format. *)
Ltac decode_known :=
  decode_arith;
  match goal with |- format_of ?o = Some _ -> _ =>
    destruct o; try discriminate; intros [=]; subst end;
  intros;
  repeat match goal with E : _ = _ |- _ => rewrite E; clear E end;
  (eexists; split; [reflexivity | unfold decodes_as; simpl; split_and!; done]).

Section DecodeKnown.
Context (w : Z) (Hw : u32 w) (o : Op) (opc f3 f7 r r1 r2 imm : Z).
Let goal (f : Format) : Prop := exists d, decode w = Ok d /\ decodes_as o f r r1 r2 imm d.
Ltac known := subst goal; cbv beta; decode_known.

Lemma decode_known_R :
  format_of o = Some (FmtR opc f3 f7) -> w mod 128 = opc -> w / 128 mod 32 = r ->
  w / 4096 mod 8 = f3 -> w / 32768 mod 32 = r1 -> w / 1048576 mod 32 = r2 ->
  w / 33554432 = f7 -> imm = 0 -> goal (FmtR opc f3 f7).
Proof. known. Qed.

Lemma decode_known_I :
  format_of o = Some (FmtI opc f3) -> w mod 128 = opc -> w / 128 mod 32 = r ->
  w / 4096 mod 8 = f3 -> w / 32768 mod 32 = r1 -> sext (w / 1048576) 12 = imm ->
  goal (FmtI opc f3).
Proof. known. Qed.

Lemma decode_known_shift :
  format_of o = Some (FmtShift opc f3 f7) -> w mod 128 = opc -> w / 128 mod 32 = r ->
  w / 4096 mod 8 = f3 -> w / 32768 mod 32 = r1 -> w / 1048576 mod 32 = imm ->
  w / 33554432 = f7 -> goal (FmtShift opc f3 f7).
Proof. known. Qed.

Lemma decode_known_S :
  format_of o = Some (FmtS opc f3) -> w mod 128 = opc -> w / 4096 mod 8 = f3 ->
  w / 32768 mod 32 = r1 -> w / 1048576 mod 32 = r2 ->
  sext (w / 33554432 * 32 + w / 128 mod 32) 12 = imm -> goal (FmtS opc f3).
Proof. known. Qed.

Lemma decode_known_B :
  format_of o = Some (FmtB opc f3) -> w mod 128 = opc -> w / 4096 mod 8 = f3 ->
  w / 32768 mod 32 = r1 -> w / 1048576 mod 32 = r2 ->
  sext (w / 2147483648 * 4096 + w / 128 mod 2 * 2048 + w / 33554432 mod 64 * 32 +
        w / 256 mod 16 * 2) 13 = imm -> goal (FmtB opc f3).
Proof. known. Qed.

Lemma decode_known_U :
  format_of o = Some (FmtU opc) -> w mod 128 = opc -> w / 128 mod 32 = r ->
  w / 4096 * 4096 = imm -> goal (FmtU opc).
Proof. known. Qed.

Lemma decode_known_J :
  format_of o = Some (FmtJ opc) -> w mod 128 = opc -> w / 128 mod 32 = r ->
  sext (w / 2147483648 * 1048576 + w / 4096 mod 256 * 4096 + w / 1048576 mod 2 * 2048 +
        w / 2097152 mod 1024 * 2) 21 = imm -> goal (FmtJ opc).
Proof. known. Qed.
End DecodeKnown.

Lemma format_ranges o f : format_of o = Some f ->
  match f with
  | FmtR opc f3 f7 | FmtShift opc f3 f7 => 0 <= opc < 128 /\ 0 <= f3 < 8 /\ 0 <= f7 < 128
  | FmtI opc f3 | FmtS opc f3 | FmtB opc f3 => 0 <= opc < 128 /\ 0 <= f3 < 8 /\ True
  | FmtU opc | FmtJ opc => 0 <= opc < 128 /\ True /\ True
  | FmtSystem w => w = 0x73 /\ o = Ecall \/ w = 0x100073 /\ o = Ebreak
  | _ => False
  end.
Proof. destruct o; intros [= <-]; simpl; lia || auto. Qed.

Lemma recovered_base o f r r1 r2 imm :
  format_of o = Some f -> 0 <= r < 32 -> 0 <= r1 < 32 -> 0 <= r2 < 32 -> valid_immediate f imm ->
  exists d, decode (encode f r r1 r2 imm) = Ok d /\ decodes_as o f r r1 r2 imm d.
Proof.
  intros Hf Hr Hr1 Hr2 Hi. pose proof (format_ranges _ _ Hf) as Hrange. destruct f.
  - destruct (fields_R opcode f3 f7 r r1 r2 imm ltac:(lia) ltac:(lia) ltac:(lia) Hr Hr1 Hr2 _
      eq_refl) as (Hw & ? & ? & ? & ? & ? & ?).
    by eapply (decode_known_R _ Hw).
  - destruct (fields_I opcode f3 0 r r1 r2 imm ltac:(lia) ltac:(lia) ltac:(lia) Hr Hr1 Hr2 _
      Hi eq_refl) as (Hw & ? & ? & ? & ? & ?).
    by eapply (decode_known_I _ Hw).
  - destruct (fields_shift opcode f3 f7 r r1 r2 imm ltac:(lia) ltac:(lia) ltac:(lia) Hr Hr1 Hr2 _
      Hi eq_refl) as (Hw & ? & ? & ? & ? & ? & ?).
    by eapply (decode_known_shift _ Hw).
  - destruct (fields_S opcode f3 0 r r1 r2 imm ltac:(lia) ltac:(lia) ltac:(lia) Hr Hr1 Hr2 _
      Hi eq_refl) as (Hw & ? & ? & ? & ? & ?).
    by eapply (decode_known_S _ Hw).
  - destruct (fields_B opcode f3 0 r r1 r2 imm ltac:(lia) ltac:(lia) ltac:(lia) Hr Hr1 Hr2 _
      Hi eq_refl) as (Hw & ? & ? & ? & ? & ?).
    by eapply (decode_known_B _ Hw).
  - destruct (fields_U opcode 0 0 r r1 r2 imm ltac:(lia) ltac:(lia) ltac:(lia) Hr Hr1 Hr2 _
      Hi eq_refl) as (Hw & ? & ? & ?).
    by eapply (decode_known_U _ Hw).
  - destruct (fields_J opcode 0 0 r r1 r2 imm ltac:(lia) ltac:(lia) ltac:(lia) Hr Hr1 Hr2 _
      Hi eq_refl) as (Hw & ? & ? & ?).
    by eapply (decode_known_J _ Hw).
  - simpl in Hi. subst imm. destruct Hrange as [[-> ->]|[-> ->]];
      (eexists; split; [vm_compute; reflexivity | by split_and!]).
  - destruct Hrange.
  - destruct Hrange.
  - destruct Hrange.
  - destruct Hrange.
  - destruct Hrange.
Qed.

Lemma decode_word w d : decode w = Ok d -> word d = w.
Proof.
  unfold decode. intros H.
  repeat match goal with Hd : (if ?b then _ else _) = Ok d |- _ => destruct b; inv_ok Hd end; reflexivity.
Qed.

(** A word of the fence or control opcode whose fields are known. *)
Lemma decode_fence w : u32 w -> w mod 128 = 15 -> w / 4096 mod 8 = 0 ->
  decode w = Ok (mkDecoded Fence w 0 (w / 128 mod 32) (w / 32768 mod 32) (w / 1048576 mod 32) false false false).
Proof. intros Hw E1 E2. decode_arith. by rewrite E1, E2. Qed.

Lemma decode_control_word w : u32 w -> w mod 128 = 11 -> valid_control_word w = true ->
  decode w = Ok (mkDecoded Quantum w 0 (w / 128 mod 32) (w / 32768 mod 32) (w / 1048576 mod 32)
    (control_uses w).1.2 (control_uses w).2 (control_uses w).1.1).
Proof. intros Hw E1 E2. unfold control_uses. decode_arith. rewrite E1, E2. simpl. by bits_to_arith. Qed.

Lemma recovered_fence r r1 r2 imm :
  0 <= r < 32 -> 0 <= r1 < 32 -> 0 <= imm < 4096 ->
  exists d, decode (encode FmtFence r r1 r2 imm) = Ok d /\ decodes_as Fence FmtFence r r1 r2 imm d.
Proof.
  intros Hr Hr1 Hi. set (w := encode FmtFence r r1 r2 imm).
  assert (H : u32 w /\ w mod 128 = 15 /\ w / 4096 mod 8 = 0 /\ w / 128 mod 32 = r /\ w / 32768 mod 32 = r1)
    by (subst w; split_and!; close_case).
  destruct H as (Hw & E1 & E2 & E3 & E4). rewrite (decode_fence w Hw E1 E2). eexists. split; [reflexivity|].
  by split_and!.
Qed.

(** The fields of an assembled control word, format by format. *)
Definition control_known (w : Z) (f : Format) (r r1 r2 : Z) : Prop :=
  u32 w /\ w mod 128 = 11 /\ valid_control_word w = true /\
  control_uses w = (uses_rd f, uses_rs1 f, uses_rs2 f) /\
  (has_rd f = true -> w / 128 mod 32 = r) /\ (has_rs1 f = true -> w / 32768 mod 32 = r1) /\
  (has_rs2 f = true -> w / 1048576 mod 32 = r2).

Section ControlFields.
Context (r r1 r2 imm : Z) (Hr : 0 <= r < 32) (Hr1 : 0 <= r1 < 32) (Hr2 : 0 <= r2 < 32).

Lemma known_cw mode : mode ∈ [0; 1; 2; 3] -> control_known (encode (FmtCw mode) r r1 r2 imm) (FmtCw mode) r r1 r2.
Proof using All.
  intros Hm. assert (H : 0 <= mode < 4) by (rewrite !elem_of_cons, elem_of_nil in Hm; lia).
  set (w := encode (FmtCw mode) r r1 r2 imm).
  assert (F : u32 w /\ w mod 128 = 11 /\ w / 4096 mod 8 = 0 /\ w / 33554432 = mode /\ w / 128 mod 32 = 0 /\
    w / 32768 mod 32 = r1 /\ w / 1048576 mod 32 = r2) by (subst w; split_and!; close_case).
  destruct F as (Hw & E1 & E2 & E3 & E4 & E5 & E6). unfold control_known, control_uses.
  rewrite (valid_control_arith w Hw), E1, E2, E3, E4, E5, E6.
  clear - Hw Hm. rewrite !elem_of_cons, elem_of_nil in Hm.
  destruct Hm as [->|[->|[->|[->|[]]]]]; by split_and!.
Qed.

Lemma known_wait : control_known (encode FmtWait r r1 r2 imm) FmtWait r r1 r2.
Proof using All.
  set (w := encode FmtWait r r1 r2 imm).
  assert (F : u32 w /\ w mod 128 = 11 /\ w / 4096 mod 8 = 1 /\ w / 33554432 = 0 /\ w / 128 mod 32 = 0 /\
    w / 32768 mod 32 = r1 /\ w / 1048576 mod 32 = 0) by (subst w; split_and!; close_case).
  destruct F as (Hw & E1 & E2 & E3 & E4 & E5 & E6). unfold control_known, control_uses.
  by rewrite (valid_control_arith w Hw), E1, E2, E3, E4, E5, E6.
Qed.

Lemma known_fmr : control_known (encode FmtFmr r r1 r2 imm) FmtFmr r r1 r2.
Proof using All.
  set (w := encode FmtFmr r r1 r2 imm).
  assert (F : u32 w /\ w mod 128 = 11 /\ w / 4096 mod 8 = 3 /\ w / 33554432 = 0 /\ w / 128 mod 32 = r /\
    w / 32768 mod 32 = r1 /\ w / 1048576 mod 32 = 0) by (subst w; split_and!; close_case).
  destruct F as (Hw & E1 & E2 & E3 & E4 & E5 & E6). unfold control_known, control_uses.
  by rewrite (valid_control_arith w Hw), E1, E2, E3, E4, E5, E6.
Qed.

Lemma known_long f3 :
  f3 = 2 \/ f3 = 6 -> 0 <= imm < 131072 -> control_known (encode (FmtLong f3) r r1 r2 imm) (FmtLong f3) r r1 r2.
Proof using All.
  intros Hf Hi. set (w := encode (FmtLong f3) r r1 r2 imm).
  assert (F : u32 w /\ w mod 128 = 11 /\ w / 4096 mod 8 = f3 /\ w / 128 mod 32 = 0)
    by (subst w; destruct Hf as [-> | ->]; split_and!; close_case).
  destruct F as (Hw & E1 & E2 & E3). unfold control_known, control_uses.
  rewrite (valid_control_arith w Hw), E1, E2, E3. clear - Hw Hf. by destruct Hf as [-> | ->].
Qed.

Lemma known_control f :
  f ∈ formats_of Quantum -> valid_immediate f imm -> control_known (encode f r r1 r2 imm) f r r1 r2.
Proof using All.
  intros Hf Hi. apply list_elem_of_In in Hf. simpl in Hf.
  destruct Hf as [<-|[<-|[<-|[<-|[<-|[<-|[<-|[<-|[]]]]]]]]];
    first [ apply known_cw, list_elem_of_In; simpl; tauto | apply known_wait | apply known_fmr
          | apply known_long; [tauto | exact Hi] ].
Qed.
End ControlFields.

Lemma recovered_control f r r1 r2 imm :
  f ∈ formats_of Quantum -> 0 <= r < 32 -> 0 <= r1 < 32 -> 0 <= r2 < 32 -> valid_immediate f imm ->
  exists d, decode (encode f r r1 r2 imm) = Ok d /\ decodes_as Quantum f r r1 r2 imm d.
Proof.
  intros Hf Hr Hr1 Hr2 Hi. destruct (known_control r r1 r2 imm Hr Hr1 Hr2 f Hf Hi) as (Hw & E1 & E2 & E3 & F1 & F2 & F3).
  rewrite (decode_control_word _ Hw E1 E2), E3. eexists. split; [reflexivity|].
  assert (Hs : 0 = shown_immediate f imm).
  { destruct f; simpl in *; try done. all: repeat (apply elem_of_cons in Hf as [Hf|Hf]; [try discriminate Hf|]); by try apply elem_of_nil in Hf. }
  by split_and!.
Qed.

(** C19. Completeness of [decode]: every instruction, of RV32I, FENCE or a control instruction, in any of
    its formats, with register numbers below 32 and an immediate the format can express, is accepted.
    Its encoding decodes to that operation, to the immediate and the registers of the format's
    fields, with the register-use flags of the format. *)
Theorem decode_encode (o : Op) (f : Format) (r r1 r2 imm : Z) :
  f ∈ formats_of o -> 0 <= r < 32 -> 0 <= r1 < 32 -> 0 <= r2 < 32 -> valid_immediate f imm ->
  exists d, decode (encode f r r1 r2 imm) = Ok d /\ decodes_as o f r r1 r2 imm d /\
    word d = encode f r r1 r2 imm.
Proof.
  intros Hf Hr Hr1 Hr2 Hi.
  enough (exists d, decode (encode f r r1 r2 imm) = Ok d /\ decodes_as o f r r1 r2 imm d) as (d & E & Hd)
    by (exists d; split_and!; [done | done | by apply decode_word]).
  destruct (format_of o) as [g|] eqn:Eg.
  - apply recovered_base; try done. rewrite Eg. f_equal. symmetry. unfold formats_of in Hf. rewrite Eg in Hf.
    destruct o; try discriminate Eg; by apply list_elem_of_singleton in Hf.
  - destruct o; try discriminate Eg.
    + apply list_elem_of_singleton in Hf. subst f. by apply recovered_fence.
    + by apply recovered_control.
Qed.

(** A branch back by 16, and [wait.i 1000]. *)
Lemma decode_encode_witness :
  (exists d, decode (encode (FmtB 0x63 1) 0 11 0 4294967280) = Ok d /\
    decodes_as Bne (FmtB 0x63 1) 0 11 0 4294967280 d /\ word d = encode (FmtB 0x63 1) 0 11 0 4294967280) /\
  (exists d, decode (encode (FmtLong 2) 0 0 0 1000) = Ok d /\
    decodes_as Quantum (FmtLong 2) 0 0 0 1000 d /\ word d = encode (FmtLong 2) 0 0 0 1000).
Proof.
  split.
  - apply (decode_encode Bne (FmtB 0x63 1) 0 11 0 4294967280);
      [by left | lia | lia | lia | repeat split; vm_compute; congruence].
  - apply (decode_encode Quantum (FmtLong 2) 0 0 0 1000); [| lia | lia | lia | simpl; lia].
    by apply list_elem_of_In; simpl; tauto.
Defined.
