(* ===== verification/ControlCommand.v ===== *)
(** * Control commands (src/control_command.cpp, src/cpu/vliw.cpp,
    include/qsbit/control_command.hpp)

    The adapter turns a decoded control instruction into the command timing control executes; the VLIW
    decoder splits a bundle word into two codeword commands. *)

From S2P Require Import Prelude Error Time Isa.

Inductive Command :=
| WaitCommand (cycles : Z)
| CodewordCommand (port codeword : Z)
| FetchMeasurementCommand (qubit : Z)
| HaltCommand
| SynchronizeCommand (target : Z).
#[global] Instance Command_eq_dec : EqDecision Command.
Proof. solve_decision. Defined.

Record ControlOperation := mkControl { instruction : Id; command : Command }.
#[global] Instance ControlOperation_eq_dec : EqDecision ControlOperation.
Proof. solve_decision. Defined.

Definition adapt_quantum (d : Decoded) (id : Id) (lhs rhs : Z) : result ControlOperation :=
  do? require (bool_decide (op d = Quantum)) Protocol in
  let f := (word d >>> 12) .& 7 in
  if f =? 0 then
    Ok (mkControl id (CodewordCommand
      (if negb ((word d >>> 25) .& 1 =? 0) then rs1 d else lhs)
      (if negb ((word d >>> 25) .& 2 =? 0) then rs2 d else rhs)))
  else if f =? 1 then Ok (mkControl id (WaitCommand lhs))
  else if f =? 2 then Ok (mkControl id (WaitCommand (word d >>> 15)))
  else if f =? 3 then Ok (mkControl id (FetchMeasurementCommand (rs1 d)))
  else if f =? 6 then Ok (mkControl id (SynchronizeCommand (word d >>> 15)))
  else Fault IllegalInstruction.

Definition register_value (registers : list Z) (n : Z) : Z := nth (Z.to_nat n) registers 0.

(** One slot of a bundle, rebuilt as a scalar codeword instruction. *)
Definition bundle_lane (w : Z) (lane : Z) (id : Id) (registers : list Z) : result ControlOperation :=
  let slot := (w >>> (7 + 12 * lane)) .& 0xfff in
  let port := slot .& 31 in
  let codeword := (slot >>> 5) .& 31 in
  let modes := slot >>> 10 in
  let scalar := 0x0b .| wrap32 (port <<< 15) .| wrap32 (codeword <<< 20) .| wrap32 (modes <<< 25) in
  let? d := decode scalar in
  adapt_quantum d id (register_value registers port) (register_value registers codeword).

Definition decode_cw_bundle (w : Z) (id : Id) (registers : list Z)
    : result (ControlOperation * ControlOperation) :=
  do? require (w .& 0x8000007f =? 0x2b) IllegalInstruction in
  let? a := bundle_lane w 0 id registers in
  let? b := bundle_lane w 1 id registers in
  Ok (a, b).

(** ** Properties *)

(** The command each control function stands for. *)
Definition control_command (f : ControlFunction) (d : Decoded) (lhs rhs : Z) : Command :=
  match f with
  | CodewordF => CodewordCommand (if reads_rs1 d then lhs else rs1 d)
                                 (if reads_rs2 d then rhs else rs2 d)
  | WaitF => WaitCommand lhs
  | WaitImmediateF => WaitCommand (word d >>> 15)
  | FetchMeasurementF => FetchMeasurementCommand (rs1 d)
  | SynchronizeF => SynchronizeCommand (word d >>> 15)
  end.

Lemma decode_control w :
  w .& 127 = ControlOpcode ->
  decode w =
    (do? require (valid_control_word w) IllegalInstruction in
     Ok (mkDecoded Quantum w 0 ((w >>> 7) .& 31) ((w >>> 15) .& 31) ((w >>> 20) .& 31)
       (((w >>> 12) .& 7 =? 0) && ((w >>> 25) .& 1 =? 0) || ((w >>> 12) .& 7 =? 1))
       (((w >>> 12) .& 7 =? 0) && ((w >>> 25) .& 2 =? 0))
       ((w >>> 12) .& 7 =? 3))).
Proof.
  intros Ho. unfold decode. cbv zeta. rewrite Ho.
  repeat match goal with
  | |- context [ControlOpcode =? ?k] =>
      let b := eval vm_compute in (ControlOpcode =? k) in change (ControlOpcode =? k) with b
  end.
  cbv iota. destruct (valid_control_word w); [|reflexivity].
  unfold require. cbn [result_bind].
  cbn [update op word immediate rd rs1 rs2 reads_rs1 reads_rs2 writes_rd]. reflexivity.
Qed.

Lemma control_function_cases f g :
  control_function f = Some g ->
  (f = 0 /\ g = CodewordF) \/ (f = 1 /\ g = WaitF) \/ (f = 2 /\ g = WaitImmediateF) \/
  (f = 3 /\ g = FetchMeasurementF) \/ (f = 6 /\ g = SynchronizeF).
Proof.
  unfold control_function. repeat case_match; intros [= <-]; reflect; auto 6.
Qed.

(** The instruction contract and the two routines that use it agree: a word with the control
    opcode is decoded exactly when [valid_control_word] accepts it, it then names one of the five
    control functions, the adapter never rejects it, and the command carries register operands
    exactly where the decoder says the register is read. *)
Theorem control_words_adapt (w id lhs rhs : Z) :
  w .& 127 = ControlOpcode ->
  if valid_control_word w then
    exists d f, decode w = Ok d /\ op d = Quantum /\ word d = w /\
      control_function ((w >>> 12) .& 7) = Some f /\
      adapt_quantum d id lhs rhs = Ok (mkControl id (control_command f d lhs rhs))
  else decode w = Fault IllegalInstruction.
Proof.
  intros Ho. rewrite decode_control by done.
  destruct (valid_control_word w) eqn:Hv; unfold require; cbn [result_bind]; [|reflexivity].
  unfold valid_control_word in Hv. rewrite Ho in Hv.
  destruct (control_function _) as [f|] eqn:Hf; [|discriminate]. clear Hv.
  eexists _, f. split; [reflexivity|]. cbn [op word]. split_and!; [reflexivity.. |].
  unfold adapt_quantum, control_command. cbn [op word rs1 rs2 reads_rs1 reads_rs2].
  apply control_function_cases in Hf as [[E ->]|[[E ->]|[[E ->]|[[E ->]|[E ->]]]]];
    rewrite E; cbn [require bool_decide result_bind Z.eqb Pos.eqb]; try reflexivity.
  cbn [andb orb]. rewrite orb_false_r.
  destruct (w >>> 25 .& 1 =? 0), (w >>> 25 .& 2 =? 0); reflexivity.
Qed.

Lemma control_words_adapt_witness :
  0x0651000b .& 127 = ControlOpcode /\
  if valid_control_word 0x0651000b then
    exists d f, decode 0x0651000b = Ok d /\ op d = Quantum /\ word d = 0x0651000b /\
      control_function ((0x0651000b >>> 12) .& 7) = Some f /\
      adapt_quantum d 1 8 9 = Ok (mkControl 1 (control_command f d 8 9))
  else decode 0x0651000b = Fault IllegalInstruction.
Proof. split; [reflexivity|]. apply control_words_adapt. reflexivity. Defined.
