(* ===== verification/Image.v ===== *)
(** * Program images (src/image.cpp, include/qsbit/image.hpp)

    The RAM of a core: its bytes, its entry point and the segments that restrict access.  Bytes are
    integers in [0, 256). *)

From S2P Require Import Prelude Error.

Record Segment := mkSegment {
  seg_address : Z; seg_size : Z; readable : bool; writable : bool; executable : bool }.

Record ProgramImage := mkImage {
  base : Z; entry : Z; bytes : list Z; segments : list Segment }.
#[global] Instance eta_ProgramImage : Eta ProgramImage :=
  fun i => mkImage (base i) (entry i) (bytes i) (segments i).

(** [value |= b[p + n] << (8 * n)] for [n < width]. *)
Definition little_endian (b : list Z) (p width : Z) : Z :=
  fold_left (fun value n => value .| wrap32 (at_index b (p + n) <<< (8 * n))) (upto width) 0.

Definition field (b : list Z) (p width : Z) : result Z :=
  do? require ((p <=? size_of b) && (width <=? size_of b - p)) InvalidImage in
  Ok (little_endian b p width).

Definition image_new (base_ size : Z) : result ProgramImage :=
  do? require ((0 <? size) && (base_ + size <=? 4294967296)) InvalidImage in
  Ok (mkImage base_ 0 (repeat 0 (Z.to_nat size)) []).

Definition image_raw (file : list Z) (address base_ size : Z) : result ProgramImage :=
  do? require ((0 <? size_of file) && (size_of file mod 4 =? 0) && (address mod 4 =? 0))
    InvalidImage in
  do? require ((base_ <=? address) && (address - base_ + size_of file <=? size)) InvalidImage in
  let? image := image_new base_ size in
  Ok (image <| entry := address |>
            <| bytes ::= blit (address - base_) file |>
            <| segments ::= fun l => l ++ [mkSegment address (size_of file) true true true] |>).

(** The checks of the ELF header: the offset of the program headers and their number. *)
Definition elf_header (file : list Z) : result (Z * Z) :=
  do? require (52 <=? size_of file) InvalidImage in
  let? magic := field file 0 4 in
  do? require ((magic =? 0x464c457f) && (at_index file 4 =? 1) && (at_index file 5 =? 1) &&
               (at_index file 6 =? 1)) InvalidImage in
  let? type := field file 16 2 in
  let? machine := field file 18 2 in
  let? version := field file 20 4 in
  let? ehsize := field file 40 2 in
  let? flags := field file 36 4 in
  do? require ((type =? 2) && (machine =? 243) && (version =? 1) && (ehsize =? 52) && (flags =? 0))
    InvalidImage in
  let? phoff := field file 28 4 in
  let? count := field file 44 2 in
  let? phentsize := field file 42 2 in
  do? require ((phentsize =? 32) && (0 <? count) && (phoff + count * 32 <=? size_of file))
    InvalidImage in
  Ok (phoff, count).

(** One iteration of the loop over program headers, for the header at file offset [p]. *)
Definition elf_segment (file : list Z) (base_ size : Z) (image : ProgramImage) (p : Z)
    : result ProgramImage :=
  let? type := field file p 4 in
  if negb (type =? 1) then Ok image else
  let? off := field file (p + 4) 4 in
  let? addr := field file (p + 8) 4 in
  let? filesz := field file (p + 16) 4 in
  let? memsz := field file (p + 20) 4 in
  let? flags := field file (p + 24) 4 in
  let? align := field file (p + 28) 4 in
  do? require ((filesz <=? memsz) && (off + filesz <=? size_of file) && (base_ <=? addr) &&
               (addr - base_ + memsz <=? size)) InvalidImage in
  do? require ((align <=? 1) ||
               ((align .& (align - 1) =? 0) && (addr mod align =? off mod align))) InvalidImage in
  if memsz =? 0 then Ok image else
  do? result_each (fun other =>
        require ((addr + memsz <=? seg_address other) ||
                 (seg_address other + seg_size other <=? addr)) InvalidImage) (segments image) in
  Ok (image
    <| segments ::= fun l => l ++ [mkSegment addr memsz (negb (flags .& 4 =? 0))
                                     (negb (flags .& 2 =? 0)) (negb (flags .& 1 =? 0))] |>
    <| bytes ::= blit (addr - base_) (take (Z.to_nat filesz) (drop (Z.to_nat off) file)) |>).

Definition entry_in (e : Z) (s : Segment) : bool :=
  executable s && (seg_address s <=? e) && (e + 4 <=? seg_address s + seg_size s).

Definition image_elf (file : list Z) (base_ size : Z) : result ProgramImage :=
  let? (phoff, count) := elf_header file in
  let? image := image_new base_ size in
  let? e := field file 24 4 in
  let? image :=
    result_fold (elf_segment file base_ size) (map (fun n => phoff + n * 32) (upto count))
      (image <| entry := e |>) in
  do? require ((entry image mod 4 =? 0) && existsb (entry_in (entry image)) (segments image))
    InvalidImage in
  Ok image.

(** ** Accesses *)
Definition access_error (instruction store : bool) : ErrorCode :=
  if instruction then InstructionAccess else if store then StoreAccess else LoadAccess.
Definition aligned_error (instruction store : bool) : ErrorCode :=
  if instruction then InstructionMisaligned else if store then StoreMisaligned else LoadMisaligned.

Definition overlaps (address width : Z) (s : Segment) : bool :=
  (address <? seg_address s + seg_size s) && (seg_address s <? address + width).
Definition inside (address width : Z) (s : Segment) : bool :=
  (seg_address s <=? address) && (address + width <=? seg_address s + seg_size s).
Definition permits (store instruction : bool) (s : Segment) : bool :=
  if instruction then executable s else if store then writable s else readable s.

Definition image_offset (image : ProgramImage) (address width : Z) (store instruction : bool)
    : result Z :=
  let access := access_error instruction store in
  do? require ((width =? 1) || (width =? 2) || (width =? 4)) access in
  do? require (address mod width =? 0) (aligned_error instruction store) in
  do? require ((base image <=? address) &&
               (address - base image + width <=? size_of (bytes image))) access in
  let? exec :=
    result_fold (fun exec s =>
      if overlaps address width s then
        do? require (inside address width s) access in
        do? require (permits store instruction s) access in
        Ok (executable s)
      else Ok exec) (segments image) false in
  do? require (negb instruction || exec) access in
  Ok (address - base image).

Definition image_read (image : ProgramImage) (address width : Z) (instruction : bool) : result Z :=
  let? p := image_offset image address width false instruction in
  Ok (little_endian (bytes image) p width).

Definition image_write (image : ProgramImage) (address width value : Z) : result ProgramImage :=
  let? p := image_offset image address width true false in
  Ok (image <| bytes ::= fun b =>
        fold_left (fun b n => <[Z.to_nat (p + n) := (value >>> (n * 8)) .& 255]> b)
          (upto width) b |>).

(** A little image: one executable read-only word and one writable word. *)
Definition example_image : ProgramImage :=
  mkImage 0x1000 0x1000 [0x13; 0; 0; 0; 1; 2; 3; 4; 5; 6; 7; 8]
    [mkSegment 0x1000 4 true false true; mkSegment 0x1004 4 true true false].

Example read_word : image_read example_image 0x1004 4 false = Ok 0x04030201.
Proof. reflexivity. Qed.
Example straddle : image_write example_image 0x1000 4 0 = Fault StoreAccess.
Proof. reflexivity. Qed.
Example write_half :
  image_write example_image 0x1006 2 0xabcd =
    Ok (example_image <| bytes := [0x13; 0; 0; 0; 1; 2; 0xcd; 0xab; 5; 6; 7; 8] |>).
Proof. reflexivity. Qed.

(** ** Little-endian words *)
Definition byte (b : Z) : Prop := 0 <= b < 256.

(** The number whose base-256 digits are [f 0], [f 1], ... *)
Fixpoint le_word (f : Z -> Z) (n : nat) : Z :=
  match n with O => 0 | S n' => f 0 + 256 * le_word (fun i => f (i + 1)) n' end.

Definition valid_width (w : Z) : bool := (w =? 1) || (w =? 2) || (w =? 4).

Lemma valid_width_cases w : valid_width w = true -> w = 1 \/ w = 2 \/ w = 4.
Proof. unfold valid_width. intros H. reflect. destruct H; reflect; [destruct H; reflect|]; lia. Qed.

Lemma at_index_byte b i : Forall byte b -> byte (at_index b i).
Proof.
  intros Hb. unfold at_index. destruct (nth_in_or_default (Z.to_nat i) b 0) as [H| ->].
  - rewrite Forall_forall in Hb. by apply Hb, list_elem_of_In.
  - unfold byte. lia.
Qed.

Lemma lor_byte v b k :
  0 <= k -> k + 8 <= 32 -> 0 <= v < 2 ^ k -> byte b -> v .| wrap32 (b <<< k) = v + b * 2 ^ k.
Proof.
  intros Hk Hk' Hv Hb. rewrite Z.shiftl_mul_pow2 by done. unfold byte in Hb.
  assert (Hp : 2 ^ 8 * 2 ^ k <= 2 ^ 32) by (rewrite <-Z.pow_add_r by lia; apply Z.pow_le_mono_r; lia).
  change (2 ^ 8) with 256 in Hp. change (2 ^ 32) with 4294967296 in Hp.
  rewrite wrap32_small by (unfold u32, max32; nia).
  rewrite Z.lor_comm, (lor_disjoint _ _ k); [lia | done | apply Z.mod_mul; lia | done].
Qed.

Lemma le_word_snoc f n : le_word f (S n) = le_word f n + f (Z.of_nat n) * 2 ^ (8 * Z.of_nat n).
Proof.
  revert f. induction n as [|n IH]; intros f;
    [change (Z.of_nat 0) with 0; cbn [le_word]; rewrite Z.mul_1_r; lia|].
  change (le_word f (S (S n))) with (f 0 + 256 * le_word (fun i => f (i + 1)) (S n)).
  rewrite IH. change (le_word f (S n)) with (f 0 + 256 * le_word (fun i => f (i + 1)) n).
  replace (8 * Z.of_nat (S n)) with (8 + 8 * Z.of_nat n) by lia. rewrite Z.pow_add_r by lia.
  replace (Z.of_nat n + 1) with (Z.of_nat (S n)) by lia. change (2 ^ 8) with 256. ring.
Qed.

Lemma le_word_bound f n : (forall i, byte (f i)) -> 0 <= le_word f n < 2 ^ (8 * Z.of_nat n).
Proof.
  intros Hf. induction n as [|n IH]; [simpl; lia|]. rewrite le_word_snoc.
  replace (8 * Z.of_nat (S n)) with (8 + 8 * Z.of_nat n) by lia. rewrite Z.pow_add_r by lia.
  specialize (Hf (Z.of_nat n)). unfold byte in Hf. change (2 ^ 8) with 256. nia.
Qed.

Lemma le_word_ext f g n :
  (forall i, 0 <= i < Z.of_nat n -> f i = g i) -> le_word f n = le_word g n.
Proof.
  induction n as [|n IH]; intros H; [done|]. rewrite !le_word_snoc, IH by (intros; apply H; lia).
  by rewrite H by lia.
Qed.

Lemma little_endian_nat b p n :
  Forall byte b -> (n <= 4)%nat ->
  little_endian b p (Z.of_nat n) = le_word (fun i => at_index b (p + i)) n.
Proof.
  intros Hb. unfold little_endian. induction n as [|n IH]; intros Hn; [reflexivity|].
  replace (Z.of_nat (S n)) with (Z.of_nat n + 1) by lia. rewrite upto_snoc by lia.
  rewrite fold_left_app, IH by lia. cbn [fold_left]. rewrite le_word_snoc.
  apply lor_byte; [lia | lia | | by apply at_index_byte].
  apply le_word_bound. intros. by apply at_index_byte.
Qed.

Lemma little_endian_word b p w :
  Forall byte b -> valid_width w = true ->
  little_endian b p w = le_word (fun i => at_index b (p + i)) (Z.to_nat w).
Proof.
  intros Hb Hw. apply valid_width_cases in Hw.
  rewrite <-little_endian_nat by (done || lia). by rewrite Z2Nat.id by lia.
Qed.

(** The bytes of a word make the word. *)
Lemma le_word_bytes v n :
  le_word (fun i => (v >>> (i * 8)) .& 255) n = v mod 2 ^ (8 * Z.of_nat n).
Proof.
  induction n as [|n IH]; [by rewrite Z.mod_1_r|]. rewrite le_word_snoc, IH.
  rewrite (land_mask _ 8) by (lia || done). rewrite Z.shiftr_div_pow2 by lia.
  replace (Z.of_nat n * 8) with (8 * Z.of_nat n) by lia.
  replace (8 * Z.of_nat (S n)) with (8 * Z.of_nat n + 8) by lia.
  rewrite Z.pow_add_r by lia. rewrite (Z.rem_mul_r v) by lia. lia.
Qed.

(** ** The access check in closed form *)
Definition segment_ok (address width : Z) (store instruction : bool) (s : Segment) : bool :=
  negb (overlaps address width s) || (inside address width s && permits store instruction s).

Definition access_granted (image : ProgramImage) (address width : Z) (store instruction : bool)
    : bool :=
  (base image <=? address) && (address - base image + width <=? size_of (bytes image)) &&
  forallb (segment_ok address width store instruction) (segments image) &&
  (negb instruction || existsb (overlaps address width) (segments image)).

Lemma image_offset_closed image address width store instruction :
  image_offset image address width store instruction =
    if negb (valid_width width) then Fault (access_error instruction store)
    else if negb (address mod width =? 0) then Fault (aligned_error instruction store)
    else if access_granted image address width store instruction then Ok (address - base image)
    else Fault (access_error instruction store).
Proof.
  unfold image_offset, access_granted, require, valid_width.
  destruct (_ || _ || _); simpl; [|done]. destruct (address mod width =? 0); simpl; [|done].
  destruct (_ && (_ <=? size_of _)); simpl; [|done].
  rewrite <-(orb_false_l (existsb _ _)). generalize false as exec.
  induction (segments image) as [|s l IH]; intros exec; simpl.
  - by destruct (negb instruction), exec.
  - unfold segment_ok at 1. destruct (overlaps address width s); simpl; [|by apply IH].
    destruct (inside address width s); simpl; [|done].
    destruct (permits store instruction s) eqn:Hp; simpl; [|done].
    rewrite IH. unfold permits in Hp. destruct instruction; simpl; [|done].
    rewrite Hp. simpl. by rewrite orb_true_r.
Qed.

Lemma image_offset_ok image address width store instruction p :
  image_offset image address width store instruction = Ok p ->
  valid_width width = true /\ address mod width = 0 /\
  access_granted image address width store instruction = true /\ p = address - base image.
Proof.
  rewrite image_offset_closed. destruct (valid_width width); simpl; [|done].
  destruct (Z.eqb_spec (address mod width) 0); simpl; [|done].
  destruct (access_granted _ _ _ _ _); [|done]. by intros [= <-].
Qed.

(** ** Reading and writing *)
Definition segment_in (image : ProgramImage) (s : Segment) : Prop :=
  base image <= seg_address s /\ 0 < seg_size s /\
  seg_address s + seg_size s <= base image + size_of (bytes image).

Definition disjoint_segments (a b : Segment) : Prop :=
  seg_address a + seg_size a <= seg_address b \/ seg_address b + seg_size b <= seg_address a.

Record image_wf (image : ProgramImage) : Prop := {
  img_base : 0 <= base image;
  img_top : base image + size_of (bytes image) <= 4294967296;
  img_bytes : Forall byte (bytes image);
  img_segments : Forall (segment_in image) (segments image);
  img_disjoint : StronglySorted disjoint_segments (segments image) }.

(** The byte at an address. *)
Definition ram (image : ProgramImage) (address : Z) : Z := at_index (bytes image) (address - base image).

Lemma image_read_closed image address width instruction :
  image_wf image ->
  image_read image address width instruction =
    (let? _ := image_offset image address width false instruction in
     Ok (le_word (fun i => ram image (address + i)) (Z.to_nat width))).
Proof.
  intros Hwf. unfold image_read.
  destruct (image_offset _ _ _ _ _) as [p|e] eqn:E; simpl; [|done].
  apply image_offset_ok in E as (Hw & _ & _ & ->). f_equal.
  rewrite little_endian_word by (done || apply Hwf). apply le_word_ext. intros i Hi.
  unfold ram. f_equal. lia.
Qed.

(** The state of the byte-by-byte store after [n] bytes. *)
Lemma store_bytes (b : list Z) p value n :
  0 <= p -> p + Z.of_nat n <= size_of b ->
  let b' := fold_left (fun b n => <[Z.to_nat (p + n) := (value >>> (n * 8)) .& 255]> b)
              (upto (Z.of_nat n)) b in
  size_of b' = size_of b /\ (Forall byte b -> Forall byte b') /\
  forall i, 0 <= i -> at_index b' i =
    if (p <=? i) && (i <? p + Z.of_nat n) then (value >>> ((i - p) * 8)) .& 255 else at_index b i.
Proof.
  intros Hp. induction n as [|n IH]; intros Hn.
  { change (Z.of_nat 0) with 0. change (upto 0) with (@nil Z). cbn [fold_left].
    split_and!; try done. intros i Hi.
    destruct (Z.leb_spec p i), (Z.ltb_spec i (p + 0)); simpl; (lia || done). }
  replace (Z.of_nat (S n)) with (Z.of_nat n + 1) in * by lia. rewrite upto_snoc by lia.
  rewrite fold_left_app. cbn [fold_left]. destruct IH as (Hs & Hb & Hi); [lia|].
  unfold size_of in *. split_and!.
  - by rewrite length_insert.
  - intros H. apply Forall_insert; [by apply Hb|]. unfold byte. rewrite (land_mask _ 8) by (lia || done).
    by apply Z.mod_pos_bound.
  - intros i Hi0. rewrite at_index_insert by (unfold size_of; lia).
    destruct (Z.eqb_spec i (p + Z.of_nat n)) as [->|].
    + destruct (Z.leb_spec p (p + Z.of_nat n)), (Z.ltb_spec (p + Z.of_nat n) (p + (Z.of_nat n + 1)));
        simpl; try lia. by replace (p + Z.of_nat n - p) with (Z.of_nat n) by lia.
    + rewrite Hi by done.
      destruct (Z.leb_spec p i), (Z.ltb_spec i (p + Z.of_nat n)), (Z.ltb_spec i (p + (Z.of_nat n + 1)));
        try done; lia.
Qed.

Lemma image_write_ok image address width value image' :
  image_wf image -> image_write image address width value = Ok image' ->
  image_wf image' /\ valid_width width = true /\ base image <= address /\
  base image' = base image /\ entry image' = entry image /\ segments image' = segments image /\
  size_of (bytes image') = size_of (bytes image) /\
  forall a, base image <= a -> ram image' a =
    if (address <=? a) && (a <? address + width) then (value >>> ((a - address) * 8)) .& 255
    else ram image a.
Proof.
  intros [Hb Ht Hby Hseg Hdis] H. unfold image_write in H. inv_ok H.
  match goal with E : image_offset _ _ _ _ _ = Ok _ |- _ =>
    apply image_offset_ok in E as (Hw & _ & Hg & ->) end.
  unfold access_granted in Hg. reflect.
  assert (Hw' : width = Z.of_nat (Z.to_nat width))
    by (apply valid_width_cases in Hw; rewrite Z2Nat.id; lia).
  destruct (store_bytes (bytes image) (address - base image) value (Z.to_nat width))
    as (Hs & Hfb & Hi); [lia.. |]. rewrite <-Hw' in *.
  split_and!; try done.
  - constructor; simpl; try done; [by rewrite Hs | by apply Hfb |].
    eapply Forall_impl; [exact Hseg|]. unfold segment_in. simpl. by rewrite Hs.
  - intros a Ha. unfold ram. simpl. rewrite Hi by lia.
    replace (address - base image <=? a - base image) with (address <=? a)
      by (apply eq_iff_eq_true; rewrite !Z.leb_le; lia).
    replace (a - base image <? address - base image + width) with (a <? address + width)
      by (apply eq_iff_eq_true; rewrite !Z.ltb_lt; lia).
    by replace (a - base image - (address - base image)) with (a - address) by lia.
Qed.

(** C22. Stores and loads.  A store that succeeds changes no access right, the word it wrote is read
    back modulo its width, and a load of any range the store does not touch, data or instruction, is
    unaffected. *)
Theorem image_read_write (image image' : ProgramImage) (address width value : Z)
    (Hwf : image_wf image) (Hst : image_write image address width value = Ok image') :
  image_wf image' /\
  (forall a w st ins, image_offset image' a w st ins = image_offset image a w st ins) /\
  (forall p ins, image_offset image address width false ins = Ok p ->
     image_read image' address width ins = Ok (value mod 2 ^ (8 * width))) /\
  (forall a w ins, a + w <= address \/ address + width <= a ->
     image_read image' a w ins = image_read image a w ins).
Proof.
  destruct (image_write_ok _ _ _ _ _ Hwf Hst) as (Hwf' & Hw & Hlo & Hb & _ & Hs & Hsz & Hram).
  assert (Hoff : forall a w st ins, image_offset image' a w st ins = image_offset image a w st ins).
  { intros. rewrite !image_offset_closed. unfold access_granted. by rewrite Hb, Hs, Hsz. }
  assert (Hwid : 0 <= width) by (apply valid_width_cases in Hw; lia).
  split_and!; try done.
  - intros p ins Hp. rewrite image_read_closed, Hoff, Hp by done. simpl. f_equal.
    rewrite <-(Z2Nat.id width) at 2 by done. rewrite <-le_word_bytes. apply le_word_ext.
    intros i Hi. rewrite Hram by lia.
    destruct (Z.leb_spec address (address + i)), (Z.ltb_spec (address + i) (address + width));
      simpl; try lia. by replace (address + i - address) with i by lia.
  - intros a w ins Hdis. rewrite !image_read_closed, Hoff by done.
    destruct (image_offset image a w false ins) as [p|e] eqn:E; simpl; [|done]. f_equal.
    apply image_offset_ok in E as (Hw2 & _ & Hg & _). unfold access_granted in Hg. reflect.
    apply le_word_ext. intros i Hi. rewrite Z2Nat.id in Hi by (apply valid_width_cases in Hw2; lia).
    rewrite Hram by lia.
    by destruct (Z.leb_spec address (a + i)), (Z.ltb_spec (a + i) (address + width)); simpl; try lia.
Qed.

Lemma example_image_wf : image_wf example_image.
Proof.
  constructor; simpl; rewrite ?size_of_cons, ?size_of_nil; try lia;
    repeat (constructor; unfold byte, segment_in, disjoint_segments; simpl;
      rewrite ?size_of_cons, ?size_of_nil; try lia).
Qed.

Lemma image_read_write_witness :
  exists image', image_write example_image 0x1004 4 0xdeadbeef = Ok image' /\
    image_read image' 0x1004 4 false = Ok (0xdeadbeef mod 2 ^ (8 * 4)).
Proof.
  eexists. split; [reflexivity|].
  refine (proj1 (proj2 (proj2 (image_read_write example_image _ 0x1004 4 0xdeadbeef
    example_image_wf _))) 4 false _); reflexivity.
Defined.

(** C21. Memory protection.  An access is granted exactly when its width is 1, 2 or 4, its address is
    aligned, it lies in RAM, each segment it touches contains all of it and permits it, and an
    instruction fetch touches a segment; the index computed is then in the bounds of the byte array.
    Otherwise the fault names the kind of access, and tells misalignment from a missing right. *)
Theorem image_access_protected (image : ProgramImage) (address width : Z) (store instruction : bool)
    (Hwf : image_wf image) :
  let granted :=
    (width = 1 \/ width = 2 \/ width = 4) /\ address mod width = 0 /\
    base image <= address /\ address + width <= base image + size_of (bytes image) /\
    (forall s, s ∈ segments image -> overlaps address width s = true ->
       inside address width s = true /\ permits store instruction s = true) /\
    (instruction = true -> exists s, s ∈ segments image /\ overlaps address width s = true) in
  match image_offset image address width store instruction with
  | Ok p => granted /\ 0 <= p /\ p + width <= size_of (bytes image) /\ p = address - base image
  | Fault e =>
      ~ granted /\
      ((width = 1 \/ width = 2 \/ width = 4) /\ address mod width <> 0 /\
         e = aligned_error instruction store \/
       ~ ((width = 1 \/ width = 2 \/ width = 4) /\ address mod width <> 0) /\
         e = access_error instruction store)
  end.
Proof.
  intros granted. rewrite image_offset_closed.
  destruct (valid_width width) eqn:Hw; simpl.
  2: { assert (~ (width = 1 \/ width = 2 \/ width = 4))
         by (intros Hc; unfold valid_width in Hw; reflect; lia).
       subst granted. tauto. }
  apply valid_width_cases in Hw as Hw'.
  destruct (Z.eqb_spec (address mod width) 0) as [Hal|Hal]; simpl; [|subst granted; tauto].
  assert (Hiff : access_granted image address width store instruction = true <-> granted).
  { unfold access_granted, granted. rewrite !andb_true_iff, Z.leb_le, Z.leb_le, forallb_forall.
    rewrite orb_true_iff, negb_true_iff, existsb_exists.
    setoid_rewrite list_elem_of_In. unfold segment_ok. split.
    - intros [[[Hlo Hhi] Hall] Hex]. split_and!; try done; [lia | |].
      + intros s Hin Ho. specialize (Hall s Hin). rewrite Ho in Hall. simpl in Hall. by reflect.
      + intros ->. by destruct Hex.
    - intros (_ & _ & Hlo & Hhi & Hall & Hex). split_and!; [lia | lia | |].
      + intros s Hin. destruct (overlaps address width s) eqn:Ho; [|done].
        destruct (Hall s Hin Ho) as [-> ->]. done.
      + destruct instruction; [right; by apply Hex | by left]. }
  destruct (access_granted _ _ _ _ _).
  - assert (Hg : granted) by by apply Hiff. split; [done|].
    destruct Hg as (_ & _ & Hlo & Hhi & _). lia.
  - split; [intros Hg; by apply Hiff in Hg | right; tauto].
Qed.

Lemma image_access_protected_witness :
  image_wf example_image /\
  exists p, image_offset example_image 0x1004 4 true false = Ok p /\
    0 <= p /\ p + 4 <= size_of (bytes example_image) /\ p = 0x1004 - base example_image.
Proof.
  split; [exact example_image_wf|]. exists 4. split; [reflexivity|].
  exact (proj2 (image_access_protected example_image 0x1004 4 true false example_image_wf)).
Defined.

(** ** The ELF loader *)
(** A loadable program header, read at file offset [p]. *)
Definition loads (file : list Z) (p addr memsz off filesz flags : Z) : Prop :=
  field file p 4 = Ok 1 /\ field file (p + 4) 4 = Ok off /\ field file (p + 8) 4 = Ok addr /\
  field file (p + 16) 4 = Ok filesz /\ field file (p + 20) 4 = Ok memsz /\
  field file (p + 24) 4 = Ok flags /\ 0 < memsz.

(** The memory a header describes: the file's bytes, then zeros. *)
Definition loaded (file : list Z) (image : ProgramImage) (p : Z) : Prop :=
  forall addr memsz off filesz flags, loads file p addr memsz off filesz flags ->
    mkSegment addr memsz (negb (flags .& 4 =? 0)) (negb (flags .& 2 =? 0)) (negb (flags .& 1 =? 0))
      ∈ segments image /\ filesz <= memsz /\ off + filesz <= size_of file /\
    forall k, 0 <= k < memsz ->
      ram image (addr + k) = if k <? filesz then at_index file (off + k) else 0.

(** Bytes outside every segment are still zero. *)
Definition clear_outside (image : ProgramImage) : Prop :=
  forall a, base image <= a -> (forall s, s ∈ segments image -> overlaps a 1 s = false) -> ram image a = 0.

Record loading (file : list Z) (base_ size : Z) (seen : list Z) (image : ProgramImage) : Prop := {
  ld_wf : image_wf image;
  ld_base : base image = base_;
  ld_size : size_of (bytes image) = size;
  ld_clear : clear_outside image;
  ld_seen : Forall (loaded file image) seen }.

Lemma field_ok b p w v : field b p w = Ok v -> v = little_endian b p w.
Proof. unfold field. intros H. by inv_ok H. Qed.

Lemma field4_u32 b p v : Forall byte b -> field b p 4 = Ok v -> u32 v.
Proof.
  intros Hb H. apply field_ok in H as ->. rewrite little_endian_word by done.
  pose proof (le_word_bound (fun i => at_index b (p + i)) 4
    ltac:(intros; by apply at_index_byte)) as H.
  unfold u32, max32. change (2 ^ (8 * Z.of_nat 4)) with 4294967296 in H.
  change (Z.to_nat 4) with 4%nat. lia.
Qed.

Lemma image_new_loading file base_ size e image :
  0 <= base_ -> image_new base_ size = Ok image ->
  loading file base_ size [] (image <| entry := e |>).
Proof.
  intros Hb H. unfold image_new in H. inv_ok H. reflect.
  assert (Hz : forall n i, at_index (repeat 0 n) i = 0)
    by (intros; unfold at_index; apply nth_repeat).
  assert (Hs : size_of (repeat 0 (Z.to_nat size)) = size)
    by (unfold size_of; rewrite repeat_length; lia).
  constructor; simpl; try done.
  - constructor; simpl; [done | rewrite Hs; lia | | constructor | constructor].
    apply Forall_forall. intros x Hx. apply list_elem_of_In, repeat_spec in Hx. subst.
    unfold byte. lia.
  - intros ? _ _. apply Hz.
Qed.

(** [file.begin() + off], [n] elements. *)
Lemma at_index_slice l off n i :
  0 <= off -> 0 <= i < n -> at_index (take (Z.to_nat n) (drop (Z.to_nat off) l)) i = at_index l (off + i).
Proof.
  intros Ho Hi. unfold at_index. rewrite nth_firstn.
  destruct (Nat.ltb_spec (Z.to_nat i) (Z.to_nat n)); [|lia].
  rewrite nth_skipn. f_equal. lia.
Qed.

Lemma size_of_slice {A} (l : list A) off n :
  0 <= off -> 0 <= n -> off + n <= size_of l ->
  size_of (take (Z.to_nat n) (drop (Z.to_nat off) l)) = n.
Proof. unfold size_of. intros. rewrite length_take, length_drop. lia. Qed.

Section Load.
Context (file : list Z) (base_ size : Z) (Hfile : Forall byte file) (Hbase : 0 <= base_).
Context (image : ProgramImage) (addr memsz off filesz flags : Z).
Context (Haddr : base_ <= addr) (Hin : addr - base_ + memsz <= size) (Hmem : 0 < memsz).
Context (Hoff : 0 <= off) (Hf0 : 0 <= filesz) (Hfm : filesz <= memsz).
Context (Hof : off + filesz <= size_of file).
Context (Hnew : forall o, o ∈ segments image ->
  addr + memsz <= seg_address o \/ seg_address o + seg_size o <= addr).

Let seg := mkSegment addr memsz (negb (flags .& 4 =? 0)) (negb (flags .& 2 =? 0))
             (negb (flags .& 1 =? 0)).
Let image' := image <| segments ::= fun l => l ++ [seg] |>
  <| bytes ::= blit (addr - base_) (take (Z.to_nat filesz) (drop (Z.to_nat off) file)) |>.

(** The memory after one segment has been copied. *)
Lemma ram_load seen a :
  loading file base_ size seen image -> base_ <= a ->
  ram image' a =
    if (addr <=? a) && (a <? addr + filesz) then at_index file (off + (a - addr)) else ram image a.
Proof using All.
  intros [Hwf Hb Hs Hc Hl] Ha. unfold ram, image'. simpl. rewrite Hb.
  pose proof (size_of_slice file off filesz) as Hsl.
  rewrite at_index_blit by (rewrite ?Hsl by lia; lia). rewrite Hsl by lia.
  replace (addr - base_ <=? a - base_) with (addr <=? a)
    by (apply eq_iff_eq_true; rewrite !Z.leb_le; lia).
  replace (a - base_ <? addr - base_ + filesz) with (a <? addr + filesz)
    by (apply eq_iff_eq_true; rewrite !Z.ltb_lt; lia).
  destruct (Z.leb_spec addr a), (Z.ltb_spec a (addr + filesz)); simpl; try done.
  rewrite at_index_slice by lia. f_equal. lia.
Qed.

Lemma load_step seen :
  loading file base_ size seen image -> loading file base_ size seen image'.
Proof using All.
  intros Hld. pose proof (ram_load seen) as Hram.
  pose proof (size_of_slice file off filesz Hoff Hf0 Hof) as Hsl.
  assert (Hsz : size_of (bytes image') = size).
  { unfold image'. simpl. rewrite size_of_blit by (rewrite ?Hsl; destruct Hld; lia). apply Hld. }
  pose proof Hld as [[Hb0 Ht Hby Hsg Hdis] Hb Hs Hc Hl]. constructor; [|done|done| |].
  - constructor; [done | by rewrite Hsz, <-Hs | | | ].
    + unfold image', blit. simpl. rewrite !Forall_app.
      split_and!; [by apply Forall_take | by apply Forall_take, Forall_drop | by apply Forall_drop].
    + unfold image' at 2. simpl. apply Forall_app. split.
      * eapply Forall_impl; [exact Hsg|]. unfold segment_in. by rewrite Hsz, Hs.
      * constructor; [|done]. unfold segment_in. rewrite Hsz. simpl. lia.
    + simpl. apply sorted_snoc; [done|]. apply Forall_forall. intros o Ho.
      unfold disjoint_segments. simpl. specialize (Hnew o Ho). lia.
  - intros a Ha Hclear. rewrite Hram by (done || (simpl in Ha; lia)).
    assert (Hseg : overlaps a 1 seg = false)
      by (apply Hclear; simpl; apply elem_of_app; right; by left).
    unfold overlaps in Hseg. simpl in Hseg. reflect.
    destruct (Z.leb_spec addr a), (Z.ltb_spec a (addr + filesz)); simpl;
      try (destruct Hseg; reflect; lia);
      (apply Hc; [done|]; intros s Hin'; apply Hclear; simpl; apply elem_of_app; by left).
  - eapply Forall_impl; [exact Hl|]. intros p Hp adr ms offs fs fl H.
    destruct (Hp adr ms offs fs fl H) as (Hin' & Hle & Hfs & Hmemory).
    split_and!; [simpl; apply elem_of_app; by left | done | done |].
    intros k Hk. specialize (Hnew _ Hin'). simpl in Hnew.
    rewrite Forall_forall in Hsg. specialize (Hsg _ Hin'). unfold segment_in in Hsg. simpl in Hsg.
    rewrite Hram by (done || lia).
    destruct (Z.leb_spec addr (adr + k)), (Z.ltb_spec (adr + k) (addr + filesz)); simpl; try lia;
      by apply Hmemory.
Qed.

Lemma load_new seen p :
  loading file base_ size seen image -> loads file p addr memsz off filesz flags ->
  loaded file image' p.
Proof using All.
  intros Hld Hp adr ms offs fs fl H. pose proof (ram_load seen) as Hram.
  unfold loads in Hp, H.
  assert (adr = addr /\ ms = memsz /\ offs = off /\ fs = filesz /\ fl = flags)
    as (-> & -> & -> & -> & ->) by (decompose record Hp; decompose record H; split_and!; congruence).
  split_and!; [simpl; apply elem_of_app; right; by left | done | done |].
  intros k Hk. rewrite Hram by (done || lia).
  destruct (Z.leb_spec addr (addr + k)), (Z.ltb_spec (addr + k) (addr + filesz)),
    (Z.ltb_spec k filesz); simpl; try lia; [f_equal; lia|].
  apply (ld_clear _ _ _ _ _ Hld); [rewrite (ld_base _ _ _ _ _ Hld); lia|].
  intros s Hs. specialize (Hnew s Hs). unfold overlaps.
  destruct (Z.ltb_spec (addr + k) (seg_address s + seg_size s)),
    (Z.ltb_spec (seg_address s) (addr + k + 1)); simpl; try done; lia.
Qed.
End Load.

Lemma elf_segment_loading file base_ size seen image p image' :
  Forall byte file -> 0 <= base_ -> loading file base_ size seen image ->
  elf_segment file base_ size image p = Ok image' -> loading file base_ size (seen ++ [p]) image'.
Proof.
  intros Hf Hb Hld H. unfold elf_segment in H. apply result_bind_ok in H as (type & Htype & H).
  destruct (Z.eqb_spec type 1) as [->|Hne]; simpl in H.
  2: { inv_ok H. destruct Hld. constructor; try done. apply Forall_app. split; [done|].
       constructor; [|done]. intros ????? (Hbad & _). congruence. }
  apply result_bind_ok in H as (off & Hoff & H). apply result_bind_ok in H as (addr & Haddr & H).
  apply result_bind_ok in H as (filesz & Hfsz & H). apply result_bind_ok in H as (memsz & Hmsz & H).
  apply result_bind_ok in H as (flags & Hfl & H). apply result_bind_ok in H as (align & Hal & H).
  apply result_bind_ok in H as ([] & Hbounds & H). apply require_ok in Hbounds. reflect.
  apply result_bind_ok in H as ([] & _ & H).
  pose proof (field4_u32 _ _ _ Hf Hoff) as [? _]. pose proof (field4_u32 _ _ _ Hf Hfsz) as [? _].
  destruct (Z.eqb_spec memsz 0) as [->|Hm].
  { inv_ok H. destruct Hld. constructor; try done. apply Forall_app. split; [done|].
    constructor; [|done]. intros ????? (_ & _ & _ & _ & Hz & _ & Hpos). replace memsz with 0 in * by congruence. lia. }
  apply result_bind_ok in H as ([] & Hdis & H). inv_ok H.
  assert (Hnew : forall o, o ∈ segments image ->
            addr + memsz <= seg_address o \/ seg_address o + seg_size o <= addr).
  { intros o Ho. apply result_each_ok in Hdis. rewrite Forall_forall in Hdis.
    specialize (Hdis o Ho). apply require_ok in Hdis. reflect. destruct Hdis; reflect; lia. }
  match goal with |- loading _ _ _ _ ?i => set (image1 := i) end.
  assert (Hstep : loading file base_ size seen image1) by (eapply load_step; (eassumption || lia)).
  destruct Hstep. constructor; try done. apply Forall_app. split; [done|]. constructor; [|done].
  eapply load_new; try eassumption; try lia. by split_and!; try lia.
Qed.

Lemma elf_segment_entry file base_ size image p image' :
  elf_segment file base_ size image p = Ok image' -> entry image' = entry image.
Proof.
  unfold elf_segment. intros H. apply result_bind_ok in H as (type & _ & H).
  destruct (negb _); [by inv_ok H|].
  repeat (apply result_bind_ok in H as (? & _ & H)). destruct (_ =? 0); [by inv_ok H|].
  apply result_bind_ok in H as (? & _ & H). by inv_ok H.
Qed.

Lemma sorted_pairwise {A} (R : A -> A -> Prop) l x y :
  (forall a b, R a b -> R b a) -> StronglySorted R l -> x ∈ l -> y ∈ l -> x = y \/ R x y.
Proof.
  intros Hsym. induction 1 as [|z l Hs IH Hall]; intros Hx Hy; [by apply elem_of_nil in Hx|].
  rewrite Forall_forall in Hall. apply elem_of_cons in Hx as [->|Hx], Hy as [->|Hy]; auto.
Qed.

Lemma entry_fetch image s :
  image_wf image -> s ∈ segments image -> entry_in (entry image) s = true -> entry image mod 4 = 0 ->
  image_offset image (entry image) 4 false true = Ok (entry image - base image).
Proof.
  intros [Hb Ht _ Hsg Hdis] Hs He Hal. unfold entry_in in He. reflect.
  rewrite image_offset_closed. simpl. rewrite Hal. simpl.
  pose proof (proj1 (Forall_forall _ _) Hsg s Hs) as (? & ? & ?).
  assert (Hov : overlaps (entry image) 4 s = true)
    by (unfold overlaps; rewrite andb_true_iff, !Z.ltb_lt; lia).
  assert (Hg : access_granted image (entry image) 4 false true = true).
  { unfold access_granted. rewrite !andb_true_iff, !Z.leb_le. split_and!; [lia | lia | |].
    - apply forallb_forall. intros o Ho%list_elem_of_In. unfold segment_ok.
      destruct (overlaps (entry image) 4 o) eqn:Hov'; [|done]. simpl.
      destruct (sorted_pairwise disjoint_segments _ s o ltac:(unfold disjoint_segments; tauto) Hdis Hs Ho)
        as [<-|Hd].
      + unfold inside, permits. rewrite !andb_true_iff, !Z.leb_le. split_and!; [lia | lia | done].
      + unfold overlaps in Hov'. unfold disjoint_segments in Hd. reflect. lia.
    - apply existsb_exists. exists s. by rewrite <-list_elem_of_In. }
  by rewrite Hg.
Qed.

(** C20. The ELF loader.  When it accepts a file, the image is well formed (segments are non-empty,
    disjoint and inside RAM), every loadable program header has its segment with the permissions of its
    flags, memory holds the header's file bytes followed by zeros, all bytes outside the segments are
    zero, and the entry point is the header's, aligned and fetchable. *)
Theorem elf_loads (file : list Z) (base_ size : Z) (image : ProgramImage)
    (Hf : Forall byte file) (Hb : 0 <= base_) (H : image_elf file base_ size = Ok image) :
  image_wf image /\ base image = base_ /\ size_of (bytes image) = size /\ clear_outside image /\
  (exists phoff count, elf_header file = Ok (phoff, count) /\
     forall n, 0 <= n < count -> loaded file image (phoff + n * 32)) /\
  field file 24 4 = Ok (entry image) /\
  exists w, image_read image (entry image) 4 true = Ok w.
Proof.
  unfold image_elf in H. apply result_bind_ok in H as ([phoff count] & Hh & H).
  apply result_bind_ok in H as (image0 & H0 & H). apply result_bind_ok in H as (e & He & H).
  apply result_bind_ok in H as (image1 & H1 & H). inv_ok H. reflect.
  assert (Hld : loading file base_ size (map (fun n => phoff + n * 32) (upto count)) image
                /\ entry image = e).
  { rewrite <-(app_nil_l (map _ _)).
    eapply (result_fold_prefix (fun seen i => loading file base_ size seen i /\ entry i = e));
      [split; [by apply image_new_loading | done] | | exact H1].
    intros d p b b' _ [Hld <-] Hs. split; [by eapply elf_segment_loading|].
    by eapply elf_segment_entry. }
  destruct Hld as [[Hwf Hbase Hsize Hclear Hseen] Hent].
  split_and!; try done.
  - exists phoff, count. split; [done|]. intros n Hn. rewrite Forall_forall in Hseen. apply Hseen.
    apply list_elem_of_In, in_map_iff. exists n. split; [done|].
    by apply list_elem_of_In, elem_of_upto.
  - by rewrite Hent.
  - match goal with E : existsb _ _ = true |- _ => apply existsb_exists in E as (s & Hs & Hes) end.
    apply list_elem_of_In in Hs. rewrite image_read_closed by done.
    rewrite (entry_fetch image s) by done. simpl. eauto.
Qed.

(** An ELF file of one segment: two instructions from the file and eight zero bytes. *)
Definition example_elf : list Z :=
  [0x7f; 0x45; 0x4c; 0x46; 1; 1; 1; 0; 0; 0; 0; 0; 0; 0; 0; 0;
   2; 0; 243; 0; 1; 0; 0; 0; 0; 16; 0; 0; 52; 0; 0; 0;
   0; 0; 0; 0; 0; 0; 0; 0; 52; 0; 32; 0; 1; 0; 0; 0; 0; 0; 0; 0] ++
  [1; 0; 0; 0; 84; 0; 0; 0; 0; 16; 0; 0; 0; 16; 0; 0; 8; 0; 0; 0; 16; 0; 0; 0; 5; 0; 0; 0; 4; 0; 0; 0] ++
  [0x13; 5; 0x10; 0; 0x73; 0; 0x10; 0].

Lemma elf_loads_witness :
  exists image, image_elf example_elf 0x1000 32 = Ok image /\
    image_read image 0x1000 4 true = Ok 0x100513 /\
    image_wf image /\ exists w, image_read image (entry image) 4 true = Ok w.
Proof.
  assert (Hf : Forall byte example_elf).
  { unfold example_elf. rewrite !Forall_app. repeat split; repeat constructor; unfold byte; lia. }
  eexists. split; [vm_compute; reflexivity|]. split; [vm_compute; reflexivity|].
  pose proof (fun i H => elf_loads example_elf 0x1000 32 i Hf ltac:(lia) H) as T.
  split; [refine (proj1 (T _ _)) | refine (proj2 (proj2 (proj2 (proj2 (proj2 (proj2 (T _ _)))))))];
    vm_compute; reflexivity.
Defined.
