(* ===== verification/Memory.v ===== *)
(** * The memory model (src/memory.cpp, include/qsbit/memory.hpp)

    A RAM with a fetch port and a data port.  Each port accepts one request at a time, completes it
    [latency] clock periods later and returns faults as responses.  A memory-mapped device (for the
    simulator, the decoder's registers) is a parameter: a set of addresses and a stateful access that
    may decline to answer yet. *)

From S2P Require Import Prelude Error Time Mailbox Image.

Record MemoryRequest := mkRequest {
  mr_id : Id; mr_address : Z; mr_value : Z; mr_width : Z; mr_write : bool; mr_instruction : bool }.
#[global] Instance MemoryRequest_eq_dec : EqDecision MemoryRequest.
Proof. solve_decision. Defined.

Record MemoryResponse := mkResponse { rs_id : Id; rs_value : Z; rs_fault : option ErrorCode }.
#[global] Instance MemoryResponse_eq_dec : EqDecision MemoryResponse.
Proof. solve_decision. Defined.

Record MemoryPort := mkPort { requests : Mailbox MemoryRequest; responses : Mailbox MemoryResponse }.
#[global] Instance eta_MemoryPort : Eta MemoryPort := fun p => mkPort (requests p) (responses p).

Definition port_new (c : Clock) : result MemoryPort :=
  let? rq := mailbox_new 1 c 1 in
  let? rs := mailbox_new 1 c 1 in
  Ok (mkPort rq rs).

Definition port_reset (p : MemoryPort) : MemoryPort :=
  mkPort (mailbox_reset (requests p)) (mailbox_reset (responses p)).

Record Pending := mkPending { pd_request : MemoryRequest; completion : Tick; pd_epoch : Epoch }.

(** One element of the arrays [pending_] and [last_id_]. *)
Record MemorySlot := mkSlot { pending : option Pending; last_id : Id }.
#[global] Instance eta_MemorySlot : Eta MemorySlot := fun s => mkSlot (pending s) (last_id s).

Record MemoryModel := mkMemory {
  mem_image : ProgramImage; mem_clock : Clock; mem_latency : Z;
  fetch_slot : MemorySlot; data_slot : MemorySlot }.
#[global] Instance eta_MemoryModel : Eta MemoryModel := fun m =>
  mkMemory (mem_image m) (mem_clock m) (mem_latency m) (fetch_slot m) (data_slot m).

Definition empty_slot : MemorySlot := mkSlot None 0.

Definition memory_new (image : ProgramImage) (c : Clock) (latency : Z) : result MemoryModel :=
  do? clock_validate c in
  do? require (0 <? latency) InvalidProfile in
  Ok (mkMemory image c latency empty_slot empty_slot).

Definition memory_reset (m : MemoryModel) : MemoryModel :=
  m <| fetch_slot := empty_slot |> <| data_slot := empty_slot |>.

Definition memory_idle (m : MemoryModel) : bool :=
  match pending (fetch_slot m), pending (data_slot m) with None, None => true | _, _ => false end.

Section Memory.
Context {D : Type}.
(** The attached device; [fun _ => false] when there is none. *)
Context (device_contains : Z -> bool).
Context (device_access : MemoryRequest -> Tick -> Epoch -> M D (option Z)).

(** What [step_port] works on: the model's RAM, one slot, one port and the device. *)
Record PortView := mkView {
  pv_image : ProgramImage; pv_slot : MemorySlot; pv_port : MemoryPort; pv_device : D }.
#[global] Instance eta_PortView : Eta PortView :=
  fun v => mkView (pv_image v) (pv_slot v) (pv_port v) (pv_device v).

(** The [try] block: [None] when the device asks to be tried again. *)
Definition perform (request : MemoryRequest) (now : Tick) (epoch : Epoch)
    : M PortView (option MemoryResponse) := fun v =>
  let id := mr_id request in
  if device_contains (mr_address request) then
    let '(r, d) := device_access request now epoch (pv_device v) in
    let v := v <| pv_device := d |> in
    match r with
    | Ok None => (Ok None, v)
    | Ok (Some value) => (Ok (Some (mkResponse id value None)), v)
    | Fault code => (Ok (Some (mkResponse id 0 (Some code))), v)
    end
  else if mr_write request then
    match image_write (pv_image v) (mr_address request) (mr_width request) (mr_value request) with
    | Ok image => (Ok (Some (mkResponse id 0 None)), v <| pv_image := image |>)
    | Fault code => (Ok (Some (mkResponse id 0 (Some code))), v)
    end
  else
    match image_read (pv_image v) (mr_address request) (mr_width request) (mr_instruction request) with
    | Ok value => (Ok (Some (mkResponse id value None)), v)
    | Fault code => (Ok (Some (mkResponse id 0 (Some code))), v)
    end.

Definition set_pending (p : option Pending) (v : PortView) : PortView :=
  v <| pv_slot ::= fun s => s <| pending := p |> |>.

Definition publish_response (now : Tick) (epoch : Epoch) (r : MemoryResponse) : M PortView unit :=
  m_zoom (fun v => responses (pv_port v))
    (fun b v => v <| pv_port ::= fun p => p <| responses := b |> |>)
    (mailbox_publish now epoch r).

Definition take_request (now : Tick) : M PortView (option (Envelope MemoryRequest)) :=
  m_zoom (fun v => requests (pv_port v))
    (fun b v => v <| pv_port ::= fun p => p <| requests := b |> |>)
    (mailbox_take now).

(** Complete the pending request; [false] when the function returns early. *)
Definition finish_pending (now : Tick) (epoch : Epoch) : M PortView bool := fun v =>
  match pending (pv_slot v) with
  | Some p =>
      if (completion p <=? now) && negb (mailbox_full (responses (pv_port v))) then
        if pd_epoch p =? epoch then
          (let! r := perform (pd_request p) now epoch in
           match r with
           | None => m_ret false
           | Some response =>
               do! publish_response now epoch response in
               do! m_modify (set_pending None) in
               m_ret true
           end) v
        else (Ok true, set_pending None v)
      else (Ok true, v)
  | None => (Ok true, v)
  end.

(** Accept the next request. *)
Definition accept_request (clk : Clock) (lat : Z) (now : Tick) (epoch : Epoch) (index : Z)
    : M PortView unit :=
  let! message := take_request now in
  match message with
  | None => m_ret ()
  | Some message =>
      if negb (env_epoch message =? epoch) then m_ret () else
      let request := value message in
      let! last := m_gets (fun v => last_id (pv_slot v)) in
      do! m_lift (require ((last <? mr_id request) && negb (mr_id request =? 0)) Protocol) in
      do! m_lift (require (Bool.eqb (mr_instruction request) (index =? 0) &&
                           negb (mr_instruction request && mr_write request)) Protocol) in
      do! m_modify (fun v => v <| pv_slot ::= fun s => s <| last_id := mr_id request |> |>) in
      let! d := m_lift (checked_mul lat (period clk)) in
      let! t := m_lift (checked_add now d) in
      m_modify (set_pending (Some (mkPending request t epoch)))
  end.

Definition step_port (clk : Clock) (lat : Z) (now : Tick) (epoch : Epoch) (index : Z)
    : M PortView unit := fun v =>
  let was_busy := match pending (pv_slot v) with Some _ => true | None => false end in
  (let! continue := finish_pending now epoch in
   if negb continue then m_ret () else
   let! full := m_gets (fun v => mailbox_full (responses (pv_port v))) in
   if negb was_busy && negb full then accept_request clk lat now epoch index else m_ret ()) v.

(** The model, its two ports and the device, as [step] sees them. *)
Record MemoryWorld := mkWorld {
  mw_model : MemoryModel; mw_fetch : MemoryPort; mw_data : MemoryPort; mw_device : D }.
#[global] Instance eta_MemoryWorld : Eta MemoryWorld :=
  fun w => mkWorld (mw_model w) (mw_fetch w) (mw_data w) (mw_device w).

Definition fetch_view (w : MemoryWorld) : PortView :=
  mkView (mem_image (mw_model w)) (fetch_slot (mw_model w)) (mw_fetch w) (mw_device w).
Definition set_fetch_view (v : PortView) (w : MemoryWorld) : MemoryWorld :=
  w <| mw_model ::= fun m => m <| mem_image := pv_image v |> <| fetch_slot := pv_slot v |> |>
    <| mw_fetch := pv_port v |> <| mw_device := pv_device v |>.
Definition data_view (w : MemoryWorld) : PortView :=
  mkView (mem_image (mw_model w)) (data_slot (mw_model w)) (mw_data w) (mw_device w).
Definition set_data_view (v : PortView) (w : MemoryWorld) : MemoryWorld :=
  w <| mw_model ::= fun m => m <| mem_image := pv_image v |> <| data_slot := pv_slot v |> |>
    <| mw_data := pv_port v |> <| mw_device := pv_device v |>.

Definition memory_step (now : Tick) (epoch : Epoch) : M MemoryWorld unit :=
  let! m := m_gets mw_model in
  do! m_lift (require (clock_edge (mem_clock m) now) Protocol) in
  do! m_zoom fetch_view set_fetch_view (step_port (mem_clock m) (mem_latency m) now epoch 0) in
  m_zoom data_view set_data_view (step_port (mem_clock m) (mem_latency m) now epoch 1).

(** ** What a request does to a RAM *)
Definition ram_access (image : ProgramImage) (r : MemoryRequest) : MemoryResponse * ProgramImage :=
  if mr_write r then
    match image_write image (mr_address r) (mr_width r) (mr_value r) with
    | Ok image' => (mkResponse (mr_id r) 0 None, image')
    | Fault e => (mkResponse (mr_id r) 0 (Some e), image)
    end
  else
    match image_read image (mr_address r) (mr_width r) (mr_instruction r) with
    | Ok v => (mkResponse (mr_id r) v None, image)
    | Fault e => (mkResponse (mr_id r) 0 (Some e), image)
    end.

Lemma perform_ram r now epoch v :
  device_contains (mr_address r) = false ->
  perform r now epoch v =
    (Ok (Some (fst (ram_access (pv_image v) r))), v <| pv_image := snd (ram_access (pv_image v) r) |>).
Proof.
  intros Hd. unfold perform, ram_access. rewrite Hd. destruct v; simpl.
  by destruct (mr_write r); [destruct (image_write _ _ _ _) | destruct (image_read _ _ _ _)].
Qed.

(** Steps at [n] consecutive clock edges. *)
Fixpoint port_steps (clk : Clock) (lat : Z) (n : nat) (now : Tick) (epoch : Epoch) (index : Z)
    : M PortView unit :=
  match n with
  | O => m_ret ()
  | S n' => do! step_port clk lat now epoch index in
            port_steps clk lat n' (now + period clk) epoch index
  end.

(** A valid request at the head of the port, nothing in progress. *)
Record request_ready (now : Tick) (epoch : Epoch) (index : Z) (r : MemoryRequest) (v : PortView)
    : Prop := {
  rr_idle : pending (pv_slot v) = None;
  rr_clear : entries (responses (pv_port v)) = [];
  rr_responses : mailbox_wf (responses (pv_port v));
  rr_readable : exists e rest, entries (requests (pv_port v)) = e :: rest /\
    eligible e <= now /\ env_epoch e = epoch /\ value e = r;
  rr_id : last_id (pv_slot v) < mr_id r /\ mr_id r <> 0;
  rr_index : mr_instruction r = (index =? 0);
  rr_kind : mr_instruction r && mr_write r = false }.

Lemma step_accept clk lat now epoch index r v :
  request_ready now epoch index r v -> 0 <= lat -> now + lat * period clk <= max64 -> 0 <= now ->
  step_port clk lat now epoch index v =
    (Ok (), v <| pv_port ::= fun p => p <| requests ::= fun b => b <| entries ::= tail |> |> |>
              <| pv_slot := mkSlot (Some (mkPending r (now + lat * period clk) epoch)) (mr_id r) |>).
Proof using Type.
  intros [Hidle Hclear Hwf (e & rest & He & Hel & Hep & Hv) [Hid Hnz] Hix Hk] Hl Hmax Hnow.
  destruct v as [image [pnd lst] [rq rs] dev]; simpl in *. subst pnd.
  unfold step_port, finish_pending. simpl. unfold m_bind, m_gets, mailbox_full. simpl.
  rewrite Hclear. replace (size_of [] =? capacity rs) with false
    by (symmetry; apply Z.eqb_neq; rewrite size_of_nil; destruct Hwf; lia). simpl.
  unfold accept_request, take_request, m_bind, m_zoom, mailbox_take, mailbox_peek. simpl.
  rewrite He. rewrite (proj2 (Z.leb_le _ _) Hel). simpl. rewrite Hep, Z.eqb_refl. simpl.
  unfold m_gets, m_lift, m_modify, require. rewrite Hv. simpl.
  rewrite (proj2 (Z.ltb_lt _ _) Hid), (proj2 (Z.eqb_neq _ _) Hnz). simpl.
  rewrite Hk, Hix, Bool.eqb_reflx. simpl.
  rewrite checked_mul_eq by lia. rewrite checked_add_eq by lia. simpl. done.
Qed.

Lemma step_wait clk lat now epoch index v p :
  pending (pv_slot v) = Some p -> now < completion p ->
  step_port clk lat now epoch index v = (Ok (), v).
Proof using Type.
  intros Hp Hlt. unfold step_port, finish_pending, m_bind. rewrite Hp.
  by rewrite (proj2 (Z.leb_gt _ _) Hlt).
Qed.

Lemma step_respond clk lat now epoch index v r id arrival :
  pv_slot v = mkSlot (Some (mkPending r now epoch)) id ->
  device_contains (mr_address r) = false ->
  entries (responses (pv_port v)) = [] -> mailbox_wf (responses (pv_port v)) ->
  clock_after (receiver (responses (pv_port v))) now (latency (responses (pv_port v))) = Ok arrival ->
  step_port clk lat now epoch index v =
    (Ok (), v <| pv_image := snd (ram_access (pv_image v) r) |>
              <| pv_slot := mkSlot None id |>
              <| pv_port ::= fun p => p <| responses ::= fun b => b <| entries :=
                   [mkEnvelope now arrival epoch (fst (ram_access (pv_image v) r))] |> |> |>).
Proof using Type.
  intros Hs Hd Hr Hwf Ha. unfold step_port, finish_pending, m_bind. rewrite Hs. cbn [pending completion].
  rewrite Z.leb_refl. unfold mailbox_full. rewrite Hr.
  replace (size_of [] =? capacity _) with false
    by (symmetry; apply Z.eqb_neq; rewrite size_of_nil; destruct Hwf; lia).
  cbn [andb negb pd_epoch pd_request]. rewrite Z.eqb_refl.
  rewrite perform_ram by done. destruct v as [image slot [rq rs] dev]; simpl in *. subst slot.
  unfold publish_response, m_zoom, mailbox_publish, m_bind, m_lift, mailbox_full. simpl. rewrite Hr.
  replace (size_of [] =? capacity _) with false
    by (symmetry; apply Z.eqb_neq; rewrite size_of_nil; destruct Hwf; lia). simpl.
  rewrite Ha. simpl. unfold m_modify, m_gets, m_ret. simpl. by rewrite Hr.
Qed.

Lemma port_steps_app clk lat n m now epoch index :
  forall v, port_steps clk lat (n + m) now epoch index v =
    (do! port_steps clk lat n now epoch index in
     port_steps clk lat m (now + Z.of_nat n * period clk) epoch index) v.
Proof using Type.
  revert now. induction n as [|n IH]; intros now v.
  - simpl. unfold m_bind, m_ret. by rewrite Z.mul_0_l, Z.add_0_r.
  - cbn [port_steps Nat.add]. unfold m_bind at 1 2 3.
    destruct (step_port _ _ _ _ _ v) as [[[]|?] v1]; [|done]. rewrite IH.
    replace (now + Z.of_nat (S n) * period clk) with (now + period clk + Z.of_nat n * period clk) by lia.
    done.
Qed.

Lemma port_steps_wait clk lat n now epoch index v p :
  0 < period clk -> pending (pv_slot v) = Some p ->
  now + Z.of_nat n * period clk <= completion p ->
  port_steps clk lat n now epoch index v = (Ok (), v).
Proof using Type.
  intros Hp Hv. revert now. induction n as [|n IH]; intros now Hn; [done|].
  cbn [port_steps]. rewrite (m_bind_step _ _ () v v); [apply IH; lia|].
  eapply step_wait; [done | nia].
Qed.

(** C23. Memory latency.  A valid RAM request found at the head of an idle port at a clock edge is
    answered after exactly [latency] periods: until then nothing is published, and at that edge the
    response mailbox receives one response with the request's identity, carrying the value read or
    the fault of the access; a store has then been performed, a fault has not touched the RAM. *)
Theorem memory_latency (clk : Clock) (lat now : Z) (epoch : Epoch) (index : Z) (r : MemoryRequest)
    (v : PortView) (arrival : Tick) :
  request_ready now epoch index r v -> device_contains (mr_address r) = false ->
  0 < lat -> 0 < period clk -> 0 <= now -> now + lat * period clk <= max64 ->
  clock_after (receiver (responses (pv_port v))) (now + lat * period clk)
    (latency (responses (pv_port v))) = Ok arrival ->
  (forall n, 0 <= n <= lat -> exists v',
     port_steps clk lat (Z.to_nat n) now epoch index v = (Ok (), v') /\
     entries (responses (pv_port v')) = [] /\ pv_image v' = pv_image v) /\
  exists v', port_steps clk lat (Z.to_nat (lat + 1)) now epoch index v = (Ok (), v') /\
    entries (responses (pv_port v')) =
      [mkEnvelope (now + lat * period clk) arrival epoch (fst (ram_access (pv_image v) r))] /\
    pv_image v' = snd (ram_access (pv_image v) r) /\ pv_slot v' = mkSlot None (mr_id r).
Proof using Type.
  intros Hr Hd Hl Hp Hnow Hmax Ha.
  pose proof (step_accept clk lat now epoch index r v Hr ltac:(lia) Hmax Hnow) as Hacc.
  match type of Hacc with _ = (_, ?s) => set (v1 := s) in * end.
  assert (Hwait : forall n, 0 < n <= lat -> port_steps clk lat (Z.to_nat n) now epoch index v = (Ok (), v1)).
  { intros n Hn. replace (Z.to_nat n) with (S (Z.to_nat (n - 1))) by lia. cbn [port_steps].
    rewrite (m_bind_step _ _ _ _ _ Hacc). eapply port_steps_wait; [done | done |].
    subst v1. simpl. rewrite Z2Nat.id by lia. nia. }
  pose proof Hr as [_ Hclear Hwf _ _ _ _].
  split.
  - intros n Hn. destruct (Z.eq_dec n 0) as [->|]; [exists v; done|].
    exists v1. split_and!; [apply Hwait; lia | by subst v1 | by subst v1].
  - replace (Z.to_nat (lat + 1)) with (Z.to_nat lat + 1)%nat by lia. eexists.
    rewrite port_steps_app. rewrite (m_bind_step _ _ _ _ _ (Hwait lat ltac:(lia))).
    cbn [port_steps]. rewrite Z2Nat.id by lia.
    rewrite (m_bind_step _ _ _ _ _ (step_respond clk lat _ epoch index v1 r (mr_id r) arrival
      eq_refl Hd Hclear Hwf Ha)).
    by split_and!.
Qed.
End Memory.
Arguments PortView : clear implicits.
Arguments MemoryWorld : clear implicits.

Definition example_clock : Clock := mkClock 20 0.
Definition example_request : MemoryRequest := mkRequest 5 0x1004 0 4 false false.
Definition example_view : PortView unit :=
  mkView example_image (mkSlot None 4)
    (mkPort (mkMailbox 1 example_clock 1 [mkEnvelope 20 40 1 example_request])
            (mkMailbox 1 example_clock 1 [])) ().

Lemma memory_latency_witness :
  request_ready 40 1 1 example_request example_view /\
  exists v', port_steps (fun _ => false) (fun _ _ _ => m_ret None) example_clock 2 (Z.to_nat (2 + 1))
      40 1 1 example_view = (Ok (), v') /\
    entries (responses (pv_port v')) = [mkEnvelope 80 100 1 (mkResponse 5 0x04030201 None)] /\
    pv_image v' = example_image /\ pv_slot v' = mkSlot None 5.
Proof.
  assert (Hr : request_ready 40 1 1 example_request example_view).
  { constructor; try reflexivity; try (vm_compute; reflexivity).
    - constructor; simpl; rewrite ?size_of_nil; try lia; try constructor; simpl; lia.
    - simpl. eexists _, _. split_and!; [reflexivity | simpl; lia | reflexivity..].
    - simpl. split; lia. }
  split; [exact Hr|].
  apply (memory_latency (fun _ => false) (fun _ _ _ => m_ret None) example_clock 2 40 1 1
    example_request example_view 100 Hr); (reflexivity || (vm_compute; congruence) || (vm_compute; reflexivity)).
Defined.
