(* ===== verification/Feedback.v ===== *)
(** * Measurement feedback (src/feedback.cpp, include/qsbit/feedback.hpp)

    [MeasurementRegisters] tracks the measurements a core has started and the results delivered to
    it; [ExecutionFlags] holds what conditional execution tests.  The ordered maps keyed by
    measurement identity are [gmap]s; the one place that depends on their order compares keys. *)

From S2P Require Import Prelude Error Time Event.

Record FeedbackConfig := mkFeedbackConfig { fb_qubits : Z; result_capacity : Z; fast_feedback : bool }.

Record MeasurementRegister := mkMRegister { reg_pending : Z; reg_value : bool }.
#[global] Instance MeasurementRegister_eq_dec : EqDecision MeasurementRegister.
Proof. solve_decision. Defined.
#[global] Instance eta_MeasurementRegister : Eta MeasurementRegister :=
  fun r => mkMRegister (reg_pending r) (reg_value r).

Record MeasurementRegisters := mkRegisters {
  fb_config : FeedbackConfig; registers : list MeasurementRegister;
  pending_ : gmap Z MeasurementReference; fast_pending : gmap Z MeasurementReference;
  next_measurement : Id }.
#[global] Instance eta_MeasurementRegisters : Eta MeasurementRegisters := fun s =>
  mkRegisters (fb_config s) (registers s) (pending_ s) (fast_pending s) (next_measurement s).

Definition registers_new (config : FeedbackConfig) : MeasurementRegisters :=
  mkRegisters config (repeat (mkMRegister 0 false) (Z.to_nat (fb_qubits config))) ∅ ∅ 1.

Definition map_count (m : gmap Z MeasurementReference) : Z := Z.of_nat (size m).

Definition has_capacity (s : MeasurementRegisters) (count : Z) : bool :=
  (count <=? wrap64 (result_capacity (fb_config s) - map_count (pending_ s))) &&
  (negb (fast_feedback (fb_config s)) ||
   (count <=? wrap64 (result_capacity (fb_config s) - map_count (fast_pending s)))).

(** [registers_[target]], for a target already checked. *)
Definition register_at (s : MeasurementRegisters) (target : Z) : MeasurementRegister :=
  nth (Z.to_nat target) (registers s) (mkMRegister 0 false).

Definition prepare_reservation (s : MeasurementRegisters) (epoch : Epoch) (targets : list Z)
    : result (list MeasurementReference) :=
  do? require (has_capacity s (size_of targets)) Capacity in
  let? _ := checked_add (next_measurement s) (size_of targets) in
  result_fold (fun references target =>
    do? require (target <? size_of (registers s)) InvalidOperand in
    let count := count_if (Z.eqb target) targets in
    do? require (count <=? max32 - reg_pending (register_at s target)) TimeOverflow in
    let? id := checked_add (next_measurement s) (size_of references) in
    Ok (references ++ [mkReference epoch id target])) targets [].

(** [std::map::emplace] keeps an existing entry. *)
Definition emplace (r : MeasurementReference) (m : gmap Z MeasurementReference)
    : gmap Z MeasurementReference :=
  match m !! ref_measurement r with Some _ => m | None => <[ref_measurement r := r]> m end.

Definition commit_reservation (references : list MeasurementReference)
    : M MeasurementRegisters unit :=
  match references with
  | [] => m_ret ()
  | front :: _ =>
      let targets := map ref_target references in
      let! s := m_get in
      let! expected := m_lift (prepare_reservation s (ref_epoch front) targets) in
      do! m_lift (require (bool_decide (expected = references)) Protocol) in
      let pending := fold_left (fun m r => emplace r m) references (pending_ s) in
      let fast := fold_left (fun m r => if fast_feedback (fb_config s) then emplace r m else m)
                    references (fast_pending s) in
      do! m_modify (fun s => s <| pending_ := pending |> <| fast_pending := fast |>) in
      do! m_modify (fun s => s <| registers ::= fun regs =>
             fold_left (fun regs target =>
               alter (fun r => r <| reg_pending ::= fun p => wrap32 (p + 1) |>)
                 (Z.to_nat target) regs) targets regs |>) in
      let! next := m_lift (checked_add (next_measurement s) (size_of references)) in
      m_modify (fun s => s <| next_measurement := next |>)
  end.

Definition reserve (epoch : Epoch) (target : Z) : M MeasurementRegisters MeasurementReference :=
  let! s := m_get in
  let! references := m_lift (prepare_reservation s epoch [target]) in
  do! commit_reservation references in
  match references with r :: _ => m_ret r | [] => m_fault Protocol end.

Definition deliver (c : Completion) (epoch : Epoch) : M MeasurementRegisters unit := fun s =>
  let reference := comp_reference c in
  if negb (ref_epoch reference =? epoch) then (Ok (), s) else
  match pending_ s !! ref_measurement reference with
  | None => (Fault DuplicateResult, s)
  | Some r =>
      (do! m_lift (require (bool_decide (r = reference)) InvalidMeasurement) in
       do! m_lift (require (bool_decide (map_Forall (fun k e =>
              k < ref_measurement reference -> ref_target e <> ref_target reference) (pending_ s)))
            Protocol) in
       do! m_modify (fun s => s <| registers ::=
              alter (fun g => g <| reg_value := comp_value c |>
                                <| reg_pending ::= fun p => wrap32 (p - 1) |>)
                (Z.to_nat (ref_target reference)) |>) in
       m_modify (fun s => s <| pending_ ::= delete (ref_measurement reference) |>)) s
  end.

Definition acknowledge_fast (reference : MeasurementReference) (epoch : Epoch)
    : M MeasurementRegisters unit :=
  if negb (ref_epoch reference =? epoch) then m_ret () else
  let! s := m_get in
  do! m_lift (require (bool_decide (fast_pending s !! ref_measurement reference = Some reference))
        InvalidMeasurement) in
  m_modify (fun s => s <| fast_pending ::= delete (ref_measurement reference) |>).

Definition register_read (s : MeasurementRegisters) (target : Z) : result (option bool) :=
  do? require (target <? size_of (registers s)) InvalidOperand in
  let reg := register_at s target in
  if negb (reg_pending reg =? 0) then Ok None else Ok (Some (reg_value reg)).

Definition deliveries_pending (s : MeasurementRegisters) : bool :=
  negb (map_count (pending_ s) =? 0) || negb (map_count (fast_pending s) =? 0).

Definition registers_reset (s : MeasurementRegisters) : MeasurementRegisters :=
  s <| registers ::= map (fun _ => mkMRegister 0 false) |> <| pending_ := ∅ |>
    <| fast_pending := ∅ |> <| next_measurement := 1 |>.

(** ** Execution flags *)
Record FlagRegister := mkFlag {
  last_measurement : Id; last_one : bool; last_zero : bool; flag_equal : bool }.
#[global] Instance FlagRegister_eq_dec : EqDecision FlagRegister.
Proof. solve_decision. Defined.

(** [ExecutionFlags] is its vector of registers. *)
Abbreviation ExecutionFlags := (list FlagRegister) (only parsing).
Definition flag_zero : FlagRegister := mkFlag 0 false false false.
Definition flags_new (qubits : Z) : ExecutionFlags := repeat flag_zero (Z.to_nat qubits).

Definition flags_evaluate (s : ExecutionFlags) (target : Z) (flag : ExecutionFlag) : result bool :=
  do? require (target <? size_of s) InvalidOperand in
  let reg := nth (Z.to_nat target) s flag_zero in
  match flag with
  | Always => Ok true
  | LastOne => Ok (last_one reg)
  | LastZero => Ok (last_zero reg)
  | Equal => Ok (flag_equal reg)
  end.

Definition flags_commit (c : Completion) (epoch : Epoch) : M ExecutionFlags unit := fun s =>
  let reference := comp_reference c in
  if negb (ref_epoch reference =? epoch) then (Ok (), s) else
  (do! m_lift (require (ref_target reference <? size_of s) InvalidMeasurement) in
   let reg := nth (Z.to_nat (ref_target reference)) s flag_zero in
   do! m_lift (require (last_measurement reg <? ref_measurement reference) Protocol) in
   m_modify (fun s => <[Z.to_nat (ref_target reference) :=
     mkFlag (ref_measurement reference) (comp_value c) (negb (comp_value c))
       (negb (last_measurement reg =? 0) && Bool.eqb (last_one reg) (comp_value c))]> s)) s.

Definition flags_reset (s : ExecutionFlags) : ExecutionFlags := map (fun _ => flag_zero) s.

(** ** Counting outstanding measurements *)
Definition keys_below (n : Z) (m : gmap Z MeasurementReference) : Prop :=
  forall k r, m !! k = Some r -> ref_measurement r = k /\ 1 <= k < n.

Definition outstanding_on (t : Z) (m : gmap Z MeasurementReference) : Z :=
  map_count (filter (fun e => ref_target (snd e) = t) m).

(** The references a reservation makes: consecutive identities from [n]. *)
Fixpoint fresh_references (epoch : Epoch) (n : Id) (targets : list Z) : list MeasurementReference :=
  match targets with
  | [] => []
  | t :: ts => mkReference epoch n t :: fresh_references epoch (n + 1) ts
  end.

Lemma fresh_snoc epoch n ts t :
  fresh_references epoch n (ts ++ [t]) =
  fresh_references epoch n ts ++ [mkReference epoch (n + size_of ts) t].
Proof.
  revert n. induction ts as [|a ts IH]; intros n; simpl.
  - by rewrite size_of_nil, Z.add_0_r.
  - rewrite IH, size_of_cons. by replace (n + 1 + size_of ts) with (n + (1 + size_of ts)) by lia.
Qed.

Lemma size_of_fresh epoch n ts : size_of (fresh_references epoch n ts) = size_of ts.
Proof.
  revert n. induction ts as [|a ts IH]; intros n; simpl; [done|].
  by rewrite !size_of_cons, IH.
Qed.

Lemma fresh_targets epoch n ts : map ref_target (fresh_references epoch n ts) = ts.
Proof. revert n. induction ts as [|a ts IH]; intros n; simpl; [done|]. by rewrite IH. Qed.

Lemma elem_of_fresh epoch n ts r :
  r ∈ fresh_references epoch n ts ->
  n <= ref_measurement r < n + size_of ts /\ ref_target r ∈ ts /\ ref_epoch r = epoch.
Proof.
  revert n. induction ts as [|a ts IH]; intros n; simpl; [by intros ?%elem_of_nil|].
  rewrite size_of_cons. pose proof (size_of_nonneg ts).
  intros [->|H']%elem_of_cons; simpl.
  - split_and!; try lia. by left.
  - destruct (IH _ H') as (? & ? & ?). split_and!; try lia. by right.
Qed.

Lemma map_count_insert m k r : m !! k = None -> map_count (<[k := r]> m) = map_count m + 1.
Proof. intros H. unfold map_count. rewrite map_size_insert_None by done. lia. Qed.

Lemma map_count_delete m k r : m !! k = Some r -> map_count (delete k m) = map_count m - 1.
Proof.
  intros H. unfold map_count. rewrite map_size_delete_Some by eauto.
  assert (size m <> 0%nat) by (intros E; apply map_size_empty_inv in E as ->; done). lia.
Qed.

Lemma outstanding_insert t m k r :
  m !! k = None ->
  outstanding_on t (<[k := r]> m) = outstanding_on t m + if ref_target r =? t then 1 else 0.
Proof.
  intros H. unfold outstanding_on. destruct (Z.eqb_spec (ref_target r) t).
  - rewrite map_filter_insert_True by done. apply map_count_insert.
    apply map_lookup_filter_None. by left.
  - rewrite map_filter_insert_False by done. rewrite delete_id by done. lia.
Qed.

Lemma outstanding_delete t m k r :
  m !! k = Some r ->
  outstanding_on t (delete k m) = outstanding_on t m - if ref_target r =? t then 1 else 0.
Proof.
  intros H. unfold outstanding_on. rewrite map_filter_delete.
  destruct (Z.eqb_spec (ref_target r) t).
  - eapply map_count_delete. by apply map_lookup_filter_Some.
  - rewrite delete_id; [lia|]. apply map_lookup_filter_None. right. intros x Hx. simpl. congruence.
Qed.

Lemma outstanding_pos t m : outstanding_on t m <> 0 <-> exists k r, m !! k = Some r /\ ref_target r = t.
Proof.
  unfold outstanding_on, map_count. split.
  - intros H. destruct (map_choose (filter (fun e => ref_target (snd e) = t) m)) as (k & r & Hk).
    + intros E. rewrite E in H. by rewrite map_size_empty in H.
    + apply map_lookup_filter_Some in Hk. eauto.
  - intros (k & r & Hk & Ht) H.
    assert (E : size (filter (fun e : Z * MeasurementReference => ref_target (snd e) = t) m) = 0%nat) by lia.
    apply map_size_empty_inv in E. apply (map_empty_filter_1 _ m) in E.
    by apply (E k r Hk).
Qed.

Lemma outstanding_le t m : outstanding_on t m <= map_count m.
Proof.
  unfold outstanding_on, map_count.
  apply Nat2Z.inj_le, map_subseteq_size, map_filter_subseteq.
Qed.

(** ** Reservations *)
Lemma fold_emplace epoch ts n m :
  keys_below n m -> 1 <= n ->
  let m' := fold_left (fun m r => emplace r m) (fresh_references epoch n ts) m in
  keys_below (n + size_of ts) m' /\ map_count m' = map_count m + size_of ts /\
  (forall t, outstanding_on t m' = outstanding_on t m + count_if (Z.eqb t) ts) /\
  (forall k r, m' !! k = Some r ->
     m !! k = Some r \/ r ∈ fresh_references epoch n ts /\ ref_measurement r = k) /\
  (forall k, k < n -> m' !! k = m !! k) /\
  (forall r, r ∈ fresh_references epoch n ts -> m' !! ref_measurement r = Some r).
Proof.
  revert n m. induction ts as [|a ts IH]; intros n m Hm Hn; simpl.
  - rewrite size_of_nil. setoid_rewrite count_if_nil. rewrite !Z.add_0_r.
    split_and!; auto; [intros; lia | by intros r ?%elem_of_nil].
  - assert (Hnone : m !! n = None).
    { destruct (m !! n) as [r|] eqn:E; [|done]. destruct (Hm n r E). lia. }
    unfold emplace at 2 4 6 8 10 12. cbn [ref_measurement]. rewrite Hnone.
    assert (Hm' : keys_below (n + 1) (<[n := mkReference epoch n a]> m)).
    { intros k r Hk. apply lookup_insert_Some in Hk as [[<- <-]|[_ Hk]]; simpl; [lia|].
      destruct (Hm k r Hk). lia. }
    destruct (IH (n + 1) _ Hm' ltac:(lia)) as (H1 & H2 & H3 & H4 & H5 & H6). rewrite size_of_cons.
    split_and!.
    + by replace (n + (1 + size_of ts)) with (n + 1 + size_of ts) by lia.
    + rewrite H2, map_count_insert by done. lia.
    + intros t. rewrite H3, outstanding_insert, count_if_cons by done. simpl.
      rewrite (Z.eqb_sym a t). lia.
    + intros k r Hk. destruct (H4 k r Hk) as [Hk'|[Hin Heq]]; [|right; split; [by right | done]].
      apply lookup_insert_Some in Hk' as [[<- <-]|[_ Hk']]; [right; split; [by left | done] | by left].
    + intros k Hk. rewrite H5 by lia. apply lookup_insert_ne. lia.
    + intros r [->|Hr]%elem_of_cons; [|by apply H6]. simpl. rewrite H5 by lia. apply lookup_insert_eq.
Qed.

Record registers_wf (s : MeasurementRegisters) : Prop := {
  fb_length : size_of (registers s) = fb_qubits (fb_config s);
  fb_cap : u32 (result_capacity (fb_config s));
  fb_keys : keys_below (next_measurement s) (pending_ s);
  fb_targets : forall k r, pending_ s !! k = Some r -> 0 <= ref_target r < size_of (registers s);
  fb_fast_keys : keys_below (next_measurement s) (fast_pending s);
  fb_size : map_count (pending_ s) <= result_capacity (fb_config s);
  fb_fast_size : map_count (fast_pending s) <= result_capacity (fb_config s);
  fb_count : forall t, 0 <= t < size_of (registers s) ->
    reg_pending (register_at s t) = outstanding_on t (pending_ s);
  fb_next : 1 <= next_measurement s <= max64 }.

Lemma map_count_nonneg m : 0 <= map_count m.
Proof. unfold map_count. lia. Qed.

Lemma has_capacity_spec s n :
  registers_wf s -> has_capacity s n = true <->
  map_count (pending_ s) + n <= result_capacity (fb_config s) /\
  (fast_feedback (fb_config s) = true ->
   map_count (fast_pending s) + n <= result_capacity (fb_config s)).
Proof.
  intros [_ [Hc1 Hc2] _ _ _ H1 H2 _ _]. unfold has_capacity. unfold max32 in *.
  pose proof (map_count_nonneg (pending_ s)). pose proof (map_count_nonneg (fast_pending s)).
  rewrite !wrap64_small by (unfold u64, max64; lia).
  destruct (fast_feedback (fb_config s)); simpl;
    rewrite andb_true_iff, ?Z.leb_le; intuition (try lia; try discriminate).
Qed.

Lemma prepare_ok s epoch ts refs :
  prepare_reservation s epoch ts = Ok refs ->
  refs = fresh_references epoch (next_measurement s) ts /\ has_capacity s (size_of ts) = true /\
  next_measurement s + size_of ts <= max64 /\
  Forall (fun t => t < size_of (registers s) /\
    count_if (Z.eqb t) ts <= max32 - reg_pending (register_at s t)) ts.
Proof.
  unfold prepare_reservation. intros H. apply result_bind_ok in H as ([] & Hc & H).
  apply require_ok in Hc. apply result_bind_ok in H as (n & Hn & H). apply checked_add_ok in Hn as [Hn _].
  apply (result_fold_prefix (fun seen refs =>
           refs = fresh_references epoch (next_measurement s) seen /\
           Forall (fun t => t < size_of (registers s) /\
             count_if (Z.eqb t) ts <= max32 - reg_pending (register_at s t)) seen) _ _ []) in H.
  - destruct H as [-> Hall]. done.
  - split; [done | constructor].
  - intros d x b b' _ [-> Hd] Hb. inv_ok Hb. reflect.
    match goal with E : checked_add _ _ = Ok _ |- _ => apply checked_add_ok in E as [_ ->] end.
    rewrite fresh_snoc, size_of_fresh. split; [done|]. apply Forall_app. split; [done|].
    by repeat constructor.
Qed.

(** A reservation only reads the registers and the next identity. *)
Lemma prepare_epoch s epoch epoch' ts refs :
  prepare_reservation s epoch ts = Ok refs ->
  prepare_reservation s epoch' ts = Ok (fresh_references epoch' (next_measurement s) ts).
Proof.
  intros H. destruct (prepare_ok _ _ _ _ H) as (_ & Hc & Hn & Hall).
  unfold prepare_reservation, require. rewrite Hc. simpl. rewrite checked_add_eq by done. simpl.
  assert (Hgen : forall seen rest, seen ++ rest = ts ->
    result_fold (fun references target =>
      do? (if target <? size_of (registers s) then Ok () else Fault InvalidOperand) in
      do? (if count_if (Z.eqb target) ts <=? max32 - reg_pending (register_at s target)
           then Ok () else Fault TimeOverflow) in
      let? id := checked_add (next_measurement s) (size_of references) in
      Ok (references ++ [mkReference epoch' id target])) rest
      (fresh_references epoch' (next_measurement s) seen) =
    Ok (fresh_references epoch' (next_measurement s) ts)).
  { intros seen rest. revert seen. induction rest as [|x rest IH]; intros seen Heq; simpl.
    { by rewrite app_nil_r in Heq; subst. }
    rewrite Forall_forall in Hall. destruct (Hall x) as [Hx1 Hx2].
    { rewrite <-Heq. apply elem_of_app. right. by left. }
    rewrite (proj2 (Z.ltb_lt _ _) Hx1), (proj2 (Z.leb_le _ _) Hx2). simpl.
    rewrite size_of_fresh. rewrite checked_add_eq.
    - simpl. rewrite <-fresh_snoc. apply IH. by rewrite <-app_assoc.
    - rewrite <-Heq in Hn. rewrite size_of_app, size_of_cons in Hn.
      pose proof (size_of_nonneg rest). lia. }
  by apply (Hgen [] ts).
Qed.

(** [++registers_[target].pending] for each target. *)
Definition bump (regs : list MeasurementRegister) (target : Z) : list MeasurementRegister :=
  alter (fun r => r <| reg_pending ::= fun p => wrap32 (p + 1) |>) (Z.to_nat target) regs.

Lemma bump_nth regs target t d :
  0 <= target < size_of regs -> 0 <= t ->
  nth (Z.to_nat t) (bump regs target) d =
    if t =? target then (nth (Z.to_nat t) regs d) <| reg_pending ::= fun p => wrap32 (p + 1) |>
    else nth (Z.to_nat t) regs d.
Proof.
  unfold bump, size_of. intros Hx Ht. rewrite !nth_lookup, list_lookup_alter.
  destruct (Z.eqb_spec t target) as [->|Hne].
  - rewrite decide_True by done. destruct (regs !! Z.to_nat target) eqn:E; [done|].
    apply lookup_ge_None in E. lia.
  - rewrite decide_False by lia. done.
Qed.

Lemma fold_bump ts regs t d :
  Forall (fun x => 0 <= x < size_of regs) ts -> 0 <= t ->
  0 <= reg_pending (nth (Z.to_nat t) regs d) ->
  reg_pending (nth (Z.to_nat t) regs d) + count_if (Z.eqb t) ts <= max32 ->
  let regs' := fold_left bump ts regs in
  size_of regs' = size_of regs /\
  nth (Z.to_nat t) regs' d =
    (nth (Z.to_nat t) regs d) <| reg_pending ::= fun p => p + count_if (Z.eqb t) ts |>.
Proof.
  intros Hts Ht. revert regs Hts. induction ts as [|x ts IH]; intros regs Hts H0 Hb; simpl.
  - rewrite count_if_nil, Z.add_0_r. split; [done|]. by destruct (nth _ _ _).
  - inversion Hts as [|? ? Hx Hts']; subst. rewrite count_if_cons in *.
    assert (Hlen : size_of (bump regs x) = size_of regs)
      by (unfold bump, size_of; by rewrite length_alter).
    pose proof (count_if_nonneg (Z.eqb t) ts).
    assert (Hp : reg_pending (nth (Z.to_nat t) (bump regs x) d) =
                 reg_pending (nth (Z.to_nat t) regs d) + if t =? x then 1 else 0).
    { rewrite bump_nth by done. destruct (Z.eqb_spec t x); simpl; [|lia].
      apply wrap32_small. unfold u32, max32 in *. lia. }
    destruct (IH (bump regs x)) as [H1 H2].
    + by rewrite Hlen.
    + destruct (t =? x); lia.
    + rewrite Hp. lia.
    + split; [lia|]. rewrite H2. destruct (nth (Z.to_nat t) (bump regs x) d) as [p b] eqn:E.
      rewrite bump_nth in E by done. simpl in Hp.
      destruct (nth (Z.to_nat t) regs d) as [p' b']. simpl in *.
      rewrite Hp. destruct (t =? x); simpl in E; simplify_eq; f_equal; lia.
Qed.

Definition commit_state (epoch : Epoch) (ts : list Z) (s : MeasurementRegisters)
    : MeasurementRegisters :=
  let references := fresh_references epoch (next_measurement s) ts in
  mkRegisters (fb_config s) (fold_left bump ts (registers s))
    (fold_left (fun m r => emplace r m) references (pending_ s))
    (fold_left (fun m r => if fast_feedback (fb_config s) then emplace r m else m) references
      (fast_pending s))
    (next_measurement s + size_of ts).

Lemma commit_run s front rest :
  let references := front :: rest in
  prepare_reservation s (ref_epoch front) (map ref_target references) = Ok references ->
  next_measurement s + size_of references <= max64 ->
  commit_reservation references s =
    (Ok (), mkRegisters (fb_config s) (fold_left bump (map ref_target references) (registers s))
      (fold_left (fun m r => emplace r m) references (pending_ s))
      (fold_left (fun m r => if fast_feedback (fb_config s) then emplace r m else m) references
        (fast_pending s))
      (next_measurement s + size_of references)).
Proof.
  intros references H Hn. subst references. unfold commit_reservation.
  unfold m_bind at 1, m_get at 1. unfold m_bind at 1, m_lift at 1. rewrite H.
  unfold m_bind at 1, m_lift at 1. rewrite bool_decide_eq_true_2 by done. cbn [require].
  unfold m_bind, m_modify, m_lift. rewrite checked_add_eq by done. by destruct s.
Qed.

Lemma commit_fresh s epoch ts refs :
  prepare_reservation s epoch ts = Ok refs ->
  commit_reservation refs s = (Ok (), commit_state epoch ts s).
Proof.
  intros H. destruct (prepare_ok _ _ _ _ H) as (-> & _ & Hn & _).
  destruct ts as [|t ts].
  { simpl. unfold m_ret, commit_state. rewrite size_of_nil, Z.add_0_r. by destruct s. }
  cbn [fresh_references]. rewrite (commit_run s (mkReference epoch (next_measurement s) t)
    (fresh_references epoch (next_measurement s + 1) ts)).
  - change (mkReference epoch (next_measurement s) t :: _)
      with (fresh_references epoch (next_measurement s) (t :: ts)).
    by rewrite fresh_targets, size_of_fresh.
  - change (mkReference epoch (next_measurement s) t :: _)
      with (fresh_references epoch (next_measurement s) (t :: ts)). by rewrite fresh_targets.
  - change (mkReference epoch (next_measurement s) t :: _)
      with (fresh_references epoch (next_measurement s) (t :: ts)). by rewrite size_of_fresh.
Qed.

Lemma fold_if (b : bool) {A B} (f : B -> A -> B) l m :
  fold_left (fun m r => if b then f m r else m) l m = if b then fold_left f l m else m.
Proof. destruct b; [done|]. by induction l. Qed.

Lemma commit_wf s epoch ts refs :
  registers_wf s -> Forall (Z.le 0) ts -> prepare_reservation s epoch ts = Ok refs ->
  registers_wf (commit_state epoch ts s).
Proof.
  intros Hwf Hts H. destruct (prepare_ok _ _ _ _ H) as (-> & Hc & Hn & Hall).
  pose proof Hwf as [Hlen Hcap Hkeys Htg Hfk Hsz Hfs Hcnt [Hn1 Hn2]].
  apply has_capacity_spec in Hc as [Hc1 Hc2]; [|done].
  destruct (fold_emplace epoch ts _ _ Hkeys Hn1) as (P1 & P2 & P3 & P4 & _ & _).
  destruct (fold_emplace epoch ts _ _ Hfk Hn1) as (F1 & F2 & _ & _ & _ & _).
  assert (Hr : Forall (fun x => 0 <= x < size_of (registers s)) ts).
  { rewrite Forall_forall in *. intros x Hx. specialize (Hts x Hx). destruct (Hall x Hx). lia. }
  assert (Hbump : forall t, 0 <= t < size_of (registers s) ->
            reg_pending (register_at s t) + count_if (Z.eqb t) ts <= max32).
  { intros t Ht. destruct (decide (t ∈ ts)) as [Hin|Hout].
    - rewrite Forall_forall in Hall. destruct (Hall t Hin). lia.
    - assert (count_if (Z.eqb t) ts = 0) as ->.
      { clear -Hout. induction ts as [|a ts IH]; [done|]. rewrite count_if_cons.
        rewrite not_elem_of_cons in Hout. destruct Hout.
        rewrite (proj2 (Z.eqb_neq t a)) by done. rewrite IH by done. lia. }
      rewrite Hcnt by done. pose proof (outstanding_le t (pending_ s)). destruct Hcap. lia. }
  assert (Hp0 : forall t, 0 <= t < size_of (registers s) -> 0 <= reg_pending (register_at s t))
    by (intros t Ht; rewrite Hcnt by done; apply map_count_nonneg).
  assert (Hlen' : size_of (fold_left bump ts (registers s)) = size_of (registers s)).
  { clear. generalize (registers s). induction ts as [|x ts IH]; intros regs; simpl; [done|].
    rewrite IH. unfold bump, size_of. by rewrite length_alter. }
  pose proof (size_of_nonneg ts).
  constructor; cbn [commit_state fb_config registers pending_ fast_pending next_measurement];
    rewrite ?fold_if; try done; try lia.
  - intros k r Hk. rewrite Hlen'. apply P4 in Hk as [Hk|[Hk _]]; [by eapply Htg|].
    apply elem_of_fresh in Hk as (_ & Hk & _). rewrite Forall_forall in Hr. by apply Hr.
  - destruct (fast_feedback _); [done|]. intros k r Hk. destruct (Hfk k r Hk). lia.
  - destruct (fast_feedback _); [rewrite F2; by apply Hc2 | done].
  - intros t Ht. rewrite Hlen' in Ht. rewrite P3, <-Hcnt by done. unfold register_at at 1.
    cbn [commit_state registers].
    destruct (fold_bump ts (registers s) t (mkMRegister 0 false) Hr) as [_ ->];
      [lia | by apply Hp0 | by apply Hbump | done].
Qed.

(** ** Deliveries *)
(** The oldest measurement outstanding on its target. *)
Definition oldest (s : MeasurementRegisters) (r : MeasurementReference) : Prop :=
  pending_ s !! ref_measurement r = Some r /\
  forall k e, pending_ s !! k = Some e -> ref_target e = ref_target r -> ref_measurement r <= k.

Definition deliver_state (c : Completion) (s : MeasurementRegisters) : MeasurementRegisters :=
  let r := comp_reference c in
  s <| registers ::= alter (fun g => g <| reg_value := comp_value c |>
                                       <| reg_pending ::= fun p => wrap32 (p - 1) |>)
         (Z.to_nat (ref_target r)) |>
    <| pending_ ::= delete (ref_measurement r) |>.

Lemma deliver_cases c epoch s :
  (ref_epoch (comp_reference c) <> epoch /\ deliver c epoch s = (Ok (), s)) \/
  (ref_epoch (comp_reference c) = epoch /\ oldest s (comp_reference c) /\
   deliver c epoch s = (Ok (), deliver_state c s)) \/
  (ref_epoch (comp_reference c) = epoch /\ ~ oldest s (comp_reference c) /\
   exists e, deliver c epoch s = (Fault e, s)).
Proof.
  unfold deliver, oldest. destruct (Z.eqb_spec (ref_epoch (comp_reference c)) epoch); simpl; [right|by left].
  destruct (pending_ s !! ref_measurement (comp_reference c)) as [r|] eqn:E; [|right; naive_solver].
  unfold m_bind, m_lift, m_modify, require.
  destruct (bool_decide_reflect (r = comp_reference c)) as [->|Hne]; [|right; naive_solver].
  destruct (bool_decide_reflect (map_Forall (fun k e => k < ref_measurement (comp_reference c) ->
     ref_target e <> ref_target (comp_reference c)) (pending_ s))) as [Hall|Hn].
  - left. split_and!; try done. intros k e' Hk Ht.
    destruct (Z.le_gt_cases (ref_measurement (comp_reference c)) k); [done|].
    by destruct (Hall k e' Hk).
  - right. split_and!; try eauto. intros [_ Ho]. apply Hn. intros k e' Hk Hlt Ht.
    specialize (Ho k e' Hk Ht). lia.
Qed.

Lemma deliver_register c s t :
  registers_wf s -> oldest s (comp_reference c) -> 0 <= t ->
  register_at (deliver_state c s) t =
    if t =? ref_target (comp_reference c)
    then mkMRegister (reg_pending (register_at s t) - 1) (comp_value c) else register_at s t.
Proof.
  intros Hwf [Ho _] Ht. destruct Hwf as [Hlen [Hc1 Hc2] Hk Htg _ Hsz _ Hcnt _].
  pose proof (Htg _ _ Ho) as Hr. unfold register_at, deliver_state. simpl.
  rewrite !nth_lookup, list_lookup_alter. destruct (Z.eqb_spec t (ref_target (comp_reference c))) as [->|].
  - rewrite decide_True by done. pose proof (Hcnt _ Hr) as Hp. unfold register_at in Hp.
    rewrite nth_lookup in Hp.
    destruct (registers s !! Z.to_nat (ref_target (comp_reference c))) as [g|] eqn:E; simpl in *.
    + f_equal. apply wrap32_small.
      pose proof (outstanding_le (ref_target (comp_reference c)) (pending_ s)).
      assert (outstanding_on (ref_target (comp_reference c)) (pending_ s) <> 0)
        by (apply outstanding_pos; eauto).
      pose proof (map_count_nonneg (filter (fun e => ref_target (snd e) = ref_target (comp_reference c)) (pending_ s))).
      unfold u32, outstanding_on in *. lia.
    + apply lookup_ge_None in E. unfold size_of in Hr. lia.
  - by rewrite decide_False by (unfold size_of in Hr; lia).
Qed.

Lemma deliver_wf c s :
  registers_wf s -> oldest s (comp_reference c) -> registers_wf (deliver_state c s).
Proof.
  intros Hwf Ho. pose proof Hwf as [Hlen Hcap Hk Htg Hfk Hsz Hfs Hcnt Hn].
  assert (Hl : size_of (registers (deliver_state c s)) = size_of (registers s))
    by (unfold deliver_state, size_of; simpl; by rewrite length_alter).
  constructor; rewrite ?Hl; simpl; try done.
  - intros k r Hd. apply lookup_delete_Some in Hd as [_ Hd]. by apply Hk.
  - intros k r Hd. apply lookup_delete_Some in Hd as [_ Hd]. by eapply Htg.
  - destruct Ho as [Ho _]. rewrite (map_count_delete _ _ _ Ho). lia.
  - intros t Ht. rewrite deliver_register by (done || lia). destruct Ho as [Ho _].
    rewrite (outstanding_delete _ _ _ _ Ho), <-Hcnt by done. rewrite (Z.eqb_sym t).
    destruct (ref_target (comp_reference c) =? t); simpl; lia.
Qed.

Lemma ack_wf r epoch s x s' :
  registers_wf s -> acknowledge_fast r epoch s = (x, s') -> registers_wf s'.
Proof.
  intros Hwf. unfold acknowledge_fast. destruct (negb _); [by intros [= <- <-]|].
  unfold m_bind, m_get, m_lift, m_modify, require.
  destruct (bool_decide_reflect (fast_pending s !! ref_measurement r = Some r)) as [Hr|];
    intros [= <- <-]; [|done].
  destruct Hwf as [Hlen Hcap Hk Htg Hfk Hsz Hfs Hcnt Hn]. constructor; simpl; try done.
  - intros k e Hd. apply lookup_delete_Some in Hd as [_ Hd]. by apply Hfk.
  - rewrite (map_count_delete _ _ _ Hr). lia.
Qed.

Lemma nth_map_const {A B} (x : B) (l : list A) n : nth n (map (fun _ => x) l) x = x.
Proof. revert n. by induction l as [|a l IH]; intros [|n]; simpl. Qed.

Lemma reset_wf s : registers_wf s -> registers_wf (registers_reset s).
Proof.
  intros [Hlen [? ?] _ _ _ _ _ _ _]. constructor; simpl; rewrite ?size_of_map; try done;
    try (intros k r Hk; by rewrite lookup_empty in Hk); unfold map_count; rewrite ?map_size_empty; try lia.
  - intros t _. unfold register_at. simpl. rewrite nth_map_const. unfold outstanding_on, map_count.
    by rewrite map_filter_empty, map_size_empty.
Qed.

Lemma new_wf config :
  0 <= fb_qubits config -> u32 (result_capacity config) -> registers_wf (registers_new config).
Proof.
  intros Hq [? ?]. constructor; simpl; try done;
    try (intros k r Hk; by rewrite lookup_empty in Hk); unfold map_count; rewrite ?map_size_empty; try lia.
  - unfold size_of. rewrite repeat_length. lia.
  - intros t _. unfold register_at, outstanding_on, map_count. simpl.
    by rewrite nth_repeat, map_filter_empty, map_size_empty.
Qed.

(** ** Every state the operations reach *)
Inductive feedback_step : relation MeasurementRegisters :=
| step_commit s epoch ts refs r s' :
    Forall (Z.le 0) ts -> prepare_reservation s epoch ts = Ok refs ->
    commit_reservation refs s = (r, s') -> feedback_step s s'
| step_deliver s c epoch r s' : deliver c epoch s = (r, s') -> feedback_step s s'
| step_acknowledge s reference epoch r s' :
    acknowledge_fast reference epoch s = (r, s') -> feedback_step s s'
| step_reset s : feedback_step s (registers_reset s).

Lemma feedback_step_wf s s' : registers_wf s -> feedback_step s s' -> registers_wf s'.
Proof.
  intros Hwf Hst. destruct Hst as [s epoch ts refs r s' Hts Hp Hc|s c epoch r s' Hd|s r e x s' Ha|s].
  - rewrite (commit_fresh _ _ _ _ Hp) in Hc. simplify_eq. by eapply commit_wf.
  - destruct (deliver_cases c epoch s) as [[_ E]|[(_ & Ho & E)|(_ & _ & e & E)]];
      rewrite E in Hd; simplify_eq; [done | by apply deliver_wf | done].
  - by eapply ack_wf.
  - by apply reset_wf.
Qed.

Lemma feedback_reachable_wf s s' : registers_wf s -> rtc feedback_step s s' -> registers_wf s'.
Proof. intros Hwf. induction 1; eauto using feedback_step_wf. Qed.

(** C24. Reading a measurement register blocks exactly while a measurement of that qubit is
    outstanding: in every state the operations reach, failed operations included, the register's
    counter is the number of pending references to its qubit, so [read] answers iff there is none. *)
Theorem measurement_read_blocks (config : FeedbackConfig) (s : MeasurementRegisters) (t : Z) :
  0 <= fb_qubits config -> u32 (result_capacity config) ->
  rtc feedback_step (registers_new config) s -> 0 <= t < size_of (registers s) ->
  (register_read s t = Ok None <-> exists k r, pending_ s !! k = Some r /\ ref_target r = t) /\
  (register_read s t = Ok (Some (reg_value (register_at s t))) <->
     forall k r, pending_ s !! k = Some r -> ref_target r <> t).
Proof.
  intros Hq Hc Hreach Ht. pose proof (feedback_reachable_wf _ _ (new_wf _ Hq Hc) Hreach) as Hwf.
  unfold register_read, require. rewrite (proj2 (Z.ltb_lt _ _) (proj2 Ht)). simpl.
  pose proof (fb_count _ Hwf t Ht) as Hcnt. pose proof (outstanding_pos t (pending_ s)) as Hpos.
  destruct (Z.eqb_spec (reg_pending (register_at s t)) 0) as [E|E]; simpl.
  - assert (Hno : ~ exists k r, pending_ s !! k = Some r /\ ref_target r = t)
      by (rewrite <-Hpos; lia).
    split; split; try done; try naive_solver.
  - assert (Hyes : exists k r, pending_ s !! k = Some r /\ ref_target r = t)
      by (rewrite <-Hpos; lia).
    split; split; try done; try naive_solver.
Qed.

Definition example_feedback : FeedbackConfig := mkFeedbackConfig 2 4 true.
Definition example_reserved : MeasurementRegisters :=
  commit_state 1 [1] (registers_new example_feedback).

Lemma example_new_wf : registers_wf (registers_new example_feedback).
Proof. apply new_wf; [simpl; lia | unfold u32, max32; simpl; lia]. Qed.

Lemma measurement_read_blocks_witness :
  rtc feedback_step (registers_new example_feedback) example_reserved /\
  register_read example_reserved 1 = Ok None.
Proof.
  assert (Hr : rtc feedback_step (registers_new example_feedback) example_reserved).
  { eapply rtc_l; [|apply rtc_refl]. eapply (step_commit _ 1 [1] [mkReference 1 1 1] (Ok ())).
    - forall_list lia.
    - vm_compute; reflexivity.
    - vm_compute; reflexivity. }
  split; [exact Hr|].
  apply (measurement_read_blocks example_feedback example_reserved 1);
    [vm_compute; congruence | unfold u32, max32; simpl; lia | exact Hr | vm_compute; split; congruence |].
  exists 1, (mkReference 1 1 1). split; vm_compute; reflexivity.
Defined.

(** C25. Two-phase reservation.  Once [prepare_reservation] has accepted a list of qubits, committing
    its references cannot fail: they get consecutive fresh identities, become pending (and, with fast
    feedback, await a fast acknowledgment), nothing else is forgotten, and the invariant is kept. *)
Theorem reservation_commits (s : MeasurementRegisters) (epoch : Epoch) (ts : list Z)
    (refs : list MeasurementReference)
    (Hwf : registers_wf s) (Hts : Forall (Z.le 0) ts)
    (H : prepare_reservation s epoch ts = Ok refs) :
  exists s', commit_reservation refs s = (Ok (), s') /\ registers_wf s' /\
    refs = fresh_references epoch (next_measurement s) ts /\
    next_measurement s' = next_measurement s + size_of ts /\
    (forall r, r ∈ refs -> pending_ s' !! ref_measurement r = Some r /\
       (fast_feedback (fb_config s) = true -> fast_pending s' !! ref_measurement r = Some r)) /\
    (forall k r, pending_ s !! k = Some r -> pending_ s' !! k = Some r) /\
    map_count (pending_ s') = map_count (pending_ s) + size_of ts.
Proof.
  exists (commit_state epoch ts s). split; [by apply commit_fresh|].
  split; [by eapply commit_wf|]. destruct (prepare_ok _ _ _ _ H) as (-> & _).
  pose proof Hwf as [_ _ Hk _ Hf _ _ _ [Hn1 Hn2]].
  destruct (fold_emplace epoch ts _ _ Hk Hn1) as (_ & P2 & _ & _ & P5 & P6).
  destruct (fold_emplace epoch ts _ _ Hf Hn1) as (_ & _ & _ & _ & _ & F6).
  split_and!; try done.
  - intros r Hr. split; [by apply P6|]. intros Hfast. simpl. rewrite fold_if, Hfast. by apply F6.
  - intros k r Hkr. simpl. rewrite P5; [done|]. destruct (Hk k r Hkr). lia.
Qed.

Lemma reservation_commits_witness :
  prepare_reservation (registers_new example_feedback) 1 [0; 1; 0] =
    Ok [mkReference 1 1 0; mkReference 1 2 1; mkReference 1 3 0] /\
  exists s', commit_reservation [mkReference 1 1 0; mkReference 1 2 1; mkReference 1 3 0]
    (registers_new example_feedback) = (Ok (), s') /\ registers_wf s'.
Proof.
  assert (H : prepare_reservation (registers_new example_feedback) 1 [0; 1; 0] =
    Ok [mkReference 1 1 0; mkReference 1 2 1; mkReference 1 3 0]) by (vm_compute; reflexivity).
  split; [exact H|].
  assert (Hts : Forall (Z.le 0) [0; 1; 0]) by forall_list lia.
  destruct (reservation_commits _ _ _ _ example_new_wf Hts H) as (s' & H1 & H2 & _).
  exists s'. split; [exact H1 | exact H2].
Defined.

(** Results arrive in order.  In the current session a completion is accepted exactly when its
    reference is the oldest outstanding one of its qubit; it then retires that reference alone and,
    if it was the last one, the register reads the delivered value; other registers are unaffected.
    A rejected or stale completion changes nothing. *)
Theorem deliver_in_order (s : MeasurementRegisters) (c : Completion) (epoch : Epoch)
    (Hwf : registers_wf s) :
  let r := comp_reference c in
  match deliver c epoch s with
  | (Ok _, s') =>
      registers_wf s' /\
      (ref_epoch r <> epoch /\ s' = s \/
       ref_epoch r = epoch /\ oldest s r /\ pending_ s' = delete (ref_measurement r) (pending_ s) /\
       ((forall k e, pending_ s' !! k = Some e -> ref_target e <> ref_target r) ->
          register_read s' (ref_target r) = Ok (Some (comp_value c))) /\
       forall t, 0 <= t -> t <> ref_target r -> register_read s' t = register_read s t)
  | (Fault _, s') => s' = s /\ ref_epoch r = epoch /\ ~ oldest s r
  end.
Proof.
  cbv zeta. destruct (deliver_cases c epoch s) as [[Hne ->]|[(He & Ho & ->)|(He & Ho & e & ->)]];
    [by split; [|left] | | done].
  pose proof (deliver_wf _ _ Hwf Ho) as Hwf'. split; [done|right]. split_and!; try done.
  - intros Hnone. pose proof (proj1 Ho) as Hp. pose proof (fb_targets _ Hwf _ _ Hp) as Hr.
    assert (Hl : size_of (registers (deliver_state c s)) = size_of (registers s))
      by (unfold deliver_state, size_of; simpl; by rewrite length_alter).
    pose proof (fb_count _ Hwf' (ref_target (comp_reference c))) as Hcnt. rewrite Hl in Hcnt. specialize (Hcnt Hr).
    unfold register_read, require. rewrite Hl, (proj2 (Z.ltb_lt _ _) (proj2 Hr)). simpl.
    assert (Hz : outstanding_on (ref_target (comp_reference c)) (pending_ (deliver_state c s)) = 0).
    { destruct (Z.eq_dec (outstanding_on (ref_target (comp_reference c)) (pending_ (deliver_state c s))) 0) as [|Hnz]; [done|].
      apply outstanding_pos in Hnz as (k & e & Hk & Ht). by destruct (Hnone k e Hk). }
    rewrite Hcnt, Hz. simpl. rewrite deliver_register by (done || lia).
    by rewrite Z.eqb_refl.
  - intros t Ht Hne. unfold register_read.
    rewrite deliver_register by done. rewrite (proj2 (Z.eqb_neq _ _) Hne).
    unfold deliver_state, size_of. simpl. by rewrite length_alter.
Qed.

Lemma deliver_in_order_witness :
  registers_wf example_reserved /\
  deliver (mkCompletion (mkReference 1 1 1) true) 1 example_reserved =
    (Ok (), deliver_state (mkCompletion (mkReference 1 1 1) true) example_reserved) /\
  registers_wf (deliver_state (mkCompletion (mkReference 1 1 1) true) example_reserved).
Proof.
  assert (Hwf : registers_wf example_reserved).
  { apply (commit_wf _ 1 [1] [mkReference 1 1 1]); [| | vm_compute; reflexivity].
    2: forall_list lia.
    exact example_new_wf. }
  split; [exact Hwf|]. split; [vm_compute; reflexivity|].
  exact (proj1 (deliver_in_order example_reserved (mkCompletion (mkReference 1 1 1) true) 1 Hwf)).
Defined.

(** ** Execution flags *)
(** The results committed for a qubit, newest first. *)
Definition recent_results (t : Z) (epoch : Epoch) (cs : list Completion) : list bool :=
  rev (map comp_value (List.filter (fun c =>
    (ref_epoch (comp_reference c) =? epoch) && (ref_target (comp_reference c) =? t)) cs)).

Definition flag_shows (vs : list bool) (reg : FlagRegister) : Prop :=
  0 <= last_measurement reg /\ (last_measurement reg = 0 <-> vs = []) /\
  last_one reg = match vs with v :: _ => v | [] => false end /\
  last_zero reg = match vs with v :: _ => negb v | [] => false end /\
  flag_equal reg = match vs with v :: w :: _ => Bool.eqb w v | _ => false end.

Lemma recent_snoc t epoch cs c :
  recent_results t epoch (cs ++ [c]) =
    (if (ref_epoch (comp_reference c) =? epoch) && (ref_target (comp_reference c) =? t)
     then [comp_value c] else []) ++ recent_results t epoch cs.
Proof.
  unfold recent_results. rewrite List.filter_app, map_app, rev_app_distr. simpl.
  by destruct (_ && _).
Qed.

Lemma flag_shows_commit t d epoch c (s : ExecutionFlags) u s' q :
  0 <= ref_target (comp_reference c) -> size_of s = q ->
  (forall t, 0 <= t < q -> flag_shows (recent_results t epoch d) (nth (Z.to_nat t) s flag_zero)) ->
  flags_commit c epoch s = (Ok u, s') -> 0 <= t < q ->
  size_of s' = q /\ flag_shows (recent_results t epoch (d ++ [c])) (nth (Z.to_nat t) s' flag_zero).
Proof.
  intros H0 Hs HI H Ht. unfold flags_commit in H. rewrite recent_snoc.
  destruct (Z.eqb_spec (ref_epoch (comp_reference c)) epoch); simpl in *; [|simplify_eq; auto].
  cbv zeta in H. inv_ok H. reflect. split; [unfold size_of; by rewrite length_insert|].
  rewrite !nth_lookup in *. destruct (Z.eqb_spec (ref_target (comp_reference c)) t) as [<-|Hne].
  - rewrite list_lookup_insert_eq by (unfold size_of in *; lia). simpl.
    specialize (HI _ Ht). rewrite nth_lookup in HI.
    destruct HI as (Hm & Hz & Ho & _ & _). unfold flag_shows. simpl.
    split_and!; [lia | split; [lia | done] | done | done |].
    destruct (recent_results _ _ d) as [|w vs].
    + rewrite (proj2 Hz eq_refl). done.
    + rewrite Ho. destruct (Z.eqb_spec (last_measurement
        (default flag_zero (s !! Z.to_nat (ref_target (comp_reference c))))) 0) as [E|]; [|done].
      by apply Hz in E.
  - rewrite list_lookup_insert_ne by lia. specialize (HI _ Ht). by rewrite nth_lookup in HI.
Qed.

(** Execution flags follow the last two results.  After any sequence of accepted completions, on
    any qubits and sessions, [LastOne] and [LastZero] test the qubit's latest result of the current
    session and [Equal] whether its last two results agree; all are false before the first result. *)
Theorem flags_last_results (qubits t : Z) (epoch : Epoch) (cs : list Completion) (s : ExecutionFlags) :
  0 <= t < qubits -> Forall (fun c => 0 <= ref_target (comp_reference c)) cs ->
  m_each (fun c => flags_commit c epoch) cs (flags_new qubits) = (Ok (), s) ->
  flags_evaluate s t Always = Ok true /\
  flags_evaluate s t LastOne =
    Ok (match recent_results t epoch cs with v :: _ => v | [] => false end) /\
  flags_evaluate s t LastZero =
    Ok (match recent_results t epoch cs with v :: _ => negb v | [] => false end) /\
  flags_evaluate s t Equal =
    Ok (match recent_results t epoch cs with v :: w :: _ => Bool.eqb w v | _ => false end).
Proof.
  intros Ht Hcs H.
  apply (m_each_ok _ (fun d s => size_of s = qubits /\ forall t, 0 <= t < qubits ->
           flag_shows (recent_results t epoch d) (nth (Z.to_nat t) s flag_zero)) _ []) in H as [Hs HI].
  - destruct (HI t Ht) as (_ & _ & H1 & H2 & H3). unfold flags_evaluate, require.
    rewrite Hs, (proj2 (Z.ltb_lt _ _) (proj2 Ht)). simpl in *. by rewrite H1, H2, H3.
  - split; [unfold flags_new, size_of; rewrite repeat_length; lia|]. intros t' _.
    unfold flags_new. rewrite nth_repeat. unfold flag_shows, flag_zero. simpl. split_and!; done.
  - intros d c s0 s1 Hin [Hs0 HI0] Hc. rewrite Forall_forall in Hcs. specialize (Hcs c Hin).
    split; [eapply (flag_shows_commit t); eauto|]. intros t' Ht'.
    eapply flag_shows_commit; eauto.
Qed.

Lemma flags_last_results_witness :
  let cs := [mkCompletion (mkReference 1 1 0) true; mkCompletion (mkReference 1 2 1) false;
             mkCompletion (mkReference 1 3 0) true] in
  exists s, m_each (fun c => flags_commit c 1) cs (flags_new 2) = (Ok (), s) /\
    flags_evaluate s 0 LastOne = Ok true /\ flags_evaluate s 0 Equal = Ok true.
Proof.
  eexists. split; [vm_compute; reflexivity|].
  match goal with |- flags_evaluate ?s _ _ = _ /\ _ =>
    pose proof (flags_last_results 2 0 1
      [mkCompletion (mkReference 1 1 0) true; mkCompletion (mkReference 1 2 1) false;
       mkCompletion (mkReference 1 3 0) true] s ltac:(lia) ltac:(forall_list ltac:(simpl; lia))
      ltac:(vm_compute; reflexivity)) as (_ & H1 & _ & H2) end.
  split; [exact H1 | exact H2].
Defined.
