(* ===== verification/Profile.v ===== *)
(** * Profiles (src/profile.cpp from line 64, src/timing_config.cpp, src/defaults.cpp and their headers)

    The configuration of a core: its clocks, latencies, capacities, the mapping from codewords to
    event descriptors and the two-qubit gates.  [profile_validate] is the whole of
    [Profile::validate]; [timing_config], [tcu_config] and [transport_config] are the views of a
    profile that other components keep.  How a double is printed in the fingerprint is a parameter. *)

From Stdlib Require Import SpecFloat Ascii.
From stdpp Require Import pretty.
From S2P Require Import Prelude Error Time Event.

Record Profile := mkProfile {
  cpu_clock : Clock; tcu_clock : Clock; start : Tick; watchdog : Tick;
  memory_latency : Z; command_latency : Z; reply_latency : Z; cpu_result_latency : Z;
  fast_result_latency : Z; timing_capacity : Z; event_capacity : Z; staging_capacity : Z;
  p_result_capacity : Z; ports : Z; qubits : Z; firing_width : Z; seed : Z;
  p_fast_feedback : bool; mappings : list Mapping; two_qubit_gates : list TwoQubitGate }.

(** [std::set::insert(x).second], threaded through a loop. *)
Definition insert_new {A} `{Countable A} (seen : gset A) (x : A) : result (gset A) :=
  do? require (bool_decide (x ∉ seen)) InvalidProfile in
  Ok ({[x]} ∪ seen).

Definition profile_gate (p : Profile) (name : string) : result TwoQubitGate :=
  match List.find (fun g => String.eqb (tq_name g) name) (two_qubit_gates p) with
  | Some g => Ok g
  | None => Fault InvalidProfile
  end.

Definition profile_mapping (p : Profile) (port codeword : Z) : result Mapping :=
  do? require (port <? ports p) InvalidPort in
  match List.find (fun m => (map_port m =? port) && (map_codeword m =? codeword)) (mappings p) with
  | Some m => Ok m
  | None => Fault InvalidCodeword
  end.

Definition distinct_resources (rs : list ResourceUse) : result unit :=
  let? _ := result_fold insert_new (map res_id rs) ∅ in Ok ().

(** ** [Profile::validate] *)
Definition validate_gate (p : Profile) (seen : gset string * gset (Z * Z * Z)) (g : TwoQubitGate)
    : result (gset string * gset (Z * Z * Z)) :=
  do? require (negb (String.eqb (tq_name g) "")) InvalidProfile in
  let? names := insert_new (fst seen) (tq_name g) in
  match tq_targets g, tq_inputs g with
  | [a; b], [i; j] =>
      do? require (negb (String.eqb (tq_operation g) "") && (0 <? tq_duration g) && negb (a =? b) &&
                   (a <? qubits p) && (b <? qubits p)) InvalidProfile in
      do? require (negb (in_core i =? in_core j) || negb (in_port i =? in_port j)) InvalidProfile in
      let? inputs :=
        result_fold (fun inputs input =>
          do? require (in_core input <=? 131071) InvalidProfile in
          insert_new inputs (in_core input, in_port input, in_codeword input))
          (tq_inputs g) (snd seen) in
      do? distinct_resources (tq_resources g) in
      Ok (names, inputs)
  | _, _ => Fault InvalidProfile
  end.

(** The target of an acquisition or an arm: its only one. *)
Definition single_target (a : EventSpec) : result Z :=
  match targets a with [q] => Ok q | _ => Fault InvalidProfile end.

(** [acquisitions] and [arms] of the loop over a mapping's actions. *)
Definition Pairing : Type := (gmap Z bool * gmap Z Z)%type.

Definition arm_count (arms : gmap Z Z) (q : Z) : Z := default 0 (arms !! q).

Definition validate_action (p : Profile) (m : Mapping) (acc : Pairing) (a : EventSpec)
    : result Pairing :=
  do? require ((ev_port a <? ports p) &&
               (bool_decide (kind a = GateOutput) || negb (bool_decide (targets a = []))) &&
               (0 <? ev_duration a)) InvalidProfile in
  do? match ev_spec a with
      | SpecGateOutput o =>
          do? require ((size_of (map_actions m) =? 1) && (ev_port a =? map_port m)) InvalidProfile in
          let? g := profile_gate p (output_gate o) in
          require (ev_duration a =? tq_duration g) InvalidProfile
      | _ => Ok ()
      end in
  do? require (bool_decide (execution_flag a = Always) || (size_of (targets a) =? 1))
    InvalidProfile in
  let? _ :=
    result_fold (fun seen q =>
      do? require (q <? qubits p) InvalidProfile in insert_new seen q) (targets a) ∅ in
  do? distinct_resources (resources a) in
  let? acc :=
    match ev_spec a with
    | SpecAcquire s =>
        let? q := single_target a in
        do? require (bool_decide (fst acc !! q = None)) InvalidProfile in
        Ok (<[q := separate_arm s]> (fst acc), snd acc)
    | SpecArm _ =>
        let? q := single_target a in
        Ok (fst acc, <[q := wrap32 (arm_count (snd acc) q + 1)]> (snd acc))
    | _ => Ok acc
    end in
  do? require (negb (bool_decide (kind a = IdealGate) && String.eqb (operation a) "reset") ||
               ((size_of (targets a) =? 1) && bool_decide (execution_flag a = Always)))
    InvalidProfile in
  do? require (finite_amplitude a) InvalidProfile in
  do? match ev_spec a with
      | SpecPulse s =>
          require ((size_of (targets a) =? 1) &&
                   (String.eqb (pulse_axis s) "x" || String.eqb (pulse_axis s) "y" ||
                    String.eqb (pulse_axis s) "z")) InvalidProfile
      | _ => Ok ()
      end in
  Ok acc.

(** [arms[target]] of the final loops reads 0 for a target without an arm. *)
Definition validate_mapping (p : Profile) (keys : gset (Z * Z)) (m : Mapping)
    : result (gset (Z * Z)) :=
  do? require (map_port m <? ports p) InvalidProfile in
  let? keys := insert_new keys (map_port m, map_codeword m) in
  do? require (negb (size_of (map_actions m) =? 0)) InvalidProfile in
  let? acc := result_fold (validate_action p m) (map_actions m) (∅, ∅) in
  do? require (bool_decide (map_Forall (fun q separate =>
        arm_count (snd acc) q = if separate : bool then 1 else 0) (fst acc))) InvalidProfile in
  do? require (bool_decide (map_Forall (fun q count => count = 0 \/ is_Some (fst acc !! q))
        (snd acc))) InvalidProfile in
  Ok keys.

Definition profile_validate (p : Profile) : result unit :=
  do? clock_validate (cpu_clock p) in
  do? clock_validate (tcu_clock p) in
  do? require (clock_edge (tcu_clock p) (start p) && (start p <? watchdog p)) InvalidProfile in
  do? result_each (fun n => require (0 <? n) InvalidProfile)
        [memory_latency p; command_latency p; reply_latency p; cpu_result_latency p;
         fast_result_latency p; timing_capacity p; event_capacity p; staging_capacity p;
         p_result_capacity p; ports p; qubits p; firing_width p] in
  do? require ((p_result_capacity p <=? 65535) && (ports p <=? 65535) && (qubits p <=? 32))
    InvalidProfile in
  let? _ := result_fold (validate_gate p) (two_qubit_gates p) (∅, ∅) in
  let? _ := result_fold (validate_mapping p) (mappings p) ∅ in
  Ok ().

(** ** The built-in profile (src/defaults.cpp) *)
(** [std::numbers::pi / 20.0]. *)
Definition pi_over_20 : double :=
  SFdiv 53 1024 (S754_finite false 7074237752028440 (-51)) (S754_finite false 5629499534213120 (-48)).

Definition default_action (q code : Z) : EventSpec :=
  let common := mkOperands [q] [mkResource q true] in
  let a := default_event <| ev_port := q |> in
  if code <=? 3 then
    a <| ev_spec := SpecGate (mkGate (if code =? 1 then "x" else if code =? 2 then "h" else "z")
                                common (S754_zero false) Always) |>
  else if code =? 4 then
    a <| ev_spec := SpecAcquire (mkAcquire "measure" common 20 false) |> <| ev_duration := 40 |>
  else a <| ev_spec := SpecPulse (mkPulse "drive_x" common pi_over_20 "x" Always) |>.

Definition flag_code (f : ExecutionFlag) : Z :=
  match f with Always => 0 | LastOne => 1 | LastZero => 2 | Equal => 3 end.

Definition default_flag_action (q : Z) (f : ExecutionFlag) : EventSpec :=
  default_event <| ev_port := q |>
    <| ev_spec := SpecGate (mkGate "x" (mkOperands [q] [mkResource q true]) (S754_zero false) f) |>.

Definition default_mappings : list Mapping :=
  flat_map (fun q => map (fun code => mkMapping q code [default_action q code]) [1; 2; 3; 4; 5]) [0; 1]
  ++ map (fun pc => mkMapping (fst pc) (snd pc)
       [default_event <| ev_spec := SpecGateOutput (mkGateOutput "cx01") |> <| ev_port := fst pc |>])
       [(0, 6); (1, 10)]
  ++ flat_map (fun q => map (fun f => mkMapping q (6 + flag_code f) [default_flag_action q f])
       [LastOne; LastZero; Equal]) [0; 1].

Definition default_unchecked : Profile :=
  mkProfile (mkClock 5 0) (mkClock 20 0) 1000 1000000 1 1 1 1 2 32 32 16 8 8 2 1 1 true
    default_mappings
    [mkTwoQubit "cx01" "cx" [0; 1] [mkInput 0 0 6; mkInput 0 1 10]
       [mkResource 0 true; mkResource 1 true] 20].

Definition default_profile : result Profile :=
  do? profile_validate default_unchecked in Ok default_unchecked.

(** ** Views of a profile *)
Record TransportConfig := mkTransport {
  tr_cpu : Clock; tr_tcu : Clock; tr_command : Z; tr_reply : Z; tr_cpu_result : Z;
  tr_fast_result : Z; tr_result_capacity : Z }.

Definition transport_config (p : Profile) : TransportConfig :=
  mkTransport (cpu_clock p) (tcu_clock p) (command_latency p) (reply_latency p)
    (cpu_result_latency p) (fast_result_latency p) (p_result_capacity p).

Record TimingConfig := mkTiming {
  tc_event_capacity : Z; tc_staging_capacity : Z; tc_ports : Z; tc_qubits : Z;
  tc_firing_width : Z; tc_fast_feedback : bool; configuration : string;
  tc_mappings : gmap (Z * Z) Mapping }.
#[global] Instance eta_TimingConfig : Eta TimingConfig := fun c =>
  mkTiming (tc_event_capacity c) (tc_staging_capacity c) (tc_ports c) (tc_qubits c)
    (tc_firing_width c) (tc_fast_feedback c) (configuration c) (tc_mappings c).

Definition timing_mapping (c : TimingConfig) (port codeword : Z) : result Mapping :=
  do? require (port <? tc_ports c) InvalidPort in
  match tc_mappings c !! (port, codeword) with
  | Some m => Ok m
  | None => Fault InvalidCodeword
  end.

(** ** [Profile::fingerprint] *)
Definition fnv_step (hash : Z) (c : ascii) : Z :=
  wrap64 ((hash .^ Z.of_nat (nat_of_ascii c)) * 1099511628211).

Fixpoint fnv (hash : Z) (text : string) : Z :=
  match text with
  | EmptyString => hash
  | String c rest => fnv (fnv_step hash c) rest
  end.

Definition hex_digit (d : Z) : ascii :=
  ascii_of_nat (Z.to_nat (if d <? 10 then 48 + d else 87 + d)).

(** Sixteen zero-filled hexadecimal digits. *)
Definition hex16 (hash : Z) : string :=
  fold_left (fun text i => String (hex_digit ((hash >>> (4 * i)) .& 15)) text) (upto 16) "".

(** [std::quoted]. *)
Definition quote : ascii := ascii_of_nat 34.
Definition backslash : ascii := ascii_of_nat 92.
Fixpoint escape (s : string) : string :=
  match s with
  | EmptyString => EmptyString
  | String c rest =>
      if bool_decide (c = quote \/ c = backslash) then String backslash (String c (escape rest))
      else String c (escape rest)
  end.
Definition quoted (s : string) : string := String quote (escape s +:+ String quote EmptyString).

Definition show (n : Z) : string := pretty n.
Definition show_bool (b : bool) : string := if b then "1" else "0".
Definition spaced (items : list string) : string :=
  fold_right (fun s rest => " " +:+ s +:+ rest) "" items.

Section Fingerprint.
(** [<<] on a double at precision 17. *)
Context (show_double : double -> string).

Definition spec_items (s : Spec) : list string :=
  match s with
  | SpecGate g => [show_double (gate_amplitude g); show (flag_code (gate_flag g))]
  | SpecPulse g => [show_double (pulse_amplitude g); quoted (pulse_axis g);
                    show (flag_code (pulse_flag g))]
  | SpecAcquire a => [show (discriminator_delay a); show_bool (separate_arm a)]
  | SpecArm _ => []
  | SpecGateOutput o => [quoted (output_gate o)]
  end.

Definition kind_code (k : ActionKind) : Z :=
  match k with IdealGate => 0 | Pulse => 1 | Acquire => 2 | DiscriminatorArm => 3 | GateOutput => 4 end.

Definition target_items (ts : list Z) : list string := flat_map (fun q => ["q"; show q]) ts.
Definition resource_items (rs : list ResourceUse) : list string :=
  flat_map (fun r => ["r"; show (res_id r); show_bool (res_exclusive r)]) rs.

Definition action_items (a : EventSpec) : list string :=
  ["a"; show (kind_code (kind a)); show (ev_port a); quoted (operation a); show (ev_delay a);
   show (ev_duration a)]
  ++ spec_items (ev_spec a) ++ target_items (targets a) ++ resource_items (resources a).

Definition mapping_items (m : Mapping) : list string :=
  ["m"; show (map_port m); show (map_codeword m)] ++ flat_map action_items (map_actions m).

Definition gate_items (g : TwoQubitGate) : list string :=
  ["g"; quoted (tq_name g); quoted (tq_operation g); show (tq_duration g)] ++
  target_items (tq_targets g) ++
  flat_map (fun i => ["i"; show (in_core i); show (in_port i); show (in_codeword i)]) (tq_inputs g) ++
  resource_items (tq_resources g).

Definition profile_text (p : Profile) : string :=
  "qsbit-profile-v1" +:+ spaced (
    map show [period (cpu_clock p); phase (cpu_clock p); period (tcu_clock p); phase (tcu_clock p);
      start p; watchdog p; memory_latency p; command_latency p; reply_latency p;
      cpu_result_latency p; fast_result_latency p; timing_capacity p; event_capacity p;
      staging_capacity p; p_result_capacity p; ports p; qubits p; firing_width p; seed p]
    ++ [show_bool (p_fast_feedback p)]
    ++ flat_map mapping_items (mappings p) ++ flat_map gate_items (two_qubit_gates p)).

Definition fingerprint (p : Profile) : string :=
  hex16 (fnv 14695981039346656037 (profile_text p)).

(** [result.mappings.emplace(...)]. *)
Definition add_mapping (ms : gmap (Z * Z) Mapping) (m : Mapping) : result (gmap (Z * Z) Mapping) :=
  let key := (map_port m, map_codeword m) in
  do? require (bool_decide (ms !! key = None)) InvalidProfile in
  Ok (<[key := m]> ms).

Definition timing_config (p : Profile) : result TimingConfig :=
  let? ms := result_fold add_mapping (mappings p) ∅ in
  Ok (mkTiming (event_capacity p) (staging_capacity p) (ports p) (qubits p) (firing_width p)
        (p_fast_feedback p) (fingerprint p) ms).

Record TcuConfig := mkTcuConfig {
  tcu_timing : TimingConfig; tcu_clk : Clock; tcu_start : Tick; tcu_timing_capacity : Z }.

Definition tcu_config (p : Profile) : result TcuConfig :=
  let? t := timing_config p in
  Ok (mkTcuConfig t (tcu_clock p) (start p) (timing_capacity p)).
End Fingerprint.

Example default_is_valid : is_ok default_profile = true.
Proof. vm_compute. reflexivity. Qed.

(** The hash of the text [a], an FNV-1a test vector. *)
Example fnv_vector : hex16 (fnv 14695981039346656037 "a") = "af63dc4c8601ec8c".
Proof. vm_compute. reflexivity. Qed.

(** ** What validation establishes *)
Lemma fold_distinct {A B} `{Countable A} (g : B -> A) (guard : B -> bool) l (s s' : gset A) :
  result_fold (fun seen b => do? require (guard b) InvalidProfile in insert_new seen (g b)) l s = Ok s' ->
  NoDup (map g l) /\ Forall (fun b => guard b = true /\ g b ∉ s) l.
Proof.
  revert s. induction l as [|b l IH]; intros s Hl; simpl in *; [split; constructor|].
  apply result_bind_ok in Hl as (s1 & H1 & Hl). apply result_bind_ok in H1 as ([] & Hg & H1).
  apply require_ok in Hg. unfold insert_new in H1. inv_ok H1. reflect.
  destruct (IH _ Hl) as [Hnd Hall]. split.
  - constructor; [|done]. rewrite list_elem_of_In, in_map_iff. intros (c & Hc & Hin).
    rewrite Forall_forall in Hall. destruct (Hall c) as [_ Hn]; [by apply list_elem_of_In|].
    rewrite Hc in Hn. set_solver.
  - constructor; [done|]. eapply Forall_impl; [exact Hall|]. set_solver.
Qed.

Lemma fold_insert_new {A} `{Countable A} l (s s' : gset A) :
  result_fold insert_new l s = Ok s' -> NoDup l.
Proof.
  intros Hl. pose proof (fold_distinct (fun x => x) (fun _ => true) l s s') as Hf.
  rewrite map_id in Hf. apply Hf. exact Hl.
Qed.

Lemma distinct_resources_ok rs : distinct_resources rs = Ok () -> NoDup (map res_id rs).
Proof.
  unfold distinct_resources. intros H. apply result_bind_ok in H as (s & H & _).
  by eapply fold_insert_new.
Qed.

Record action_valid (p : Profile) (a : EventSpec) : Prop := {
  av_port : ev_port a < ports p;
  av_duration : 0 < ev_duration a;
  av_targets : kind a <> GateOutput -> targets a <> [];
  av_nodup : NoDup (targets a);
  av_qubits : Forall (fun q => q < qubits p) (targets a);
  av_resources : NoDup (map res_id (resources a));
  av_flag : execution_flag a <> Always -> exists q, targets a = [q];
  av_readout : kind a = Acquire \/ kind a = DiscriminatorArm -> exists q, targets a = [q];
  av_amplitude : finite_amplitude a = true }.

Definition pairing_step (a : EventSpec) (acc acc' : Pairing) : Prop :=
  match ev_spec a with
  | SpecAcquire s => exists q, targets a = [q] /\ fst acc !! q = None /\
      acc' = (<[q := separate_arm s]> (fst acc), snd acc)
  | SpecArm _ => exists q, targets a = [q] /\
      acc' = (fst acc, <[q := wrap32 (arm_count (snd acc) q + 1)]> (snd acc))
  | _ => acc' = acc
  end.

Lemma size_of_one {A} (l : list A) : size_of l = 1 -> exists x, l = [x].
Proof. unfold size_of. destruct l as [|x [|y l]]; simpl; intros; [lia | by exists x | lia]. Qed.

Lemma single_target_ok a q : single_target a = Ok q -> targets a = [q].
Proof. unfold single_target. repeat case_match; by intros [= ->]. Qed.

Lemma validate_action_ok p m acc a acc' :
  validate_action p m acc a = Ok acc' -> action_valid p a /\ pairing_step a acc acc'.
Proof.
  unfold validate_action. intros H.
  apply result_bind_ok in H as ([] & H1 & H). apply require_ok in H1. reflect.
  apply result_bind_ok in H as ([] & _ & H).
  apply result_bind_ok in H as ([] & Hflag & H). apply require_ok in Hflag.
  apply result_bind_ok in H as (ts & Hts & H). apply (fold_distinct (fun q => q)) in Hts as [Hnd Hq].
  rewrite map_id in Hnd. apply result_bind_ok in H as ([] & Hrs & H). apply distinct_resources_ok in Hrs.
  apply result_bind_ok in H as (acc1 & Hacc & H). apply result_bind_ok in H as ([] & _ & H).
  apply result_bind_ok in H as ([] & Hamp & H). apply require_ok in Hamp.
  apply result_bind_ok in H as ([] & _ & H). inv_ok H.
  assert (Hstep : pairing_step a acc acc').
  { unfold pairing_step. destruct (ev_spec a); simpl in Hacc; try (by inv_ok Hacc).
    - apply result_bind_ok in Hacc as (q & Hsingle & Hacc). apply single_target_ok in Hsingle.
      inv_ok Hacc. reflect. eauto.
    - apply result_bind_ok in Hacc as (q & Hsingle & Hacc). apply single_target_ok in Hsingle.
      inv_ok Hacc. eauto. }
  split; [|done]. constructor; try done.
  - intros Hk. match goal with E : _ \/ _ |- _ => destruct E; reflect; done end.
  - eapply Forall_impl; [exact Hq|]. intros q [Hlt _]. by apply Z.ltb_lt.
  - intros Hf. reflect. destruct Hflag; reflect; [done|]. by apply size_of_one.
  - unfold pairing_step, kind in *. destruct (ev_spec a); intros [?|?]; try discriminate; naive_solver.
Qed.

(** The qubits a mapping acquires, and whether an action arms the discriminator of [q]. *)
Definition acquired (a : EventSpec) : list Z := if is_acquire a then targets a else [].
Definition separate (a : EventSpec) : bool :=
  match ev_spec a with SpecAcquire s => separate_arm s | _ => false end.
Definition arms_target (q : Z) (a : EventSpec) : bool := is_arm a && bool_decide (targets a = [q]).

Record mapping_valid (p : Profile) (m : Mapping) : Prop := {
  mv_port : map_port m < ports p;
  mv_actions : map_actions m <> [];
  mv_valid : Forall (action_valid p) (map_actions m);
  mv_acquired : NoDup (flat_map acquired (map_actions m));
  mv_paired : forall a q, a ∈ map_actions m -> is_acquire a = true -> targets a = [q] ->
    count_if (arms_target q) (map_actions m) = if separate a then 1 else 0;
  mv_armed : forall a q, a ∈ map_actions m -> is_arm a = true -> targets a = [q] ->
    q ∈ flat_map acquired (map_actions m) }.

(** What the loop over actions knows about those it has seen. *)
Definition paired_so_far (p : Profile) (seen : list EventSpec) (acc : Pairing) : Prop :=
  Forall (action_valid p) seen /\ NoDup (flat_map acquired seen) /\
  (forall q, is_Some (fst acc !! q) <-> q ∈ flat_map acquired seen) /\
  (forall a q, a ∈ seen -> is_acquire a = true -> targets a = [q] -> fst acc !! q = Some (separate a)) /\
  (forall q, arm_count (snd acc) q = wrap32 (count_if (arms_target q) seen)).

Lemma elem_of_flat_map {A B} (f : A -> list B) l y :
  y ∈ flat_map f l <-> exists x, x ∈ l /\ y ∈ f x.
Proof. rewrite list_elem_of_In, in_flat_map. by setoid_rewrite list_elem_of_In. Qed.

Lemma wrap32_succ n : wrap32 (wrap32 n + 1) = wrap32 (n + 1).
Proof. unfold wrap32. by rewrite Zplus_mod_idemp_l. Qed.

Lemma acquired_nil a : is_acquire a = false -> acquired a = [].
Proof. unfold acquired. by intros ->. Qed.

Lemma paired_other p seen acc a :
  paired_so_far p seen acc -> action_valid p a -> is_acquire a = false -> is_arm a = false ->
  paired_so_far p (seen ++ [a]) acc.
Proof.
  intros (H1 & H2 & H3 & H4 & H5) Hv Hacq Harm. unfold paired_so_far.
  rewrite flat_map_app. simpl. rewrite (acquired_nil a Hacq). rewrite !app_nil_r.
  split_and!; try done.
  - apply Forall_app. split; [done|]. by constructor.
  - intros b q [Hb| ->%list_elem_of_singleton]%elem_of_app; [by apply H4 | congruence].
  - intros q. rewrite count_if_app, count_if_cons, count_if_nil. unfold arms_target at 2.
    rewrite Harm. simpl. by rewrite !Z.add_0_r.
Qed.

Lemma paired_acquire p seen acc a q :
  paired_so_far p seen acc -> action_valid p a -> is_acquire a = true -> targets a = [q] ->
  fst acc !! q = None -> paired_so_far p (seen ++ [a]) (<[q := separate a]> (fst acc), snd acc).
Proof.
  intros (H1 & H2 & H3 & H4 & H5) Hv Hacq Hq Hnone. unfold paired_so_far. simpl.
  rewrite flat_map_app. simpl.
  assert (acquired a = [q]) as -> by (unfold acquired; by rewrite Hacq). simpl.
  assert (Hfresh : q ∉ flat_map acquired seen) by (rewrite <-H3, Hnone; by intros [? ?]).
  split_and!.
  - apply Forall_app. split; [done|]. by constructor.
  - apply NoDup_app. split_and!; [done | | repeat constructor; set_solver].
    intros x Hx ->%list_elem_of_singleton. done.
  - intros x. rewrite elem_of_app, list_elem_of_singleton, <-H3. rewrite lookup_insert_is_Some.
    destruct (decide (q = x)); naive_solver.
  - intros b x [Hb| ->%list_elem_of_singleton]%elem_of_app Hb' Hx.
    + rewrite lookup_insert_ne; [by (apply H4)|]. intros <-. apply Hfresh, elem_of_flat_map.
      exists b. split; [done|]. unfold acquired. rewrite Hb', Hx. by left.
    + replace x with q by congruence. by rewrite lookup_insert_eq.
  - intros x. rewrite count_if_app, count_if_cons, count_if_nil. unfold arms_target at 2.
    assert (is_arm a = false) as ->
      by (apply is_acquire_iff in Hacq; unfold is_arm; rewrite Hacq; done).
    simpl. by rewrite Z.add_0_r, H5.
Qed.

Lemma paired_arm p seen acc a q :
  paired_so_far p seen acc -> action_valid p a -> is_arm a = true -> targets a = [q] ->
  paired_so_far p (seen ++ [a]) (fst acc, <[q := wrap32 (arm_count (snd acc) q + 1)]> (snd acc)).
Proof.
  intros (H1 & H2 & H3 & H4 & H5) Hv Harm Hq. unfold paired_so_far. simpl.
  assert (Hacq : is_acquire a = false)
    by (unfold is_acquire; unfold is_arm in Harm; reflect; rewrite Harm; done).
  rewrite flat_map_app. simpl. rewrite (acquired_nil a Hacq), !app_nil_r. split_and!; try done.
  - apply Forall_app. split; [done|]. by constructor.
  - intros b x [Hb| ->%list_elem_of_singleton]%elem_of_app; [by apply H4 | congruence].
  - intros x. rewrite count_if_app, count_if_cons, count_if_nil. unfold arms_target at 2.
    rewrite Harm, Hq. simpl. unfold arm_count at 1. destruct (decide (q = x)) as [<-|Hne].
    + rewrite lookup_insert_eq. simpl. rewrite H5, wrap32_succ.
      by rewrite bool_decide_eq_true_2 by done.
    + rewrite lookup_insert_ne by done. rewrite bool_decide_eq_false_2 by congruence.
      rewrite !Z.add_0_r. apply H5.
Qed.

Lemma validate_mapping_ok p keys m keys' :
  size_of (map_actions m) <= max32 ->
  validate_mapping p keys m = Ok keys' ->
  mapping_valid p m /\ ((map_port m, map_codeword m) ∉ keys) /\
  keys' = {[(map_port m, map_codeword m)]} ∪ keys.
Proof.
  intros Hsz H. unfold validate_mapping in H.
  apply result_bind_ok in H as ([] & Hport & H). apply require_ok in Hport.
  apply result_bind_ok in H as (keys1 & Hkeys & H). unfold insert_new in Hkeys. inv_ok Hkeys.
  apply result_bind_ok in H as ([] & Hne & H). apply require_ok in Hne.
  apply result_bind_ok in H as (acc & Hfold & H). inv_ok H. reflect.
  apply (result_fold_prefix (paired_so_far p) _ _ []) in Hfold.
  - destruct Hfold as (P1 & P2 & P3 & P4 & P5). simpl in *. split; [|done].
    repeat match goal with E : map_Forall _ _ |- _ => unfold map_Forall in E end.
    assert (Hcount : forall q, wrap32 (count_if (arms_target q) (map_actions m)) =
              count_if (arms_target q) (map_actions m)).
    { intros q. apply wrap32_small. pose proof (count_if_bound (arms_target q) (map_actions m)).
      pose proof (count_if_nonneg (arms_target q) (map_actions m)). unfold u32. lia. }
    constructor; try done.
    + intros E. rewrite E in Hne. done.
    + intros act q Ha Hacq Hq. rewrite <-Hcount, <-P5.
      match goal with E : forall q separate, fst acc !! q = Some separate -> _ |- _ => apply E end.
      by eapply P4.
    + intros act q Ha Harm Hq. apply P3.
      assert (Hpos : 0 < count_if (arms_target q) (map_actions m)).
      { eapply count_if_pos; [exact Ha|]. unfold arms_target. rewrite Harm. by apply bool_decide_eq_true. }
      rewrite <-Hcount, <-P5 in Hpos. unfold arm_count in Hpos.
      destruct (snd acc !! q) as [n|] eqn:En; [|simpl in Hpos; lia]. simpl in Hpos.
      match goal with E : forall i x, snd acc !! i = Some x -> _ |- _ => destruct (E _ _ En) as [->|?] end;
        [lia | done].
  - split_and!; simpl; [constructor | constructor | | | done].
    + intros x. rewrite lookup_empty. split; [by intros [? ?] | by intros ?%elem_of_nil].
    + by intros act x ?%elem_of_nil.
  - intros d act b b' _ Hd Hv. apply validate_action_ok in Hv as [Hav Hstep].
    unfold pairing_step in Hstep.
    destruct (ev_spec act) eqn:Ea; try (subst b'; apply paired_other; try done;
      unfold is_acquire, is_arm, kind; by rewrite Ea).
    + destruct Hstep as (x & Hq & Hn & ->).
      replace (separate_arm _) with (separate act) by (unfold separate; by rewrite Ea).
      apply paired_acquire; try done. unfold is_acquire, kind. by rewrite Ea.
    + destruct Hstep as (x & Hq & ->). apply paired_arm; try done. unfold is_arm, kind. by rewrite Ea.
Qed.

Record profile_valid (p : Profile) : Prop := {
  pv_cpu : clock_validate (cpu_clock p) = Ok ();
  pv_tcu : clock_validate (tcu_clock p) = Ok ();
  pv_start : clock_edge (tcu_clock p) (start p) = true;
  pv_positive : Forall (fun n => 0 < n)
    [memory_latency p; command_latency p; reply_latency p; cpu_result_latency p;
     fast_result_latency p; timing_capacity p; event_capacity p; staging_capacity p;
     p_result_capacity p; ports p; qubits p; firing_width p];
  pv_bounds : p_result_capacity p <= 65535 /\ ports p <= 65535 /\ qubits p <= 32;
  pv_mappings : Forall (mapping_valid p) (mappings p);
  pv_keys : NoDup (map (fun m => (map_port m, map_codeword m)) (mappings p)) }.

(** Vectors have fewer than 2^32 elements. *)
Definition profile_bounded (p : Profile) : Prop :=
  Forall (fun m => size_of (map_actions m) <= max32) (mappings p).

Lemma validate_mappings p ms keys keys' :
  Forall (fun m => size_of (map_actions m) <= max32) ms ->
  result_fold (validate_mapping p) ms keys = Ok keys' ->
  Forall (mapping_valid p) ms /\
  NoDup (map (fun m => (map_port m, map_codeword m)) ms) /\
  Forall (fun m => (map_port m, map_codeword m) ∉ keys) ms.
Proof.
  revert keys. induction ms as [|m ms IH]; intros keys Hb H; simpl in *.
  - split_and!; constructor.
  - inversion Hb; subst. apply result_bind_ok in H as (keys1 & Hm & H).
    apply validate_mapping_ok in Hm as (Hv & Hk & ->); [|done].
    destruct (IH _ ltac:(done) H) as (H1' & H2' & H3'). rewrite Forall_forall in H3'.
    split_and!.
    + by constructor.
    + constructor; [|done]. rewrite list_elem_of_In, in_map_iff. intros (m' & He & Hin).
      apply list_elem_of_In in Hin. specialize (H3' m' Hin). rewrite He in H3'. set_solver.
    + constructor; [done|]. apply Forall_forall. intros m' Hin. specialize (H3' m' Hin). set_solver.
Qed.

Lemma profile_validate_ok p :
  profile_bounded p -> profile_validate p = Ok () -> profile_valid p.
Proof.
  intros Hb H. unfold profile_validate in H.
  apply result_bind_ok in H as ([] & Hcpu & H). apply result_bind_ok in H as ([] & Htcu & H).
  apply result_bind_ok in H as ([] & Hstart & H). apply require_ok in Hstart. reflect.
  apply result_bind_ok in H as ([] & Hpos & H).
  apply result_bind_ok in H as ([] & Hbounds & H). apply require_ok in Hbounds. reflect.
  apply result_bind_ok in H as (gates & _ & H). apply result_bind_ok in H as (keys & Hms & _).
  destruct (validate_mappings _ _ _ _ Hb Hms) as (V1 & V2 & _).
  constructor; try done. apply result_each_ok in Hpos.
  eapply Forall_impl; [exact Hpos|]. intros n Hn. apply require_ok in Hn. by reflect.
Qed.

Lemma profile_mapping_ok p port codeword m :
  profile_mapping p port codeword = Ok m ->
  m ∈ mappings p /\ map_port m = port /\ map_codeword m = codeword /\ port < ports p.
Proof.
  unfold profile_mapping. intros H. apply result_bind_ok in H as ([] & Hp & H).
  apply require_ok in Hp. destruct (List.find _ _) as [m'|] eqn:E; [|done]. inv_ok H.
  apply List.find_some in E as [Hin E]. reflect. split_and!; try done. by apply list_elem_of_In.
Qed.

(** C31. What a validated profile guarantees.  Every mapping the profile offers has at least one
    action; each action drives an existing port for a positive time on distinct existing qubits with
    a finite amplitude; readouts and conditional actions have exactly one qubit; no qubit is acquired
    twice; and every acquisition has exactly the discriminator arms its specification asks for, one
    when [separate_arm] is set and none otherwise, with no arm left over. *)
Theorem validate_sound (p : Profile) (port codeword : Z) (m : Mapping)
    (Hb : profile_bounded p) (Hv : profile_validate p = Ok ())
    (Hm : profile_mapping p port codeword = Ok m) :
  mapping_valid p m /\ map_port m = port /\ map_codeword m = codeword /\
  forall a q, a ∈ map_actions m -> is_acquire a = true -> targets a = [q] ->
    size_of (List.filter (fun a' => is_arm a' && bool_decide (targets a' = [q])) (map_actions m)) =
      if separate a then 1 else 0.
Proof.
  apply profile_validate_ok in Hv; [|done]. apply profile_mapping_ok in Hm as (Hin & <- & <- & _).
  pose proof (proj1 (Forall_forall _ _) (pv_mappings _ Hv) m Hin) as Hmv.
  split_and!; try done. intros a q Ha Hacq Hq. exact (mv_paired _ _ Hmv a q Ha Hacq Hq).
Qed.

Lemma default_bounded : profile_bounded default_unchecked.
Proof. unfold profile_bounded. apply Forall_forall. intros m Hm. repeat (apply elem_of_cons in Hm as [->|Hm]; [vm_compute; congruence|]). by apply elem_of_nil in Hm. Qed.

Lemma validate_sound_witness :
  profile_validate default_unchecked = Ok () /\
  exists m, profile_mapping default_unchecked 1 4 = Ok m /\ mapping_valid default_unchecked m.
Proof.
  assert (Hv : profile_validate default_unchecked = Ok ()) by (vm_compute; reflexivity).
  split; [exact Hv|]. eexists. split; [vm_compute; reflexivity|].
  refine (proj1 (validate_sound default_unchecked 1 4 _ default_bounded Hv _)).
  vm_compute; reflexivity.
Defined.

(** ** The timing configuration *)
Section Views.
Context (show_double : double -> string).

Lemma timing_config_fold (ms : list Mapping) (acc : gmap (Z * Z) Mapping) :
  (forall m, m ∈ ms -> acc !! (map_port m, map_codeword m) = None) ->
  NoDup (map (fun m => (map_port m, map_codeword m)) ms) ->
  exists r, result_fold add_mapping ms acc = Ok r /\
    forall port codeword, r !! (port, codeword) =
      match List.find (fun m => (map_port m =? port) && (map_codeword m =? codeword)) ms with
      | Some m => Some m
      | None => acc !! (port, codeword)
      end.
Proof.
  revert acc. induction ms as [|m ms IH]; intros acc Hfresh Hnd; simpl; [eauto|].
  inversion Hnd as [|? ? Hout Hnd']; subst. unfold add_mapping at 1.
  rewrite bool_decide_eq_true_2 by (apply Hfresh; by left). simpl.
  destruct (IH (<[(map_port m, map_codeword m) := m]> acc)) as (r & Hr & Hl).
  - intros m' Hm'. rewrite lookup_insert_ne; [apply Hfresh; by right|].
    intros He. apply Hout. rewrite He. apply list_elem_of_In, in_map_iff. exists m'.
    split; [done | by apply list_elem_of_In].
  - done.
  - exists r. split; [done|]. intros port codeword. rewrite Hl.
    destruct (List.find _ ms) as [m'|] eqn:E.
    + apply List.find_some in E as [Hin E]. simpl in E.
      destruct ((map_port m =? port) && (map_codeword m =? codeword)) eqn:E'; [|done]. reflect.
      destruct Hout. apply list_elem_of_In, in_map_iff. exists m'. split; [congruence | done].
    + destruct ((map_port m =? port) && (map_codeword m =? codeword)) eqn:E'; reflect.
      * subst. apply lookup_insert_eq.
      * apply lookup_insert_ne. intros [= E1 E2]. destruct E'; reflect; done.
Qed.

Lemma timing_config_of_valid p :
  profile_valid p ->
  exists c, timing_config show_double p = Ok c /\
    configuration c = fingerprint show_double p /\ tc_ports c = ports p /\
    tc_staging_capacity c = staging_capacity p /\
    forall port codeword, timing_mapping c port codeword = profile_mapping p port codeword.
Proof using Type.
  intros Hv. destruct (timing_config_fold (mappings p) ∅ ltac:(done) (pv_keys _ Hv)) as (r & Hr & Hl).
  unfold timing_config. rewrite Hr. simpl. eexists. split_and!; try reflexivity.
  intros port codeword. unfold timing_mapping, profile_mapping. simpl. rewrite Hl.
  destruct (require _ _); simpl; [|done]. by destruct (List.find _ _).
Qed.

(** The timing configuration of a validated profile always exists and its map answers every
    codeword lookup, failures included, as the profile's linear search does. *)
Theorem timing_config_agrees (p : Profile)
    (Hb : profile_bounded p) (Hv : profile_validate p = Ok ()) :
  exists c, timing_config show_double p = Ok c /\
    configuration c = fingerprint show_double p /\ tc_ports c = ports p /\
    forall port codeword, timing_mapping c port codeword = profile_mapping p port codeword.
Proof using Type.
  apply profile_validate_ok in Hv; [|done].
  destruct (timing_config_of_valid p Hv) as (c & H1 & H2 & H3 & _ & H4). by exists c.
Qed.
End Views.

Lemma timing_config_agrees_witness :
  profile_validate default_unchecked = Ok () /\
  exists c, timing_config (fun _ => "0.15707963267948966") default_unchecked = Ok c /\
    forall port codeword, timing_mapping c port codeword = profile_mapping default_unchecked port codeword.
Proof.
  assert (Hv : profile_validate default_unchecked = Ok ()) by (vm_compute; reflexivity).
  split; [exact Hv|].
  destruct (timing_config_agrees (fun _ => "0.15707963267948966") default_unchecked default_bounded Hv)
    as (c & H1 & _ & _ & H2).
  exists c. split; [exact H1 | exact H2].
Defined.
