(* ===== verification/TraceJson.v ===== *)
(** * The trace file (src/trace.cpp, [Trace::write_jsonl])

    One line of JSON for each event.  The stream is the text written to it and whether it is still
    good at the end.  The file shows that the text determines the events: no two traces that the
    simulator can record are written alike, and a line of the file is exactly one event. *)

From Stdlib Require Import Ascii.
From stdpp Require Import pretty.
From S2P Require Import Prelude Error Time Trace Profile.
#[local] Arguments String.append : simpl nomatch.
#[local] Open Scope string_scope.
#[local] Open Scope Z_scope.

Definition code_of (c : ascii) : Z := Z.of_N (N_of_ascii c).
(** The characters a literal of this file cannot hold: quotation mark and newline. *)
Definition quote_mark : string := String "034" EmptyString.
Definition newline : string := String "010" EmptyString.

(** [quoted]: a control character becomes an escape of four hexadecimal digits, as [std::hex] writes them. *)
Definition escape_char (c : ascii) : string :=
  if (code_of c =? 34) || (code_of c =? 92) then String "\" (String c EmptyString)
  else if code_of c <? 32 then
    "\u00" +:+ String (hex_digit (code_of c / 16)) (String (hex_digit (code_of c mod 16)) EmptyString)
  else String c EmptyString.

Fixpoint escaped (s : string) : string :=
  match s with EmptyString => EmptyString | String c s => escape_char c +:+ escaped s end.

Definition quoted_json (s : string) : string := quote_mark +:+ escaped s +:+ quote_mark.

(** The literals between the values are names in quotation marks. *)
Definition name (s : string) : string := quote_mark +:+ s +:+ quote_mark +:+ ":".
Definition member (s : string) : string := "," +:+ name s.

Definition show_flag (b : bool) : string := if b then "true" else "false".

(** A list written with [if (i) out << ','] before its elements. *)
Definition numbers (l : list Z) : string := String.concat "," (map show l).

Definition retired_of (e : TraceEvent) : option InstructionRetired :=
  match te_payload e with RetiredPayload r => Some r | _ => None end.
Definition retired_field (f : InstructionRetired -> Z) (e : TraceEvent) : string :=
  show (match retired_of e with Some r => f r | None => 0 end).

Definition decoder_text (e : TraceEvent) : string :=
  match te_payload e with
  | DecoderPayload d =>
      let d := de_state d in
      member "decoder" +:+ "{" +:+ name "id" +:+ show (dt_id d) +:+ member "tag" +:+ show (dt_tag d) +:+
      member "requests" +:+ show (dt_requests d) +:+ member "resets" +:+ show (dt_resets d) +:+
      member "jobs" +:+ show (dt_jobs d) +:+ "}"
  | _ => ""
  end.

Definition stage_text (key : string) (stage : option CpuPipelineInstruction) : string :=
  "," +:+ quoted_json key +:+ ":" +:+
  match stage with
  | None => "null"
  | Some i =>
      "{" +:+ name "id" +:+ show (pi_id i) +:+ member "pc" +:+ show (pi_pc i) +:+ member "word" +:+
      match pi_word i with Some w => show w | None => "null" end +:+
      member "discarded" +:+ show_flag (pi_discarded i) +:+ "}"
  end.

Definition pipeline_text (e : TraceEvent) : string :=
  match te_payload e with
  | PipelinePayload s =>
      member "pipeline" +:+ "{" +:+ name "halted" +:+ show_flag (ps_halted s) +:+
      stage_text "fetch" (ps_fetch s) +:+ stage_text "fetched" (ps_fetched s) +:+
      stage_text "decode" (ps_decode s) +:+ stage_text "execute" (ps_execute s) +:+ "}"
  | _ => ""
  end.

Definition event_line (e : TraceEvent) : string :=
  "{" +:+ name "schema" +:+ "1" +:+ member "tick" +:+ show (te_tick e) +:+ member "epoch" +:+ show (te_epoch e) +:+
  member "kind" +:+ quoted_json (te_kind e) +:+ member "id" +:+ show (te_id e) +:+ member "label" +:+ show (te_label e) +:+
  member "cycle" +:+ show (te_cycle e) +:+ member "port" +:+ show (te_port e) +:+
  member "codeword" +:+ show (te_codeword e) +:+
  member "pc" +:+ retired_field ir_pc e +:+ member "word" +:+ retired_field ir_word e +:+
  member "rd" +:+ retired_field ir_rd e +:+ member "next_pc" +:+ retired_field ir_next_pc e +:+
  member "operation" +:+ quoted_json (te_operation e) +:+ member "detail" +:+ quoted_json (te_detail e) +:+
  member "value" +:+ show (match retired_of e with Some r => ir_value r | None => te_value e end) +:+
  member "targets" +:+ "[" +:+ numbers (te_targets e) +:+ "]" +:+
  member "registers" +:+ "[" +:+
    numbers (match retired_of e with Some r => ir_registers r | None => [] end) +:+ "]" +:+
  match te_core e with Some c => member "core" +:+ show c | None => "" end +:+
  decoder_text e +:+ pipeline_text e +:+ "}" +:+ newline.

(** [good]: whether the stream took all of it. *)
Definition write_jsonl (good : bool) (t : Trace) : result string :=
  do? require good Protocol in
  Ok (String.concat "" (map event_line (tr_events t))).

(** ** Texts that end where they say *)

(** [f] determines its argument, and where its text ends, whatever of [stop] follows. *)
Definition self_delimiting {A} (P : A -> Prop) (stop : string -> Prop) (f : A -> string) : Prop :=
  forall a b r r', P a -> P b -> stop r -> stop r' -> f a +:+ r = f b +:+ r' -> a = b /\ r = r'.

Definition is_digit (c : ascii) : bool := (48 <=? code_of c) && (code_of c <=? 57).
(** What follows is not a digit. *)
Definition stops (r : string) : Prop := match r with String c _ => is_digit c = false | EmptyString => True end.

Fixpoint all_chars (p : ascii -> bool) (s : string) : bool :=
  match s with EmptyString => true | String c s => p c && all_chars p s end.

Lemma append_assoc (a b c : string) : (a +:+ b) +:+ c = a +:+ (b +:+ c).
Proof. induction a as [|x a IH]; simpl; [done|]. by rewrite IH. Qed.

Lemma append_nil (a : string) : a +:+ "" = a.
Proof. induction a as [|x a IH]; simpl; [done|]. by rewrite IH. Qed.

Lemma all_chars_app p a b : all_chars p (a +:+ b) = all_chars p a && all_chars p b.
Proof. induction a as [|x a IH]; simpl; [done|]. by rewrite IH, andb_assoc. Qed.

Lemma show_digits n : 0 <= n -> all_chars is_digit (show n) = true /\ show n <> "".
Proof.
  intros Hn. assert (Hgo : forall x s, all_chars is_digit s = true ->
    all_chars is_digit (pretty_N_go x s) = true /\ ((0 < x)%N -> pretty_N_go x s <> "")).
  { intros x. induction (N.lt_wf_0 x) as [x _ IH]; intros s Hs.
    destruct (decide (x = 0%N)) as [->|Hx]; [split; [done | lia]|].
    rewrite pretty_N_go_step by lia.
    assert (Hd : all_chars is_digit (String (pretty_N_char (x `mod` 10)) s) = true).
    { simpl. rewrite Hs, andb_true_r. unfold pretty_N_char. by repeat case_match. }
    destruct (IH (x `div` 10)%N ltac:(apply N.div_lt; lia) _ Hd) as [H1 H2]. split; [exact H1|]. intros _.
    destruct (decide (x `div` 10 = 0)%N) as [E|E]; [rewrite E; by rewrite pretty_N_go_0 | by apply H2, N.neq_0_lt_0]. }
  unfold show. destruct n as [|p|p]; [by split | | lia].
  change (pretty (Z.pos p)) with (pretty_N_go (N.pos p) ""). destruct (Hgo (N.pos p) "" eq_refl) as [H1 H2]. split; [done | by apply H2].
Qed.

Lemma digits_delimit a b r r' :
  all_chars is_digit a = true -> all_chars is_digit b = true -> stops r -> stops r' ->
  a +:+ r = b +:+ r' -> a = b /\ r = r'.
Proof.
  revert b. induction a as [|x a IH]; intros [|y b] Ha Hb Hr Hr' H; simpl in *; try done.
  - subst r. simpl in Hr. apply andb_true_iff in Hb as [Hy _]. congruence.
  - subst r'. simpl in Hr'. apply andb_true_iff in Ha as [Hx _]. congruence.
  - injection H as -> H. apply andb_true_iff in Ha as [_ Ha], Hb as [_ Hb].
    destruct (IH b Ha Hb Hr Hr' H) as [-> ->]. done.
Qed.

Lemma show_delimits : self_delimiting (fun n => 0 <= n) stops show.
Proof.
  intros a b r r' Ha Hb Hr Hr' H. destruct (show_digits a Ha) as [H1 _], (show_digits b Hb) as [H2 _].
  destruct (digits_delimit _ _ _ _ H1 H2 Hr Hr' H) as [E ->]. split; [|done]. unfold show in E. by apply (inj pretty) in E.
Qed.

(** The inverse of [escape_char]: the first character written, and the rest. *)
Definition digit_value (c : ascii) : Z := if code_of c <? 97 then code_of c - 48 else code_of c - 87.
Definition unescape (s : string) : option (ascii * string) :=
  match s with
  | String c s =>
      if negb (code_of c =? 92) then Some (c, s) else
      match s with
      | String u s =>
          if negb (code_of u =? 117) then Some (u, s) else
          match s with
          | String _ (String _ (String a (String b r))) =>
              Some (ascii_of_N (Z.to_N (digit_value a * 16 + digit_value b)), r)
          | _ => None
          end
      | EmptyString => None
      end
  | EmptyString => None
  end.

Lemma unescape_escape c r : unescape (escape_char c +:+ r) = Some (c, r).
Proof. by destruct c as [[] [] [] [] [] [] [] []]. Qed.

(** No escape begins with a quotation mark or holds a control character. *)
Lemma escape_head c r r' : escape_char c +:+ r <> quote_mark +:+ r'.
Proof. destruct c as [[] [] [] [] [] [] [] []]; discriminate. Qed.

Definition printing (c : ascii) : bool := 32 <=? code_of c.
Lemma escape_printing c : all_chars printing (escape_char c) = true.
Proof. by destruct c as [[] [] [] [] [] [] [] []]. Qed.

Lemma escaped_delimits s1 s2 r1 r2 :
  escaped s1 +:+ quote_mark +:+ r1 = escaped s2 +:+ quote_mark +:+ r2 -> s1 = s2 /\ r1 = r2.
Proof.
  revert s2. induction s1 as [|c1 s1 IH]; intros [|c2 s2] H; cbn [escaped] in H; rewrite ?append_assoc in H.
  - by injection H as ->.
  - symmetry in H. by apply escape_head in H.
  - by apply escape_head in H.
  - apply (f_equal unescape) in H. rewrite !unescape_escape in H. injection H as -> H.
    apply IH in H as [-> ->]. done.
Qed.

Lemma append_inv (a b c : string) : a +:+ b = a +:+ c -> b = c.
Proof. induction a as [|x a IH]; simpl; [done|]. intros [= H]. by apply IH. Qed.

Lemma quoted_delimits : self_delimiting (fun _ => True) (fun _ => True) quoted_json.
Proof.
  intros a b r r' _ _ _ _ H. unfold quoted_json in H. rewrite !append_assoc in H. apply append_inv in H.
  by apply escaped_delimits in H.
Qed.

(** A number is not confused with a text that does not begin with a digit. *)
Lemma show_head n r r' : 0 <= n -> stops r' -> show n +:+ r <> r'.
Proof.
  intros Hn Hr H. destruct (show_digits n Hn) as [Hd Hne]. destruct (show n) as [|c s]; [done|]. simpl in Hd, H.
  subst r'. simpl in Hr. apply andb_true_iff in Hd as [Hc _]. congruence.
Qed.

Lemma numbers_cons x y l : numbers (x :: y :: l) = show x +:+ "," +:+ numbers (y :: l).
Proof. reflexivity. Qed.

Lemma numbers_delimit l1 l2 r1 r2 :
  Forall (fun n => 0 <= n) l1 -> Forall (fun n => 0 <= n) l2 ->
  numbers l1 +:+ "]" +:+ r1 = numbers l2 +:+ "]" +:+ r2 -> l1 = l2 /\ r1 = r2.
Proof.
  intros H1. revert l2. induction H1 as [|x l Hx Hl IH]; intros l2 H2 H; destruct H2 as [|y l2 Hy Hl2].
  - by injection H as ->.
  - exfalso. symmetry in H. destruct l2; [|rewrite numbers_cons, append_assoc in H]; by apply show_head in H.
  - exfalso. destruct l; [|rewrite numbers_cons, append_assoc in H]; by apply show_head in H.
  - destruct l as [|x' l], l2 as [|y' l2]; rewrite ?numbers_cons, ?append_assoc in H;
      apply show_delimits in H as [-> H]; try done.
    + by injection H as ->.
    + injection H as H. apply IH in H as [E ->]; [by rewrite E | done].
Qed.

#[local] Arguments String.append : simpl never.
#[local] Arguments name : simpl never.
#[local] Arguments member : simpl never.

(** Strip what two equal texts have in common, from the left. *)
Ltac peel H :=
  rewrite ?append_assoc in H;
  repeat
    lazymatch type of H with
    | ?a +:+ _ = ?a +:+ _ => apply append_inv in H
    | show _ +:+ _ = show _ +:+ _ =>
        let E := fresh "E" in apply show_delimits in H as [E H]; [| assumption | assumption | reflexivity | reflexivity]
    | quoted_json _ +:+ _ = quoted_json _ +:+ _ =>
        let E := fresh "E" in apply quoted_delimits in H as [E H]; [| exact I..]
    | numbers _ +:+ "]" +:+ _ = numbers _ +:+ "]" +:+ _ =>
        let E := fresh "E" in apply numbers_delimit in H as [E H]; [| assumption..]
    end.

Lemma flag_delimits b b' r r' : show_flag b +:+ r = show_flag b' +:+ r' -> b = b' /\ r = r'.
Proof. destruct b, b'; intros H; first [by apply append_inv in H | by apply (f_equal (String.get 0)) in H]. Qed.

Definition stage_natural (stage : option CpuPipelineInstruction) : Prop :=
  match stage with
  | Some i => 0 <= pi_id i /\ 0 <= pi_pc i /\ match pi_word i with Some w => 0 <= w | None => True end
  | None => True
  end.

Lemma stage_delimits key : self_delimiting stage_natural (fun _ => True) (stage_text key).
Proof.
  intros [[id1 pc1 w1 d1]|] [[id2 pc2 w2 d2]|] r r' Ha Hb _ _ H; unfold stage_text in H; peel H; try discriminate H.
  2: by split.
  destruct Ha as (? & ? & Hw1), Hb as (? & ? & Hw2). simpl in *. peel H. subst.
  assert (E : w1 = w2 /\ show_flag d1 +:+ "}" +:+ r = show_flag d2 +:+ "}" +:+ r').
  { destruct w1 as [w1|], w2 as [w2|].
    - peel H. subst. done.
    - by apply show_head in H.
    - symmetry in H. by apply show_head in H.
    - peel H. done. }
  destruct E as [-> E]. apply flag_delimits in E as [-> E]. by apply append_inv in E as ->.
Qed.

(** ** Events as a trace records them *)
Definition payload_natural (p : Payload) : Prop :=
  match p with
  | NoPayload => True
  | PipelinePayload s =>
      stage_natural (ps_fetch s) /\ stage_natural (ps_fetched s) /\ stage_natural (ps_decode s) /\
      stage_natural (ps_execute s)
  | RetiredPayload r =>
      0 <= ir_pc r /\ 0 <= ir_word r /\ 0 <= ir_rd r /\ 0 <= ir_next_pc r /\ 0 <= ir_value r /\
      Forall (fun n => 0 <= n) (ir_registers r)
  | DecoderPayload d =>
      let d := de_state d in 0 <= dt_id d /\ 0 <= dt_tag d /\ 0 <= dt_requests d /\ 0 <= dt_resets d /\ 0 <= dt_jobs d
  end.

(** What [emit] checks, and the values of unsigned members; the constructor for a retired instruction
    leaves [value] zero. *)
Record recordable (e : TraceEvent) : Prop := {
  rc_kind : kind_matches_payload e = true;
  rc_decoder : decoder_kind_matches e = true;
  rc_tick : 0 <= te_tick e; rc_epoch : 0 <= te_epoch e; rc_id : 0 <= te_id e; rc_label : 0 <= te_label e;
  rc_cycle : 0 <= te_cycle e; rc_port : 0 <= te_port e; rc_codeword : 0 <= te_codeword e;
  rc_value : 0 <= te_value e; rc_targets : Forall (fun n => 0 <= n) (te_targets e);
  rc_core : match te_core e with Some c => 0 <= c | None => True end;
  rc_payload : payload_natural (te_payload e);
  rc_retired : is_Some (retired_of e) -> te_value e = 0 }.

(** The payload's text, up to the end of the line. *)
Lemma decoder_name_inj a b : decoder_name a = decoder_name b -> a = b.
Proof. by destruct a, b. Qed.

(** Which payload an event has follows from its kind. *)
Definition payload_tag (p : Payload) : Z :=
  match p with NoPayload => 0 | PipelinePayload _ => 1 | RetiredPayload _ => 2 | DecoderPayload _ => 3 end.

Lemma kind_decides_payload e1 e2 :
  kind_matches_payload e1 = true -> kind_matches_payload e2 = true -> te_kind e1 = te_kind e2 ->
  payload_tag (te_payload e1) = payload_tag (te_payload e2).
Proof.
  unfold kind_matches_payload. intros H1 H2 E. rewrite E in H1.
  repeat match goal with H : _ && _ = true |- _ => apply andb_true_iff in H as [? ?] end.
  repeat match goal with H : Bool.eqb _ _ = true |- _ => apply eqb_prop in H end.
  destruct (te_payload e1), (te_payload e2); simpl; congruence.
Qed.

Lemma decoder_text_delimits d1 d2 r1 r2 e1 e2 :
  te_payload e1 = DecoderPayload d1 -> te_payload e2 = DecoderPayload d2 ->
  payload_natural (te_payload e1) -> payload_natural (te_payload e2) ->
  decoder_text e1 +:+ r1 = decoder_text e2 +:+ r2 -> de_state d1 = de_state d2 /\ r1 = r2.
Proof.
  unfold decoder_text. intros -> -> (? & ? & ? & ? & ?) (? & ? & ? & ? & ?) Ht. simpl in *. peel Ht. subst r2.
  split; [|done]. destruct (de_state d1), (de_state d2). simpl in *. by subst.
Qed.

Lemma pipeline_text_delimits s1 s2 r1 r2 e1 e2 :
  te_payload e1 = PipelinePayload s1 -> te_payload e2 = PipelinePayload s2 ->
  payload_natural (te_payload e1) -> payload_natural (te_payload e2) ->
  pipeline_text e1 +:+ r1 = pipeline_text e2 +:+ r2 -> s1 = s2 /\ r1 = r2.
Proof.
  unfold pipeline_text. intros -> -> (? & ? & ? & ?) (? & ? & ? & ?) Ht. simpl in *. peel Ht.
  apply flag_delimits in Ht as [Eh Ht].
  apply stage_delimits in Ht as [P1 Ht]; [|done..]. apply stage_delimits in Ht as [P2 Ht]; [|done..].
  apply stage_delimits in Ht as [P3 Ht]; [|done..]. apply stage_delimits in Ht as [P4 Ht]; [|done..].
  apply append_inv in Ht as ->.
  split; [|done]. destruct s1, s2. simpl in *. by subst.
Qed.

(** The line up to the core's number. *)
Definition line_end (e : TraceEvent) : string :=
  match te_core e with Some c => member "core" +:+ show c | None => "" end +:+
  decoder_text e +:+ pipeline_text e +:+ "}" +:+ newline.

Definition payload_end (e : TraceEvent) (r : string) : string :=
  decoder_text e +:+ pipeline_text e +:+ "}" +:+ newline +:+ r.

(** It does not begin like a number or like the core's member. *)
Lemma payload_end_head e r : stops (payload_end e r) /\ forall r', member "core" +:+ r' <> payload_end e r.
Proof.
  unfold payload_end, decoder_text, pipeline_text. destruct (te_payload e); split; try reflexivity; intros r' H;
    first [by apply (f_equal (String.get 0)) in H | by apply (f_equal (String.get 2)) in H].
Qed.

Lemma payload_end_delimits e1 e2 r1 r2 :
  recordable e1 -> recordable e2 -> te_kind e1 = te_kind e2 -> retired_of e1 = retired_of e2 ->
  payload_end e1 r1 = payload_end e2 r2 -> te_payload e1 = te_payload e2 /\ r1 = r2.
Proof.
  intros H1 H2 Hkind Hret H. pose proof (kind_decides_payload e1 e2 (rc_kind _ H1) (rc_kind _ H2) Hkind) as Htag.
  pose proof (rc_payload _ H1) as P1. pose proof (rc_payload _ H2) as P2. unfold payload_end in H.
  destruct (te_payload e1) as [|s1|i1|d1] eqn:E1, (te_payload e2) as [|s2|i2|d2] eqn:E2; try discriminate Htag; clear Htag.
  - unfold decoder_text, pipeline_text in H. rewrite E1, E2 in H. by peel H.
  - assert (D1 : decoder_text e1 = "" /\ decoder_text e2 = "") by (unfold decoder_text; by rewrite E1, E2).
    destruct D1 as [D1 D2]. rewrite D1, D2 in H. apply append_inv in H.
    destruct (pipeline_text_delimits s1 s2 _ _ e1 e2 E1 E2 ltac:(by rewrite E1) ltac:(by rewrite E2) H) as [Hs Hr].
    peel Hr. by rewrite Hs.
  - unfold decoder_text, pipeline_text in H. unfold retired_of in Hret. rewrite E1, E2 in H, Hret.
    injection Hret as ->. by peel H.
  - destruct (decoder_text_delimits d1 d2 _ _ e1 e2 E1 E2 ltac:(by rewrite E1) ltac:(by rewrite E2) H) as [Hs Hr].
    assert (D1 : pipeline_text e1 = "" /\ pipeline_text e2 = "") by (unfold pipeline_text; by rewrite E1, E2).
    destruct D1 as [D1 D2]. rewrite D1, D2 in Hr. peel Hr. split; [|done].
    pose proof (rc_decoder _ H1) as K1. pose proof (rc_decoder _ H2) as K2. unfold decoder_kind_matches in K1, K2.
    rewrite E1 in K1. rewrite E2 in K2. apply String.eqb_eq in K1, K2.
    assert (Hk : de_kind d1 = de_kind d2) by (apply decoder_name_inj; congruence).
    destruct d1, d2. simpl in *. by subst.
Qed.

Lemma line_end_delimits e1 e2 r1 r2 :
  recordable e1 -> recordable e2 -> te_kind e1 = te_kind e2 -> retired_of e1 = retired_of e2 ->
  line_end e1 +:+ r1 = line_end e2 +:+ r2 ->
  te_core e1 = te_core e2 /\ te_payload e1 = te_payload e2 /\ r1 = r2.
Proof.
  intros H1 H2 Hkind Hret H.
  assert (Hcore : te_core e1 = te_core e2 /\ payload_end e1 r1 = payload_end e2 r2).
  { unfold line_end in H. rewrite !append_assoc in H. fold (payload_end e1 r1) (payload_end e2 r2) in H.
    pose proof (rc_core _ H1) as C1. pose proof (rc_core _ H2) as C2.
    destruct (payload_end_head e1 r1) as [S1 N1], (payload_end_head e2 r2) as [S2 N2].
    destruct (te_core e1) as [c1|], (te_core e2) as [c2|]; rewrite ?append_assoc in H.
    - apply append_inv in H. apply show_delimits in H as [-> H]; done.
    - by apply N2 in H.
    - symmetry in H. by apply N1 in H.
    - by apply append_inv in H. }
  destruct Hcore as [-> Hp]. split; [done|]. by apply payload_end_delimits in Hp.
Qed.

(** A line determines its event. *)
Lemma retired_ext (r1 r2 : InstructionRetired) :
  ir_pc r1 = ir_pc r2 -> ir_word r1 = ir_word r2 -> ir_rd r1 = ir_rd r2 -> ir_next_pc r1 = ir_next_pc r2 ->
  ir_value r1 = ir_value r2 -> ir_registers r1 = ir_registers r2 -> r1 = r2.
Proof. destruct r1, r2. simpl. by intros -> -> -> -> -> ->. Qed.

Definition retired_natural (e : TraceEvent) (f : InstructionRetired -> Z) : Z :=
  match retired_of e with Some r => f r | None => 0 end.

Lemma recordable_retired e :
  recordable e ->
  0 <= retired_natural e ir_pc /\ 0 <= retired_natural e ir_word /\ 0 <= retired_natural e ir_rd /\
  0 <= retired_natural e ir_next_pc /\
  0 <= match retired_of e with Some r => ir_value r | None => te_value e end /\
  Forall (fun n => 0 <= n) (match retired_of e with Some r => ir_registers r | None => [] end).
Proof.
  intros H. pose proof (rc_payload _ H) as P. pose proof (rc_value _ H) as V. unfold retired_natural, retired_of.
  destruct (te_payload e); simpl in *; split_and!; try done; try (by constructor); tauto.
Qed.

Lemma retired_of_kind e1 e2 :
  recordable e1 -> recordable e2 -> te_kind e1 = te_kind e2 ->
  (is_Some (retired_of e1) <-> is_Some (retired_of e2)).
Proof.
  intros H1 H2 Hk. pose proof (kind_decides_payload e1 e2 (rc_kind _ H1) (rc_kind _ H2) Hk) as Ht. unfold retired_of.
  destruct (te_payload e1), (te_payload e2); try discriminate Ht; split; intros [? ?]; by eexists.
Qed.

Lemma event_line_delimits e1 e2 r1 r2 :
  recordable e1 -> recordable e2 -> event_line e1 +:+ r1 = event_line e2 +:+ r2 -> e1 = e2 /\ r1 = r2.
Proof.
  intros H1 H2 H. destruct (recordable_retired e1 H1) as (A1 & A2 & A3 & A4 & A5 & A6).
  destruct (recordable_retired e2 H2) as (B1 & B2 & B3 & B4 & B5 & B6).
  pose proof H1 as [_ _ ? ? ? ? ? ? ? ? ? _ _ V1]. pose proof H2 as [_ _ ? ? ? ? ? ? ? ? ? _ _ V2].
  unfold event_line in H. rewrite !append_assoc in H.
  repeat match type of H with context [retired_field ?f ?e] =>
    change (retired_field f e) with (show (retired_natural e f)) in H end.
  peel H.
  assert (Hret : retired_of e1 = retired_of e2).
  { pose proof (retired_of_kind e1 e2 H1 H2 ltac:(assumption)) as Hsome. unfold retired_natural in *.
    destruct (retired_of e1) as [i1|], (retired_of e2) as [i2|]; [| | |done].
    - f_equal. by apply retired_ext.
    - by destruct (proj1 Hsome ltac:(by eexists)).
    - by destruct (proj2 Hsome ltac:(by eexists)). }
  assert (Hl : line_end e1 +:+ r1 = line_end e2 +:+ r2) by (unfold line_end; rewrite !append_assoc; exact H).
  apply line_end_delimits in Hl as (Hcore & Hpayload & ->); [|assumption..]. split; [|done].
  assert (Hv : te_value e1 = te_value e2).
  { rewrite <-Hret in V2. destruct (retired_of e1) eqn:Er; [by rewrite V1, V2 by (by eexists)|].
    rewrite <-Hret in *. assumption. }
  destruct e1, e2. simpl in *. by subst.
Qed.

(** How many lines a text has. *)
Fixpoint newlines (s : string) : nat :=
  match s with
  | EmptyString => 0
  | String c s => ((if (code_of c =? 10)%Z then 1 else 0) + newlines s)%nat
  end.

Lemma newlines_app a b : newlines (a +:+ b) = (newlines a + newlines b)%nat.
Proof.
  induction a as [|x a IH]; [done|]. change (String x a +:+ b) with (String x (a +:+ b)). cbn [newlines]. rewrite IH. lia.
Qed.

Lemma newlines_printing s : all_chars printing s = true -> newlines s = O.
Proof.
  induction s as [|c s IH]; [done|]. cbn [all_chars newlines]. intros [Hc Hs]%andb_true_iff. rewrite (IH Hs).
  unfold printing in Hc. apply Z.leb_le in Hc. destruct (Z.eqb_spec (code_of c) 10); [lia | done].
Qed.

Lemma newlines_show n : 0 <= n -> newlines (show n) = O.
Proof.
  intros Hn. apply newlines_printing. destruct (show_digits n Hn) as [H _]. induction (show n) as [|c s IH]; [done|].
  cbn [all_chars] in *. apply andb_true_iff in H as [Hc Hs]. rewrite (IH Hs), andb_true_r. unfold printing.
  unfold is_digit in Hc. apply andb_true_iff in Hc as [Hc _]. apply Z.leb_le in Hc. apply Z.leb_le. lia.
Qed.

Lemma newlines_quoted s : newlines (quoted_json s) = O.
Proof.
  unfold quoted_json. rewrite !newlines_app. induction s as [|c s IH]; [done|]. cbn [escaped].
  rewrite newlines_app, (newlines_printing _ (escape_printing c)). exact IH.
Qed.

Lemma newlines_numbers l : Forall (fun n => 0 <= n) l -> newlines (numbers l) = O.
Proof.
  induction 1 as [|x l Hx Hl IH]; [done|]. destruct l as [|y l]; [by apply newlines_show|].
  rewrite numbers_cons, !newlines_app, IH, newlines_show by done. reflexivity.
Qed.

Lemma newlines_stage key stage : stage_natural stage -> newlines (stage_text key stage) = O.
Proof.
  unfold stage_text. destruct stage as [[id pc w d]|]; cbn [stage_natural pi_id pi_pc pi_word pi_discarded];
    [intros (H1 & H2 & H3) | intros _]; rewrite !newlines_app, newlines_quoted; [|done].
  rewrite !newlines_show by done. destruct w; rewrite ?newlines_show by done; by destruct d.
Qed.

Lemma newlines_payload e :
  payload_natural (te_payload e) -> newlines (decoder_text e) = O /\ newlines (pipeline_text e) = O.
Proof.
  unfold decoder_text, pipeline_text. destruct (te_payload e) as [|s|r|d]; cbn [payload_natural]; intros H; split; try done.
  - destruct H as (? & ? & ? & ?). rewrite !newlines_app, !newlines_stage by done. by destruct (ps_halted s).
  - destruct H as (? & ? & ? & ? & ?). rewrite !newlines_app, !newlines_show by done. reflexivity.
Qed.

Lemma newlines_line e : recordable e -> newlines (event_line e) = 1%nat.
Proof.
  intros H. destruct (recordable_retired e H) as (A1 & A2 & A3 & A4 & A5 & A6).
  destruct (newlines_payload e (rc_payload _ H)) as [P1 P2]. destruct H. unfold event_line.
  rewrite !newlines_app, P1, P2, !newlines_quoted, !newlines_numbers by done.
  repeat match goal with |- context [retired_field ?f e] =>
    change (retired_field f e) with (show (retired_natural e f)) end.
  rewrite !newlines_show by done. destruct (te_core e); [rewrite newlines_app, newlines_show by done|]; reflexivity.
Qed.

Lemma concat_cons (x : string) (l : list string) : String.concat "" (x :: l) = x +:+ String.concat "" l.
Proof. destruct l; [by rewrite append_nil | reflexivity]. Qed.

Lemma newlines_file l : Forall recordable l -> newlines (String.concat "" (map event_line l)) = length l.
Proof.
  induction 1 as [|e l He Hl IH]; [done|]. rewrite map_cons, concat_cons, newlines_app, newlines_line, IH by done. reflexivity.
Qed.

Lemma file_determines l1 l2 :
  Forall recordable l1 -> Forall recordable l2 ->
  String.concat "" (map event_line l1) = String.concat "" (map event_line l2) -> l1 = l2.
Proof.
  intros H1. revert l2. induction H1 as [|e1 l1 He1 Hl1 IH]; intros l2 [|e2 l2' He2 Hl2] H; [done| | |];
    rewrite ?map_cons, ?concat_cons in H.
  - by apply (f_equal (String.get 0)) in H.
  - by apply (f_equal (String.get 0)) in H.
  - apply event_line_delimits in H as [-> H]; [|done..]. f_equal. by apply IH.
Qed.

(** What [emit] accepts is recordable, when its numbers are unsigned. *)
Definition unsigned_event (e : TraceEvent) : Prop :=
  kind_matches_payload e = true -> decoder_kind_matches e = true -> recordable e.

Lemma trace_emit_recordable e t u t' :
  unsigned_event (stamp_core t e) -> Forall recordable (tr_events t) ->
  trace_emit e t = (Ok u, t') -> Forall recordable (tr_events t').
Proof.
  intros He Ht H. unfold trace_emit in H. apply m_bind_lift_ok in H as (? & H1 & H). apply require_ok in H1.
  apply m_bind_lift_ok in H as (? & H2 & H). apply require_ok in H2. destruct (_ && _); [by apply m_ret_ok in H as [_ ->]|].
  apply m_bind_lift_ok in H as (? & _ & H). apply m_modify_ok in H as ->. simpl. apply Forall_app. split; [done|].
  apply Forall_singleton, He; unfold stamp_core; by destruct (tr_destination t).
Qed.

(** C26. The trace file is faithful.  For traces whose events [emit] accepts, a stream that stays good
    receives one line for each event; the text determines the events: two traces written alike are
    the same, whatever the strings in them contain; a stream that fails is reported. *)
Theorem trace_file_faithful (t1 t2 : Trace) :
  Forall recordable (tr_events t1) -> Forall recordable (tr_events t2) ->
  (exists text, write_jsonl true t1 = Ok text /\ newlines text = length (tr_events t1)) /\
  (write_jsonl true t1 = write_jsonl true t2 -> tr_events t1 = tr_events t2) /\
  write_jsonl false t1 = Fault Protocol.
Proof.
  intros H1 H2. split_and!; [|intros H | done].
  - eexists. split; [reflexivity | by apply newlines_file].
  - apply Ok_inj in H. by apply file_determines.
Qed.

(** ** Example *)
Definition example_traced : list TraceEvent :=
  [trace_event 5 1 "TimerPaused" 0 0 7 <| te_detail := "synchronization" |>;
   retired_event 10 1 2 2 (mkRetired 4096 19 0 4100 0 [0; 1; 2])].

Example example_line :
  event_line (trace_event 5 1 "T" 0 0 7 <| te_detail := "a\" |>) =
  String.concat quote_mark
    ["{"; "schema"; ":1,"; "tick"; ":5,"; "epoch"; ":1,"; "kind"; ":"; "T"; ","; "id"; ":0,"; "label"; ":0,"; "cycle";
     ":7,"; "port"; ":0,"; "codeword"; ":0,"; "pc"; ":0,"; "word"; ":0,"; "rd"; ":0,"; "next_pc"; ":0,"; "operation"; ":";
     ""; ","; "detail"; ":"; "a\\"; ","; "value"; ":0,"; "targets"; ":[],"; "registers"; ":[]}"] +:+ newline.
Proof. vm_compute. reflexivity. Qed.

Lemma trace_file_faithful_witness :
  exists text, write_jsonl true (mkTrace example_traced true None) = Ok text /\ newlines text = 2%nat.
Proof.
  assert (H : Forall recordable example_traced).
  { repeat constructor; simpl; try done; try (repeat constructor; done). }
  exact (proj1 (trace_file_faithful (mkTrace example_traced true None) trace_new H ltac:(constructor))).
Defined.
