(* ===== verification/Arguments.v ===== *)
(** * Numbers on the command line (src/app/config.cpp)

    [number] and [word] read an option's value with [std::stoull] in base 0.  A failure is a fault of
    the program's own or an exception of the standard library; [outcome] tells them apart. *)

From Stdlib Require Import Ascii.
From stdpp Require Import pretty.
From S2P Require Import Prelude Error Time Trace Profile TraceJson.
#[local] Open Scope string_scope.
#[local] Open Scope Z_scope.

Inductive outcome (A : Type) : Type :=
| Done (a : A)
| Thrown (code : ErrorCode)
| StdException.
Arguments Done {A} _.
Arguments Thrown {A} _.
Arguments StdException {A}.

#[global] Instance outcome_eq_dec `{EqDecision A} : EqDecision (outcome A).
Proof. solve_decision. Defined.

Definition outcome_bind {A B} (m : outcome A) (k : A -> outcome B) : outcome B :=
  match m with Done a => k a | Thrown e => Thrown e | StdException => StdException end.

Notation "'let~' p ':=' c 'in' k" := (outcome_bind c (fun p => k))
  (at level 10, p pattern, c at level 99, k at level 200) : qsbit_scope.
Notation "'do~' c 'in' k" := (outcome_bind c (fun _ : unit => k))
  (at level 10, c at level 99, k at level 200) : qsbit_scope.

(** A computation that only faults. *)
Definition checked {A} (r : result A) : outcome A :=
  match r with Ok a => Done a | Fault e => Thrown e end.

Lemma outcome_bind_done {A B} (m : outcome A) (k : A -> outcome B) b :
  outcome_bind m k = Done b -> exists a, m = Done a /\ k a = Done b.
Proof. destruct m; simpl; [eauto | discriminate..]. Qed.

Lemma Done_inj {A} (a b : A) : Done a = Done b -> a = b.
Proof. by intros [=]. Qed.

Lemma checked_done {A} (r : result A) a : checked r = Done a -> r = Ok a.
Proof. destruct r; [by intros [= ->] | discriminate]. Qed.

(** ** [std::stoull(text, &end, 0)]

    White space, a sign, a base from the prefix, the longest run of digits; the result is the value and
    what is left of the text. *)
Definition is_space (c : ascii) : bool := (code_of c =? 32) || ((9 <=? code_of c) && (code_of c <=? 13)).

Fixpoint skip_spaces (s : string) : string :=
  match s with
  | String c rest => if is_space c then skip_spaces rest else s
  | EmptyString => s
  end.

Definition take_sign (s : string) : bool * string :=
  match s with
  | String c rest =>
      if code_of c =? 45 then (true, rest) else if code_of c =? 43 then (false, rest) else (false, s)
  | EmptyString => (false, s)
  end.

Definition digit_of (c : ascii) : option Z :=
  let n := code_of c in
  if (48 <=? n) && (n <=? 57) then Some (n - 48)
  else if (97 <=? n) && (n <=? 122) then Some (n - 87)
  else if (65 <=? n) && (n <=? 90) then Some (n - 55)
  else None.

Definition starts_with_digit (base : Z) (s : string) : bool :=
  match s with
  | String c _ => match digit_of c with Some d => d <? base | None => false end
  | EmptyString => false
  end.

(** The base and the digits: a prefix [0x] counts only before a hexadecimal digit. *)
Definition take_prefix (s : string) : Z * string :=
  match s with
  | String z rest =>
      if code_of z =? 48 then
        match rest with
        | String x rest' =>
            if ((code_of x =? 120) || (code_of x =? 88)) && starts_with_digit 16 rest' then (16, rest') else (8, s)
        | EmptyString => (8, s)
        end
      else (10, s)
  | EmptyString => (10, s)
  end.

Fixpoint read_digits (base acc : Z) (s : string) : Z * string :=
  match s with
  | String c rest =>
      match digit_of c with
      | Some d => if d <? base then read_digits base (acc * base + d) rest else (acc, s)
      | None => (acc, s)
      end
  | EmptyString => (acc, s)
  end.

(** No digits and a value that is too large are exceptions; a negative value is wrapped around. *)
Definition stoull (s : string) : outcome (Z * string) :=
  let '(negative, s) := take_sign (skip_spaces s) in
  let '(base, s) := take_prefix s in
  if negb (starts_with_digit base s) then StdException else
  let '(n, rest) := read_digits base 0 s in
  if max64 <? n then StdException else Done ((if negative : bool then wrap64 (- n) else n), rest).

Definition number (text : string) : outcome Z :=
  do~ checked (require (match text with
                        | String c _ => negb (code_of c =? 45)
                        | EmptyString => false
                        end) InvalidOperand) in
  let~ (n, rest) := stoull text in
  do~ checked (require (match rest with EmptyString => true | String _ _ => false end) InvalidOperand) in
  Done n.

Definition word (text : string) : outcome Z :=
  let~ n := number text in
  do~ checked (require (n <=? max32) InvalidOperand) in
  Done n.

(** ** Decimal numbers *)
Lemma digit_of_char d : 0 <= d < 10 -> digit_of (pretty_N_char (Z.to_N d)) = Some d.
Proof.
  intros H. assert (Hd : d ∈ [0; 1; 2; 3; 4; 5; 6; 7; 8; 9]).
  { rewrite !elem_of_cons. lia. }
  repeat (apply elem_of_cons in Hd as [->|Hd]; [reflexivity|]). by apply elem_of_nil in Hd.
Qed.

Lemma read_digits_go x s : read_digits 10 0 (pretty_N_go x s) = read_digits 10 (Z.of_N x) s.
Proof.
  revert s. induction (N.lt_wf_0 x) as [x _ IH]; intros s. destruct (decide (x = 0%N)) as [->|Hx]; [done|].
  rewrite pretty_N_go_step by lia. rewrite IH by (apply N.div_lt; lia). cbn [read_digits].
  pose proof (N.mod_lt x 10 ltac:(done)) as Hm. pose proof (N.div_mod x 10 ltac:(done)) as Hd.
  rewrite <-(N2Z.id (x `mod` 10)), digit_of_char by (rewrite N2Z.inj_mod; pose proof (Z.mod_pos_bound (Z.of_N x) 10); lia). replace (Z.of_N (x `mod` 10) <? 10) with true by (symmetry; apply Z.ltb_lt; lia).
  f_equal. lia.
Qed.

(** The text of a positive number does not begin with 0. *)
Definition leading (s : string) : bool :=
  match s with String c _ => (49 <=? code_of c) && (code_of c <=? 57) | EmptyString => false end.

Lemma go_leading x s : (0 < x)%N -> leading (pretty_N_go x s) = true.
Proof.
  revert s. induction (N.lt_wf_0 x) as [x _ IH]; intros s Hx. rewrite pretty_N_go_step by done.
  destruct (decide (x `div` 10 = 0)%N) as [E|E].
  - rewrite E, pretty_N_go_0. assert (x < 10)%N by (by apply N.div_small_iff in E). rewrite N.mod_small by done.
    cbn [leading]. unfold pretty_N_char. by repeat case_match.
  - apply IH; [apply N.div_lt; lia | by apply N.neq_0_lt_0].
Qed.

Lemma leading_head s :
  leading s = true ->
  skip_spaces s = s /\ take_sign s = (false, s) /\ take_prefix s = (10, s) /\ starts_with_digit 10 s = true /\
  match s with String c _ => negb (code_of c =? 45) = true | EmptyString => False end.
Proof.
  destruct s as [|c s]; [done|]. cbn [leading]. intros [H1 H2]%andb_true_iff. apply Z.leb_le in H1, H2.
  cbn [skip_spaces take_sign take_prefix starts_with_digit]. unfold is_space, digit_of.
  destruct (Z.eqb_spec (code_of c) 32); [lia|]. destruct (Z.leb_spec 9 (code_of c)); [|lia].
  destruct (Z.leb_spec (code_of c) 13); [lia|]. destruct (Z.eqb_spec (code_of c) 45); [lia|].
  destruct (Z.eqb_spec (code_of c) 43); [lia|]. destruct (Z.eqb_spec (code_of c) 48); [lia|].
  destruct (Z.leb_spec 48 (code_of c)); [|lia]. destruct (Z.leb_spec (code_of c) 57); [|lia].
  split_and!; try done. apply Z.ltb_lt. lia.
Qed.

Lemma number_leading s :
  leading s = true ->
  number s = let '(n, rest) := read_digits 10 0 s in
             if max64 <? n then StdException
             else match rest with EmptyString => Done n | String _ _ => Thrown InvalidOperand end.
Proof.
  intros H. apply leading_head in H as (H1 & H2 & H3 & H4 & H5). unfold number.
  destruct s as [|c s]; [done|]. rewrite H5. cbn [require checked outcome_bind]. unfold stoull.
  rewrite H1, H2, H3, H4. cbn [negb]. destruct (read_digits 10 0 (String c s)) as [n rest].
  destruct (max64 <? n); [done|]. cbn [outcome_bind]. by destruct rest.
Qed.

Lemma number_show_big n : 0 < n -> number (show n) = if n <=? max64 then Done n else StdException.
Proof.
  intros Hn. destruct n as [|p|p]; [done| |done]. change (show (Z.pos p)) with (pretty_N_go (N.pos p) "").
  rewrite number_leading by (by apply go_leading). rewrite read_digits_go. cbn [read_digits].
  change (Z.of_N (N.pos p)) with (Z.pos p). destruct (Z.leb_spec (Z.pos p) max64); destruct (Z.ltb_spec max64 (Z.pos p)); done || lia.
Qed.

(** Whatever is accepted fits the type. *)
Lemma digit_of_nonneg c d : digit_of c = Some d -> 0 <= d.
Proof.
  unfold digit_of. destruct (_ && _) eqn:E1; [intros [= <-]; apply andb_true_iff in E1 as [E%Z.leb_le _]; lia|].
  destruct (_ && _) eqn:E2 in |- *; [intros [= <-]; apply andb_true_iff in E2 as [E%Z.leb_le _]; lia|].
  destruct (_ && _) eqn:E3 in |- *; [intros [= <-]; apply andb_true_iff in E3 as [E%Z.leb_le _]; lia | done].
Qed.

Lemma read_digits_nonneg base acc s n rest :
  0 <= base -> 0 <= acc -> read_digits base acc s = (n, rest) -> 0 <= n.
Proof.
  intros Hb. revert acc. induction s as [|c s IH]; intros acc Ha H; cbn [read_digits] in H; [by injection H as <- _|].
  destruct (digit_of c) as [d|] eqn:Ed; [|by injection H as <- _]. apply digit_of_nonneg in Ed.
  destruct (d <? base); [|by injection H as <- _]. apply (IH _) in H; [done|]. nia.
Qed.

Lemma number_u64 text n : number text = Done n -> u64 n.
Proof.
  unfold number. intros H. apply outcome_bind_done in H as (? & _ & H). apply outcome_bind_done in H as ([n' rest] & Hs & H).
  apply outcome_bind_done in H as (? & _ & H). injection H as ->. unfold stoull in Hs.
  destruct (take_sign _) as [negative s1]. destruct (take_prefix s1) as [base s2] eqn:Ep.
  assert (Hb : 0 <= base).
  { unfold take_prefix in Ep. by repeat case_match; injection Ep as <- _. }
  destruct (negb _); [done|]. destruct (read_digits base 0 s2) as [v r] eqn:Er.
  apply read_digits_nonneg in Er; [|done..]. destruct (Z.ltb_spec max64 v); [done|]. injection Hs as <- _.
  destruct negative; [apply wrap64_u64 | unfold u64; lia].
Qed.

Lemma word_u32 text n : word text = Done n -> u32 n.
Proof.
  unfold word. intros H. apply outcome_bind_done in H as (v & Hv & H). apply outcome_bind_done in H as (? & Hr & H).
  injection H as ->. apply checked_done, require_ok, Z.leb_le in Hr. apply number_u64 in Hv. unfold u64 in Hv. unfold u32. lia.
Qed.

Lemma number_show n : 0 <= n -> number (show n) = if n <=? max64 then Done n else StdException.
Proof. intros Hn. destruct (decide (n = 0)) as [->|]; [reflexivity|]. apply number_show_big. lia. Qed.

(** Numbers on the command line are read as they are written.  The decimal text of a number gives
    that number, or an exception of the standard library if it does not fit 64 bits; a word also faults
    beyond 32 bits; and whatever text is accepted, in any base, the value fits its type. *)
Theorem number_reads_decimal (n : Z) (text : string) :
  0 <= n ->
  number (show n) = (if n <=? max64 then Done n else StdException) /\
  word (show n) = (if n <=? max32 then Done n else if n <=? max64 then Thrown InvalidOperand else StdException) /\
  (forall v, number text = Done v -> u64 v) /\ (forall v, word text = Done v -> u32 v).
Proof.
  intros Hn. split_and!; [by apply number_show | | apply number_u64 | apply word_u32].
  unfold word. rewrite number_show by done. assert (Hm : max32 <= max64) by done.
  destruct (Z.leb_spec n max64), (Z.leb_spec n max32); cbn [outcome_bind]; try done; try lia;
    by destruct (Z.leb_spec n max32); try lia.
Qed.

Lemma number_reads_decimal_witness :
  number "18446744073709551615" = Done max64 /\ number "18446744073709551616" = StdException /\
  word "4294967296" = Thrown InvalidOperand /\ u64 31.
Proof.
  destruct (number_reads_decimal max64 "0x1F" ltac:(done)) as (H1 & _ & H3 & _).
  destruct (number_reads_decimal 18446744073709551616 "0" ltac:(done)) as (H4 & _).
  destruct (number_reads_decimal 4294967296 "0" ltac:(done)) as (_ & H5 & _).
  exact (conj H1 (conj H4 (conj H5 (H3 31 ltac:(vm_compute; reflexivity))))).
Defined.

(** Other bases, and what is rejected. *)
Example number_bases :
  number "0x1F" = Done 31 /\ number "017" = Done 15 /\ number "+7" = Done 7 /\ number "0x" = Thrown InvalidOperand /\
  number "12k" = Thrown InvalidOperand /\ number "-1" = Thrown InvalidOperand /\ number "" = Thrown InvalidOperand /\
  number "k" = StdException.
Proof. vm_compute. by split_and!. Qed.

(** The guard looks at the first character only: behind white space a sign is accepted and wraps. *)
Example number_wraps_negative : number " -5" = Done (2 ^ 64 - 5) /\ word " -18446744073709551615" = Done 1.
Proof. vm_compute. by split. Qed.
