(* ===== verification/Protocol.v ===== *)
(** * Control protocol (src/control_protocol.cpp, include/qsbit/control_protocol.hpp,
    include/qsbit/control_links.hpp)

    The messages timing control and the timing control unit exchange, the translation of a codeword
    into operation events, and the check both sides apply to an enqueue request. *)

From S2P Require Import Prelude Error Time Event Mailbox Profile Feedback.

Inductive UnderflowPolicy := Inherit | Strict | PauseWhenEmpty.
#[global] Instance UnderflowPolicy_eq_dec : EqDecision UnderflowPolicy.
Proof. solve_decision. Defined.

Record OperationEvent := mkOperation {
  oe_epoch : Epoch; oe_id : Id; oe_instruction : Id; oe_label : Id; oe_source_port : Z;
  oe_codeword : Z; oe_action : EventSpec; oe_reference : option MeasurementReference;
  oe_core : option Z }.
#[global] Instance eta_OperationEvent : Eta OperationEvent := fun e =>
  mkOperation (oe_epoch e) (oe_id e) (oe_instruction e) (oe_label e) (oe_source_port e)
    (oe_codeword e) (oe_action e) (oe_reference e) (oe_core e).

Record TimingPoint := mkPoint {
  tp_epoch : Epoch; tp_label : Id; tp_interval : TcuCycle; manifest : list Id;
  synchronizations : list Z; underflow_policy : UnderflowPolicy }.
#[global] Instance eta_TimingPoint : Eta TimingPoint := fun p =>
  mkPoint (tp_epoch p) (tp_label p) (tp_interval p) (manifest p) (synchronizations p)
    (underflow_policy p).

Record TimingEvents := mkEvents {
  te_point : TimingPoint; te_events : list OperationEvent; te_configuration : string }.
#[global] Instance eta_TimingEvents : Eta TimingEvents := fun r =>
  mkEvents (te_point r) (te_events r) (te_configuration r).

Record EnqueueReply := mkReply { reply_label : Id }.
Record EndOfStream := mkEnd { end_last_label : Id }.
Record TriggeredEvents := mkTriggered {
  tg_epoch : Epoch; tg_label : Id; fire_tick : Tick; tg_events : list OperationEvent }.
#[global] Instance eta_TriggeredEvents : Eta TriggeredEvents := fun t =>
  mkTriggered (tg_epoch t) (tg_label t) (fire_tick t) (tg_events t).

(** A counter per port. *)
Definition counts_new (n : Z) : list Z := repeat 0 (Z.to_nat n).
Definition bump_count (counts : list Z) (port : Z) : list Z :=
  alter (fun n => n + 1) (Z.to_nat port) counts.

(** ** [decode_codeword] *)
Definition is_readout (a : EventSpec) : bool := is_acquire a || is_arm a.

Definition check_references (epoch : Epoch) (references : list MeasurementReference) : result unit :=
  let? _ :=
    result_fold (fun seen r =>
      do? require ((ref_epoch r =? epoch) && negb (ref_measurement r =? 0) &&
                   bool_decide (ref_target r ∉ fst seen) &&
                   bool_decide (ref_measurement r ∉ snd seen)) InvalidMeasurement in
      Ok ({[ref_target r]} ∪ fst seen, {[ref_measurement r]} ∪ snd seen))
      references (∅ : gset Z, ∅ : gset Z) in
  Ok ().

(** The last reference whose target is the action's only one. *)
Definition reference_for (references : list MeasurementReference) (a : EventSpec)
    : option MeasurementReference :=
  fold_left (fun found c =>
    match targets a with
    | [q] => if ref_target c =? q then Some c else found
    | _ => found
    end) references None.

Definition decode_codeword (c : TimingConfig) (port codeword : Z) (epoch : Epoch) (instruction : Id)
    (first_event : Id) (references : list MeasurementReference) : result (list OperationEvent) :=
  let? m := timing_mapping c port codeword in
  do? require (size_of references =? count_if is_acquire (map_actions m)) InvalidMeasurement in
  do? check_references epoch references in
  result_fold (fun events a =>
    let reference := if is_readout a then reference_for references a else None in
    do? require (negb (is_readout a) || match reference with Some _ => true | None => false end)
      InvalidMeasurement in
    do? require (bool_decide (execution_flag a = Always) || tc_fast_feedback c)
      UnsupportedCapability in
    let? id := checked_add first_event (size_of events) in
    Ok (events ++ [mkOperation epoch id instruction 0 port codeword a reference None]))
    (map_actions m) [].

(** ** [validate_timing_events] *)
(** One iteration of the loop over events: an event, its manifest entry, the identities seen and
    the per-port counters, which cannot wrap since the number of events has been bounded. *)
Definition validate_event (c : TimingConfig) (point : TimingPoint) (acc : gset Z * list Z)
    (entry : OperationEvent * Id) : result (gset Z * list Z) :=
  let '(e, listed) := entry in
  do? require ((oe_epoch e =? tp_epoch point) && (oe_label e =? tp_label point) &&
               negb (oe_id e =? 0) && (oe_id e =? listed) && bool_decide (oe_id e ∉ fst acc))
    ManifestMismatch in
  let port := ev_port (oe_action e) in
  do? require (port <? tc_ports c) InvalidPort in
  let counts := bump_count (snd acc) port in
  do? require ((at_index counts port <=? tc_firing_width c) &&
               (at_index counts port <=? tc_event_capacity c)) Capacity in
  let? m := timing_mapping c (oe_source_port e) (oe_codeword e) in
  do? require (existsb (fun a => event_eqb a (oe_action e)) (map_actions m)) Protocol in
  Ok ({[oe_id e]} ∪ fst acc, counts).

Definition validate_timing_events (r : TimingEvents) (c : TimingConfig) : result unit :=
  let p := te_point r in
  do? require ((tp_interval p =? 0) || negb (bool_decide (underflow_policy p = Inherit))) Protocol in
  do? require (String.eqb (te_configuration r) (configuration c)) Protocol in
  do? require (size_of (te_events r) =? size_of (manifest p)) ManifestMismatch in
  do? require (size_of (te_events r) <=? tc_staging_capacity c) Capacity in
  do? require (size_of (synchronizations p) <=? tc_staging_capacity c) Capacity in
  do? require (size_of (synchronizations p) <=? 1) InvalidOperand in
  let? _ :=
    result_fold (fun (seen : gset Z) t =>
      do? require ((t <=? 131071) && bool_decide (t ∉ seen)) InvalidOperand in
      Ok ({[t]} ∪ seen)) (synchronizations p) ∅ in
  let? _ :=
    result_fold (validate_event c p) (combine (te_events r) (manifest p))
      (∅, counts_new (tc_ports c)) in
  Ok ().

(** ** Control links *)
Record ControlLinks := mkLinks {
  timing_events : Mailbox TimingEvents; replies : Mailbox EnqueueReply;
  closure : Mailbox EndOfStream; cpu_results : Mailbox Completion;
  fast_results : Mailbox Completion; fast_credits : Mailbox MeasurementReference }.
#[global] Instance eta_ControlLinks : Eta ControlLinks := fun l =>
  mkLinks (timing_events l) (replies l) (closure l) (cpu_results l) (fast_results l) (fast_credits l).

Definition links_new (p : TransportConfig) : result ControlLinks :=
  let? a := mailbox_new 1 (tr_tcu p) (tr_command p) in
  let? b := mailbox_new 1 (tr_cpu p) (tr_reply p) in
  let? c := mailbox_new 1 (tr_tcu p) (tr_command p) in
  let? d := mailbox_new (tr_result_capacity p) (tr_cpu p) (tr_cpu_result p) in
  let? e := mailbox_new (tr_result_capacity p) (tr_tcu p) (tr_fast_result p) in
  let? f := mailbox_new (tr_result_capacity p) (tr_cpu p) 1 in
  Ok (mkLinks a b c d e f).

Definition links_reset (l : ControlLinks) : ControlLinks :=
  mkLinks (mailbox_reset (timing_events l)) (mailbox_reset (replies l)) (mailbox_reset (closure l))
    (mailbox_reset (cpu_results l)) (mailbox_reset (fast_results l)) (mailbox_reset (fast_credits l)).

(** ** Per-port counters *)
Lemma at_index_bump counts port q :
  0 <= port < size_of counts -> 0 <= q ->
  at_index (bump_count counts port) q = at_index counts q + if q =? port then 1 else 0.
Proof.
  unfold at_index, bump_count, size_of. intros Hp Hq. rewrite !nth_lookup, list_lookup_alter.
  destruct (Z.eqb_spec q port) as [->|].
  - rewrite decide_True by done. destruct (counts !! Z.to_nat port) eqn:E; [done|].
    apply lookup_ge_None in E. lia.
  - rewrite decide_False by lia. lia.
Qed.

Lemma size_of_bump counts port : size_of (bump_count counts port) = size_of counts.
Proof. unfold bump_count, size_of. by rewrite length_alter. Qed.

Lemma at_index_counts_new n q : at_index (counts_new n) q = 0.
Proof. unfold at_index, counts_new. apply nth_repeat. Qed.

Lemma size_of_counts_new n : 0 <= n -> size_of (counts_new n) = n.
Proof. intros. unfold counts_new, size_of. rewrite repeat_length. lia. Qed.

Definition on_port (q : Z) (e : OperationEvent) : bool := q =? ev_port (oe_action e).

(** ** The meaning of the request check *)
Definition event_valid (c : TimingConfig) (point : TimingPoint) (e : OperationEvent) : Prop :=
  oe_epoch e = tp_epoch point /\ oe_label e = tp_label point /\ oe_id e <> 0 /\
  ev_port (oe_action e) < tc_ports c /\
  exists m, timing_mapping c (oe_source_port e) (oe_codeword e) = Ok m /\
    existsb (fun a => event_eqb a (oe_action e)) (map_actions m) = true.

Record request_valid (c : TimingConfig) (r : TimingEvents) : Prop := {
  rv_policy : tp_interval (te_point r) = 0 \/ underflow_policy (te_point r) <> Inherit;
  rv_configuration : te_configuration r = configuration c;
  rv_manifest : manifest (te_point r) = map oe_id (te_events r);
  rv_capacity : size_of (te_events r) <= tc_staging_capacity c;
  rv_sync_capacity : size_of (synchronizations (te_point r)) <= tc_staging_capacity c;
  rv_sync : size_of (synchronizations (te_point r)) <= 1;
  rv_sync_targets : Forall (fun t => t <= 131071) (synchronizations (te_point r));
  rv_events : Forall (event_valid c (te_point r)) (te_events r);
  rv_ids : NoDup (map oe_id (te_events r));
  rv_ports : forall e, e ∈ te_events r ->
    count_if (on_port (ev_port (oe_action e))) (te_events r) <= tc_firing_width c /\
    count_if (on_port (ev_port (oe_action e))) (te_events r) <= tc_event_capacity c }.

(** Ports are unsigned. *)
Definition ports_unsigned (events : list OperationEvent) : Prop :=
  Forall (fun e => 0 <= ev_port (oe_action e)) events.

Definition seen_state (c : TimingConfig) (es : list OperationEvent) (acc : gset Z * list Z) : Prop :=
  (forall x, x ∈ fst acc <-> x ∈ map oe_id es) /\ size_of (snd acc) = tc_ports c /\
  forall q, 0 <= q -> at_index (snd acc) q = count_if (on_port q) es.

Lemma seen_state_step c es acc e :
  seen_state c es acc -> 0 <= ev_port (oe_action e) < tc_ports c ->
  seen_state c (es ++ [e])
    ({[oe_id e]} ∪ fst acc, bump_count (snd acc) (ev_port (oe_action e))).
Proof.
  intros (H1 & H2 & H3) Hp. unfold seen_state. simpl. split_and!.
  - intros x. rewrite map_app, elem_of_app, elem_of_union, H1. simpl. set_solver.
  - by rewrite size_of_bump.
  - intros q Hq. rewrite at_index_bump by (rewrite ?H2; lia). rewrite H3 by done.
    rewrite count_if_app, count_if_cons, count_if_nil.
    change (on_port q e) with (q =? ev_port (oe_action e)). lia.
Qed.

Lemma validate_event_ok c point es acc e listed acc' :
  seen_state c es acc -> 0 <= ev_port (oe_action e) ->
  validate_event c point acc (e, listed) = Ok acc' ->
  seen_state c (es ++ [e]) acc' /\ event_valid c point e /\ oe_id e = listed /\
  (oe_id e ∉ map oe_id es) /\
  count_if (on_port (ev_port (oe_action e))) (es ++ [e]) <= tc_firing_width c /\
  count_if (on_port (ev_port (oe_action e))) (es ++ [e]) <= tc_event_capacity c.
Proof.
  intros Hs Hp0 H. unfold validate_event in H.
  apply result_bind_ok in H as ([] & K1 & H). apply require_ok in K1. reflect.
  apply result_bind_ok in H as ([] & K2 & H). apply require_ok in K2. reflect.
  apply result_bind_ok in H as ([] & K3 & H). apply require_ok in K3. reflect.
  apply result_bind_ok in H as (m & Hm & H). apply result_bind_ok in H as ([] & K4 & H).
  apply require_ok in K4. inv_ok H.
  pose proof (seen_state_step c es acc e Hs ltac:(done)) as Hs'.
  destruct Hs as (Hids & _ & _). pose proof (proj2 (proj2 Hs') (ev_port (oe_action e)) Hp0) as Hcount.
  simpl in Hcount. rewrite <-Hcount. split_and!; try done.
  - unfold event_valid. split_and!; eauto.
  - by rewrite <-Hids.
Qed.

Lemma map_snd_combine {A B} (l : list A) (k : list B) :
  size_of l = size_of k -> map fst (combine l k) = l /\ map snd (combine l k) = k.
Proof.
  unfold size_of. revert k. induction l as [|a l IH]; intros [|b k] H; simpl in *; try lia; [done|].
  destruct (IH k) as [-> ->]; [lia | done].
Qed.

Lemma fold_distinct_syncs l (s s' : gset Z) :
  result_fold (fun (seen : gset Z) t =>
      do? require ((t <=? 131071) && bool_decide (t ∉ seen)) InvalidOperand in
      Ok ({[t]} ∪ seen)) l s = Ok s' -> Forall (fun t => t <= 131071) l.
Proof.
  revert s. induction l as [|t l IH]; intros s H; simpl in H; [constructor|].
  apply result_bind_ok in H as (s1 & H1 & H). inv_ok H1. reflect. constructor; eauto.
Qed.

Lemma validate_request_sound c r :
  0 <= tc_ports c -> ports_unsigned (te_events r) ->
  validate_timing_events r c = Ok () -> request_valid c r.
Proof.
  intros Hports Hu H. unfold validate_timing_events in H.
  apply result_bind_ok in H as ([] & K1 & H). apply require_ok in K1.
  apply result_bind_ok in H as ([] & K2 & H). apply require_ok in K2.
  apply result_bind_ok in H as ([] & K3 & H). apply require_ok in K3.
  apply result_bind_ok in H as ([] & K4 & H). apply require_ok in K4.
  apply result_bind_ok in H as ([] & K5 & H). apply require_ok in K5.
  apply result_bind_ok in H as ([] & K6 & H). apply require_ok in K6.
  apply result_bind_ok in H as (syncs & K7 & H). apply fold_distinct_syncs in K7.
  apply result_bind_ok in H as (acc & K8 & _).
  apply String.eqb_eq in K2. reflect.
  destruct (map_snd_combine _ _ K3) as [Hfst Hsnd].
  apply (result_fold_prefix (fun seen acc =>
    seen_state c (map fst seen) acc /\ Forall (event_valid c (te_point r)) (map fst seen) /\
    map snd seen = map oe_id (map fst seen) /\ NoDup (map oe_id (map fst seen)) /\
    (forall e, e ∈ map fst seen ->
       count_if (on_port (ev_port (oe_action e))) (map fst seen) <= tc_firing_width c /\
       count_if (on_port (ev_port (oe_action e))) (map fst seen) <= tc_event_capacity c)) _ _ []) in K8.
  - simpl in K8. rewrite Hfst, Hsnd in K8. destruct K8 as (_ & Hev & Hman & Hnd & Hcnt).
    constructor; try done. destruct K1; reflect; auto.
  - split_and!; [|constructor | done | constructor | by intros e ?%elem_of_nil].
    split_and!; simpl; [set_solver | by apply size_of_counts_new | intros; apply at_index_counts_new].
  - intros d [e listed] b b' Hin (Hs & Hv & Hman & Hnd & Hcnt) Hstep.
    assert (He : e ∈ te_events r).
    { rewrite <-Hfst. apply list_elem_of_In, in_map_iff. exists (e, listed).
      split; [done | by apply list_elem_of_In]. }
    pose proof (proj1 (Forall_forall _ _) Hu e He) as Hp0. simpl in Hp0.
    destruct (validate_event_ok _ _ _ _ _ _ _ Hs Hp0 Hstep) as (Hs' & Hv' & <- & Hn & Hc1 & Hc2).
    rewrite !map_app. simpl. split_and!.
    + done.
    + apply Forall_app. split; [done|]. by constructor.
    + by rewrite Hman.
    + apply NoDup_app. split_and!; [done | | repeat constructor; set_solver].
      intros x Hx ->%list_elem_of_singleton. done.
    + intros e' [He'| ->%list_elem_of_singleton]%elem_of_app; [|done].
      destruct (Hcnt e' He') as [C1 C2].
      destruct (Z.eq_dec (ev_port (oe_action e')) (ev_port (oe_action e))) as [E|E]; [by rewrite E|].
      rewrite count_if_app, count_if_cons, count_if_nil.
      change (on_port ?q e) with (q =? ev_port (oe_action e)).
      rewrite (proj2 (Z.eqb_neq _ _) E). lia.
Qed.

Lemma validate_events_complete c point pre rest acc :
  seen_state c pre acc -> ports_unsigned (pre ++ rest) ->
  Forall (event_valid c point) rest -> NoDup (map oe_id (pre ++ rest)) ->
  (forall e, e ∈ rest ->
     count_if (on_port (ev_port (oe_action e))) (pre ++ rest) <= tc_firing_width c /\
     count_if (on_port (ev_port (oe_action e))) (pre ++ rest) <= tc_event_capacity c) ->
  exists acc', result_fold (validate_event c point) (combine rest (map oe_id rest)) acc = Ok acc'.
Proof.
  revert pre acc. induction rest as [|e rest IH]; intros pre acc Hs Hu Hv Hnd Hcnt; simpl; [eauto|].
  inversion Hv as [|? ? (He1 & He2 & He3 & He4 & m & He5 & He6) Hv']; subst.
  assert (Hp0 : 0 <= ev_port (oe_action e)).
  { unfold ports_unsigned in Hu. rewrite Forall_forall in Hu. apply Hu. apply elem_of_app. right. by left. }
  pose proof (seen_state_step c pre acc e Hs ltac:(done)) as Hs'.
  rewrite cons_middle, app_assoc in Hnd, Hu.
  destruct (Hcnt e ltac:(by left)) as [C1 C2]. rewrite cons_middle, app_assoc, count_if_app in C1, C2.
  pose proof (count_if_nonneg (on_port (ev_port (oe_action e))) rest).
  assert (Hid : bool_decide (oe_id e ∉ fst acc) = true).
  { apply bool_decide_eq_true. rewrite (proj1 Hs). rewrite map_app, map_app in Hnd.
    apply NoDup_app in Hnd as [Hnd _]. apply NoDup_app in Hnd as (_ & Hnd & _).
    intros Hin. apply (Hnd _ Hin). simpl. by left. }
  unfold validate_event at 1. unfold require.
  rewrite (proj2 (Z.eqb_eq _ _) He1), (proj2 (Z.eqb_eq _ _) He2), (proj2 (Z.eqb_neq _ _) He3), Z.eqb_refl, Hid.
  cbn [andb negb result_bind]. rewrite (proj2 (Z.ltb_lt _ _) He4). cbn [result_bind].
  pose proof (proj2 (proj2 Hs') (ev_port (oe_action e)) Hp0) as Hcount. simpl in Hcount. rewrite Hcount.
  rewrite (proj2 (Z.leb_le _ _)) by lia. rewrite (proj2 (Z.leb_le _ _)) by lia.
  cbn [andb result_bind]. rewrite He5. cbn [result_bind]. rewrite He6. cbn [result_bind].
  apply (IH (pre ++ [e])); try done.
  intros e' He'. rewrite <-app_assoc. apply Hcnt. by right.
Qed.

Lemma validate_request_complete c r :
  0 <= tc_ports c -> ports_unsigned (te_events r) ->
  request_valid c r -> validate_timing_events r c = Ok ().
Proof.
  intros Hports Hu [H1 H2 H3 H4 H5 H6 H7 H8 H9 H10]. unfold validate_timing_events, require.
  rewrite H2, String.eqb_refl, H3, size_of_map, Z.eqb_refl.
  rewrite (proj2 (Z.leb_le _ _) H4), (proj2 (Z.leb_le _ _) H5), (proj2 (Z.leb_le _ _) H6).
  replace ((tp_interval (te_point r) =? 0) || _) with true.
  2: { symmetry. apply orb_true_iff. destruct H1; [left; by apply Z.eqb_eq | right].
       by rewrite bool_decide_eq_false_2. }
  cbn [result_bind].
  destruct (validate_events_complete c (te_point r) [] (te_events r) (∅, counts_new (tc_ports c)))
    as (acc & ->); try done.
  { split_and!; simpl; [set_solver | by apply size_of_counts_new | intros; apply at_index_counts_new]. }
  destruct (synchronizations (te_point r)) as [|t [|? ?]]; [done | | by unfold size_of in H6; simpl in H6; lia].
  inversion H7; subst. cbn [result_fold result_bind]. rewrite (proj2 (Z.leb_le _ _)) by done. done.
Qed.

(** What an enqueue request must satisfy.  [validate_timing_events] accepts exactly the requests
    whose configuration is the receiver's, whose positive interval comes with an explicit underflow
    policy, whose manifest lists the identities of the events in order, without repetition, whose
    events belong to the point, use existing ports within the firing width and the event capacity and
    carry a descriptor of their codeword's mapping, and which book at most one valid
    synchronization. *)
Theorem request_check_exact (c : TimingConfig) (r : TimingEvents)
    (Hports : 0 <= tc_ports c) (Hu : ports_unsigned (te_events r)) :
  validate_timing_events r c = Ok () <-> request_valid c r.
Proof. split; [by apply validate_request_sound | by apply validate_request_complete]. Qed.

(** ** Codewords *)
(** The events a codeword stands for: one per action, with consecutive identities. *)
Fixpoint events_from (port codeword : Z) (epoch : Epoch) (instruction first : Id)
    (references : list MeasurementReference) (actions : list EventSpec) : list OperationEvent :=
  match actions with
  | [] => []
  | a :: rest =>
      mkOperation epoch first instruction 0 port codeword a
        (if is_readout a then reference_for references a else None) None
      :: events_from port codeword epoch instruction (first + 1) references rest
  end.

Lemma events_from_snoc port codeword epoch instruction first references actions a :
  events_from port codeword epoch instruction first references (actions ++ [a]) =
  events_from port codeword epoch instruction first references actions ++
    [mkOperation epoch (first + size_of actions) instruction 0 port codeword a
       (if is_readout a then reference_for references a else None) None].
Proof.
  revert first. induction actions as [|b l IH]; intros first; simpl.
  - change (size_of []) with 0. by rewrite Z.add_0_r.
  - rewrite IH, size_of_cons. by replace (first + 1 + size_of l) with (first + (1 + size_of l)) by lia.
Qed.

Lemma size_of_events_from port codeword epoch instruction first references actions :
  size_of (events_from port codeword epoch instruction first references actions) = size_of actions.
Proof.
  revert first. induction actions as [|b l IH]; intros first; simpl; [done|].
  by rewrite !size_of_cons, IH.
Qed.

Lemma reference_for_last references a q found :
  targets a = [q] -> (forall r, r ∈ references -> ref_target r <> q) ->
  fold_left (fun found c =>
    match targets a with
    | [q] => if ref_target c =? q then Some c else found
    | _ => found
    end) references found = found.
Proof.
  intros Ht. revert found. induction references as [|c l IH]; intros found Hno; cbn [fold_left]; [done|].
  rewrite IH by (intros; apply Hno; by right).
  by rewrite Ht, (proj2 (Z.eqb_neq _ _)) by (apply Hno; by left).
Qed.

Lemma reference_for_unique references a r :
  targets a = [ref_target r] -> r ∈ references -> NoDup (map ref_target references) ->
  reference_for references a = Some r.
Proof.
  intros Ht. unfold reference_for. generalize (None : option MeasurementReference) as found.
  induction references as [|c l IH]; intros found Hr Hnd; [by apply elem_of_nil in Hr|].
  inversion Hnd as [|? ? Hout Hnd']; subst. apply elem_of_cons in Hr as [->|Hr]; cbn [fold_left].
  - rewrite (reference_for_last l a (ref_target c)); [by rewrite Ht, Z.eqb_refl | done |].
    intros r' Hr' He. apply Hout. rewrite <-He. apply list_elem_of_In, in_map, list_elem_of_In, Hr'.
  - by apply IH.
Qed.

Lemma check_fresh_references epoch n ts :
  1 <= n -> NoDup ts -> check_references epoch (fresh_references epoch n ts) = Ok ().
Proof.
  intros Hn Hnd. unfold check_references.
  assert (Hgen : forall (seen : gset Z * gset Z) n, 1 <= n ->
    (forall t, t ∈ ts -> t ∉ fst seen) -> (forall i, i ∈ snd seen -> i < n) ->
    exists s, result_fold (fun seen r =>
      do? require ((ref_epoch r =? epoch) && negb (ref_measurement r =? 0) &&
                   bool_decide (ref_target r ∉ fst seen) &&
                   bool_decide (ref_measurement r ∉ snd seen)) InvalidMeasurement in
      Ok ({[ref_target r]} ∪ fst seen, {[ref_measurement r]} ∪ snd seen))
      (fresh_references epoch n ts) seen = Ok s).
  { clear n Hn. induction Hnd as [|t ts Hout Hnd IH]; intros seen n Hn Hf Hs; simpl; [eauto|].
    rewrite Z.eqb_refl, (proj2 (Z.eqb_neq n 0)) by lia.
    rewrite (bool_decide_eq_true_2 (t ∉ fst seen)) by (apply Hf; by left).
    rewrite (bool_decide_eq_true_2 (n ∉ snd seen)) by (intros Hi; specialize (Hs n Hi); lia). simpl.
    apply IH; simpl; [lia | |].
    - intros t' Ht'. apply not_elem_of_union. split; [|apply Hf; by right].
      intros ->%elem_of_singleton. done.
    - intros i [->%elem_of_singleton|Hi]%elem_of_union; [lia | specialize (Hs i Hi); lia]. }
  destruct (Hgen (∅, ∅) n Hn) as (s & Hs).
  - intros; apply not_elem_of_empty.
  - intros i []%not_elem_of_empty.
  - by rewrite Hs.
Qed.

(** The reference a readout action gets is one of those reserved for its mapping, for its qubit. *)
Lemma readout_reference p m epoch n a q :
  mapping_valid p m -> a ∈ map_actions m -> is_readout a = true -> targets a = [q] ->
  exists r, reference_for (fresh_references epoch n (flat_map acquired (map_actions m))) a = Some r /\
    r ∈ fresh_references epoch n (flat_map acquired (map_actions m)) /\ ref_target r = q.
Proof.
  intros Hm Ha Hro Hq.
  assert (Hin : q ∈ flat_map acquired (map_actions m)).
  { unfold is_readout in Hro. apply orb_true_iff in Hro as [Hacq|Harm].
    - apply elem_of_flat_map. exists a. split; [done|]. unfold acquired. rewrite Hacq, Hq. by left.
    - by eapply mv_armed. }
  pose proof (mv_acquired _ _ Hm) as Hnd.
  rewrite <-(fresh_targets epoch n (flat_map acquired (map_actions m))) in Hin.
  apply list_elem_of_In, in_map_iff in Hin as (r & Hr & Hin). apply list_elem_of_In in Hin.
  exists r. split_and!; try done. apply reference_for_unique; [by rewrite Hr | done |].
  by rewrite fresh_targets.
Qed.

Lemma size_of_acquired p l :
  Forall (action_valid p) l -> size_of (flat_map acquired l) = count_if is_acquire l.
Proof.
  induction 1 as [|a l Ha Hl IH]; simpl; [done|]. rewrite size_of_app, count_if_cons, IH.
  unfold acquired. destruct (is_acquire a) eqn:E; [|done].
  destruct (av_readout _ _ Ha) as (q & ->); [left; by apply is_acquire_iff | done].
Qed.

Lemma decode_codeword_events c p m port codeword epoch instruction first n :
  timing_mapping c port codeword = Ok m -> mapping_valid p m -> 1 <= n ->
  Forall (fun a => execution_flag a = Always \/ tc_fast_feedback c = true) (map_actions m) ->
  first + size_of (map_actions m) <= max64 ->
  let references := fresh_references epoch n (flat_map acquired (map_actions m)) in
  decode_codeword c port codeword epoch instruction first references =
    Ok (events_from port codeword epoch instruction first references (map_actions m)).
Proof.
  intros Hmap Hm Hn Hflags Hmax references. unfold decode_codeword. rewrite Hmap. cbn [result_bind].
  unfold references at 1. rewrite size_of_fresh, (size_of_acquired p) by apply Hm.
  rewrite Z.eqb_refl. cbn [require result_bind]. unfold references at 1.
  rewrite check_fresh_references by (done || apply Hm). cbn [result_bind].
  assert (Hgen : forall done rest, done ++ rest = map_actions m ->
    result_fold (fun events a =>
      let reference := if is_readout a then reference_for references a else None in
      do? require (negb (is_readout a) || match reference with Some _ => true | None => false end)
        InvalidMeasurement in
      do? require (bool_decide (execution_flag a = Always) || tc_fast_feedback c)
        UnsupportedCapability in
      let? id := checked_add first (size_of events) in
      Ok (events ++ [mkOperation epoch id instruction 0 port codeword a reference None]))
      rest (events_from port codeword epoch instruction first references done) =
    Ok (events_from port codeword epoch instruction first references (map_actions m))).
  2: { by apply (Hgen []). }
  intros dn rest. revert dn. induction rest as [|a rest IH]; intros dn Heq.
  { simpl. rewrite app_nil_r in Heq. by rewrite Heq. }
  assert (Ha : a ∈ map_actions m) by (rewrite <-Heq; apply elem_of_app; right; by left).
  pose proof (proj1 (Forall_forall _ _) (mv_valid _ _ Hm) a Ha) as Hv.
  pose proof (proj1 (Forall_forall _ _) Hflags a Ha) as Hfl. cbn [result_fold]. cbv zeta.
  assert (Hro : negb (is_readout a) ||
    match (if is_readout a then reference_for references a else None) with Some _ => true | None => false end = true).
  { destruct (is_readout a) eqn:E; [|done]. simpl.
    destruct (av_readout _ _ Hv) as (q & Hq).
    { unfold is_readout, is_acquire, is_arm in E. apply orb_true_iff in E.
      rewrite !bool_decide_eq_true in E. done. }
    destruct (readout_reference p m epoch n a q Hm Ha E Hq) as (r & Hr & _).
    unfold references. by rewrite Hr. }
  rewrite Hro. cbn [require result_bind].
  replace (bool_decide (execution_flag a = Always) || tc_fast_feedback c) with true
    by (symmetry; apply orb_true_iff; rewrite bool_decide_eq_true; tauto).
  cbn [require result_bind]. rewrite size_of_events_from.
  rewrite checked_add_eq.
  2: { rewrite <-Heq, size_of_app, size_of_cons in Hmax. pose proof (size_of_nonneg rest). lia. }
  cbn [result_bind]. rewrite <-events_from_snoc. apply IH. by rewrite <-app_assoc.
Qed.

(** Codewords become events.  For references reserved for the mapping's acquisitions, in order,
    [decode_codeword] cannot fail: it returns one event per action of the mapping, in order, with
    consecutive identities; every readout carries the reserved reference of its own qubit and no
    other event carries one. *)
Theorem decode_reserved_codeword (c : TimingConfig) (p : Profile) (m : Mapping)
    (port codeword epoch instruction first n : Z)
    (Hmap : timing_mapping c port codeword = Ok m) (Hm : mapping_valid p m) (Hn : 1 <= n)
    (Hflags : Forall (fun a => execution_flag a = Always \/ tc_fast_feedback c = true) (map_actions m))
    (Hmax : first + size_of (map_actions m) <= max64) :
  let references := fresh_references epoch n (flat_map acquired (map_actions m)) in
  exists events, decode_codeword c port codeword epoch instruction first references = Ok events /\
    map oe_action events = map_actions m /\
    (forall i e, events !! i = Some e ->
       oe_id e = first + Z.of_nat i /\ oe_epoch e = epoch /\ oe_instruction e = instruction /\
       oe_source_port e = port /\ oe_codeword e = codeword /\
       match oe_reference e with
       | Some r => is_readout (oe_action e) = true /\ r ∈ references /\
                   targets (oe_action e) = [ref_target r]
       | None => is_readout (oe_action e) = false
       end).
Proof.
  intros references. eexists. split; [by eapply decode_codeword_events|].
  split.
  { generalize (fresh_references epoch n (flat_map acquired (map_actions m))) as rs. clear.
    revert first. induction (map_actions m) as [|a l IH]; intros; simpl; [done|].
    by rewrite IH. }
  assert (Hsub : forall a, a ∈ map_actions m -> a ∈ map_actions m) by done.
  change (fresh_references epoch n (flat_map acquired (map_actions m))) with references.
  revert Hsub. generalize (map_actions m) at 1 3 as l. clear Hmax.
  intros l. revert first. induction l as [|a l IH]; intros first Hsub i e He; [done|].
  destruct i as [|i]; simpl in He.
  - simplify_eq. simpl. split_and!; try done; [lia|].
    assert (Ha : a ∈ map_actions m) by (apply Hsub; by left).
    destruct (is_readout a) eqn:E; [|done].
    destruct (av_readout _ _ (proj1 (Forall_forall _ _) (mv_valid _ _ Hm) a Ha)) as (q & Hq).
    { unfold is_readout, is_acquire, is_arm in E. apply orb_true_iff in E.
      rewrite !bool_decide_eq_true in E. done. }
    destruct (readout_reference p m epoch n a q Hm Ha E Hq) as (r & Hr & Hin & Ht).
    unfold references. rewrite Hr. split_and!; try done. by rewrite Hq, Ht.
  - destruct (IH (first + 1) ltac:(intros b Hb; apply Hsub; by right) i e He) as (H1 & H2).
    split; [lia | done].
Qed.

(** ** Examples on the built-in profile *)
Definition example_timing : TimingConfig :=
  match timing_config (fun _ => "0") default_unchecked with
  | Ok c => c
  | Fault _ => mkTiming 0 0 0 0 0 false "" ∅
  end.

Definition example_mapping : Mapping := mkMapping 1 4 [default_action 1 4].

Lemma example_mapping_found : timing_mapping example_timing 1 4 = Ok example_mapping.
Proof. vm_compute. reflexivity. Qed.

Lemma default_valid : profile_valid default_unchecked.
Proof. apply profile_validate_ok; [exact default_bounded | vm_compute; reflexivity]. Qed.

Lemma default_mapping_valid port codeword m :
  profile_mapping default_unchecked port codeword = Ok m -> mapping_valid default_unchecked m.
Proof.
  intros H. apply profile_mapping_ok in H as (Hin & _).
  exact (proj1 (Forall_forall _ _) (pv_mappings _ default_valid) m Hin).
Qed.

Definition example_request : TimingEvents :=
  mkEvents (mkPoint 1 1 0 [1] [] Inherit)
    [mkOperation 1 1 7 1 1 4 (default_action 1 4) (Some (mkReference 1 1 1)) None]
    (configuration example_timing).

Lemma request_check_exact_witness :
  ports_unsigned (te_events example_request) /\ request_valid example_timing example_request.
Proof.
  assert (Hu : ports_unsigned (te_events example_request)) by forall_list ltac:(simpl; lia).
  split; [exact Hu|].
  apply (proj1 (request_check_exact example_timing example_request ltac:(vm_compute; congruence) Hu)).
  vm_compute. reflexivity.
Defined.

Lemma decode_reserved_codeword_witness :
  exists events, decode_codeword example_timing 1 4 1 7 5 [mkReference 1 3 1] = Ok events /\
    map oe_action events = [default_action 1 4].
Proof.
  destruct (decode_reserved_codeword example_timing default_unchecked example_mapping 1 4 1 7 5 3)
    as (events & H1 & H2 & _).
  - exact example_mapping_found.
  - apply (default_mapping_valid 1 4). vm_compute. reflexivity.
  - lia.
  - forall_list ltac:(left; reflexivity).
  - vm_compute. congruence.
  - exists events. split; [exact H1 | exact H2].
Defined.
