(* ===== verification/TimingControl.v ===== *)
(** * Timing control (src/timing_control.cpp, include/qsbit/timing_control.hpp)

    The unit that executes control commands: it accumulates the events of the current time point,
    submits the point when a wait moves time on, and hands out measurement results.  It shares the
    measurement registers, the control links and the trace with the rest of the core; [ControlWorld]
    holds all of them.  The device's check of an action and the synchronization unit's check of a
    target are parameters. *)

From S2P Require Import Prelude Error Time Event Trace Mailbox ControlCommand Profile Feedback Protocol.

Record TimingControl := mkControlUnit {
  tl_profile : TimingConfig; pending_events : list OperationEvent; pending_sync : list Z;
  enqueue_request : option TimingEvents; held : option ControlOperation;
  time_point : TcuCycle; last_enqueued_time : TcuCycle; tl_last_label : Id; next_event : Id;
  pending_point : bool; enqueued : bool; tl_closed : bool; pending_wait_for_next : bool;
  allow_same_time : bool }.
#[global] Instance eta_TimingControl : Eta TimingControl := fun t =>
  mkControlUnit (tl_profile t) (pending_events t) (pending_sync t) (enqueue_request t) (held t)
    (time_point t) (last_enqueued_time t) (tl_last_label t) (next_event t) (pending_point t)
    (enqueued t) (tl_closed t) (pending_wait_for_next t) (allow_same_time t).

Record ControlWorld := mkControlWorld {
  cw_control : TimingControl; cw_registers : MeasurementRegisters; cw_links : ControlLinks;
  cw_trace : Trace }.
#[global] Instance eta_ControlWorld : Eta ControlWorld := fun w =>
  mkControlWorld (cw_control w) (cw_registers w) (cw_links w) (cw_trace w).

Definition control_new (profile : TimingConfig) : TimingControl :=
  mkControlUnit profile [] [] None None 0 0 0 1 false false false false false.

Definition control_reset (t : TimingControl) : TimingControl :=
  t <| pending_events := [] |> <| pending_sync := [] |> <| enqueue_request := None |>
    <| held := None |> <| time_point := 0 |> <| last_enqueued_time := 0 |> <| tl_last_label := 0 |>
    <| next_event := 1 |> <| pending_point := false |> <| enqueued := false |>
    <| tl_closed := false |> <| pending_wait_for_next := false |> <| allow_same_time := false |>.

Definition control_pending (t : TimingControl) : bool :=
  match enqueue_request t with Some _ => true | None => false end.

Definition modify_control (f : TimingControl -> TimingControl) : M ControlWorld unit :=
  m_modify (fun w => w <| cw_control ::= f |>).
Definition emit (e : TraceEvent) : M ControlWorld unit := on cw_trace (trace_emit e).

(** ** [receive] *)
Definition receive_reply (now : Tick) (epoch : Epoch) : M ControlWorld unit :=
  let! reply := on cw_links (on replies (mailbox_take now)) in
  match reply with
  | None => m_ret ()
  | Some reply =>
      if negb (env_epoch reply =? epoch) then m_ret () else
      let label := reply_label (value reply) in
      let! t := m_gets cw_control in
      do! m_lift (require (match enqueue_request t with
                           | Some r => label =? tp_label (te_point r)
                           | None => false
                           end) Protocol) in
      do! modify_control (fun t => t <| tl_last_label := label |>
             <| last_enqueued_time := time_point t |> <| enqueue_request := None |>
             <| pending_events := [] |> <| pending_sync := [] |> <| pending_point := false |>
             <| enqueued := true |>) in
      emit (trace_event now epoch "EnqueueAcknowledged" 0 label 0)
  end.

Definition receive_result (now : Tick) (epoch : Epoch) (reply : Envelope Completion)
    : M ControlWorld unit :=
  if negb (env_epoch reply =? epoch)
  then emit (trace_event now epoch "StaleCompletionDiscarded" 0 0 0)
  else
    do! on cw_registers (deliver (value reply) epoch) in
    emit (trace_event now epoch "MeasurementRegisterUpdated"
            (ref_measurement (comp_reference (value reply))) 0 0
          <| te_targets := [ref_target (comp_reference (value reply))] |>
          <| te_value := if comp_value (value reply) then 1 else 0 |>).

Definition receive_credit (epoch : Epoch) (credit : Envelope MeasurementReference)
    : M ControlWorld unit :=
  if env_epoch credit =? epoch then on cw_registers (acknowledge_fast (value credit) epoch)
  else m_ret ().

Definition control_receive (now : Tick) (epoch : Epoch) : M ControlWorld unit :=
  do! receive_reply now epoch in
  do! take_loop (fun w => cpu_results (cw_links w))
        (fun b w => w <| cw_links ::= fun l => l <| cpu_results := b |> |>)
        (receive_result now epoch) now in
  take_loop (fun w => fast_credits (cw_links w))
    (fun b w => w <| cw_links ::= fun l => l <| fast_credits := b |> |>)
    (receive_credit epoch) now.

(** ** [enqueue] *)
Definition build_request (t : TimingControl) (epoch : Epoch) : result TimingEvents :=
  let? label := checked_add (tl_last_label t) 1 in
  let interval := wrap64 (time_point t - last_enqueued_time t) in
  let policy :=
    if pending_wait_for_next t then PauseWhenEmpty
    else if 0 <? interval then Strict else Inherit in
  let events := map (fun e => e <| oe_label := label |>) (pending_events t) in
  Ok (mkEvents (mkPoint epoch label interval (map oe_id events) (pending_sync t) policy) events
        (configuration (tl_profile t))).

Definition enqueue (now : Tick) (epoch : Epoch) : M ControlWorld bool :=
  let! t := m_gets cw_control in
  match enqueue_request t with
  | Some _ => m_ret false
  | None =>
      if negb (pending_point t) then
        do! modify_control (fun t => t <| enqueued := negb (allow_same_time t) |>) in
        m_ret true
      else
        let! request := m_lift (build_request t epoch) in
        do! m_lift (validate_timing_events request (tl_profile t)) in
        let! links := m_gets cw_links in
        do! m_lift (require (negb (mailbox_full (timing_events links))) Protocol) in
        do! modify_control (fun t => t <| enqueue_request := Some request |>) in
        do! on cw_links (on timing_events (mailbox_publish now epoch request)) in
        do! emit (trace_event now epoch "TimingPointSubmitted" 0 (tp_label (te_point request))
                    (time_point t)) in
        m_ret false
  end.

Definition execute_zero_wait (now : Tick) (epoch : Epoch) : M ControlWorld (option Z) :=
  do! modify_control (fun t =>
        if negb (pending_wait_for_next t)
        then t <| pending_wait_for_next := true |> <| pending_point := true |> else t) in
  let! submitted := enqueue now epoch in
  if negb submitted then m_ret None else
  do! modify_control (fun t => t <| pending_wait_for_next := false |> <| allow_same_time := true |>
                                 <| enqueued := false |>) in
  m_ret (Some 0).

Definition advance_time (interval : TcuCycle) (now : Tick) (epoch : Epoch)
    : M ControlWorld (option Z) :=
  let! t := m_gets cw_control in
  let! destination := m_lift (checked_add (time_point t) interval) in
  let! submitted := enqueue now epoch in
  if negb submitted then m_ret None else
  do! modify_control (fun t => t <| time_point := destination |> <| allow_same_time := false |>
                                 <| pending_point := true |> <| enqueued := false |>) in
  m_ret (Some 0).

Section Execute.
Context (validate : EventSpec -> result unit).
Context (validate_sync : option (Z -> result unit)).

(** ** [codeword] *)
Definition front (l : list Z) : Z := nth 0 l 0.

(** The per-port counters, checked after each action of the codeword; [at] cannot be out of range
    since ports have been validated with the configuration. *)
Definition check_ports (c : TimingConfig) (pending : list OperationEvent) (actions : list EventSpec)
    : result unit :=
  let counts := fold_left (fun counts e => bump_count counts (ev_port (oe_action e))) pending
                  (counts_new (tc_ports c)) in
  let? _ :=
    result_fold (fun counts a =>
      let counts := bump_count counts (ev_port a) in
      do? require ((at_index counts (ev_port a) <=? tc_firing_width c) &&
                   (at_index counts (ev_port a) <=? tc_event_capacity c)) Capacity in
      Ok counts) actions counts in
  Ok ().

(** Everything [codeword] checks and computes before it changes anything. *)
Definition prepare_codeword (t : TimingControl) (registers : MeasurementRegisters)
    (port codeword : Z) (instruction : Id) (epoch : Epoch)
    : result (Id * list MeasurementReference * list OperationEvent) :=
  let c := tl_profile t in
  do? require (negb (enqueued t) && match enqueue_request t with None => true | _ => false end)
    Protocol in
  let? m := timing_mapping c port codeword in
  do? result_each (fun a =>
        do? validate a in
        require (bool_decide (execution_flag a = Always) || tc_fast_feedback c)
          UnsupportedCapability) (map_actions m) in
  let measurement_targets := map (fun a => front (targets a)) (List.filter is_acquire (map_actions m)) in
  let? count := checked_add (size_of (pending_events t)) (size_of (map_actions m)) in
  do? require (count <=? tc_staging_capacity c) Capacity in
  do? check_ports c (pending_events t) (map_actions m) in
  let? next := checked_add (next_event t) (size_of (map_actions m)) in
  let? references := prepare_reservation registers epoch measurement_targets in
  let? events := decode_codeword c port codeword epoch instruction (next_event t) references in
  Ok (next, references, events).

Definition execute_codeword (port codeword : Z) (instruction : Id) (now : Tick) (epoch : Epoch)
    : M ControlWorld (option Z) :=
  let! t := m_gets cw_control in
  let! registers := m_gets cw_registers in
  let! (next, references, events) :=
    m_lift (prepare_codeword t registers port codeword instruction epoch) in
  do! on cw_registers (commit_reservation references) in
  do! modify_control (fun t => t <| pending_events ::= fun l => l ++ events |>
        <| pending_point := true |> <| next_event := next |>) in
  do! emit (trace_event now epoch "CodewordQueued" instruction 0 (time_point t)
            <| te_port := port |> <| te_codeword := codeword |>) in
  m_ret (Some 0).

(** ** [execute] *)
Definition hold (operation : ControlOperation) : M ControlWorld unit :=
  let! t := m_gets cw_control in
  do! m_lift (require (negb (tl_closed t)) Protocol) in
  match held t with
  | Some h => m_lift (require (bool_decide (h = operation)) Protocol)
  | None => modify_control (fun t => t <| held := Some operation |>)
  end.

Definition execute_fetch (qubit : Z) (instruction : Id) (now : Tick) (epoch : Epoch)
    : M ControlWorld (option Z) :=
  let! t := m_gets cw_control in
  do! m_lift (require (qubit <? tc_qubits (tl_profile t)) InvalidOperand) in
  let! submitted := enqueue now epoch in
  if negb submitted then m_ret None else
  let! registers := m_gets cw_registers in
  let! v := m_lift (register_read registers qubit) in
  match v with
  | None => m_ret None
  | Some b =>
      let r := if b : bool then 1 else 0 in
      do! emit (trace_event now epoch "MeasurementRegisterRead" instruction 0 0
                <| te_targets := [qubit] |> <| te_value := r |>) in
      m_ret (Some r)
  end.

Definition execute_halt (now : Tick) (epoch : Epoch) : M ControlWorld (option Z) :=
  let! submitted := enqueue now epoch in
  if negb submitted then m_ret None else
  let! t := m_gets cw_control in
  do! on cw_links (on closure (mailbox_publish now epoch (mkEnd (tl_last_label t)))) in
  do! modify_control (fun t => t <| tl_closed := true |>) in
  m_ret (Some 0).

Definition execute_synchronize (target : Z) : M ControlWorld (option Z) :=
  let! t := m_gets cw_control in
  match validate_sync with
  | None => m_fault UnsupportedSynchronization
  | Some check =>
      do! m_lift (require (negb (enqueued t) &&
                           match enqueue_request t with None => true | _ => false end) Protocol) in
      do! m_lift (check target) in
      do! m_lift (require (bool_decide (pending_sync t = [])) InvalidOperand) in
      do! modify_control (fun t => t <| pending_sync ::= fun l => l ++ [target] |>
                                     <| pending_point := true |>) in
      m_ret (Some 0)
  end.

Definition control_execute (operation : ControlOperation) (now : Tick) (epoch : Epoch)
    : M ControlWorld (option Z) :=
  do! hold operation in
  let! result :=
    match command operation with
    | CodewordCommand port codeword =>
        execute_codeword port codeword (instruction operation) now epoch
    | WaitCommand cycles =>
        if cycles =? 0 then execute_zero_wait now epoch else advance_time cycles now epoch
    | FetchMeasurementCommand qubit => execute_fetch qubit (instruction operation) now epoch
    | HaltCommand => execute_halt now epoch
    | SynchronizeCommand target => execute_synchronize target
    end in
  do! (match result with
       | Some _ => modify_control (fun t => t <| held := None |>)
       | None => m_ret ()
       end) in
  m_ret result.
End Execute.

(** ** The invariant of timing control

    [control_wf] is relative to a validated profile whose ports and qubits are unsigned, and to the
    timing configuration derived from it. *)
Definition profile_unsigned (p : Profile) : Prop :=
  Forall (fun m => Forall (fun a => 0 <= ev_port a /\ Forall (Z.le 0) (targets a)) (map_actions m))
    (mappings p).

Record control_setup (p : Profile) (c : TimingConfig) : Prop := {
  cs_valid : profile_valid p;
  cs_unsigned : profile_unsigned p;
  cs_ports : 0 <= tc_ports c /\ tc_ports c = ports p;
  cs_staging : 1 <= tc_staging_capacity c;
  cs_mapping : forall port codeword, timing_mapping c port codeword = profile_mapping p port codeword }.

Definition event_wf (c : TimingConfig) (epoch : Epoch) (next : Id) (e : OperationEvent) : Prop :=
  oe_epoch e = epoch /\ 0 < oe_id e < next /\ 0 <= ev_port (oe_action e) < tc_ports c /\
  finite_amplitude (oe_action e) = true /\
  exists m, timing_mapping c (oe_source_port e) (oe_codeword e) = Ok m /\ oe_action e ∈ map_actions m.

Record control_wf (c : TimingConfig) (epoch : Epoch) (t : TimingControl) : Prop := {
  cf_profile : tl_profile t = c;
  cf_events : Forall (event_wf c epoch (next_event t)) (pending_events t);
  cf_ids : NoDup (map oe_id (pending_events t));
  cf_size : size_of (pending_events t) <= tc_staging_capacity c;
  cf_counts : forall e, e ∈ pending_events t ->
    count_if (on_port (ev_port (oe_action e))) (pending_events t) <= tc_firing_width c /\
    count_if (on_port (ev_port (oe_action e))) (pending_events t) <= tc_event_capacity c;
  cf_sync : size_of (pending_sync t) <= 1 /\ Forall (fun s => s <= 131071) (pending_sync t);
  cf_next : 1 <= next_event t;
  cf_time : 0 <= last_enqueued_time t <= time_point t /\ time_point t <= max64 }.

(** Setting the label of an event keeps everything else. *)
Definition relabel (label : Id) (e : OperationEvent) : OperationEvent := e <| oe_label := label |>.

Lemma relabel_ids label es : map oe_id (map (relabel label) es) = map oe_id es.
Proof. rewrite map_map. by apply map_ext. Qed.

Lemma relabel_count label q es :
  count_if (on_port q) (map (relabel label) es) = count_if (on_port q) es.
Proof.
  induction es as [|e es IH]; [done|]. change (map (relabel label) (e :: es)) with
    (relabel label e :: map (relabel label) es). by rewrite !count_if_cons, IH.
Qed.

Lemma elem_of_relabel label e es :
  e ∈ map (relabel label) es -> exists e0, e0 ∈ es /\ e = relabel label e0.
Proof.
  rewrite list_elem_of_In, in_map_iff. intros (e0 & <- & H). exists e0.
  by rewrite list_elem_of_In.
Qed.

Section Invariant.
Context (p : Profile) (c : TimingConfig) (Hset : control_setup p c).

(** A well-formed unit only builds requests the check accepts. *)
Lemma build_request_valid epoch t r :
  control_wf c epoch t -> build_request t epoch = Ok r ->
  validate_timing_events r c = Ok () /\ tp_label (te_point r) = tl_last_label t + 1 /\
  tp_interval (te_point r) = time_point t - last_enqueued_time t /\
  te_events r = map (relabel (tp_label (te_point r))) (pending_events t).
Proof using Hset.
  intros [Hprof Hev Hids Hsize Hcnt [Hs1 Hs2] Hnext [Ht1 Ht2]] H. unfold build_request in H.
  apply result_bind_ok in H as (label & Hl & H). apply checked_add_ok in Hl as [_ ->]. inv_ok H.
  set (label := tl_last_label t + 1).
  change (map (fun e => e <| oe_label := label |>) (pending_events t))
    with (map (relabel label) (pending_events t)).
  assert (Hw : wrap64 (time_point t - last_enqueued_time t) = time_point t - last_enqueued_time t)
    by (apply wrap64_small; unfold u64; lia).
  split; [|done]. rewrite Hw. destruct Hset as [_ _ [Hp0 _] Hst _].
  apply validate_request_complete; [done | |].
  - apply Forall_forall. intros e He. simpl in He. apply elem_of_relabel in He as (e0 & He & ->).
    rewrite Forall_forall in Hev. destruct (Hev e0 He) as (_ & _ & [? _] & _). done.
  - constructor; simpl.
    + destruct (pending_wait_for_next t); [by right|].
      destruct (Z.ltb_spec 0 (time_point t - last_enqueued_time t)); [by right | left; lia].
    + done.
    + done.
    + by rewrite size_of_map.
    + lia.
    + done.
    + done.
    + apply Forall_forall. intros e He. apply elem_of_relabel in He as (e0 & He & ->).
      rewrite Forall_forall in Hev. destruct (Hev e0 He) as (H1 & H2 & H3 & H4 & m & H5 & H6).
      unfold event_valid. simpl. split_and!; try done; try lia. exists m. split; [done|].
      apply existsb_exists. exists (oe_action e0). split; [by apply list_elem_of_In | by apply event_eqb_refl].
    + by rewrite relabel_ids.
    + intros e He. apply elem_of_relabel in He as (e0 & He & ->). rewrite relabel_count.
      exact (Hcnt e0 He).
Qed.

(** The fields the invariant reads are untouched. *)
Lemma control_wf_ext epoch t t' :
  tl_profile t' = tl_profile t -> pending_events t' = pending_events t ->
  pending_sync t' = pending_sync t -> next_event t' = next_event t -> time_point t' = time_point t ->
  last_enqueued_time t' = last_enqueued_time t -> control_wf c epoch t -> control_wf c epoch t'.
Proof using Type.
  intros E1 E2 E3 E4 E5 E6 [H1 H2 H3 H4 H5 H6 H7 H8].
  constructor; rewrite ?E1, ?E2, ?E3, ?E4, ?E5, ?E6; done.
Qed.

(** The part of the core the invariant is about. *)
Definition world_wf (epoch : Epoch) (w : ControlWorld) : Prop :=
  control_wf c epoch (cw_control w) /\ registers_wf (cw_registers w).

Lemma keeps_emit epoch e : keeps (world_wf epoch) (emit e).
Proof using Type. apply keeps_zoom. done. Qed.

Lemma keeps_links {T A} epoch (get : ControlLinks -> T) set (m : M T A) :
  keeps (world_wf epoch) (on cw_links (m_zoom get set m)).
Proof using Type. apply keeps_zoom. done. Qed.

Lemma keeps_control epoch f :
  (forall t, tl_profile (f t) = tl_profile t /\ pending_events (f t) = pending_events t /\
     pending_sync (f t) = pending_sync t /\ next_event (f t) = next_event t /\
     time_point (f t) = time_point t /\ last_enqueued_time (f t) = last_enqueued_time t) ->
  keeps (world_wf epoch) (modify_control f).
Proof using Type.
  intros Hf. apply keeps_modify. intros w [Hc Hr]. split; [|done].
  destruct (Hf (cw_control w)) as (E1 & E2 & E3 & E4 & E5 & E6). simpl.
  eapply control_wf_ext; [exact E1 | exact E2 | exact E3 | exact E4 | exact E5 | exact E6 | exact Hc].
Qed.

Lemma keeps_enqueue now epoch epoch' : keeps (world_wf epoch) (enqueue now epoch').
Proof using Type.
  unfold enqueue. keep_steps;
    first [apply keeps_emit | apply keeps_links | apply keeps_control; intros; by split_and!].
Qed.

Lemma enqueue_frame now epoch w r w' :
  enqueue now epoch w = (r, w') ->
  tl_profile (cw_control w') = tl_profile (cw_control w) /\
  pending_events (cw_control w') = pending_events (cw_control w) /\
  pending_sync (cw_control w') = pending_sync (cw_control w) /\
  next_event (cw_control w') = next_event (cw_control w) /\
  time_point (cw_control w') = time_point (cw_control w) /\
  last_enqueued_time (cw_control w') = last_enqueued_time (cw_control w).
Proof using Type.
  intros H.
  set (I := fun v => tl_profile (cw_control v) = tl_profile (cw_control w) /\
    pending_events (cw_control v) = pending_events (cw_control w) /\
    pending_sync (cw_control v) = pending_sync (cw_control w) /\
    next_event (cw_control v) = next_event (cw_control w) /\
    time_point (cw_control v) = time_point (cw_control w) /\
    last_enqueued_time (cw_control v) = last_enqueued_time (cw_control w)).
  enough (Hk : keeps I (enqueue now epoch)) by (eapply (Hk w); [by split_and! | exact H]).
  unfold enqueue. keep_steps; first [apply keeps_zoom; done | apply keeps_modify; done].
Qed.

Section Codeword.
Context (validate : EventSpec -> result unit).

Lemma measurement_targets_acquired l :
  Forall (action_valid p) l ->
  map (fun a => front (targets a)) (List.filter is_acquire l) = flat_map acquired l.
Proof using Type.
  induction 1 as [|a l Ha Hl IH]; simpl; [done|]. unfold acquired at 1.
  destruct (is_acquire a) eqn:E; simpl; [|done].
  destruct (av_readout _ _ Ha) as (q & Hq); [left; by apply is_acquire_iff|].
  rewrite Hq, IH. done.
Qed.

Lemma pending_counts pending q :
  Forall (fun e => 0 <= ev_port (oe_action e) < tc_ports c) pending -> 0 <= q -> 0 <= tc_ports c ->
  let counts := fold_left (fun counts e => bump_count counts (ev_port (oe_action e))) pending
                  (counts_new (tc_ports c)) in
  size_of counts = tc_ports c /\ at_index counts q = count_if (on_port q) pending.
Proof using Type.
  intros Hp Hq Hc. induction pending as [|e l IH] using rev_ind.
  - simpl. rewrite size_of_counts_new, at_index_counts_new by done. done.
  - apply Forall_app in Hp as [Hl He]. inversion He; subst. destruct (IH Hl) as [I1 I2].
    rewrite fold_left_app. cbn [fold_left]. cbv zeta. rewrite size_of_bump. split; [done|].
    rewrite at_index_bump by lia. rewrite I2, count_if_app, count_if_cons, count_if_nil.
    change (on_port q e) with (q =? ev_port (oe_action e)). lia.
Qed.

Definition same_port (q : Z) (a : EventSpec) : bool := q =? ev_port a.

Lemma check_ports_ok pending actions :
  Forall (fun e => 0 <= ev_port (oe_action e) < tc_ports c) pending ->
  Forall (fun a => 0 <= ev_port a < tc_ports c) actions -> 0 <= tc_ports c ->
  check_ports c pending actions = Ok () ->
  forall a, a ∈ actions ->
    count_if (on_port (ev_port a)) pending + count_if (same_port (ev_port a)) actions <= tc_firing_width c /\
    count_if (on_port (ev_port a)) pending + count_if (same_port (ev_port a)) actions <= tc_event_capacity c.
Proof using Type.
  intros Hp Ha Hc H. unfold check_ports in H. apply result_bind_ok in H as (counts & H & _).
  apply (result_fold_prefix (fun seen counts => size_of counts = tc_ports c /\
    (forall q, 0 <= q -> at_index counts q = count_if (on_port q) pending + count_if (same_port q) seen) /\
    forall a, a ∈ seen ->
      count_if (on_port (ev_port a)) pending + count_if (same_port (ev_port a)) seen <= tc_firing_width c /\
      count_if (on_port (ev_port a)) pending + count_if (same_port (ev_port a)) seen <= tc_event_capacity c)
    _ _ []) in H.
  - apply H.
  - split_and!.
    + exact (proj1 (pending_counts pending 0 Hp ltac:(lia) Hc)).
    + intros q Hq. rewrite (proj2 (pending_counts pending q Hp Hq Hc)), count_if_nil. lia.
    + by intros x ?%elem_of_nil.
  - intros d x b b' Hx (Hs & Hb & Hd) Hstep. rewrite Forall_forall in Ha. specialize (Ha x Hx).
    cbv zeta in Hstep. apply result_bind_ok in Hstep as ([] & Hreq & Hstep).
    apply require_ok in Hreq. inv_ok Hstep. reflect. rewrite size_of_bump. split; [done|].
    assert (Hnew : forall q, 0 <= q -> at_index (bump_count b (ev_port x)) q =
              count_if (on_port q) pending + count_if (same_port q) (d ++ [x])).
    { intros q Hq. rewrite at_index_bump by lia. rewrite Hb by done.
      rewrite count_if_app, count_if_cons, count_if_nil.
      change (same_port q x) with (q =? ev_port x). lia. }
    split; [done|]. intros y [Hy| ->%list_elem_of_singleton]%elem_of_app.
    + destruct (Z.eq_dec (ev_port y) (ev_port x)) as [E|E].
      * rewrite E, <-Hnew by lia. lia.
      * rewrite count_if_app, count_if_cons, count_if_nil.
        change (same_port (ev_port y) x) with (ev_port y =? ev_port x).
        rewrite (proj2 (Z.eqb_neq _ _) E). specialize (Hd y Hy). lia.
    + rewrite <-Hnew by lia. lia.
Qed.

Lemma events_from_count port codeword epoch instr first refs actions q :
  count_if (on_port q) (events_from port codeword epoch instr first refs actions) =
  count_if (same_port q) actions.
Proof using Type.
  revert first. induction actions as [|a l IH]; intros first; simpl; [done|].
  by rewrite !count_if_cons, IH.
Qed.

Lemma events_from_in port codeword epoch instr first refs actions e :
  e ∈ events_from port codeword epoch instr first refs actions ->
  oe_epoch e = epoch /\ first <= oe_id e < first + size_of actions /\ oe_source_port e = port /\
  oe_codeword e = codeword /\ oe_action e ∈ actions.
Proof using Type.
  revert first. induction actions as [|a l IH]; intros first He; simpl in He; [by apply elem_of_nil in He|].
  rewrite size_of_cons. pose proof (size_of_nonneg l).
  apply elem_of_cons in He as [->|He]; simpl.
  - split_and!; try done; try lia. by left.
  - destruct (IH _ He) as (? & ? & ? & ? & ?). split_and!; try done; try lia. by right.
Qed.

Lemma events_from_nodup port codeword epoch instr first refs actions :
  NoDup (map oe_id (events_from port codeword epoch instr first refs actions)).
Proof using Type.
  revert first. induction actions as [|a l IH]; intros first; simpl; constructor; [|done].
  rewrite list_elem_of_In, in_map_iff. intros (e & He & Hin). apply list_elem_of_In in Hin.
  apply events_from_in in Hin as (_ & ? & _). lia.
Qed.

(** What [codeword] has established when it starts to change state. *)
Lemma prepare_codeword_ok epoch t regs port codeword instr next refs events :
  control_wf c epoch t -> registers_wf regs ->
  prepare_codeword validate t regs port codeword instr epoch = Ok (next, refs, events) ->
  exists m ts, timing_mapping c port codeword = Ok m /\ mapping_valid p m /\
    ts = flat_map acquired (map_actions m) /\ Forall (Z.le 0) ts /\
    prepare_reservation regs epoch ts = Ok refs /\
    events = events_from port codeword epoch instr (next_event t) refs (map_actions m) /\
    next = next_event t + size_of (map_actions m) /\
    size_of (pending_events t) + size_of (map_actions m) <= tc_staging_capacity c /\
    Forall (fun a => 0 <= ev_port a < tc_ports c) (map_actions m) /\
    (forall a, a ∈ map_actions m ->
       count_if (on_port (ev_port a)) (pending_events t) + count_if (same_port (ev_port a)) (map_actions m)
         <= tc_firing_width c /\
       count_if (on_port (ev_port a)) (pending_events t) + count_if (same_port (ev_port a)) (map_actions m)
         <= tc_event_capacity c).
Proof using Hset.
  intros Hwf Hregs H. destruct Hset as [Hpv Hun [Hp0 Hpp] Hst Hmap]. unfold prepare_codeword in H.
  rewrite (cf_profile _ _ _ Hwf) in H.
  apply result_bind_ok in H as ([] & _ & H). apply result_bind_ok in H as (m & Hm & H).
  apply result_bind_ok in H as ([] & Hchecks & H). apply result_bind_ok in H as (count & Hcount & H).
  apply checked_add_ok in Hcount as [_ ->]. apply result_bind_ok in H as ([] & Hcap & H).
  apply require_ok in Hcap. apply Z.leb_le in Hcap.
  apply result_bind_ok in H as ([] & Hports & H). apply result_bind_ok in H as (nxt & Hnext & H).
  apply checked_add_ok in Hnext as [Hmax ->]. apply result_bind_ok in H as (rs & Hrs & H).
  apply result_bind_ok in H as (es & Hes & H). injection H as <- <- <-.
  pose proof Hm as Hm'. rewrite Hmap in Hm'. apply profile_mapping_ok in Hm' as (Hin & _).
  pose proof (proj1 (Forall_forall _ _) (pv_mappings _ Hpv) m Hin) as Hmv.
  pose proof (proj1 (Forall_forall _ _) Hun m Hin) as Hu. simpl in Hu.
  rewrite measurement_targets_acquired in Hrs by apply Hmv.
  assert (Hports' : Forall (fun a => 0 <= ev_port a < tc_ports c) (map_actions m)).
  { apply Forall_forall. intros a Ha. rewrite Forall_forall in Hu. destruct (Hu a Ha).
    destruct (proj1 (Forall_forall _ _) (mv_valid _ _ Hmv) a Ha). lia. }
  destruct (prepare_ok _ _ _ _ Hrs) as (Hfresh & _).
  assert (Hflags : Forall (fun a => execution_flag a = Always \/ tc_fast_feedback c = true) (map_actions m)).
  { apply result_each_ok in Hchecks. eapply Forall_impl; [exact Hchecks|]. intros a Ha.
    apply result_bind_ok in Ha as (? & _ & Ha). apply require_ok in Ha. reflect.
    destruct Ha; reflect; auto. }
  rewrite Hfresh in Hes. rewrite (decode_codeword_events c p m) in Hes;
    [|done|done|apply Hregs|done|done]. apply Ok_inj in Hes. rewrite <-Hfresh in Hes.
  exists m, (flat_map acquired (map_actions m)). split_and!; try done.
  - apply Forall_forall. intros q Hq. apply elem_of_flat_map in Hq as (a & Ha & Hq).
    unfold acquired in Hq. destruct (is_acquire a); [|by apply elem_of_nil in Hq].
    rewrite Forall_forall in Hu. destruct (Hu a Ha) as [_ Hq0]. rewrite Forall_forall in Hq0. by apply Hq0.
  - apply check_ports_ok; try done. eapply Forall_impl; [exact (cf_events _ _ _ Hwf)|].
    intros e (_ & _ & ? & _). done.
Qed.

(** The unit after a codeword has been queued. *)
Definition queue_events (events : list OperationEvent) (next : Id) (t : TimingControl) : TimingControl :=
  t <| pending_events ::= fun l => l ++ events |> <| pending_point := true |> <| next_event := next |>.

Lemma queue_events_wf epoch t regs port codeword instr next refs events :
  control_wf c epoch t -> registers_wf regs ->
  prepare_codeword validate t regs port codeword instr epoch = Ok (next, refs, events) ->
  control_wf c epoch (queue_events events next t).
Proof using Hset.
  intros Hwf Hregs H.
  destruct (prepare_codeword_ok _ _ _ _ _ _ _ _ _ Hwf Hregs H)
    as (m & ts & Hm & Hmv & _ & _ & _ & Hev & Hnext & Hcap & Hports & Hcnt).
  destruct Hwf as [W1 W2 W3 W4 W5 W6 W7 W8].
  pose proof (size_of_nonneg (map_actions m)). unfold queue_events.
  assert (Hcount : forall q, count_if (on_port q) (pending_events t ++ events) =
            count_if (on_port q) (pending_events t) + count_if (same_port q) (map_actions m))
    by (intros q; rewrite count_if_app, Hev, events_from_count; done).
  constructor; simpl; try done; try lia.
  - apply Forall_app. split.
    + eapply Forall_impl; [exact W2|]. intros e (E1 & E2 & E3 & E4 & E5). split_and!; try done; lia.
    + apply Forall_forall. intros e He. rewrite Hev in He.
      apply events_from_in in He as (E1 & E2 & E3 & E4 & E5).
      rewrite Forall_forall in Hports. unfold event_wf. rewrite E1, E3, E4.
      split_and!; try done; try lia; try (by apply Hports); eauto.
      exact (av_amplitude _ _ (proj1 (Forall_forall _ _) (mv_valid _ _ Hmv) _ E5)).
  - rewrite map_app. apply NoDup_app. split_and!; [done | | subst events; apply events_from_nodup].
    intros x Hx Hy. apply list_elem_of_In, in_map_iff in Hx as (e & <- & He).
    apply list_elem_of_In, in_map_iff in Hy as (e' & Hid & He').
    apply list_elem_of_In in He. apply list_elem_of_In in He'.
    rewrite Hev in He'. apply events_from_in in He' as (_ & ? & _).
    rewrite Forall_forall in W2. destruct (W2 e He) as (_ & ? & _). lia.
  - rewrite size_of_app, Hev, size_of_events_from. lia.
  - intros e [He|He]%elem_of_app; rewrite Hcount.
    + destruct (count_if_exists (same_port (ev_port (oe_action e))) (map_actions m)) as [->|(a & Ha & Hp)].
      * specialize (W5 e He). lia.
      * apply Z.eqb_eq in Hp. rewrite Hp. by apply Hcnt.
    + rewrite Hev in He. apply events_from_in in He as (_ & _ & _ & _ & E). by apply Hcnt.
Qed.

Lemma execute_codeword_steps port codeword instr now epoch w :
  execute_codeword validate port codeword instr now epoch w =
    match prepare_codeword validate (cw_control w) (cw_registers w) port codeword instr epoch with
    | Fault e => (Fault e, w)
    | Ok (next, references, events) =>
        (do! on cw_registers (commit_reservation references) in
         do! modify_control (queue_events events next) in
         do! emit (trace_event now epoch "CodewordQueued" instr 0 (time_point (cw_control w))
                   <| te_port := port |> <| te_codeword := codeword |>) in
         m_ret (Some 0)) w
    end.
Proof using Type.
  unfold execute_codeword. unfold m_bind at 1 2 3, m_gets, m_lift.
  by destruct (prepare_codeword _ _ _ _ _ _ _) as [[[next refs] events]|e].
Qed.

(** A codeword's commit phase cannot fail before the trace record. *)
Lemma execute_codeword_commit port codeword instr now epoch w next refs events :
  control_wf c epoch (cw_control w) -> registers_wf (cw_registers w) ->
  prepare_codeword validate (cw_control w) (cw_registers w) port codeword instr epoch =
    Ok (next, refs, events) ->
  exists ts,
    registers_wf (commit_state epoch ts (cw_registers w)) /\
    execute_codeword validate port codeword instr now epoch w =
      (do! emit (trace_event now epoch "CodewordQueued" instr 0 (time_point (cw_control w))
                 <| te_port := port |> <| te_codeword := codeword |>) in m_ret (Some 0))
        (w <| cw_registers := commit_state epoch ts (cw_registers w) |>
           <| cw_control ::= queue_events events next |>).
Proof using Hset.
  intros Hwf Hregs H. rewrite execute_codeword_steps, H.
  destruct (prepare_codeword_ok _ _ _ _ _ _ _ _ _ Hwf Hregs H) as (m & ts & _ & _ & _ & Hts & Hp & _).
  exists ts. split; [by eapply commit_wf|].
  rewrite (m_bind_step _ _ () _ (w <| cw_registers := commit_state epoch ts (cw_registers w) |>)).
  - by rewrite (m_bind_step _ _ () _ (w <| cw_registers := commit_state epoch ts (cw_registers w) |>
           <| cw_control ::= queue_events events next |>)).
  - unfold m_zoom. rewrite (commit_fresh _ _ _ _ Hp). done.
Qed.

Lemma keeps_codeword port codeword instr now epoch :
  keeps (world_wf epoch) (execute_codeword validate port codeword instr now epoch).
Proof using Hset.
  intros w r w' [Hc Hr] H. rewrite execute_codeword_steps in H.
  destruct (prepare_codeword _ _ _ _ _ _ _) as [[[next refs] events]|e] eqn:E;
    [|injection H as _ <-; done].
  destruct (execute_codeword_commit port codeword instr now epoch w next refs events Hc Hr E)
    as (ts & Hts & Heq).
  rewrite execute_codeword_steps, E in Heq. rewrite Heq in H.
  eapply (keeps_bind (world_wf epoch)); [apply keeps_emit | intros; apply keeps_ret | | exact H].
  split; [eapply queue_events_wf; [exact Hc | exact Hr | exact E] | exact Hts].
Qed.
End Codeword.

Lemma keeps_zero_wait now epoch epoch' : keeps (world_wf epoch) (execute_zero_wait now epoch').
Proof using Type.
  unfold execute_zero_wait. keep_steps; try apply keeps_enqueue;
    apply keeps_control; intros t; try (by split_and!). by destruct (pending_wait_for_next t); split_and!.
Qed.

Lemma keeps_advance interval now epoch epoch' :
  0 <= interval -> keeps (world_wf epoch) (advance_time interval now epoch').
Proof using Type.
  intros Hi w r w' Hw H. unfold advance_time in H. unfold m_bind at 1, m_gets in H.
  unfold m_bind at 1, m_lift in H.
  destruct (checked_add (time_point (cw_control w)) interval) as [d|e] eqn:Ed;
    [|by injection H as _ <-]. apply checked_add_ok in Ed as [Hmax ->].
  unfold m_bind at 1 in H. destruct (enqueue now epoch' w) as [[b|e] w1] eqn:Eq;
    [|injection H as _ <-; by eapply keeps_enqueue].
  pose proof (keeps_enqueue _ _ _ _ _ _ Hw Eq) as [Hc1 Hr1].
  destruct (enqueue_frame _ _ _ _ _ Eq) as (_ & _ & _ & _ & Ht & Hl).
  destruct b; simpl in H; [|by injection H as _ <-].
  unfold m_bind, modify_control, m_modify, m_ret in H. injection H as _ <-. split; [|done]. simpl.
  destruct Hc1 as [W1 W2 W3 W4 W5 W6 W7 W8]. constructor; simpl; try done. rewrite Ht in W8. lia.
Qed.

Definition command_wf (cmd : Command) : Prop :=
  match cmd with
  | WaitCommand cycles => 0 <= cycles
  | SynchronizeCommand target => target <= 131071
  | _ => True
  end.

Lemma keeps_synchronize vs target epoch :
  target <= 131071 -> keeps (world_wf epoch) (execute_synchronize vs target).
Proof using Type.
  intros Ht w r w' Hw H. unfold execute_synchronize in H. unfold m_bind at 1, m_gets in H.
  destruct vs as [check|]; [|by injection H as _ <-].
  unfold m_bind, m_lift, require, modify_control, m_modify, m_ret in H.
  destruct (_ && _); [|by injection H as _ <-]. destruct (check target); [|by injection H as _ <-].
  destruct (bool_decide_reflect (pending_sync (cw_control w) = [])) as [E|]; [|by injection H as _ <-].
  injection H as _ <-. destruct Hw as [[W1 W2 W3 W4 W5 W6 W7 W8] Hr]. split; [|done].
  constructor; simpl; try done. rewrite E. simpl. split; [done | by repeat constructor].
Qed.

Lemma keeps_hold operation epoch : keeps (world_wf epoch) (hold operation).
Proof using Type.
  unfold hold. keep_steps. apply keeps_control. intros; by split_and!.
Qed.

Lemma keeps_execute validate vs operation now epoch :
  command_wf (command operation) ->
  keeps (world_wf epoch) (control_execute validate vs operation now epoch).
Proof using Hset.
  intros Hcmd. unfold control_execute. apply keeps_bind; [apply keeps_hold|]. intros _.
  apply keeps_bind; [|intros a; keep_steps; apply keeps_control; intros; by split_and!].
  destruct (command operation) as [cycles|port codeword|qubit| |target]; simpl in Hcmd.
  - destruct (cycles =? 0); [apply keeps_zero_wait | by apply keeps_advance].
  - apply keeps_codeword.
  - unfold execute_fetch. keep_steps; try apply keeps_enqueue; apply keeps_emit.
  - unfold execute_halt. keep_steps; first [apply keeps_enqueue | apply keeps_links |
      apply keeps_control; intros; by split_and!].
  - by apply keeps_synchronize.
Qed.

Lemma keeps_deliver e x epoch : keeps (world_wf epoch) (on cw_registers (deliver x e)).
Proof using Type.
  intros w r w' [Hc Hr] H. unfold m_zoom in H. destruct (deliver x e (cw_registers w)) as [r1 s1] eqn:E.
  injection H as <- <-. split; [done|]. simpl. eapply feedback_step_wf; [exact Hr|]. by eapply step_deliver.
Qed.

Lemma keeps_acknowledge e x epoch : keeps (world_wf epoch) (on cw_registers (acknowledge_fast x e)).
Proof using Type.
  intros w r w' [Hc Hr] H. unfold m_zoom in H.
  destruct (acknowledge_fast x e (cw_registers w)) as [r1 s1] eqn:E.
  injection H as <- <-. split; [done|]. by eapply ack_wf.
Qed.

Lemma keeps_receive now epoch : keeps (world_wf epoch) (control_receive now epoch).
Proof using Hset.
  unfold control_receive. apply keeps_bind.
  - unfold receive_reply. apply keeps_bind; [apply keeps_links|]. intros [reply|]; [|apply keeps_ret].
    destruct (negb _); [apply keeps_ret|]. keep_steps; try apply keeps_emit.
    apply keeps_modify. intros w [[W1 W2 W3 W4 W5 W6 W7 W8] Hr]. split; [|done].
    constructor; simpl; try done; try (by constructor); try lia.
    + rewrite size_of_nil. destruct Hset. lia.
    + by intros e ?%elem_of_nil.
  - intros _. apply keeps_bind; [|intros _]; apply keeps_take_loop; try done; intros e.
    + unfold receive_result. destruct (negb _); [apply keeps_emit|].
      apply keeps_bind; [apply keeps_deliver|]. intros _. apply keeps_emit.
    + unfold receive_credit. destruct (_ =? _); [apply keeps_acknowledge | apply keeps_ret].
Qed.
End Invariant.

(** ** Every state a session reaches *)
Lemma control_new_wf p c epoch : control_setup p c -> control_wf c epoch (control_new c).
Proof.
  intros Hset. constructor; simpl; rewrite ?size_of_nil; try done; try lia.
  - constructor.
  - destruct Hset. lia.
  - by intros e ?%elem_of_nil.
Qed.

Section Properties.
Context (p : Profile) (c : TimingConfig) (Hset : control_setup p c).
Context (validate : EventSpec -> result unit) (validate_sync : option (Z -> result unit)).

(** A step of timing control in a session: an instruction is executed or messages are received, with
    any outcome; links, trace and measurement registers may have been changed in between by the other
    units, as long as the registers are well formed. *)
Inductive control_step (epoch : Epoch) : relation TimingControl :=
| control_step_execute w operation now r w' :
    registers_wf (cw_registers w) -> command_wf (command operation) ->
    control_execute validate validate_sync operation now epoch w = (r, w') ->
    control_step epoch (cw_control w) (cw_control w')
| control_step_receive w now r w' :
    registers_wf (cw_registers w) -> control_receive now epoch w = (r, w') ->
    control_step epoch (cw_control w) (cw_control w').

Lemma control_reachable_wf epoch t t' :
  control_wf c epoch t -> rtc (control_step epoch) t t' -> control_wf c epoch t'.
Proof using Hset.
  intros Hwf Hsteps. revert Hwf. induction Hsteps as [|t1 t2 t3 Hst _ IH]; intros Hwf; [done|].
  apply IH. destruct Hst as [w operation now r w' Hr Hcmd H|w now r w' Hr H].
  - exact (proj1 (keeps_execute p c Hset validate validate_sync operation now epoch Hcmd w r w'
      (conj Hwf Hr) H)).
  - exact (proj1 (keeps_receive p c Hset now epoch w r w' (conj Hwf Hr) H)).
Qed.

(** C5. Requests are always valid.  Whatever a program did before, failures included, the request
    timing control builds for its current time point passes the check the timing control unit will
    apply to it; its label is the successor of the last acknowledged one, its interval the time
    elapsed since then, and it carries all events queued since, in order, under its label. *)
Theorem every_request_valid (epoch : Epoch) (t : TimingControl) (r : TimingEvents) :
  rtc (control_step epoch) (control_new c) t -> build_request t epoch = Ok r ->
  validate_timing_events r (tl_profile t) = Ok () /\
  tp_label (te_point r) = tl_last_label t + 1 /\
  tp_interval (te_point r) = time_point t - last_enqueued_time t /\ 0 <= tp_interval (te_point r) /\
  map oe_id (te_events r) = map oe_id (pending_events t) /\
  Forall (fun e => oe_label e = tp_label (te_point r) /\ oe_epoch e = epoch) (te_events r).
Proof using Hset.
  intros Hreach H. pose proof (control_reachable_wf _ _ _ (control_new_wf p c epoch Hset) Hreach) as Hwf.
  destruct (build_request_valid p c Hset epoch t r Hwf H) as (H1 & H2 & H3 & H4).
  rewrite (cf_profile _ _ _ Hwf). destruct (cf_time _ _ _ Hwf) as [[? ?] _].
  split_and!; try done; [lia | by rewrite H4, relabel_ids |].
  rewrite H4. apply Forall_forall. intros e He. apply elem_of_relabel in He as (e0 & He & ->).
  split; [done|]. simpl. pose proof (cf_events _ _ _ Hwf) as Hev. rewrite Forall_forall in Hev.
  by destruct (Hev e0 He).
Qed.

(** C7. Queueing a codeword is atomic.  When the core's trace accepts the current tick, a codeword
    that faults leaves the time point, the measurement registers, the links and the trace exactly as
    they were; a codeword that succeeds appends all its events, reserves all its measurements and
    records one trace event. *)
Theorem codeword_atomic (port codeword instruction now epoch : Z) (w w' : ControlWorld)
    (r : result (option Z)) :
  world_wf c epoch w -> trace_ready now (cw_trace w) ->
  execute_codeword validate port codeword instruction now epoch w = (r, w') ->
  match r with
  | Fault e => w' = w /\
      prepare_codeword validate (cw_control w) (cw_registers w) port codeword instruction epoch = Fault e
  | Ok v => v = Some 0 /\ world_wf c epoch w' /\
      exists m events, timing_mapping c port codeword = Ok m /\
        pending_events (cw_control w') = pending_events (cw_control w) ++ events /\
        map oe_action events = map_actions m /\
        map_count (pending_ (cw_registers w')) =
          map_count (pending_ (cw_registers w)) + count_if is_acquire (map_actions m) /\
        cw_links w' = cw_links w
  end.
Proof using Hset.
  intros Hw Hready H. pose proof Hw as [Hc Hr].
  destruct (prepare_codeword validate (cw_control w) (cw_registers w) port codeword instruction epoch)
    as [[[next refs] events]|e] eqn:E.
  2: { rewrite execute_codeword_steps, E in H. by injection H as <- <-. }
  destruct (prepare_codeword_ok p c Hset _ _ _ _ _ _ _ _ _ _ Hc Hr E)
    as (m & ts & Hm & Hmv & Hts & Hts0 & Hp & Hev & _).
  rewrite execute_codeword_steps, E in H.
  rewrite (m_bind_step _ _ () _ (w <| cw_registers := commit_state epoch ts (cw_registers w) |>)) in H
    by (unfold m_zoom; rewrite (commit_fresh _ _ _ _ Hp); done).
  rewrite (m_bind_step _ _ () _ (w <| cw_registers := commit_state epoch ts (cw_registers w) |>
             <| cw_control ::= queue_events events next |>)) in H by done.
  unfold m_bind at 1, emit at 1, m_zoom in H. rewrite trace_emit_plain in H by done.
  injection H as <- <-. split_and!; [done | |].
  - split; simpl; [by eapply (queue_events_wf p c Hset validate) | by eapply commit_wf].
  - exists m, events. split_and!; try done.
    + rewrite Hev. clear. generalize (next_event (cw_control w)). induction (map_actions m) as [|a l IH];
        intros n; simpl; [done | by rewrite IH].
    + simpl. destruct (prepare_ok _ _ _ _ Hp) as (-> & _).
      destruct (fold_emplace epoch ts _ _ (fb_keys _ Hr) (proj1 (fb_next _ Hr))) as (_ & -> & _).
      by rewrite Hts, (size_of_acquired p) by apply Hmv.
Qed.
End Properties.

(** ** An example session on the built-in profile *)
Lemma control_setup_of_profile show_double p c :
  profile_valid p -> profile_unsigned p -> timing_config show_double p = Ok c -> control_setup p c.
Proof.
  intros Hv Hu Hc. destruct (timing_config_of_valid show_double p Hv) as (c' & Hc' & _ & Hp & Hst & Hm).
  rewrite Hc in Hc'. injection Hc' as <-. pose proof (pv_positive _ Hv) as Hpos.
  rewrite !Forall_cons in Hpos. decompose [and] Hpos. constructor; try done; rewrite ?Hp, ?Hst; lia.
Qed.

Lemma example_setup : control_setup default_unchecked example_timing.
Proof.
  apply (control_setup_of_profile (fun _ => "0")); [exact default_valid | | vm_compute; reflexivity].
  unfold profile_unsigned. apply Forall_forall. intros m Hm.
  repeat (apply elem_of_cons in Hm as [->|Hm];
    [forall_list ltac:(simpl; split; [lia | forall_list ltac:(lia)])|]).
  by apply elem_of_nil in Hm.
Qed.

Definition example_links : ControlLinks :=
  match links_new (transport_config default_unchecked) with
  | Ok l => l
  | Fault _ => mkLinks (mkMailbox 0 (mkClock 0 0) 0 []) (mkMailbox 0 (mkClock 0 0) 0 [])
      (mkMailbox 0 (mkClock 0 0) 0 []) (mkMailbox 0 (mkClock 0 0) 0 [])
      (mkMailbox 0 (mkClock 0 0) 0 []) (mkMailbox 0 (mkClock 0 0) 0 [])
  end.

Definition example_world : ControlWorld :=
  mkControlWorld (control_new example_timing) (registers_new (mkFeedbackConfig 2 8 true))
    example_links trace_new.

Definition example_measure : ControlOperation := mkControl 9 (CodewordCommand 1 4).

(** The unit after the program has queued a measurement of qubit 1. *)
Definition example_queued : ControlWorld :=
  snd (control_execute (fun _ => Ok ()) None example_measure 1000 1 example_world).

Lemma example_registers_wf : registers_wf (cw_registers example_world).
Proof. apply new_wf; [simpl; lia | unfold u32, max32; simpl; lia]. Qed.

Lemma example_world_wf : world_wf example_timing 1 example_world.
Proof. split; [apply (control_new_wf default_unchecked), example_setup | exact example_registers_wf]. Qed.

Lemma every_request_valid_witness :
  exists r, build_request (cw_control example_queued) 1 = Ok r /\
    validate_timing_events r example_timing = Ok () /\
    map oe_id (te_events r) = [1].
Proof.
  eexists. split; [vm_compute; reflexivity|].
  assert (Hreach : rtc (control_step (fun _ => Ok ()) None 1) (control_new example_timing)
                     (cw_control example_queued)).
  { eapply rtc_l; [|apply rtc_refl].
    apply (control_step_execute (fun _ => Ok ()) None 1 example_world example_measure 1000
             (fst (control_execute (fun _ => Ok ()) None example_measure 1000 1 example_world))
             example_queued example_registers_wf I).
    unfold example_queued. by destruct (control_execute _ _ _ _ _ _). }
  match goal with |- validate_timing_events ?r _ = _ /\ _ =>
    pose proof (every_request_valid default_unchecked example_timing example_setup (fun _ => Ok ()) None
      1 (cw_control example_queued) r Hreach ltac:(vm_compute; reflexivity)) as (H1 & _ & _ & _ & H2 & _) end.
  split; [exact H1 | vm_compute; reflexivity].
Defined.

Lemma codeword_atomic_witness :
  world_wf example_timing 1 example_world /\
  execute_codeword (fun _ => Ok ()) 1 99 9 1000 1 example_world = (Fault InvalidCodeword, example_world) /\
  prepare_codeword (fun _ => Ok ()) (cw_control example_world) (cw_registers example_world) 1 99 9 1 =
    Fault InvalidCodeword.
Proof.
  split; [exact example_world_wf|].
  assert (H : execute_codeword (fun _ => Ok ()) 1 99 9 1000 1 example_world =
            (Fault InvalidCodeword, example_world)) by (vm_compute; reflexivity).
  split; [exact H|].
  exact (proj2 (codeword_atomic default_unchecked example_timing example_setup (fun _ => Ok ())
    1 99 9 1000 1 example_world example_world (Fault InvalidCodeword) example_world_wf I H)).
Defined.
