(* ===== verification/Tcu.v ===== *)
(** * The timing control unit (src/tcu.cpp, include/qsbit/tcu.hpp)

    The unit that fires events at their cycle: it admits requests into a queue of time points and one
    queue of events per port, triggers the head point when the timer reaches its cycle, and pauses the
    timer on request or when instructions run out.  The device's preflight and the synchronization
    unit's are parameters that act on a state [E] of their own; the unit itself first checks
    everything and then commits. *)

From S2P Require Import Prelude Error Time Event Trace Profile Feedback Protocol.

Record PauseState := mkPause { instruction_supply : bool; synchronization : bool }.
#[global] Instance PauseState_eq_dec : EqDecision PauseState.
Proof. solve_decision. Defined.
Definition paused (s : PauseState) : bool := instruction_supply s || synchronization s.

Record TimingState := mkState { running : bool; st_cycle : TcuCycle; st_pause : PauseState }.
Record Point := mkQueued { pt_point : TimingPoint; due : TcuCycle }.
Record Trigger := mkTrigger {
  batch : TriggeredEvents; cancelled : list OperationEvent; trigger_syncs : list Z }.
#[global] Instance eta_Trigger : Eta Trigger :=
  fun t => mkTrigger (batch t) (cancelled t) (trigger_syncs t).

Record TcuOutput := mkOutput {
  admitted : bool; launch : option TriggeredEvents; fast_delivered : list MeasurementReference;
  out_synchronizations : list Z }.

Record TcuCycleModel := mkTcu {
  tcu_profile : TcuConfig; timing_ : list Point; events_ : list (list OperationEvent);
  execution_flags_ : ExecutionFlags; last_due : TcuCycle; tcu_origin : Tick; paused_ticks : Tick;
  sync_capacity : Z; sync_size : Z; last_label : Id; closed : bool;
  admitted_policy : UnderflowPolicy; triggered_policy : UnderflowPolicy; pause : PauseState }.
#[global] Instance eta_TcuCycleModel : Eta TcuCycleModel := fun t =>
  mkTcu (tcu_profile t) (timing_ t) (events_ t) (execution_flags_ t) (last_due t) (tcu_origin t)
    (paused_ticks t) (sync_capacity t) (sync_size t) (last_label t) (closed t) (admitted_policy t)
    (triggered_policy t) (pause t).

Definition tcu_new (config : TcuConfig) (sync_cap : Z) : result TcuCycleModel :=
  do? require (0 <? sync_cap) InvalidProfile in
  Ok (mkTcu config [] (repeat [] (Z.to_nat (tc_ports (tcu_timing config))))
        (flags_new (tc_qubits (tcu_timing config))) 0 (tcu_start config) 0 sync_cap 0 0 false
        Strict Strict (mkPause false false)).

Definition policy_after (point : TimingPoint) (previous : UnderflowPolicy) : UnderflowPolicy :=
  if bool_decide (underflow_policy point = Inherit) then previous else underflow_policy point.

Definition timing_empty (t : TcuCycleModel) : bool := match timing_ t with [] => true | _ => false end.

Definition current_timing_state (t : TcuCycleModel) (now : Tick) (synchronization_paused : bool)
    : TimingState :=
  let run := tcu_origin t <=? now in
  let cycle :=
    if run then wrap64 (now - tcu_origin t - paused_ticks t) / period (tcu_clk (tcu_profile t)) else 0 in
  mkState run cycle
    (mkPause (run && bool_decide (triggered_policy t = PauseWhenEmpty) && timing_empty t &&
              negb (closed t))
             (run && synchronization_paused)).

Definition meets_deadline (t : TcuCycleModel) (now due_tick : Tick) (p : PauseState) : bool :=
  if now <? due_tick then true
  else bool_decide (admitted_policy t = PauseWhenEmpty) && instruction_supply p && (now =? due_tick).

(** The inner loop over one port's queue. *)
Fixpoint gather_queue (label : Id) (epoch : Epoch) (gathered : gmap Z OperationEvent)
    (queue : list OperationEvent) : result (gmap Z OperationEvent) :=
  match queue with
  | [] => Ok gathered
  | event :: rest =>
      if negb (oe_label event =? label) then Ok gathered else
      do? require ((oe_epoch event =? epoch) && bool_decide (gathered !! oe_id event = None))
        ManifestMismatch in
      gather_queue label epoch (<[oe_id event := event]> gathered) rest
  end.

Definition gather (label : Id) (epoch : Epoch) (queues : list (list OperationEvent))
    : result (gmap Z OperationEvent) :=
  result_fold (fun gathered queue =>
    do? require (match queue with [] => true | front :: _ => label <=? oe_label front end)
      ManifestMismatch in
    gather_queue label epoch gathered queue) queues ∅.

(** Whether a conditional event is cancelled. *)
Definition is_cancelled (flags : ExecutionFlags) (event : OperationEvent) : result bool :=
  if bool_decide (execution_flag (oe_action event) = Always) then Ok false else
  let? pass := flags_evaluate flags (nth 0 (targets (oe_action event)) 0) (execution_flag (oe_action event)) in
  Ok (negb pass).

Definition collect (flags : ExecutionFlags) (gathered : gmap Z OperationEvent) (trigger : Trigger)
    (id : Id) : result Trigger :=
  match gathered !! id with
  | None => Fault ManifestMismatch
  | Some event =>
      let? out := is_cancelled flags event in
      Ok (if out : bool then trigger <| cancelled ::= fun l => l ++ [event] |>
          else trigger <| batch ::= fun b => b <| tg_events ::= fun l => l ++ [event] |> |>)
  end.

(** The events of the point about to fire, checked against its manifest. *)
Definition head_trigger (t : TcuCycleModel) (now : Tick) (epoch : Epoch) (state : TimingState)
    (point : Point) : result Trigger :=
  do? require (due point =? st_cycle state) LateAdmission in
  let label := tp_label (pt_point point) in
  let? gathered := gather label epoch (events_ t) in
  do? require (Z.of_nat (size gathered) =? size_of (manifest (pt_point point))) ManifestMismatch in
  result_fold (collect (execution_flags_ t) gathered) (manifest (pt_point point))
    (mkTrigger (mkTriggered epoch label now []) [] (synchronizations (pt_point point))).

(** [now >= due], as far as the queue decides: the point to fire, if any. *)
Definition firing_point (t : TcuCycleModel) (state : TimingState) : option Point :=
  if negb (running state) || paused (st_pause state) then None else
  match timing_ t with
  | point :: _ => if st_cycle state <? due point then None else Some point
  | [] => None
  end.

Definition prepare_admission (t : TcuCycleModel) (now : Tick) (epoch : Epoch)
    (candidate : TimingEvents) (p : PauseState) : result (option TcuCycle) :=
  let config := tcu_profile t in
  let point := te_point candidate in
  do? require (negb (closed t)) Protocol in
  do? validate_timing_events candidate (tcu_timing config) in
  do? require (tp_epoch point =? epoch) Protocol in
  let? next := checked_add (last_label t) 1 in
  do? require (tp_label point =? next) Protocol in
  do? require ((last_label t =? 0) || (0 <? tp_interval point) ||
               bool_decide (admitted_policy t = PauseWhenEmpty) ||
               bool_decide (underflow_policy point = PauseWhenEmpty)) Protocol in
  let interval := if last_label t =? 0 then tp_interval point else Z.max 1 (tp_interval point) in
  let? d := checked_add (last_due t) interval in
  let? origin := checked_add (tcu_origin t) (paused_ticks t) in
  let? ticks := checked_mul d (period (tcu_clk config)) in
  let? due_tick := checked_add origin ticks in
  do? require (meets_deadline t now due_tick p) LateAdmission in
  do? require (size_of (synchronizations point) <=? sync_capacity t) Capacity in
  let needed := fold_left (fun n e => bump_count n (ev_port (oe_action e))) (te_events candidate)
                  (counts_new (tc_ports (tcu_timing config))) in
  let space :=
    (size_of (timing_ t) <? tcu_timing_capacity config) &&
    (size_of (synchronizations point) <=? wrap64 (sync_capacity t - sync_size t)) &&
    forallb (fun i => size_of (nth (Z.to_nat i) (events_ t) []) + at_index needed i
                        <=? tc_event_capacity (tcu_timing config)) (upto (size_of (events_ t))) in
  Ok (if space then Some d else None).

(** [while (!queue.empty() && queue.front().label == label) queue.pop_front()]. *)
Fixpoint drop_label (label : Id) (queue : list OperationEvent) : list OperationEvent :=
  match queue with
  | event :: rest => if oe_label event =? label then drop_label label rest else queue
  | [] => []
  end.

Section Step.
Context {E : Type}.
Context (preflight : TriggeredEvents -> M E unit).
Context (sync_preflight : option (list Z -> M E unit)).

Record TcuWorld := mkTcuWorld { tw_tcu : TcuCycleModel; tw_trace : Trace; tw_env : E }.
#[global] Instance eta_TcuWorld : Eta TcuWorld :=
  fun w => mkTcuWorld (tw_tcu w) (tw_trace w) (tw_env w).

Definition tcu_emit (e : TraceEvent) : M TcuWorld unit := on tw_trace (trace_emit e).
Definition modify_tcu (f : TcuCycleModel -> TcuCycleModel) : M TcuWorld unit :=
  m_modify (fun w => w <| tw_tcu ::= f |>).

Definition prepare_trigger (t : TcuCycleModel) (now : Tick) (epoch : Epoch) (state : TimingState)
    : M E (option Trigger) :=
  match firing_point t state with
  | None => m_ret None
  | Some point =>
      let! trigger := m_lift (head_trigger t now epoch state point) in
      do! preflight (batch trigger) in
      do! (if bool_decide (trigger_syncs trigger = []) then m_ret () else
           match sync_preflight with
           | None => m_fault UnsupportedSynchronization
           | Some check => check (trigger_syncs trigger)
           end) in
      m_ret (Some trigger)
  end.

Definition commit_trigger (now : Tick) (epoch : Epoch) (cycle : TcuCycle) (trigger : Trigger)
    : M TcuWorld unit :=
  let! t := m_gets tw_tcu in
  match timing_ t with
  | [] => m_ret ()
  | head :: _ =>
      let point := pt_point head in
      let label := tp_label point in
      do! modify_tcu (fun t => t <| triggered_policy ::= policy_after point |>) in
      do! (if bool_decide (underflow_policy point = PauseWhenEmpty)
           then tcu_emit (trace_event now epoch "WaitZeroExecuted" 0 label cycle) else m_ret ()) in
      do! modify_tcu (fun t => t <| sync_size ::= fun n => wrap64 (n - size_of (synchronizations point)) |>
             <| events_ ::= map (drop_label label) |> <| timing_ ::= tail |>) in
      do! tcu_emit (trace_event now epoch "TimingPointTriggered" 0 label cycle) in
      m_each (fun event => tcu_emit (trace_event now epoch "ConditionCancelled" (oe_id event) label cycle
          <| te_port := ev_port (oe_action event) |>
          <| te_operation := operation (oe_action event) |>
          <| te_targets := targets (oe_action event) |>)) (cancelled trigger)
  end.

Definition commit_admission (now : Tick) (epoch : Epoch) (cycle : TcuCycle)
    (candidate : TimingEvents) (d : TcuCycle) : M TcuWorld unit :=
  let point := te_point candidate in
  do! modify_tcu (fun t => t <| admitted_policy ::= policy_after point |>
        <| sync_size ::= fun n => wrap64 (n + size_of (synchronizations point)) |>
        <| timing_ ::= fun l => l ++ [mkQueued point d] |>
        <| events_ ::= fun queues =>
             fold_left (fun queues e =>
               alter (fun q => q ++ [e]) (Z.to_nat (ev_port (oe_action e))) queues)
               (te_events candidate) queues |>
        <| last_label := tp_label point |> <| last_due := d |>) in
  let! t := m_gets tw_tcu in
  tcu_emit (trace_event now epoch "TimingPointEnqueued" 0 (tp_label point) cycle
            <| te_value := size_of (timing_ t) |>).

(** The references delivered are those of the current session; [TcuOutput::fast_delivered]. *)
Definition commit_fast_results (now : Tick) (epoch : Epoch) (cycle : TcuCycle)
    (results : list Completion) (next_flags : ExecutionFlags)
    : M TcuWorld (list MeasurementReference) :=
  let current := List.filter (fun r => ref_epoch (comp_reference r) =? epoch) results in
  do! modify_tcu (fun t => t <| execution_flags_ := next_flags |>) in
  do! m_each (fun r => tcu_emit
        (trace_event now epoch "ExecutionFlagsUpdated" (ref_measurement (comp_reference r)) 0 cycle
         <| te_targets := [ref_target (comp_reference r)] |>
         <| te_value := if comp_value r then 1 else 0 |>)) current in
  m_ret (map comp_reference current).

Definition pause_detail (p : PauseState) : string :=
  if synchronization p && instruction_supply p then "synchronization and instruction supply"
  else if synchronization p then "synchronization"
  else if instruction_supply p then "instruction supply"
  else "".

Definition update_pause_state (now : Tick) (epoch : Epoch) (state : TimingState) (ticks : Tick)
    : M TcuWorld unit :=
  let! t := m_gets tw_tcu in
  do! (if Bool.eqb (paused (st_pause state)) (paused (pause t)) then m_ret () else
       tcu_emit (trace_event now epoch (if paused (st_pause state) then "TimerPaused" else "TimerResumed")
                   0 0 (st_cycle state) <| te_detail := pause_detail (st_pause state) |>)) in
  modify_tcu (fun t => t <| pause := st_pause state |> <| paused_ticks := ticks |>).

(** [next_flags.commit(result, epoch)] for every result, on a copy. *)
Definition next_execution_flags (flags : ExecutionFlags) (results : list Completion) (epoch : Epoch)
    : result ExecutionFlags :=
  match m_each (fun r => flags_commit r epoch) results flags with
  | (Ok _, f) => Ok f
  | (Fault e, _) => Fault e
  end.

Definition tcu_step (now : Tick) (epoch : Epoch) (candidate : option TimingEvents)
    (results : list Completion) (synchronization_paused : bool) : M TcuWorld TcuOutput :=
  let! t := m_gets tw_tcu in
  do! m_lift (require (clock_edge (tcu_clk (tcu_profile t)) now) Protocol) in
  let state := current_timing_state t now synchronization_paused in
  let! trigger := on tw_env (prepare_trigger t now epoch state) in
  let! d := m_lift (match candidate with
                    | Some c => prepare_admission t now epoch c (st_pause state)
                    | None => Ok None
                    end) in
  let! flags := m_lift (next_execution_flags (execution_flags_ t) results epoch) in
  let! ticks := m_lift (if paused (st_pause state)
                        then checked_add (paused_ticks t) (period (tcu_clk (tcu_profile t)))
                        else Ok (paused_ticks t)) in
  do! (match trigger with
       | Some trig => commit_trigger now epoch (st_cycle state) trig
       | None => m_ret ()
       end) in
  do! (match candidate, d with
       | Some c, Some d => commit_admission now epoch (st_cycle state) c d
       | _, _ => m_ret ()
       end) in
  let! delivered := commit_fast_results now epoch (st_cycle state) results flags in
  do! update_pause_state now epoch state ticks in
  m_ret (mkOutput (match candidate, d with Some _, Some _ => true | _, _ => false end)
           (option_map batch trigger) delivered
           (match trigger with Some trig => trigger_syncs trig | None => [] end)).
End Step.
Arguments TcuWorld : clear implicits.

Definition tcu_close (e : EndOfStream) : M TcuCycleModel unit := fun t =>
  (do! m_lift (require (negb (closed t) && (end_last_label e =? last_label t)) Protocol) in
   m_modify (fun t => t <| closed := true |>)) t.

Definition tcu_drained (t : TcuCycleModel) : bool :=
  closed t && timing_empty t && forallb (fun q => match q with [] => true | _ => false end) (events_ t).

(** The members [reset] assigns before it computes the new origin. *)
Definition tcu_clear (t : TcuCycleModel) : TcuCycleModel :=
  t <| timing_ := [] |> <| events_ ::= map (fun _ => []) |>
    <| execution_flags_ ::= flags_reset |> <| last_due := 0 |> <| last_label := 0 |>
    <| closed := false |> <| admitted_policy := Strict |> <| triggered_policy := Strict |>
    <| pause := mkPause false false |> <| paused_ticks := 0 |> <| sync_size := 0 |>.

Definition tcu_reset (epoch_origin : Tick) : M TcuCycleModel unit :=
  do! m_modify tcu_clear in
  let! t := m_get in
  let! proposed := m_lift (checked_add epoch_origin (tcu_start (tcu_profile t))) in
  let clk := tcu_clk (tcu_profile t) in
  let! start := m_lift (if clock_edge clk proposed then Ok proposed else clock_after clk proposed 1) in
  m_modify (fun t => t <| tcu_origin := start |>).

(** ** The abstract queue

    The unit represents a list of admitted requests, each with its due cycle: the time points are the
    requests' points, and each port's queue holds the requests' events on that port, in order. *)
Definition QueuedRequest : Type := (TimingEvents * TcuCycle)%type.

Definition port_events (q : Z) (r : QueuedRequest) : list OperationEvent :=
  List.filter (on_port q) (te_events (fst r)).
Definition label_of (r : QueuedRequest) : Id := tp_label (te_point (fst r)).
Definition sync_count (reqs : list QueuedRequest) : Z :=
  fold_right (fun r n => size_of (synchronizations (te_point (fst r))) + n) 0 reqs.

(** The events of a request are labelled and stamped as its point. *)
Definition events_belong (epoch : Epoch) (r : QueuedRequest) : Prop :=
  Forall (fun e => oe_epoch e = epoch /\ oe_label e = label_of r) (te_events (fst r)).

Record queue_wf (c : TimingConfig) (epoch : Epoch) (t : TcuCycleModel) (reqs : list QueuedRequest) : Prop := {
  qw_config : tcu_timing (tcu_profile t) = c;
  qw_timing : timing_ t = map (fun r => mkQueued (te_point (fst r)) (snd r)) reqs;
  qw_ports : size_of (events_ t) = tc_ports c;
  qw_events : forall q, 0 <= q < tc_ports c ->
    nth (Z.to_nat q) (events_ t) [] = flat_map (port_events q) reqs;
  qw_valid : Forall (fun r => request_valid c (fst r) /\ ports_unsigned (te_events (fst r)) /\
                              tp_epoch (te_point (fst r)) = epoch) reqs;
  qw_labels : StronglySorted (fun a b => label_of a < label_of b) reqs;
  qw_last : Forall (fun r => label_of r <= last_label t) reqs;
  qw_flags : size_of (execution_flags_ t) = tc_qubits c;
  qw_sync : sync_size t = sync_count reqs;
  qw_sync_cap : sync_size t <= sync_capacity t <= max64 }.

Lemma request_belongs c epoch r d :
  request_valid c r -> tp_epoch (te_point r) = epoch -> events_belong epoch (r, d).
Proof.
  intros Hr He. unfold events_belong. eapply Forall_impl; [exact (rv_events _ _ Hr)|].
  intros e (E1 & E2 & _). unfold label_of. simpl in *. by rewrite E1, E2, He.
Qed.

(** Events of later requests have larger labels. *)
Lemma later_labels c epoch r reqs q e :
  StronglySorted (fun a b => label_of a < label_of b) (r :: reqs) ->
  Forall (fun r => request_valid c (fst r) /\ ports_unsigned (te_events (fst r)) /\
                   tp_epoch (te_point (fst r)) = epoch) reqs ->
  e ∈ flat_map (port_events q) reqs -> label_of r < oe_label e.
Proof.
  intros Hs Hv He. inversion Hs as [|? ? _ Hall]; subst.
  apply elem_of_flat_map in He as (r' & Hr' & He). unfold port_events in He.
  rewrite list_elem_of_In, filter_In, <-list_elem_of_In in He. destruct He as [He _].
  rewrite Forall_forall in Hv, Hall. destruct (Hv r' Hr') as (Hr & _ & Hep).
  destruct r' as [rq d]. pose proof (request_belongs c epoch rq d Hr Hep) as Hb.
  unfold events_belong in Hb. rewrite Forall_forall in Hb. destruct (Hb e He) as [_ ->].
  exact (Hall _ Hr').
Qed.

(** ** Gathering *)
Lemma nodup_map_inj {A B} (f : A -> B) l x y :
  NoDup (map f l) -> x ∈ l -> y ∈ l -> f x = f y -> x = y.
Proof.
  induction l as [|a l IH]; intros Hnd Hx Hy Hf; [by apply elem_of_nil in Hx|].
  inversion Hnd as [|? ? Hout Hnd']; subst.
  apply elem_of_cons in Hx as [->|Hx], Hy as [->|Hy]; auto.
  - destruct Hout. rewrite Hf. by apply list_elem_of_In, in_map, list_elem_of_In.
  - destruct Hout. rewrite <-Hf. by apply list_elem_of_In, in_map, list_elem_of_In.
Qed.

Definition maps_to (g : gmap Z OperationEvent) (P : OperationEvent -> Prop) : Prop :=
  forall id e, g !! id = Some e <-> P e /\ oe_id e = id.

Lemma gather_queue_head label epoch es rest g (P : OperationEvent -> Prop) :
  maps_to g P -> Forall (fun e => oe_epoch e = epoch /\ oe_label e = label) es ->
  NoDup (map oe_id es) -> (forall e e', e ∈ es -> P e' -> oe_id e <> oe_id e') ->
  (forall e, e ∈ rest -> label < oe_label e) ->
  exists g', gather_queue label epoch g (es ++ rest) = Ok g' /\ maps_to g' (fun e => P e \/ e ∈ es).
Proof.
  intros Hg Hes. revert g P Hg. induction Hes as [|e es [He1 He2] Hes IH]; intros g P Hg Hnd Hdis Hrest; simpl.
  - exists g. split.
    + destruct rest as [|e rest]; simpl; [done|]. specialize (Hrest e ltac:(by left)).
      by rewrite (proj2 (Z.eqb_neq (oe_label e) label)) by lia.
    + intros id e. rewrite (Hg id e). split; [intros [? ?]; auto | intros [[?|?%elem_of_nil] ?]; done].
  - rewrite He2, Z.eqb_refl, He1, Z.eqb_refl. simpl in *.
    inversion Hnd as [|? ? Hout Hnd']; subst.
    assert (Hnone : g !! oe_id e = None).
    { destruct (g !! oe_id e) as [e'|] eqn:E; [|done]. apply Hg in E as [Hp Hid].
      destruct (Hdis e e' ltac:(by left) Hp). done. }
    rewrite bool_decide_eq_true_2 by done. simpl.
    destruct (IH (<[oe_id e := e]> g) (fun e' => P e' \/ e' = e)) as (g' & Hok & Hm); try done.
    + intros id e'. rewrite lookup_insert_Some. rewrite (Hg id e'). split.
      * intros [[<- <-]|[Hne [Hp Hid]]]; auto.
      * intros [[Hp| ->] Hid]; [|by left]. right. split; [|done]. subst id.
        exact (Hdis e e' ltac:(by left) Hp).
    + intros x x' Hx [Hp| ->].
      * apply Hdis; [by right | done].
      * intros E. apply Hout. rewrite <-E. apply list_elem_of_In, in_map, list_elem_of_In, Hx.
    + exists g'. split; [done|]. intros id x. rewrite (Hm id x). rewrite elem_of_cons. tauto.
Qed.

Lemma filter_nodup_ids q es :
  NoDup (map oe_id es) -> NoDup (map oe_id (List.filter (on_port q) es)).
Proof.
  induction es as [|e es IH]; intros Hnd; [constructor|]. inversion Hnd as [|? ? Hout Hnd']; subst. simpl.
  destruct (on_port q e); [|by apply IH]. constructor; [|by apply IH].
  intros Hin. apply Hout. apply list_elem_of_In, in_map_iff in Hin as (x & Hx & Hin).
  apply filter_In in Hin as [Hin _]. rewrite <-Hx. by apply list_elem_of_In, in_map.
Qed.

Lemma elem_of_port_events q r e :
  e ∈ port_events q r <-> e ∈ te_events (fst r) /\ ev_port (oe_action e) = q.
Proof.
  unfold port_events, on_port. rewrite !list_elem_of_In, filter_In, Z.eqb_eq. split; intros []; auto.
Qed.

(** The queues hold exactly the head request's events under its label. *)
Lemma gather_head c epoch t r reqs :
  queue_wf c epoch t (r :: reqs) ->
  exists g, gather (label_of r) epoch (events_ t) = Ok g /\
    maps_to g (fun e => e ∈ te_events (fst r)).
Proof.
  intros Hq. pose proof Hq as [Hc Ht Hp He Hv Hl Hla Hf Hsz Hcap].
  inversion Hv as [|? ? (Hr & Hu & Hep) Hv']; subst c.
  set (c := tcu_timing (tcu_profile t)) in *.
  assert (Hgen : forall done rest g, done ++ rest = events_ t ->
    maps_to g (fun e => e ∈ te_events (fst r) /\ ev_port (oe_action e) < size_of done) ->
    exists g', result_fold (fun gathered queue =>
        do? require (match queue with [] => true | front :: _ => label_of r <=? oe_label front end)
          ManifestMismatch in
        gather_queue (label_of r) epoch gathered queue) rest g = Ok g' /\
      maps_to g' (fun e => e ∈ te_events (fst r) /\ ev_port (oe_action e) < size_of (events_ t))).
  { intros dn rest. revert dn. induction rest as [|queue rest IH]; intros dn g Heq Hg; simpl.
    { exists g. rewrite app_nil_r in Heq. by rewrite Heq in Hg. }
    assert (Hqn : queue = flat_map (port_events (size_of dn)) (r :: reqs)).
    { rewrite <-He.
      - rewrite <-Heq. unfold size_of. rewrite Nat2Z.id. by rewrite app_nth2, Nat.sub_diag by lia.
      - rewrite <-Hp, <-Heq, size_of_app, size_of_cons.
        pose proof (size_of_nonneg rest). pose proof (size_of_nonneg dn). lia. }
    simpl in Hqn. rewrite Hqn.
    assert (Hbel : Forall (fun e => oe_epoch e = epoch /\ oe_label e = label_of r) (port_events (size_of dn) r)).
    { pose proof (request_belongs c epoch (fst r) (snd r) Hr Hep) as Hb. apply Forall_forall. intros e Hin.
      apply elem_of_port_events in Hin as [Hin _]. unfold events_belong in Hb. rewrite Forall_forall in Hb.
      destruct r. by apply Hb. }
    assert (Hlater : forall e, e ∈ flat_map (port_events (size_of dn)) reqs -> label_of r < oe_label e)
      by (intros e; by eapply later_labels).
    assert (Hfront : match port_events (size_of dn) r ++ flat_map (port_events (size_of dn)) reqs with
                     | [] => true | front :: _ => label_of r <=? oe_label front end = true).
    { destruct (port_events (size_of dn) r ++ flat_map (port_events (size_of dn)) reqs)
        as [|e tl] eqn:E; [reflexivity|]. apply Z.leb_le.
      assert (Hin : e ∈ port_events (size_of dn) r ++ flat_map (port_events (size_of dn)) reqs)
        by (rewrite E; by left).
      apply elem_of_app in Hin as [Hin|Hin]; [|specialize (Hlater e Hin); lia].
      rewrite Forall_forall in Hbel. destruct (Hbel e Hin). lia. }
    rewrite Hfront. cbn [require result_bind].
    destruct (gather_queue_head (label_of r) epoch (port_events (size_of dn) r)
      (flat_map (port_events (size_of dn)) reqs) g _ Hg Hbel) as (g' & Hok & Hm); [| |exact Hlater|].
    - apply filter_nodup_ids, Hr.
    - intros e e' Hin [Hin' Hlt] Hid. apply elem_of_port_events in Hin as [Hin Hport].
      pose proof (rv_ids _ _ Hr) as Hnd.
      assert (e = e') by (eapply (nodup_map_inj oe_id); eassumption). subst e'. lia.
    - rewrite Hok. cbn [result_bind]. apply (IH (dn ++ [queue])).
      + by rewrite <-app_assoc.
      + intros id e. rewrite (Hm id e). rewrite size_of_app, size_of_cons, size_of_nil, elem_of_port_events.
        split.
        * intros [[[? ?]|[? ?]] ?]; split_and!; auto; lia.
        * intros [[? ?] ?]. split; [|done].
          destruct (Z.eq_dec (ev_port (oe_action e)) (size_of dn)); [by right | left; split; [done | lia]]. }
  unfold gather. destruct (Hgen [] (events_ t) ∅ eq_refl) as (g & Hok & Hm).
  - intros id e. rewrite lookup_empty. split; [done|]. intros [[Hin Hlt] _]. rewrite size_of_nil in Hlt.
    unfold ports_unsigned in Hu. rewrite Forall_forall in Hu. specialize (Hu e Hin). simpl in Hu. lia.
  - exists g. split; [exact Hok|]. intros id e. rewrite (Hm id e). split; [intros [[? ?] ?]; auto|].
    intros [Hin Hid]. split_and!; try done. rewrite Hp.
    pose proof (rv_events _ _ Hr) as Hev. rewrite Forall_forall in Hev. by destruct (Hev e Hin) as (_ & _ & _ & ? & _).
Qed.

Lemma size_of_gathered g es :
  NoDup (map oe_id es) -> maps_to g (fun e => e ∈ es) -> Z.of_nat (size g) = size_of es.
Proof.
  intros Hnd Hg.
  assert (E : g = list_to_map (map (fun e => (oe_id e, e)) es)).
  { apply map_eq. intros id.
    assert (Hkeys : (map (fun e => (oe_id e, e)) es).*1 = map oe_id es)
      by (change (fmap (M:=list) fst) with (@map (Z * OperationEvent) Z fst); by rewrite map_map).
    apply option_eq. intros e. rewrite (Hg id e).
    rewrite <-elem_of_list_to_map by (by rewrite Hkeys).
    split.
    - intros [Hin <-]. apply list_elem_of_In, in_map_iff. exists e.
      split; [done | by apply list_elem_of_In].
    - intros Hin. apply list_elem_of_In, in_map_iff in Hin as (e' & [= <- <-] & Hin).
      by apply list_elem_of_In in Hin. }
  rewrite E, map_size_list_to_map.
  - unfold size_of. by rewrite length_map.
  - change (fmap (M:=list) fst) with (@map (Z * OperationEvent) Z fst). by rewrite map_map.
Qed.

(** Configuration shared by timing control and the unit. *)
Record tcu_setup (p : Profile) (c : TimingConfig) : Prop := {
  ts_valid : profile_valid p;
  ts_ports : 0 <= tc_ports c;
  ts_qubits : tc_qubits c = qubits p;
  ts_mapping : forall port codeword, timing_mapping c port codeword = profile_mapping p port codeword }.

Lemma event_eqb_flag a b : event_eqb a b = true -> execution_flag a = execution_flag b.
Proof.
  unfold event_eqb, execution_flag. intros H. reflect.
  destruct (ev_spec a), (ev_spec b); simpl in *; try discriminate; reflect; congruence.
Qed.

(** Whether an event executes under the current flags. *)
Definition executes (flags : ExecutionFlags) (e : OperationEvent) : bool :=
  match is_cancelled flags e with Ok b => negb b | Fault _ => true end.

Lemma is_cancelled_ok p c point flags e :
  tcu_setup p c -> event_valid c point e -> size_of flags = tc_qubits c ->
  is_cancelled flags e = Ok (negb (executes flags e)).
Proof.
  intros [Hv _ Hq Hm] (_ & _ & _ & _ & m & Hmap & Hex) Hf. unfold executes.
  enough (exists b, is_cancelled flags e = Ok b) as [b ->] by (by rewrite negb_involutive).
  unfold is_cancelled. destruct (bool_decide_reflect (execution_flag (oe_action e) = Always)) as [|Hne]; [eauto|].
  rewrite Hm in Hmap. apply profile_mapping_ok in Hmap as (Hin & _).
  apply existsb_exists in Hex as (a & Ha & Heq). apply list_elem_of_In in Ha.
  pose proof (proj1 (Forall_forall _ _) (pv_mappings _ Hv) m Hin) as Hmv.
  pose proof (proj1 (Forall_forall _ _) (mv_valid _ _ Hmv) a Ha) as Hav.
  rewrite <-(event_eqb_flag _ _ Heq), <-(event_eqb_targets _ _ Heq) in *.
  destruct (av_flag _ _ Hav Hne) as (q & Hqt). rewrite Hqt. simpl.
  pose proof (av_qubits _ _ Hav) as Hqs. rewrite Hqt in Hqs. inversion Hqs; subst.
  unfold flags_evaluate. rewrite Hf, Hq. rewrite (proj2 (Z.ltb_lt _ _)) by done. simpl.
  destruct (execution_flag a); eauto.
Qed.

Lemma collect_all p c flags g r epoch label now syncs :
  tcu_setup p c -> request_valid c r -> size_of flags = tc_qubits c ->
  maps_to g (fun e => e ∈ te_events r) ->
  result_fold (collect flags g) (map oe_id (te_events r))
    (mkTrigger (mkTriggered epoch label now []) [] syncs) =
  Ok (mkTrigger (mkTriggered epoch label now (List.filter (executes flags) (te_events r)))
        (List.filter (fun e => negb (executes flags e)) (te_events r)) syncs).
Proof.
  intros Hs Hr Hf Hg.
  assert (Hgen : forall rest b k, (forall e, e ∈ rest -> e ∈ te_events r) ->
    result_fold (collect flags g) (map oe_id rest) (mkTrigger (mkTriggered epoch label now b) k syncs) =
    Ok (mkTrigger (mkTriggered epoch label now (b ++ List.filter (executes flags) rest))
          (k ++ List.filter (fun e => negb (executes flags e)) rest) syncs)).
  { induction rest as [|e rest IH]; intros b k Hin; cbn [map result_fold List.filter];
      [by rewrite !app_nil_r|].
    assert (He : e ∈ te_events r) by (apply Hin; by left).
    unfold collect at 1. rewrite (proj2 (Hg (oe_id e) e) (conj He eq_refl)).
    rewrite (is_cancelled_ok p c (te_point r) flags e Hs);
      [|exact (proj1 (Forall_forall _ _) (rv_events _ _ Hr) e He) | done].
    cbn [result_bind]. destruct (executes flags e); cbn [negb update];
      cbn [batch cancelled trigger_syncs tg_epoch tg_label fire_tick tg_events];
      rewrite IH by (intros; apply Hin; by right); by rewrite <-app_assoc. }
  by rewrite Hgen.
Qed.

(** ** Firing *)
(** What the head request turns into when it fires. *)
Definition fired (flags : ExecutionFlags) (epoch : Epoch) (now : Tick) (r : TimingEvents) : Trigger :=
  mkTrigger (mkTriggered epoch (tp_label (te_point r)) now (List.filter (executes flags) (te_events r)))
    (List.filter (fun e => negb (executes flags e)) (te_events r)) (synchronizations (te_point r)).

Lemma head_trigger_eq p c epoch t r d reqs now state :
  tcu_setup p c -> queue_wf c epoch t ((r, d) :: reqs) -> d = st_cycle state ->
  head_trigger t now epoch state (mkQueued (te_point r) d) = Ok (fired (execution_flags_ t) epoch now r).
Proof.
  intros Hs Hq Hd. unfold head_trigger. cbn [due pt_point]. rewrite (proj2 (Z.eqb_eq _ _) Hd).
  cbn [require result_bind].
  destruct (gather_head _ _ _ _ _ Hq) as (g & Hg & Hm). unfold label_of in Hg. simpl in Hg, Hm.
  rewrite Hg. cbn [result_bind].
  pose proof (qw_valid _ _ _ _ Hq) as Hv. inversion Hv as [|? ? (Hr & _) _]; subst. simpl in Hr.
  rewrite (size_of_gathered g (te_events r) (rv_ids _ _ Hr) Hm).
  rewrite (rv_manifest _ _ Hr), size_of_map, Z.eqb_refl. cbn [require result_bind].
  by apply (collect_all p c); try done; apply Hq.
Qed.

(** *** Removing the head *)
Lemma drop_label_head label es rest :
  Forall (fun e => oe_label e = label) es -> (forall e, e ∈ rest -> label < oe_label e) ->
  drop_label label (es ++ rest) = rest.
Proof.
  induction 1 as [|e es He Hes IH]; intros Hrest; simpl.
  - destruct rest as [|e rest]; simpl; [done|]. specialize (Hrest e ltac:(by left)).
    by rewrite (proj2 (Z.eqb_neq (oe_label e) label)) by lia.
  - rewrite He, Z.eqb_refl. by apply IH.
Qed.

Definition pop_head (label : Id) (point : TimingPoint) (t : TcuCycleModel) : TcuCycleModel :=
  t <| triggered_policy ::= policy_after point |>
    <| sync_size ::= fun n => wrap64 (n - size_of (synchronizations point)) |>
    <| events_ ::= map (drop_label label) |> <| timing_ ::= tail |>.

Lemma sync_count_nonneg reqs : 0 <= sync_count reqs.
Proof.
  unfold sync_count. induction reqs as [|r l IH]; simpl; [lia|].
  pose proof (size_of_nonneg (synchronizations (te_point (fst r)))). lia.
Qed.

Lemma pop_head_wf c epoch t r d reqs :
  queue_wf c epoch t ((r, d) :: reqs) ->
  queue_wf c epoch (pop_head (tp_label (te_point r)) (te_point r) t) reqs.
Proof.
  intros Hq. pose proof Hq as [Hc Ht Hp He Hv Hl Hla Hf Hsz Hcap].
  apply Forall_cons in Hv as [(Hr & Hu & Hep) Hv']. apply Forall_cons in Hla as [_ Hla].
  apply StronglySorted_inv in Hl as Hl'. destruct Hl' as [Hl' _]. simpl in Hr, Hep.
  unfold pop_head. constructor; simpl; try done.
  - by rewrite Ht.
  - by rewrite size_of_map.
  - intros q Hqr. change (@nil OperationEvent) with (drop_label (tp_label (te_point r)) []).
    rewrite map_nth, He by done. simpl. apply drop_label_head.
    + pose proof (request_belongs _ epoch r d Hr Hep) as Hb. apply Forall_forall. intros e Hin.
      apply elem_of_port_events in Hin as [Hin _]. unfold events_belong in Hb. rewrite Forall_forall in Hb.
      by destruct (Hb e Hin).
    + intros e Hin. exact (later_labels _ epoch (r, d) reqs q e Hl Hv' Hin).
  - rewrite Hsz. simpl. pose proof (sync_count_nonneg reqs).
    replace (_ + _ - _) with (sync_count reqs) by (unfold sync_count; lia).
    apply wrap64_small. unfold u64. simpl in Hsz. unfold sync_count in *.
    pose proof (size_of_nonneg (synchronizations (te_point r))). lia.
  - simpl in Hsz. pose proof (size_of_nonneg (synchronizations (te_point r))).
    pose proof (sync_count_nonneg reqs). unfold sync_count in *.
    rewrite wrap64_small by (unfold u64; lia). lia.
Qed.

(** *** Appending an admitted request *)
Definition push_events (es : list OperationEvent) (queues : list (list OperationEvent)) :=
  fold_left (fun queues e => alter (fun q => q ++ [e]) (Z.to_nat (ev_port (oe_action e))) queues) es queues.

Lemma push_events_nth es queues q :
  Forall (fun e => 0 <= ev_port (oe_action e) < size_of queues) es -> 0 <= q ->
  size_of (push_events es queues) = size_of queues /\
  nth (Z.to_nat q) (push_events es queues) [] = nth (Z.to_nat q) queues [] ++ List.filter (on_port q) es.
Proof.
  intros Hes Hq. unfold push_events. revert queues Hes. induction es as [|e es IH]; intros queues Hes; simpl.
  - by rewrite app_nil_r.
  - inversion Hes as [|? ? He Hes']; subst.
    assert (Hlen : size_of (alter (fun q => q ++ [e]) (Z.to_nat (ev_port (oe_action e))) queues) = size_of queues)
      by (unfold size_of; by rewrite length_alter).
    destruct (IH (alter (fun q => q ++ [e]) (Z.to_nat (ev_port (oe_action e))) queues)) as [H1 H2];
      [by rewrite Hlen|]. rewrite H1, H2. split; [done|].
    rewrite !nth_lookup, list_lookup_alter. change (on_port q e) with (q =? ev_port (oe_action e)).
    destruct (Z.eqb_spec q (ev_port (oe_action e))) as [->|Hne].
    + rewrite decide_True by done.
      destruct (queues !! Z.to_nat (ev_port (oe_action e))) eqn:El; simpl; [by rewrite <-app_assoc|].
      apply lookup_ge_None in El. unfold size_of in He. lia.
    + by rewrite decide_False by lia.
Qed.

Definition push_request (candidate : TimingEvents) (d : TcuCycle) (t : TcuCycleModel) : TcuCycleModel :=
  t <| admitted_policy ::= policy_after (te_point candidate) |>
    <| sync_size ::= fun n => wrap64 (n + size_of (synchronizations (te_point candidate))) |>
    <| timing_ ::= fun l => l ++ [mkQueued (te_point candidate) d] |>
    <| events_ ::= push_events (te_events candidate) |>
    <| last_label := tp_label (te_point candidate) |> <| last_due := d |>.

Lemma sync_count_app a b : sync_count (a ++ b) = sync_count a + sync_count b.
Proof. unfold sync_count. induction a as [|r l IH]; simpl; [done|]. rewrite IH. lia. Qed.

Lemma push_request_wf c epoch t reqs candidate d :
  queue_wf c epoch t reqs -> 0 <= tc_ports c -> request_valid c candidate ->
  ports_unsigned (te_events candidate) -> tp_epoch (te_point candidate) = epoch ->
  tp_label (te_point candidate) = last_label t + 1 ->
  size_of (synchronizations (te_point candidate)) <= sync_capacity t - sync_size t ->
  queue_wf c epoch (push_request candidate d t) (reqs ++ [(candidate, d)]).
Proof.
  intros [Hc Ht Hp He Hv Hl Hla Hf Hsz Hcap] Hp0 Hr Hu Hep Hlab Hsync. unfold push_request.
  assert (Hports : Forall (fun e => 0 <= ev_port (oe_action e) < size_of (events_ t)) (te_events candidate)).
  { apply Forall_forall. intros e Hin. rewrite Hp. unfold ports_unsigned in Hu. rewrite Forall_forall in Hu.
    pose proof (proj1 (Forall_forall _ _) (rv_events _ _ Hr) e Hin) as (_ & _ & _ & ? & _).
    specialize (Hu e Hin). simpl in Hu. lia. }
  pose proof (sync_count_nonneg reqs). pose proof (size_of_nonneg (synchronizations (te_point candidate))).
  constructor; simpl; try done.
  - by rewrite Ht, map_app.
  - by rewrite (proj1 (push_events_nth _ _ 0 Hports ltac:(lia))).
  - intros q Hq. rewrite (proj2 (push_events_nth _ _ q Hports (proj1 Hq))), He by done.
    rewrite flat_map_app. simpl. by rewrite app_nil_r.
  - apply Forall_app. split; [done|]. by constructor.
  - apply sorted_snoc; [done|]. eapply Forall_impl; [exact Hla|]. intros x Hx. unfold label_of at 2. simpl.
    simpl in Hx. lia.
  - apply Forall_app. split.
    + eapply Forall_impl; [exact Hla|]. intros x Hx. simpl in *. lia.
    + constructor; [|done]. unfold label_of. simpl. lia.
  - rewrite sync_count_app, Hsz. simpl. rewrite wrap64_small by (unfold u64; lia). lia.
  - rewrite wrap64_small by (unfold u64; lia). lia.
Qed.

(** ** One step, phase by phase *)
Definition apply_trigger (trigger : option Trigger) (t : TcuCycleModel) : TcuCycleModel :=
  match trigger, timing_ t with
  | Some _, head :: _ => pop_head (tp_label (pt_point head)) (pt_point head) t
  | _, _ => t
  end.

Definition apply_admission (candidate : option TimingEvents) (d : option TcuCycle) (t : TcuCycleModel)
    : TcuCycleModel :=
  match candidate, d with Some c, Some d => push_request c d t | _, _ => t end.

Definition tcu_after (state : TimingState) (trigger : option Trigger) (candidate : option TimingEvents)
    (d : option TcuCycle) (flags : ExecutionFlags) (ticks : Tick) (t : TcuCycleModel) : TcuCycleModel :=
  apply_admission candidate d (apply_trigger trigger t)
    <| execution_flags_ := flags |> <| pause := st_pause state |> <| paused_ticks := ticks |>.

Section Phases.
Context {E : Type} (preflight : TriggeredEvents -> M E unit)
        (sync_preflight : option (list Z -> M E unit)).

(** Only the trace changes, and it still accepts events of this tick. *)
Definition emits (now : Tick) (m : M (TcuWorld E) unit) : Prop :=
  forall w, trace_ready now (tw_trace w) ->
    exists tr, m w = (Ok (), w <| tw_trace := tr |>) /\ trace_ready now tr.

Lemma world_eta (w : TcuWorld E) : w <| tw_trace := tw_trace w |> = w.
Proof using Type. by destruct w. Qed.

Lemma emits_ret now : emits now (m_ret ()).
Proof using Type. intros w Hr. exists (tw_trace w). by rewrite world_eta. Qed.

Lemma emits_one now e : te_tick e = now -> plain e = true -> emits now (tcu_emit e).
Proof using Type.
  intros Ht Hp w Hr. exists (trace_push e (tw_trace w)). split; [|by apply trace_ready_push].
  unfold tcu_emit, m_zoom. rewrite trace_emit_plain by (done || by rewrite Ht). by destruct w.
Qed.

Lemma emits_if now (b : bool) m k : emits now m -> emits now k -> emits now (if b then m else k).
Proof using Type. by destruct b. Qed.

Lemma emits_each {X} now (f : X -> M (TcuWorld E) unit) l :
  (forall x, emits now (f x)) -> emits now (m_each f l).
Proof using Type.
  intros Hf. induction l as [|x l IH]; [apply emits_ret|]. intros w Hr. simpl.
  destruct (Hf x w Hr) as (tr & E1 & Hr1). rewrite (m_bind_step _ _ _ _ _ E1).
  destruct w as [t0 tr0 env]. destruct (IH (mkTcuWorld t0 tr env) Hr1) as (tr2 & E2 & Hr2). by exists tr2.
Qed.

(** What a phase leaves: the unit [f t], some trace, the environment untouched. *)
Definition commits (now : Tick) (f : TcuCycleModel -> TcuCycleModel) (w : TcuWorld E)
    (m : M (TcuWorld E) unit) : Prop :=
  exists tr, m w = (Ok (), mkTcuWorld (f (tw_tcu w)) tr (tw_env w)) /\ trace_ready now tr.

Lemma commit_trigger_phase now epoch cycle trigger w :
  trace_ready now (tw_trace w) ->
  commits now (apply_trigger (Some trigger)) w (commit_trigger now epoch cycle trigger).
Proof using Type.
  intros Hr. unfold commits, commit_trigger, apply_trigger, m_bind at 1, m_gets.
  destruct (timing_ (tw_tcu w)) as [|head rest]; [exists (tw_trace w); by destruct w|].
  set (w1 := w <| tw_tcu ::= fun t => t <| triggered_policy ::= policy_after (pt_point head) |> |>).
  rewrite (m_bind_step _ _ () w w1) by done.
  assert (H1 : emits now (if bool_decide (underflow_policy (pt_point head) = PauseWhenEmpty)
            then tcu_emit (trace_event now epoch "WaitZeroExecuted" 0 (tp_label (pt_point head)) cycle)
            else m_ret ())) by (apply emits_if; [by apply emits_one | apply emits_ret]).
  destruct (H1 w1 Hr) as (tr & Etr & Hr1). rewrite (m_bind_step _ _ _ _ _ Etr). clear H1 Etr.
  set (w2 := mkTcuWorld (pop_head (tp_label (pt_point head)) (pt_point head) (tw_tcu w)) tr (tw_env w)).
  rewrite (m_bind_step _ _ () _ w2) by done.
  destruct (emits_one now (trace_event now epoch "TimingPointTriggered" 0 (tp_label (pt_point head)) cycle)
    eq_refl eq_refl w2 Hr1) as (tr2 & Etr & Hr2). rewrite (m_bind_step _ _ _ _ _ Etr).
  match goal with |- context [m_each ?f ?l] => destruct (emits_each now f l
    ltac:(intros; by apply emits_one) (mkTcuWorld (tw_tcu w2) tr2 (tw_env w2)) Hr2) as (tr3 & Etr3 & Hr3) end.
  exists tr3. split; [exact Etr3 | done].
Qed.

Lemma commit_admission_phase now epoch cycle candidate d w :
  trace_ready now (tw_trace w) ->
  commits now (push_request candidate d) w (commit_admission now epoch cycle candidate d).
Proof using Type.
  intros Hr. unfold commits, commit_admission.
  rewrite (m_bind_step _ _ () w (w <| tw_tcu ::= push_request candidate d |>)) by done.
  unfold m_bind, m_gets.
  match goal with |- context [tcu_emit ?e ?w1] =>
    destruct (emits_one now e eq_refl eq_refl w1 Hr) as (tr & -> & Hr1) end.
  by exists tr.
Qed.

Lemma commit_fast_results_phase now epoch cycle results flags (w : TcuWorld E) :
  trace_ready now (tw_trace w) ->
  exists tr, commit_fast_results now epoch cycle results flags w =
    (Ok (map comp_reference (List.filter (fun r => ref_epoch (comp_reference r) =? epoch) results)),
     mkTcuWorld (tw_tcu w <| execution_flags_ := flags |>) tr (tw_env w)) /\ trace_ready now tr.
Proof using Type.
  intros Hr. unfold commit_fast_results.
  rewrite (m_bind_step _ _ () w (w <| tw_tcu ::= fun t => t <| execution_flags_ := flags |> |>)) by done.
  match goal with |- context [m_bind (m_each ?f ?l) _ ?w1] =>
    destruct (emits_each now f l ltac:(intros; by apply emits_one) w1 Hr) as (tr & Etr & Hr1) end.
  rewrite (m_bind_step _ _ _ _ _ Etr). by exists tr.
Qed.

Lemma update_pause_phase now epoch state ticks w :
  trace_ready now (tw_trace w) ->
  commits now (fun t => t <| pause := st_pause state |> <| paused_ticks := ticks |>) w
    (update_pause_state now epoch state ticks).
Proof using Type.
  intros Hr. unfold commits, update_pause_state. unfold m_bind at 1, m_gets.
  match goal with |- context [m_bind (if ?b then ?x else ?y) _ _] =>
    assert (H1 : emits now (if b then x else y)) end.
  { apply emits_if; [apply emits_ret|]. apply emits_one; [done|].
    by destruct (paused (st_pause state)). }
  destruct (H1 w Hr) as (tr & Etr & Hr1). rewrite (m_bind_step _ _ _ _ _ Etr). by exists tr.
Qed.

Lemma tcu_step_cases now epoch candidate results sync_paused (w : TcuWorld E) :
  trace_ready now (tw_trace w) ->
  let t := tw_tcu w in
  let state := current_timing_state t now sync_paused in
  (exists e env, tcu_step preflight sync_preflight now epoch candidate results sync_paused w =
     (Fault e, w <| tw_env := env |>)) \/
  (exists trigger d flags ticks env tr out,
     clock_edge (tcu_clk (tcu_profile t)) now = true /\
     prepare_trigger preflight sync_preflight t now epoch state (tw_env w) = (Ok trigger, env) /\
     (match candidate with
      | Some c => prepare_admission t now epoch c (st_pause state) | None => Ok None end) = Ok d /\
     next_execution_flags (execution_flags_ t) results epoch = Ok flags /\
     (if paused (st_pause state) then checked_add (paused_ticks t) (period (tcu_clk (tcu_profile t)))
      else Ok (paused_ticks t)) = Ok ticks /\
     tcu_step preflight sync_preflight now epoch candidate results sync_paused w =
       (Ok out, mkTcuWorld (tcu_after state trigger candidate d flags ticks t) tr env) /\
     launch out = option_map batch trigger /\
     admitted out = (match candidate, d with Some _, Some _ => true | _, _ => false end) /\
     out_synchronizations out = (match trigger with Some trig => trigger_syncs trig | None => [] end) /\
     trace_ready now tr).
Proof using Type.
  intros Hr t state.
  destruct (tcu_step preflight sync_preflight now epoch candidate results sync_paused w) as [r w'] eqn:Es.
  unfold tcu_step in Es. unfold m_bind at 1, m_gets at 1 in Es. fold t in Es. cbv zeta in Es.
  fold state in Es. unfold m_bind at 1, m_lift at 1, require in Es.
  destruct (clock_edge _ now) eqn:Hedge;
    [|left; exists Protocol, (tw_env w); injection Es as <- <-; by destruct w].
  unfold m_bind at 1, m_zoom at 1 in Es.
  destruct (prepare_trigger preflight sync_preflight t now epoch state (tw_env w)) as [[trigger|e] env] eqn:Et;
    [|left; injection Es as <- <-; by eexists _, _].
  unfold m_bind at 1, m_lift at 1 in Es.
  destruct (match candidate with Some c => _ | None => _ end) as [d|e] eqn:Ed;
    [|left; injection Es as <- <-; by eexists _, _].
  unfold m_bind at 1, m_lift at 1 in Es.
  destruct (next_execution_flags _ _ _) as [flags|e] eqn:Ef; [|left; injection Es as <- <-; by eexists _, _].
  unfold m_bind at 1, m_lift at 1 in Es.
  destruct (if paused _ then _ else _) as [ticks|e] eqn:Ep; [|left; injection Es as <- <-; by eexists _, _].
  right. match type of Es with m_bind _ _ ?v = _ => set (w1 := v) in Es end.
  assert (H1 : commits now (apply_trigger trigger) w1
    (match trigger with Some trig => commit_trigger now epoch (st_cycle state) trig | None => m_ret () end)).
  { destruct trigger; [by apply commit_trigger_phase|]. exists (tw_trace w). by split. }
  destruct H1 as (tr1 & E1 & Hr1). rewrite (m_bind_step _ _ _ _ _ E1) in Es.
  match type of Es with m_bind ?m _ ?v = _ => assert (H2 : commits now (apply_admission candidate d) v m) end.
  { destruct candidate as [cand|]; [destruct d as [d|]; [by apply commit_admission_phase|]|];
      (eexists; split; [reflexivity | done]). }
  destruct H2 as (tr2 & E2 & Hr2). rewrite (m_bind_step _ _ _ _ _ E2) in Es.
  match type of Es with m_bind (commit_fast_results ?a ?b ?c ?r ?f) _ ?v = _ =>
    destruct (commit_fast_results_phase a b c r f v Hr2) as (tr3 & E3 & Hr3) end.
  rewrite (m_bind_step _ _ _ _ _ E3) in Es.
  match type of Es with m_bind (update_pause_state ?a ?b ?s ?k) _ ?v = _ =>
    destruct (update_pause_phase a b s k v Hr3) as (tr4 & E4 & Hr4) end.
  rewrite (m_bind_step _ _ _ _ _ E4) in Es. unfold m_ret at 1 in Es. apply pair_equal_spec in Es as [<- <-].
  exists trigger, d, flags, ticks, env, tr4. eexists. by split_and!.
Qed.
End Phases.

(** ** Time

    [n] is the number of cycles the unit's timer has counted when the clock reaches [now]; it is
    negative before the start. *)
Record time_wf (now : Tick) (n : Z) (t : TcuCycleModel) (reqs : list QueuedRequest) : Prop := {
  tm_clock : clock_valid (tcu_clk (tcu_profile t));
  tm_elapsed : now = tcu_origin t + paused_ticks t + n * period (tcu_clk (tcu_profile t));
  tm_paused : 0 <= paused_ticks t /\ (0 <= n \/ paused_ticks t = 0);
  tm_origin : 0 <= tcu_origin t;
  tm_dues : StronglySorted (fun a b => snd a < snd b) reqs;
  tm_last : Forall (fun r => snd r <= last_due t) reqs;
  tm_future : Forall (fun r => n <= snd r /\ 0 <= snd r) reqs;
  tm_due : 0 <= last_due t;
  tm_label : 0 <= last_label t /\ (last_label t = 0 -> reqs = []) }.

Lemma current_state_eq now n t reqs sync_paused :
  time_wf now n t reqs -> u64 now ->
  running (current_timing_state t now sync_paused) = (0 <=? n) /\
  st_cycle (current_timing_state t now sync_paused) = Z.max 0 n /\
  (paused (st_pause (current_timing_state t now sync_paused)) = true -> 0 <= n).
Proof.
  intros [[Hp _] He [Hpt Hpn] Ho _ _ _ _ _] Hu. unfold current_timing_state.
  assert (Hrun : (tcu_origin t <=? now) = (0 <=? n)).
  { destruct (Z.leb_spec 0 n); [apply Z.leb_le; nia | apply Z.leb_gt; nia]. }
  rewrite Hrun. cbn [running st_cycle st_pause]. destruct (Z.leb_spec 0 n); split_and!; try done; try lia.
  rewrite wrap64_small by (unfold u64 in *; nia).
  replace (now - tcu_origin t - paused_ticks t) with (n * period (tcu_clk (tcu_profile t))) by lia.
  rewrite Z.div_mul by lia. lia.
Qed.

(** Whether the head request fires. *)
Definition fires (n : Z) (is_paused : bool) (reqs : list QueuedRequest) : bool :=
  match reqs with (_, d) :: _ => (0 <=? n) && negb is_paused && (d =? n) | [] => false end.

Lemma firing_point_eq c epoch now n t reqs sync_paused :
  queue_wf c epoch t reqs -> time_wf now n t reqs -> u64 now ->
  let state := current_timing_state t now sync_paused in
  firing_point t state =
    if fires n (paused (st_pause state)) reqs
    then match reqs with (r, d) :: _ => Some (mkQueued (te_point r) d) | [] => None end else None.
Proof.
  intros Hq Ht Hu state. destruct (current_state_eq now n t reqs sync_paused Ht Hu) as (H1 & H2 & _).
  fold state in H1, H2. unfold firing_point. rewrite H1, H2, (qw_timing _ _ _ _ Hq).
  destruct reqs as [|[r d] reqs]; simpl; [by destruct (_ || _)|].
  pose proof (tm_future _ _ _ _ Ht) as Hfut. apply Forall_cons in Hfut as [[Hn Hd] _]. simpl in Hn, Hd.
  destruct (Z.leb_spec 0 n); simpl; [|done]. rewrite Z.max_r by done.
  destruct (paused _); simpl; [done|].
  destruct (Z.ltb_spec n d), (Z.eqb_spec d n); try done; lia.
Qed.

Lemma apply_trigger_wf c epoch now n t reqs sync_paused trigger :
  queue_wf c epoch t reqs -> time_wf now n t reqs -> u64 now ->
  let state := current_timing_state t now sync_paused in
  let fire := fires n (paused (st_pause state)) reqs in
  bool_decide (trigger = None) = negb fire ->
  queue_wf c epoch (apply_trigger trigger t) (if fire then tail reqs else reqs).
Proof.
  intros Hq Ht Hu state fire Htr. unfold apply_trigger. destruct trigger as [trigger|].
  - assert (Hf : fire = true) by (by destruct fire). rewrite Hf. unfold fire, fires in Hf.
    destruct reqs as [|[r d] reqs]; [done|]. rewrite (qw_timing _ _ _ _ Hq). simpl.
    exact (pop_head_wf c epoch t r d reqs Hq).
  - by assert (fire = false) as -> by (by destruct fire).
Qed.

(** ** Admission *)
Definition candidate_unsigned (r : TimingEvents) : Prop :=
  ports_unsigned (te_events r) /\ 0 <= tp_interval (te_point r).

(** The cycle an admitted request is due at. *)
Definition due_cycle (t : TcuCycleModel) (r : TimingEvents) : TcuCycle :=
  last_due t + (if last_label t =? 0 then tp_interval (te_point r) else Z.max 1 (tp_interval (te_point r))).

Lemma prepare_admission_ok c epoch t reqs now candidate p d :
  queue_wf c epoch t reqs -> 0 <= tc_ports c -> candidate_unsigned candidate -> 0 <= last_due t ->
  prepare_admission t now epoch candidate p = Ok (Some d) ->
  request_valid c candidate /\ tp_epoch (te_point candidate) = epoch /\
  tp_label (te_point candidate) = last_label t + 1 /\ d = due_cycle t candidate /\
  (let due_tick := tcu_origin t + paused_ticks t + d * period (tcu_clk (tcu_profile t)) in
   now < due_tick \/ (now = due_tick /\ instruction_supply p = true)) /\
  size_of (synchronizations (te_point candidate)) <= sync_capacity t - sync_size t.
Proof.
  intros Hq Hc [Hu Hi] Hd H. unfold prepare_admission in H. rewrite (qw_config _ _ _ _ Hq) in H.
  apply result_bind_ok in H as ([] & _ & H). apply result_bind_ok in H as ([] & K1 & H).
  apply validate_request_sound in K1; [|done..].
  apply result_bind_ok in H as ([] & K2 & H). apply require_ok, Z.eqb_eq in K2.
  apply result_bind_ok in H as (nxt & K3 & H). apply checked_add_ok in K3 as [_ ->].
  apply result_bind_ok in H as ([] & K3 & H). apply require_ok, Z.eqb_eq in K3.
  apply result_bind_ok in H as ([] & _ & H). fold (due_cycle t candidate) in H.
  apply result_bind_ok in H as (d' & K4 & H). apply checked_add_ok in K4 as [_ ->].
  apply result_bind_ok in H as (o & K5 & H). apply checked_add_ok in K5 as [_ ->].
  apply result_bind_ok in H as (k & K6 & H).
  apply checked_mul_ok in K6 as [_ ->]; [|destruct (last_label t =? 0); lia].
  apply result_bind_ok in H as (due_tick & K7 & H). apply checked_add_ok in K7 as [_ ->].
  apply result_bind_ok in H as ([] & K8 & H). apply require_ok in K8.
  apply result_bind_ok in H as ([] & _ & H). apply Ok_inj in H.
  destruct (_ && _) eqn:Hspace in H; [|done]. injection H as <-. reflect.
  split_and!; try done.
  - unfold meets_deadline in K8. fold (due_cycle t candidate) in K8. cbv zeta.
    destruct (Z.ltb_spec now (tcu_origin t + paused_ticks t +
      due_cycle t candidate * period (tcu_clk (tcu_profile t)))); [by left|]. right. reflect. done.
  - rewrite wrap64_small in *; [done|].
    pose proof (qw_sync _ _ _ _ Hq). pose proof (qw_sync_cap _ _ _ _ Hq).
    pose proof (sync_count_nonneg reqs). unfold u64. lia.
Qed.

(** ** One step on the abstract queue *)
Definition new_requests (candidate : option TimingEvents) (d : option TcuCycle) : list QueuedRequest :=
  match candidate, d with Some c, Some d => [(c, d)] | _, _ => [] end.

Lemma apply_trigger_frame trigger t :
  let t1 := apply_trigger trigger t in
  tcu_profile t1 = tcu_profile t /\ last_label t1 = last_label t /\ last_due t1 = last_due t /\
  tcu_origin t1 = tcu_origin t /\ sync_capacity t1 = sync_capacity t /\
  execution_flags_ t1 = execution_flags_ t.
Proof. unfold apply_trigger. by destruct trigger, (timing_ t). Qed.

Lemma queue_wf_ext c epoch t t' reqs :
  queue_wf c epoch t reqs -> tcu_profile t' = tcu_profile t -> timing_ t' = timing_ t ->
  events_ t' = events_ t -> last_label t' = last_label t -> sync_size t' = sync_size t ->
  sync_capacity t' = sync_capacity t -> size_of (execution_flags_ t') = tc_qubits c ->
  queue_wf c epoch t' reqs.
Proof.
  intros [H1 H2 H3 H4 H5 H6 H7 H8 H9 H10] E1 E2 E3 E4 E5 E6 E7. constructor; try done.
  - by rewrite E1. - by rewrite E2. - by rewrite E3. - by rewrite E3. - by rewrite E4. - by rewrite E5.
  - by rewrite E5, E6.
Qed.

Lemma sync_count_tail reqs : sync_count (tail reqs) <= sync_count reqs.
Proof.
  destruct reqs as [|r l]; [done|]. unfold sync_count. simpl.
  pose proof (size_of_nonneg (synchronizations (te_point (fst r)))). lia.
Qed.

Lemma tcu_after_queue c epoch now n t reqs sync_paused trigger candidate d flags ticks :
  let state := current_timing_state t now sync_paused in
  let fire := fires n (paused (st_pause state)) reqs in
  queue_wf c epoch t reqs -> time_wf now n t reqs -> u64 now -> 0 <= tc_ports c ->
  bool_decide (trigger = None) = negb fire -> size_of flags = tc_qubits c ->
  (forall r, candidate = Some r -> candidate_unsigned r) ->
  (forall r, candidate = Some r -> prepare_admission t now epoch r (st_pause state) = Ok d) ->
  queue_wf c epoch (tcu_after state trigger candidate d flags ticks t)
    ((if fire then tail reqs else reqs) ++ new_requests candidate d).
Proof.
  intros state fire Hq Ht Hu Hc Htr Hf Hcu Hadm.
  pose proof (apply_trigger_wf c epoch now n t reqs sync_paused trigger Hq Ht Hu Htr) as Hq1.
  fold state fire in Hq1. destruct (apply_trigger_frame trigger t) as (F1 & F2 & F3 & F4 & F5 & F6).
  enough (queue_wf c epoch (apply_admission candidate d (apply_trigger trigger t))
            ((if fire then tail reqs else reqs) ++ new_requests candidate d)) as H
    by (by eapply queue_wf_ext).
  unfold apply_admission, new_requests.
  destruct candidate as [r|]; [destruct d as [d|]|]; [|by rewrite app_nil_r..].
  destruct (prepare_admission_ok _ _ _ _ _ _ _ _ Hq Hc (Hcu r eq_refl) (tm_due _ _ _ _ Ht) (Hadm r eq_refl))
    as (Hr & Hep & Hl & _ & _ & Hs).
  apply push_request_wf; try done; [apply (Hcu r eq_refl) | by rewrite F2|].
  rewrite F5, (qw_sync _ _ _ _ Hq1). rewrite (qw_sync _ _ _ _ Hq) in Hs.
  pose proof (sync_count_tail reqs). destruct fire; lia.
Qed.

Lemma tcu_after_time c epoch now n t reqs sync_paused trigger candidate d flags ticks :
  let state := current_timing_state t now sync_paused in
  let is_paused := paused (st_pause state) in
  let p := period (tcu_clk (tcu_profile t)) in
  queue_wf c epoch t reqs -> time_wf now n t reqs -> u64 now -> 0 <= tc_ports c ->
  (forall r, candidate = Some r -> candidate_unsigned r) ->
  (forall r, candidate = Some r -> prepare_admission t now epoch r (st_pause state) = Ok d) ->
  ticks = (if is_paused then paused_ticks t + p else paused_ticks t) ->
  time_wf (now + p) (if is_paused then n else n + 1) (tcu_after state trigger candidate d flags ticks t)
    ((if fires n is_paused reqs then tail reqs else reqs) ++ new_requests candidate d).
Proof.
  intros state is_paused p Hq Ht Hu Hc Hcu Hadm Hticks.
  destruct (current_state_eq now n t reqs sync_paused Ht Hu) as (_ & _ & Hpz). fold state is_paused in Hpz.
  destruct (apply_trigger_frame trigger t) as (F1 & F2 & F3 & F4 & F5 & F6).
  pose proof Ht as [[Hp Hph] He [Hpt Hpn] Ho Hd Hl Hf Hdue [Hlab Hlab0]]. fold p in He, Hp.
  set (rest := if fires n is_paused reqs then tail reqs else reqs).
  assert (Hsub : StronglySorted (fun a b => snd a < snd b) rest /\ Forall (fun r => snd r <= last_due t) rest).
  { unfold rest. destruct (fires n is_paused reqs); [|done]. destruct reqs as [|r l]; [done|]. simpl.
    apply StronglySorted_inv in Hd as [Hd _]. by inversion Hl. }
  assert (Hfut : Forall (fun r => (if is_paused then n else n + 1) <= snd r /\ 0 <= snd r) rest).
  { unfold rest, fires. destruct reqs as [|[r dd] l]; [done|]. apply StronglySorted_inv in Hd as [_ Hall].
    apply Forall_cons in Hf as [Hh Hf]. simpl in Hh, Hall.
    destruct is_paused; simpl; [rewrite andb_false_r; simpl; by constructor|].
    rewrite andb_true_r.
    assert (Htl : Forall (fun r => n + 1 <= snd r /\ 0 <= snd r) l).
    { apply Forall_forall. intros x Hx. rewrite Forall_forall in Hall. specialize (Hall x Hx). lia. }
    destruct (Z.leb_spec 0 n); simpl; [destruct (Z.eqb_spec dd n)|]; simpl; try done; constructor; try done;
      simpl; lia. }
  assert (Hrest0 : last_label t = 0 -> rest = []).
  { intros E. unfold rest. rewrite (Hlab0 E). by destruct (fires n is_paused []). }
  destruct Hsub as [Hs1 Hs2].
  assert (Htm : clock_valid (tcu_clk (tcu_profile t)) /\
    now + p = tcu_origin t + ticks + (if is_paused then n else n + 1) * p /\
    (0 <= ticks /\ (0 <= (if is_paused then n else n + 1) \/ ticks = 0))).
  { split; [done|]. destruct is_paused; subst ticks; split; nia. }
  destruct Htm as (T1 & T2 & T3). unfold tcu_after, apply_admission, new_requests.
  destruct candidate as [r|]; [destruct d as [d|]|];
    [|rewrite app_nil_r; constructor; simpl; by rewrite ?F1, ?F2, ?F3, ?F4..].
  destruct (prepare_admission_ok _ _ _ _ _ _ _ _ Hq Hc (Hcu r eq_refl) Hdue (Hadm r eq_refl))
    as (_ & _ & Hrl & Hdc & Hdl & _). destruct (Hcu r eq_refl) as [_ Hiv]. cbv zeta in Hdl. fold p in Hdl.
  assert (Hdn : (if is_paused then n else n + 1) <= d /\ last_due t <= d).
  { split; [|rewrite Hdc; unfold due_cycle; destruct (last_label t =? 0); lia].
    destruct Hdl as [Hdl|[Hdl Hi]]; [destruct is_paused; nia|].
    assert (is_paused = true) as -> by (unfold is_paused, paused; by rewrite Hi). nia. }
  assert (Hstrict : Forall (fun x => snd x < d) rest).
  { destruct (Z.eqb_spec (last_label t) 0) as [E|E]; [by rewrite (Hrest0 E)|].
    eapply Forall_impl; [exact Hs2|]. intros x Hx. rewrite Hdc. unfold due_cycle.
    rewrite (proj2 (Z.eqb_neq _ _) E). simpl in *. lia. }
  constructor; simpl; rewrite ?F1, ?F2, ?F3, ?F4; try done.
  - by apply sorted_snoc.
  - apply Forall_app. split; [|by constructor]. eapply Forall_impl; [exact Hstrict|]. simpl. lia.
  - apply Forall_app. split; [done|]. constructor; [simpl; lia | done].
  - lia.
  - lia.
Qed.

Lemma next_flags_size flags results epoch f :
  next_execution_flags flags results epoch = Ok f -> size_of f = size_of flags.
Proof.
  unfold next_execution_flags. destruct (m_each _ results flags) as [[[]|e] f'] eqn:E; [|done].
  intros [= <-]. apply (m_each_ok _ (fun _ s => size_of s = size_of flags) results []) in E; [done..|].
  intros _ r s s' _ Hs H. unfold flags_commit in H. destruct (negb _); [by injection H as <-|].
  cbv zeta in H. inv_ok H. unfold size_of. rewrite length_insert. done.
Qed.

Section Steps.
Context (p : Profile) (c : TimingConfig) (Hset : tcu_setup p c).
Context {E : Type} (preflight : TriggeredEvents -> M E unit)
        (sync_preflight : option (list Z -> M E unit)).

(** What fires at this edge. *)
Definition fired_at (n : Z) (t : TcuCycleModel) (epoch : Epoch) (now : Tick) (is_paused : bool)
    (reqs : list QueuedRequest) : option Trigger :=
  if fires n is_paused reqs
  then option_map (fun r => fired (execution_flags_ t) epoch now (fst r)) (head reqs) else None.

Lemma prepare_trigger_ok epoch now n t reqs sync_paused (env env' : E) trigger :
  queue_wf c epoch t reqs -> time_wf now n t reqs -> u64 now ->
  let state := current_timing_state t now sync_paused in
  prepare_trigger preflight sync_preflight t now epoch state env = (Ok trigger, env') ->
  trigger = fired_at n t epoch now (paused (st_pause state)) reqs.
Proof using Hset.
  intros Hq Ht Hu state H. unfold prepare_trigger in H.
  pose proof (firing_point_eq c epoch now n t reqs sync_paused Hq Ht Hu) as Hp. cbv zeta in Hp.
  fold state in Hp. rewrite Hp in H. clear Hp. unfold fired_at.
  destruct (fires n _ reqs) eqn:Ef; [|by inv_ok H].
  unfold fires in Ef. destruct reqs as [|[r d] reqs]; [done|]. reflect.
  destruct (current_state_eq now n t _ sync_paused Ht Hu) as (_ & Hcy & _). fold state in Hcy.
  rewrite (head_trigger_eq p c epoch t r d reqs) in H by (try done; lia).
  apply m_bind_lift_ok in H as (tr & Htr & H). apply Ok_inj in Htr as <-.
  apply m_bind_ok in H as ([] & s1 & _ & H). apply m_bind_ok in H as ([] & s2 & _ & H). by inv_ok H.
Qed.

(** The list of requests after a step. *)
Definition next_requests (t : TcuCycleModel) (n : Z) (is_paused : bool) (candidate : option TimingEvents)
    (out : TcuOutput) (reqs : list QueuedRequest) : list QueuedRequest :=
  (if fires n is_paused reqs then tail reqs else reqs) ++
  (match candidate with Some r => if admitted out then [(r, due_cycle t r)] else [] | None => [] end).

Lemma tcu_step_wf epoch now n (w w' : TcuWorld E) reqs candidate results sync_paused out :
  queue_wf c epoch (tw_tcu w) reqs -> time_wf now n (tw_tcu w) reqs -> u64 now ->
  trace_ready now (tw_trace w) -> (forall r, candidate = Some r -> candidate_unsigned r) ->
  tcu_step preflight sync_preflight now epoch candidate results sync_paused w = (Ok out, w') ->
  let t := tw_tcu w in
  let is_paused := paused (st_pause (current_timing_state t now sync_paused)) in
  let reqs' := next_requests t n is_paused candidate out reqs in
  launch out = option_map batch (fired_at n t epoch now is_paused reqs) /\
  queue_wf c epoch (tw_tcu w') reqs' /\
  time_wf (now + period (tcu_clk (tcu_profile t))) (if is_paused then n else n + 1) (tw_tcu w') reqs'.
Proof using Hset.
  intros Hq Ht Hu Hr Hcu Hstep t is_paused reqs'.
  destruct (tcu_step_cases preflight sync_preflight now epoch candidate results sync_paused w Hr)
    as [(e & env & Hfault)|(trigger & d & flags & ticks & env & tr & o & _ & Htr & Hadm & Hfl & Htk & Hok &
        Hla & Had & _ & _)]; [congruence|].
  rewrite Hok in Hstep. injection Hstep as -> <-.
  fold t in Htr, Hadm, Hfl, Htk, Hq, Ht. apply (prepare_trigger_ok epoch now n t reqs) in Htr; [|done..].
  fold is_paused in Htr, Htk. cbv zeta in Htr.
  assert (Hc0 := ts_ports _ _ Hset). assert (Hfsz := next_flags_size _ _ _ _ Hfl).
  rewrite (qw_flags _ _ _ _ Hq) in Hfsz.
  assert (Hadm' : forall r, candidate = Some r -> prepare_admission t now epoch r
    (st_pause (current_timing_state t now sync_paused)) = Ok d) by (intros r ->; done).
  assert (Hnew : reqs' = (if fires n is_paused reqs then tail reqs else reqs) ++ new_requests candidate d).
  { unfold reqs', next_requests, new_requests. f_equal. rewrite Had. destruct candidate as [r|]; [|done].
    destruct d as [d|]; [|done]. do 2 f_equal. symmetry.
    by apply (prepare_admission_ok _ _ _ _ _ _ _ _ Hq Hc0 (Hcu r eq_refl) (tm_due _ _ _ _ Ht) (Hadm' r eq_refl)). }
  rewrite Hnew. simpl tw_tcu. fold t. split_and!.
  - by rewrite Hla, Htr.
  - apply (tcu_after_queue c epoch now n); try done. rewrite Htr. unfold fired_at.
    fold t is_paused. destruct (fires n is_paused reqs) eqn:Ef; [|done]. by destruct reqs.
  - apply (tcu_after_time c epoch now n); try done. fold t is_paused.
    destruct is_paused; [by apply checked_add_ok in Htk as [_ ->] | by inv_ok Htk].
Qed.

(** C1. The unit fires what was admitted, when it is due.  Seen as a list of requests with due cycles, a
    step that succeeds launches exactly the head request, if the timer runs, is not paused and has
    reached its cycle: the launched events are those of the request whose execution flag holds, in
    order, stamped with this tick.  The admitted request joins the end of the list with the cycle
    that follows from its interval, and the timer counts one cycle unless it is paused. *)
Theorem tcu_step_refines (epoch : Epoch) (now : Tick) (n : Z) (w w' : TcuWorld E) (reqs : list QueuedRequest)
    (candidate : option TimingEvents) (results : list Completion) (sync_paused : bool) (out : TcuOutput) :
  queue_wf c epoch (tw_tcu w) reqs -> time_wf now n (tw_tcu w) reqs -> u64 now ->
  trace_ready now (tw_trace w) -> (forall r, candidate = Some r -> candidate_unsigned r) ->
  tcu_step preflight sync_preflight now epoch candidate results sync_paused w = (Ok out, w') ->
  let t := tw_tcu w in
  let is_paused := paused (st_pause (current_timing_state t now sync_paused)) in
  let reqs' := next_requests t n is_paused candidate out reqs in
  launch out = option_map batch (fired_at n t epoch now is_paused reqs) /\
  queue_wf c epoch (tw_tcu w') reqs' /\
  time_wf (now + period (tcu_clk (tcu_profile t))) (if is_paused then n else n + 1) (tw_tcu w') reqs'.
Proof using Hset. apply tcu_step_wf. Qed.

(** C6. A queued point never misses its edge.  On a well-formed queue the unit's own checks cannot fail:
    the head point is at its cycle, the manifest and the port queues agree, and the trigger is the
    head request's; a step faults only if the device's or the synchronization unit's preflight, the
    candidate's admission, the fast results, the pause counter or the clock edge does. *)
Theorem firing_never_faults (epoch : Epoch) (now : Tick) (n : Z) (t : TcuCycleModel)
    (reqs : list QueuedRequest) (sync_paused : bool) (point : Point) :
  queue_wf c epoch t reqs -> time_wf now n t reqs -> u64 now ->
  let state := current_timing_state t now sync_paused in
  firing_point t state = Some point ->
  exists r, head reqs = Some (r, due point) /\ due point = st_cycle state /\ pt_point point = te_point r /\
    now = tcu_origin t + paused_ticks t + due point * period (tcu_clk (tcu_profile t)) /\
    head_trigger t now epoch state point = Ok (fired (execution_flags_ t) epoch now r).
Proof using Hset.
  intros Hq Ht Hu state H. pose proof (firing_point_eq c epoch now n t reqs sync_paused Hq Ht Hu) as Hp.
  cbv zeta in Hp. fold state in Hp. rewrite Hp in H.
  destruct (fires n _ reqs) eqn:Ef; [|done]. unfold fires in Ef. destruct reqs as [|[r d] reqs]; [done|].
  injection H as <-. reflect. subst d.
  destruct (current_state_eq now n t _ sync_paused Ht Hu) as (_ & Hcy & _). fold state in Hcy.
  exists r. split_and!; [done | cbn [due]; lia | done | simpl; apply (tm_elapsed _ _ _ _ Ht) |].
  apply (head_trigger_eq p c epoch t r n reqs); [exact Hset | exact Hq | rewrite Hcy; lia].
Qed.

(** C16. A rejected step leaves the unit as it was.  When the trace accepts the current tick, a step that
    faults, for any reason, changes neither the unit nor the trace; only the parameters' own state can
    have moved. *)
Theorem tcu_step_atomic (epoch : Epoch) (now : Tick) (candidate : option TimingEvents)
    (results : list Completion) (sync_paused : bool) (w w' : TcuWorld E) (e : ErrorCode) :
  trace_ready now (tw_trace w) ->
  tcu_step preflight sync_preflight now epoch candidate results sync_paused w = (Fault e, w') ->
  tw_tcu w' = tw_tcu w /\ tw_trace w' = tw_trace w.
Proof using Type.
  intros Hr H.
  destruct (tcu_step_cases preflight sync_preflight now epoch candidate results sync_paused w Hr)
    as [(e' & env & Hf)|(trigger & d & flags & ticks & env & tr & o & _ & _ & _ & _ & _ & Hok & _)];
    [|congruence].
  rewrite Hf in H. by injection H as <- <-.
Qed.
End Steps.

(** ** A new unit represents the empty queue *)
Lemma tcu_new_wf p config cap epoch now n t :
  tcu_setup p (tcu_timing config) -> clock_valid (tcu_clk config) -> 0 <= tcu_start config ->
  0 <= tc_qubits (tcu_timing config) -> cap <= max64 ->
  now = tcu_start config + n * period (tcu_clk config) ->
  tcu_new config cap = Ok t ->
  queue_wf (tcu_timing config) epoch t [] /\ time_wf now n t [].
Proof.
  intros [_ Hp _ _] Hclk Hs Hqb Hcap Hn H. unfold tcu_new in H. inv_ok H. reflect. split; constructor; simpl;
    try constructor; try done; try lia.
  - unfold size_of. rewrite repeat_length. lia.
  - intros q Hq. by rewrite nth_repeat.
  - unfold flags_new, size_of. rewrite repeat_length. lia.
  - apply Hclk.
  - apply Hclk.
Qed.

(** ** An example on the built-in profile *)
Definition example_tcu : TcuCycleModel :=
  match tcu_config (fun _ => "0") default_unchecked with
  | Ok config => match tcu_new config 8 with Ok t => t | Fault _ => mkTcu config [] [] [] 0 0 0 0 0 0 true
      Strict Strict (mkPause false false) end
  | Fault _ => mkTcu (mkTcuConfig (mkTiming 0 0 0 0 0 false "" ∅) (mkClock 0 0) 0 0) [] [] [] 0 0 0 0 0 0 true
      Strict Strict (mkPause false false)
  end.

Definition example_tcu_world : TcuWorld () := mkTcuWorld example_tcu trace_new ().
Definition accept_all {A} : A -> M () unit := fun _ => m_ret ().

(** The unit after the edge before the start has admitted the measurement of qubit 1. *)
Definition example_admit : TcuWorld () :=
  snd (tcu_step accept_all (Some accept_all) 980 1 (Some example_request) [] false example_tcu_world).

Lemma example_tcu_setup : tcu_setup default_unchecked example_timing.
Proof.
  destruct (timing_config_of_valid (fun _ => "0") default_unchecked default_valid)
    as (c & Hc & _ & _ & _ & Hm).
  constructor; [exact default_valid | vm_compute; congruence | vm_compute; reflexivity |].
  intros port codeword. rewrite <-Hm. unfold example_timing. by rewrite Hc.
Qed.

Lemma example_tcu_wf :
  queue_wf example_timing 1 example_tcu [] /\ time_wf 980 (-1) example_tcu [].
Proof.
  assert (K : is_ok (let? config := tcu_config (fun _ => "0") default_unchecked in tcu_new config 8) = true)
    by (vm_compute; reflexivity).
  destruct (tcu_config (fun _ => "0") default_unchecked) as [config|] eqn:E; [|discriminate].
  cbn [result_bind] in K. destruct (tcu_new config 8) as [t|] eqn:Et; [|discriminate].
  assert (example_tcu = t) as -> by (unfold example_tcu; by rewrite E, Et).
  unfold tcu_config in E. apply result_bind_ok in E as (tc & Htc & E). apply Ok_inj in E.
  assert (example_timing = tc) as Htm by (unfold example_timing; by rewrite Htc). subst tc config.
  refine (tcu_new_wf default_unchecked (mkTcuConfig example_timing (tcu_clock default_unchecked)
    (start default_unchecked) (timing_capacity default_unchecked)) 8 1 980 (-1) t example_tcu_setup
    _ _ _ _ _ Et); [split|..]; vm_compute; try split; congruence.
Qed.

Lemma example_candidate : forall r, Some example_request = Some r -> candidate_unsigned r.
Proof. intros r [= <-]. split; [forall_list ltac:(simpl; lia) | simpl; lia]. Qed.

Lemma u64_literal : u64 980 /\ u64 1000.
Proof. unfold u64, max64. lia. Qed.

Lemma is_ok_run {S A} (m : result A * S) : is_ok (fst m) = true -> exists a s, m = (Ok a, s).
Proof. destruct m as [[a|e] s]; [eauto | done]. Qed.

Lemma fst_run {S A} (m : result A * S) r : fst m = r -> m = (r, snd m).
Proof. by destruct m; simpl; intros ->. Qed.

#[local] Opaque example_tcu example_timing example_request.

Lemma example_admit_wf :
  queue_wf example_timing 1 (tw_tcu example_admit) [(example_request, 0)] /\
  time_wf 1000 0 (tw_tcu example_admit) [(example_request, 0)].
Proof.
  destruct example_tcu_wf as [Hq Ht].
  assert (Ho : match fst (tcu_step accept_all (Some accept_all) 980 1 (Some example_request) [] false
                 example_tcu_world) with Ok o => admitted o | Fault _ => false end = true)
    by (vm_compute; reflexivity).
  assert (Hn1 : 980 + period (tcu_clk (tcu_profile example_tcu)) = 1000) by (vm_compute; reflexivity).
  assert (Hn2 : due_cycle example_tcu example_request = 0) by (vm_compute; reflexivity).
  assert (Hn3 : paused (st_pause (current_timing_state example_tcu 980 false)) = false)
    by (vm_compute; reflexivity).
  destruct (is_ok_run (tcu_step accept_all (Some accept_all) 980 1 (Some example_request) [] false
    example_tcu_world) ltac:(vm_compute; reflexivity)) as (o & w & E).
  rewrite E in Ho. cbn [fst] in Ho.
  assert (Hw : example_admit = w) by (unfold example_admit; by rewrite E). rewrite Hw.
  destruct (tcu_step_wf default_unchecked example_timing example_tcu_setup accept_all (Some accept_all)
    1 980 (-1) example_tcu_world w [] (Some example_request) [] false o Hq Ht (proj1 u64_literal)
    I example_candidate E) as (_ & Hq1 & Ht1).
  change (tw_tcu example_tcu_world) with example_tcu in Hq1, Ht1.
  unfold next_requests in Hq1, Ht1. rewrite Ho, ?Hn1, Hn2, ?Hn3 in Hq1. rewrite Ho, Hn1, Hn2, Hn3 in Ht1.
  split; [exact Hq1 | exact Ht1].
Qed.
#[local] Opaque example_admit.

(** The measurement admitted before the start fires at the start, cycle 0. *)
Lemma tcu_step_refines_witness :
  exists out w', tcu_step accept_all (Some accept_all) 1000 1 None [] false example_admit = (Ok out, w') /\
    launch out = Some (mkTriggered 1 1 1000 (te_events example_request)) /\
    queue_wf example_timing 1 (tw_tcu w') [] /\ time_wf 1020 1 (tw_tcu w') [].
Proof.
  destruct example_admit_wf as [Hq Ht].
  assert (Hn1 : 1000 + period (tcu_clk (tcu_profile (tw_tcu example_admit))) = 1020)
    by (vm_compute; reflexivity).
  assert (Hn2 : paused (st_pause (current_timing_state (tw_tcu example_admit) 1000 false)) = false)
    by (vm_compute; reflexivity).
  assert (Hn3 : option_map batch (fired_at 0 (tw_tcu example_admit) 1 1000 false [(example_request, 0)]) =
                Some (mkTriggered 1 1 1000 (te_events example_request))) by (vm_compute; reflexivity).
  destruct (is_ok_run (tcu_step accept_all (Some accept_all) 1000 1 None [] false example_admit)
    ltac:(vm_compute; reflexivity)) as (o & w & E).
  destruct (tcu_step_refines default_unchecked example_timing example_tcu_setup accept_all (Some accept_all)
    1 1000 0 example_admit w _ None [] false o Hq Ht (proj2 u64_literal)
    ltac:(vm_compute; congruence) ltac:(intros r Hr; discriminate Hr) E) as (Hl & Hq2 & Ht2).
  rewrite Hn2 in Hl, Hq2, Ht2. rewrite Hn1 in Ht2. rewrite Hn3 in Hl. exists o, w.
  exact (conj E (conj Hl (conj Hq2 Ht2))).
Defined.

Lemma firing_never_faults_witness :
  exists point, firing_point (tw_tcu example_admit) (current_timing_state (tw_tcu example_admit) 1000 false)
      = Some point /\
    exists r, head [(example_request, 0)] = Some (r, due point).
Proof.
  destruct example_admit_wf as [Hq Ht].
  assert (Hp : exists point, firing_point (tw_tcu example_admit)
      (current_timing_state (tw_tcu example_admit) 1000 false) = Some point)
    by (eexists; vm_compute; reflexivity).
  destruct Hp as (point & E).
  destruct (firing_never_faults default_unchecked example_timing example_tcu_setup 1 1000 0
    (tw_tcu example_admit) _ false point Hq Ht (proj2 u64_literal) E) as (r & H & _).
  exists point. split; [exact E | exists r; exact H].
Defined.

Lemma tcu_step_atomic_witness :
  fst (tcu_step accept_all (Some accept_all) 1000 1 (Some example_request) [] false example_admit)
    = Fault Protocol /\
  tw_tcu (snd (tcu_step accept_all (Some accept_all) 1000 1 (Some example_request) [] false example_admit))
    = tw_tcu example_admit.
Proof.
  assert (E : fst (tcu_step accept_all (Some accept_all) 1000 1 (Some example_request) [] false example_admit)
              = Fault Protocol) by (vm_compute; reflexivity).
  split; [exact E|].
  exact (proj1 (tcu_step_atomic accept_all (Some accept_all) 1 1000 (Some example_request) [] false example_admit _
           Protocol ltac:(vm_compute; congruence) (fst_run _ _ E))).
Defined.
