(* ===== verification/Sync.v ===== *)
(** * Synchronization between controllers (src/sync.cpp, include/qsbit/sync.hpp)

    [SyncNetwork] carries one-bit signals between neighbouring controllers with a configured delay in
    each direction; [SyncUnit] books a rendezvous with a neighbour: it sends a signal, and pauses its
    controller's timer from its own deadline until the neighbour's signal has arrived.  The network
    and the trace are shared between units, so the operations of a unit act on [SyncWorld]. *)

From S2P Require Import Prelude Error Time Trace.

Record SyncConnection := mkConnection {
  first : Z; second : Z; first_to_second : Tick; second_to_first : Tick; connection_capacity : Z }.

Record Signal := mkSignal { arrival : Tick; consumed : option Tick }.
Record Link := mkLink { link_delay : Tick; link_capacity : Z; signals : list Signal }.
#[global] Instance eta_Link : Eta Link := fun l => mkLink (link_delay l) (link_capacity l) (signals l).

Record SyncNetwork := mkNetwork { net_clock : Clock; links_ : gmap (Z * Z) Link }.
#[global] Instance eta_SyncNetwork : Eta SyncNetwork := fun n => mkNetwork (net_clock n) (links_ n).

(** [links_.emplace(...).second] is required to be true. *)
Definition add_link (c : Clock) (capacity : Z) (links : gmap (Z * Z) Link) (l : Z * Z * Tick)
    : result (gmap (Z * Z) Link) :=
  let '(source, target, cycles) := l in
  let? delay := checked_mul cycles (period c) in
  do? require (bool_decide (links !! (source, target) = None)) InvalidProfile in
  Ok (<[(source, target) := mkLink delay capacity []]> links).

Definition add_connection (c : Clock) (links : gmap (Z * Z) Link) (n : SyncConnection)
    : result (gmap (Z * Z) Link) :=
  do? require (negb (first n =? second n) && (0 <? connection_capacity n) &&
               (0 <? first_to_second n) && (0 <? second_to_first n)) InvalidProfile in
  result_fold (add_link c (connection_capacity n))
    [(first n, second n, first_to_second n); (second n, first n, second_to_first n)] links.

Definition network_new (c : Clock) (connections : list SyncConnection) : result SyncNetwork :=
  do? clock_validate c in
  let? links := result_fold (add_connection c) connections ∅ in
  Ok (mkNetwork c links).

Definition network_delay (n : SyncNetwork) (source target : Z) : result Tick :=
  match links_ n !! (source, target) with
  | Some l => Ok (link_delay l)
  | None => Fault UnsupportedSynchronization
  end.

(** The signals [preflight] keeps. *)
Definition outstanding (now : Tick) (s : Signal) : bool :=
  match consumed s with Some at_ => negb (at_ <? now) | None => true end.

Definition modify_link (source target : Z) (f : list Signal -> list Signal) (n : SyncNetwork)
    : SyncNetwork :=
  n <| links_ ::= alter (fun l => l <| signals ::= f |>) (source, target) |>.

Definition link_at (n : SyncNetwork) (source target : Z) : Link :=
  default (mkLink 0 0 []) (links_ n !! (source, target)).

Definition network_preflight (source target : Z) (now : Tick) : M SyncNetwork unit :=
  let! n := m_get in
  let! _ := m_lift (network_delay n source target) in
  do! m_lift (require (clock_edge (net_clock n) now) Protocol) in
  do! m_modify (modify_link source target (List.filter (outstanding now))) in
  let! link := m_gets (fun n => link_at n source target) in
  do! m_lift (require (size_of (signals link) <? link_capacity link) Capacity) in
  let! _ := m_lift (checked_add now (link_delay link)) in
  m_ret ().

Definition network_send (source target : Z) (now : Tick) : M SyncNetwork unit :=
  do! network_preflight source target now in
  let! link := m_gets (fun n => link_at n source target) in
  let! at_ := m_lift (checked_add now (link_delay link)) in
  m_modify (modify_link source target (fun l => l ++ [mkSignal at_ None])).

(** The loop of [receive]: the first signal that has arrived and was not consumed is consumed. *)
Fixpoint receive_signal (now : Tick) (l : list Signal) : option (Tick * list Signal) :=
  match l with
  | [] => None
  | s :: rest =>
      if bool_decide (consumed s = None) && (arrival s <=? now)
      then Some (arrival s, mkSignal (arrival s) (Some now) :: rest)
      else option_map (fun r => (fst r, s :: snd r)) (receive_signal now rest)
  end.

(** [links_.at] of a pair without a link would throw [std::out_of_range]; a booked unit's target is
    connected both ways, so the default is not reached (lemma [network_symmetric]). *)
Definition network_receive (source target : Z) (now : Tick) : M SyncNetwork (option Tick) :=
  let! link := m_gets (fun n => link_at n source target) in
  match receive_signal now (signals link) with
  | Some (at_, l) =>
      do! m_modify (modify_link source target (fun _ => l)) in
      m_ret (Some at_)
  | None => m_ret None
  end.

Definition network_empty (n : SyncNetwork) : bool :=
  forallb (fun entry => forallb (fun s => match consumed s with Some _ => true | None => false end)
                          (signals (snd entry))) (map_to_list (links_ n)).

Definition network_reset (n : SyncNetwork) : SyncNetwork :=
  n <| links_ ::= fmap (fun l => l <| signals := [] |>) |>.

(** ** [SyncUnit] *)
Record Booking := mkBooking { bk_target : Z; deadline : Tick; received : bool }.
#[global] Instance eta_Booking : Eta Booking := fun b => mkBooking (bk_target b) (deadline b) (received b).

Record SyncWorld := mkSyncWorld { sw_pending : option Booking; sw_network : SyncNetwork; sw_trace : Trace }.
#[global] Instance eta_SyncWorld : Eta SyncWorld :=
  fun w => mkSyncWorld (sw_pending w) (sw_network w) (sw_trace w).

Definition sync_validate (core : Z) (n : SyncNetwork) (target : Z) : result unit :=
  let? _ := network_delay n core target in Ok ().

Definition sync_preflight (core : Z) (targets : list Z) (now : Tick) : M SyncWorld unit :=
  let! w := m_get in
  do! m_lift (require ((size_of targets <=? 1) &&
                       (bool_decide (targets = []) || bool_decide (sw_pending w = None)))
                UnsupportedSynchronization) in
  m_each (fun target => on sw_network (network_preflight core target now)) targets.

Definition sync_book (core : Z) (targets : list Z) (now : Tick) (epoch : Epoch) : M SyncWorld unit :=
  do! sync_preflight core targets now in
  m_each (fun target =>
    let! n := m_gets sw_network in
    let! delay := m_lift (network_delay n core target) in
    let! d := m_lift (checked_add now delay) in
    do! on sw_network (network_send core target now) in
    do! m_modify (fun w => w <| sw_pending := Some (mkBooking target d false) |>) in
    on sw_trace (trace_emit (trace_event now epoch "SyncBooked" 0 0 0
                             <| te_value := d |> <| te_targets := [target] |>))) targets.

(** The first half of [step]: take the neighbour's signal. *)
Definition sync_receive (core : Z) (now : Tick) (epoch : Epoch) (b : Booking) : M SyncWorld Booking :=
  if received b then m_ret b else
  let! got := on sw_network (network_receive (bk_target b) core now) in
  match got with
  | None => m_ret b
  | Some at_ =>
      let b := b <| received := true |> in
      do! m_modify (fun w => w <| sw_pending := Some b |>) in
      do! on sw_trace (trace_emit (trace_event now epoch "SyncReceived" 0 0 0
                                   <| te_value := at_ |> <| te_targets := [bk_target b] |>)) in
      m_ret b
  end.

(** [step]: whether the timer is paused at this edge. *)
Definition sync_step (core : Z) (now : Tick) (epoch : Epoch) : M SyncWorld bool :=
  let! pending := m_gets sw_pending in
  match pending with
  | None => m_ret false
  | Some b =>
      let! b := sync_receive core now epoch b in
      if (deadline b <=? now) && received b then
        do! on sw_trace (trace_emit (trace_event now epoch "SyncCompleted" 0 0 0
                                     <| te_targets := [bk_target b] |>)) in
        do! m_modify (fun w => w <| sw_pending := None |>) in
        m_ret false
      else m_ret (deadline b <=? now)
  end.

Definition sync_drained (pending : option Booking) : bool :=
  match pending with None => true | Some _ => false end.
Definition sync_reset (w : SyncWorld) : SyncWorld := w <| sw_pending := None |>.

(** ** The links of a network *)
Lemma link_at_alter f n a b a' b' :
  link_at (modify_link a b f n) a' b' =
  if bool_decide ((a, b) = (a', b')) && bool_decide (is_Some (links_ n !! (a, b)))
  then link_at n a' b' <| signals ::= f |> else link_at n a' b'.
Proof.
  unfold link_at, modify_link. simpl. destruct (bool_decide_reflect ((a, b) = (a', b'))) as [[= <- <-]|Hne]; simpl.
  - rewrite lookup_alter_eq. by destruct (links_ n !! (a, b)).
  - by rewrite lookup_alter_ne.
Qed.

Lemma modify_link_lookup f n a b k :
  is_Some (links_ (modify_link a b f n) !! k) <-> is_Some (links_ n !! k).
Proof. unfold modify_link. simpl. rewrite lookup_alter_is_Some. done. Qed.

(** What a configuration asks of the pair [(source, target)]. *)
Definition connects (source target : Z) (cycles : Tick) (cap : Z) (n : SyncConnection) : Prop :=
  cap = connection_capacity n /\
  ((first n = source /\ second n = target /\ first_to_second n = cycles) \/
   (second n = source /\ first n = target /\ second_to_first n = cycles)).

Definition links_of (c : Clock) (connections : list SyncConnection) (links : gmap (Z * Z) Link) : Prop :=
  forall source target l, links !! (source, target) = Some l <->
    exists cycles cap, l = mkLink (cycles * period c) cap [] /\
      Exists (connects source target cycles cap) connections.

Lemma add_link_ok c cap links source target cycles links' :
  0 <= cycles -> add_link c cap links (source, target, cycles) = Ok links' ->
  links !! (source, target) = None /\
  links' = <[(source, target) := mkLink (cycles * period c) cap []]> links.
Proof.
  intros Hc H. unfold add_link in H. apply result_bind_ok in H as (d & K & H).
  apply checked_mul_ok in K as [_ ->]; [|done]. apply result_bind_ok in H as ([] & K & H).
  apply require_ok in K. reflect. by apply Ok_inj in H as <-.
Qed.

Lemma add_connection_links c seen links x links' :
  links_of c seen links -> add_connection c links x = Ok links' ->
  links_of c (seen ++ [x]) links' /\ first x <> second x.
Proof.
  intros Hm H. unfold add_connection in H. apply result_bind_ok in H as ([] & K1 & H).
  apply require_ok in K1. reflect. split; [|done]. cbn [result_fold] in H.
  apply result_bind_ok in H as (m1 & A1 & H). apply add_link_ok in A1 as [N1 ->]; [|lia].
  apply result_bind_ok in H as (m2 & A2 & H). apply add_link_ok in A2 as [N2 ->]; [|lia].
  apply Ok_inj in H as <-. rewrite lookup_insert_ne in N2 by congruence.
  intros s t l. setoid_rewrite Exists_app. setoid_rewrite Exists_cons. setoid_rewrite Exists_nil.
  rewrite !lookup_insert_Some, (Hm s t l). unfold connects at 3. split.
  - intros [[[= <- <-] <-]|[_ [[[= <- <-] <-]|[_ (y & k & -> & He)]]]];
      [by eexists _, _; split; [done | right; left; auto] .. | exists y, k; auto].
  - intros (y & k & -> & [He|[[-> [(<- & <- & <-)|(<- & <- & <-)]]|[]]]).
    + assert (Hin : links !! (s, t) = Some (mkLink (y * period c) k [])) by (apply Hm; eauto).
      right. split; [congruence|]. right. split; [congruence | eauto].
    + right. split; [congruence | by left].
    + by left.
Qed.

Lemma network_links c connections n :
  network_new c connections = Ok n -> clock_validate c = Ok () /\ net_clock n = c /\
  links_of c connections (links_ n) /\ Forall (fun x => first x <> second x) connections.
Proof.
  unfold network_new. intros H. apply result_bind_ok in H as ([] & Hc & H).
  apply result_bind_ok in H as (links & K & H). apply Ok_inj in H as <-.
  apply (result_fold_prefix (fun seen links => links_of c seen links /\
    Forall (fun x => first x <> second x) seen) _ _ []) in K; [by destruct K | |].
  - split; [|done]. intros s t l. rewrite lookup_empty. split; [done|]. by intros (? & ? & _ & H%Exists_nil).
  - intros d x m m' _ [Hm Hd] H. destruct (add_connection_links _ _ _ _ _ Hm H).
    split; [done|]. apply Forall_app. split; [done | by constructor].
Qed.

(** Links come in pairs, so a unit that books a neighbour can receive from it. *)
Lemma network_symmetric c connections n a b :
  network_new c connections = Ok n -> is_Some (links_ n !! (a, b)) ->
  is_Some (links_ n !! (b, a)) /\ a <> b.
Proof.
  intros Hn [l Hl]. destruct (network_links _ _ _ Hn) as (_ & _ & Hm & Hd).
  apply Hm in Hl as (y & k & _ & He). apply Exists_exists in He as (x & Hx & -> & Hc).
  rewrite Forall_forall in Hd. specialize (Hd x Hx). split.
  - destruct Hc as [(H1 & H2 & _)|(H1 & H2 & _)]; eexists; apply Hm; eexists _, _; split; [done| |done|];
      apply Exists_exists; exists x; split; unfold connects; eauto 6.
  - destruct Hc as [(<- & <- & _)|(<- & <- & _)]; congruence.
Qed.

(** ** One unit *)
Definition all_consumed (l : list Signal) : Prop := Forall (fun s => is_Some (consumed s)) l.

(** The link a booked unit listens to, when the neighbour's signal arrives at [at_] ([None]: it has not
    been sent) and time has reached [last]. *)
Definition incoming (l : list Signal) (at_ : option Tick) (got : bool) (last : Tick) : Prop :=
  match at_ with
  | None => got = false /\ all_consumed l
  | Some a => if got then a <= last /\ all_consumed l
              else exists pre, all_consumed pre /\ l = pre ++ [mkSignal a None]
  end.

Definition arrived (now : Tick) (at_ : option Tick) : bool :=
  match at_ with Some a => a <=? now | None => false end.

Lemma receive_consumed now l : all_consumed l -> receive_signal now l = None.
Proof.
  induction 1 as [|s l [t Ht] Hl IH]; simpl; [done|].
  by rewrite bool_decide_eq_false_2, IH by (by rewrite Ht).
Qed.

Lemma receive_waiting now pre a :
  all_consumed pre -> receive_signal now (pre ++ [mkSignal a None]) =
    if a <=? now then Some (a, pre ++ [mkSignal a (Some now)]) else None.
Proof.
  induction 1 as [|s l [t Ht] Hl IH]; simpl; [by destruct (a <=? now)|].
  rewrite bool_decide_eq_false_2 by (by rewrite Ht). rewrite IH. simpl. by destruct (a <=? now).
Qed.

(** Only the link [(a, b)] differs. *)
Definition link_frame (a b : Z) (n n' : SyncNetwork) : Prop :=
  (forall x y, (x, y) <> (a, b) -> link_at n' x y = link_at n x y) /\
  (forall k, is_Some (links_ n' !! k) <-> is_Some (links_ n !! k)) /\ net_clock n' = net_clock n.

Lemma link_frame_refl a b n : link_frame a b n n.
Proof. by split_and!. Qed.

Lemma link_frame_modify a b f n : link_frame a b n (modify_link a b f n).
Proof.
  split_and!; [|intros; apply modify_link_lookup | done]. intros x y Hne. rewrite link_at_alter.
  by rewrite bool_decide_eq_false_2 by congruence.
Qed.

Lemma network_receive_incoming source target now n at_ last :
  is_Some (links_ n !! (source, target)) ->
  incoming (signals (link_at n source target)) at_ false last ->
  exists n', network_receive source target now n = (Ok (if arrived now at_ then at_ else None), n') /\
    link_frame source target n n' /\
    incoming (signals (link_at n' source target)) at_ (arrived now at_) now.
Proof.
  intros Hl Hin. unfold network_receive, m_bind, m_gets. destruct at_ as [a|]; simpl in Hin.
  - destruct Hin as (pre & Hpre & E). rewrite E, receive_waiting by done. simpl. destruct (Z.leb_spec a now).
    + eexists. split; [reflexivity|]. split; [apply link_frame_modify|].
      rewrite link_at_alter, !bool_decide_eq_true_2 by done. simpl. split; [done|].
      apply Forall_app. split; [done|]. constructor; [by eexists | done].
    + exists n. split; [done|]. split; [apply link_frame_refl|]. by exists pre.
  - destruct Hin as [_ Hc]. rewrite receive_consumed by done. exists n. split; [done|]. split; [apply link_frame_refl | by split].
Qed.

Lemma sync_emit_ok now e w :
  te_tick e = now -> plain e = true -> trace_ready now (sw_trace w) ->
  exists tr, on sw_trace (trace_emit e) w = (Ok (), mkSyncWorld (sw_pending w) (sw_network w) tr) /\
    trace_ready now tr.
Proof.
  intros Ht Hp Hr. exists (trace_push e (sw_trace w)). split; [|by apply trace_ready_push].
  unfold m_zoom. rewrite trace_emit_plain by (done || by rewrite Ht). done.
Qed.

Lemma sync_step_waiting core now epoch w tgt d at_ got last :
  sw_pending w = Some (mkBooking tgt d got) -> is_Some (links_ (sw_network w) !! (tgt, core)) ->
  incoming (signals (link_at (sw_network w) tgt core)) at_ got last -> last <= now ->
  trace_ready now (sw_trace w) ->
  let got' := got || arrived now at_ in
  exists n' tr',
    sync_step core now epoch w =
      (Ok ((d <=? now) && negb got'),
       mkSyncWorld (if (d <=? now) && got' then None else Some (mkBooking tgt d got')) n' tr') /\
    link_frame tgt core (sw_network w) n' /\
    incoming (signals (link_at n' tgt core)) at_ got' now /\ trace_ready now tr'.
Proof.
  intros Hp Hl Hin Hlast Hr got'. destruct w as [pd n tr]. simpl in *. subst pd.
  assert (Hrecv : exists n' tr', sync_receive core now epoch (mkBooking tgt d got)
      (mkSyncWorld (Some (mkBooking tgt d got)) n tr) =
      (Ok (mkBooking tgt d got'), mkSyncWorld (Some (mkBooking tgt d got')) n' tr') /\
      link_frame tgt core n n' /\ incoming (signals (link_at n' tgt core)) at_ got' now /\
      trace_ready now tr').
  { unfold sync_receive. simpl received. unfold got'. destruct got; simpl.
    - exists n, tr. split_and!; try done. destruct at_ as [a|]; simpl in *; [|by destruct Hin]. split; [lia | apply Hin].
    - destruct (network_receive_incoming tgt core now n at_ last Hl Hin) as (n' & E & Hf & Hin').
      unfold m_zoom at 1, m_bind at 1. simpl sw_network. rewrite E. destruct at_ as [a|]; cbn [arrived] in *.
      2: { exists n', tr. split_and!; done. }
      destruct (a <=? now); [|exists n', tr; by split_and!].
      match goal with |- context [trace_emit ?e] =>
        destruct (sync_emit_ok now e (mkSyncWorld (Some (mkBooking tgt d true)) n' tr) eq_refl eq_refl Hr)
          as (tr' & Etr & Hr') end.
      exists n', tr'. split_and!; try done.
      rewrite (m_bind_step _ _ () _ (mkSyncWorld (Some (mkBooking tgt d true)) n' tr)) by done.
      by rewrite (m_bind_step _ _ _ _ _ Etr). }
  destruct Hrecv as (n' & tr' & E & Hf & Hin' & Hr'). unfold sync_step.
  rewrite (m_bind_step (m_gets sw_pending) _ _ _ _ eq_refl). cbn [sw_pending].
  rewrite (m_bind_step _ _ _ _ _ E). cbn [deadline received].
  destruct (d <=? now), got'; simpl; try (exists n', tr'; by split_and!).
  match goal with |- context [trace_emit ?e] =>
    destruct (sync_emit_ok now e (mkSyncWorld (Some (mkBooking tgt d true)) n' tr') eq_refl eq_refl Hr')
      as (tr2 & Etr & Hr2) end.
  exists n', tr2. split_and!; try done. by rewrite (m_bind_step _ _ _ _ _ Etr).
Qed.

(** ** Booking *)
Lemma link_frame_trans a b n1 n2 n3 : link_frame a b n1 n2 -> link_frame a b n2 n3 -> link_frame a b n1 n3.
Proof.
  intros (A1 & A2 & A3) (B1 & B2 & B3). split_and!; [|intros k; by rewrite B2 | congruence].
  intros x y Hne. by rewrite B1, A1.
Qed.

Lemma network_preflight_ok a b now n u n' :
  network_preflight a b now n = (Ok u, n') ->
  exists delay, network_delay n a b = Ok delay /\ now + delay <= max64 /\
    n' = modify_link a b (List.filter (outstanding now)) n /\ clock_edge (net_clock n) now = true /\
    size_of (List.filter (outstanding now) (signals (link_at n a b))) < link_capacity (link_at n a b).
Proof.
  intros H. unfold network_preflight in H. apply m_bind_ok in H as (n0 & n1 & H0 & H).
  injection H0 as <- <-. apply m_bind_lift_ok in H as (delay & Hd & H).
  apply m_bind_lift_ok in H as ([] & K1 & H). apply require_ok in K1.
  rewrite (m_bind_step _ _ () n (modify_link a b (List.filter (outstanding now)) n) eq_refl) in H.
  unfold m_bind at 1, m_gets in H. rewrite link_at_alter in H.
  assert (Hsome : is_Some (links_ n !! (a, b))).
  { unfold network_delay in Hd. destruct (links_ n !! (a, b)); [by eexists | done]. }
  rewrite !bool_decide_eq_true_2 in H by done. cbn [andb signals link_capacity link_delay update] in H.
  apply m_bind_lift_ok in H as ([] & K2 & H). apply require_ok in K2. reflect.
  apply m_bind_lift_ok in H as (t & K3 & H). apply checked_add_ok in K3 as [K3 ->]. inv_ok H.
  exists delay. assert (Hdl : delay = link_delay (link_at n a b)).
  { unfold network_delay in Hd. unfold link_at. destruct (links_ n !! (a, b)); [by injection Hd | done]. }
  rewrite Hdl in *. by split_and!.
Qed.

Lemma filter_outstanding_idem now l :
  List.filter (outstanding now) (List.filter (outstanding now) l) = List.filter (outstanding now) l.
Proof.
  induction l as [|s l IH]; [done|]. simpl. destruct (outstanding now s) eqn:E; simpl; [by rewrite E, IH | done].
Qed.

Lemma network_delay_at n a b delay :
  network_delay n a b = Ok delay -> is_Some (links_ n !! (a, b)) /\ link_delay (link_at n a b) = delay.
Proof. unfold network_delay, link_at. destruct (links_ n !! (a, b)); [intros [= <-]; eauto | done]. Qed.

Lemma network_send_ok a b now n u n' :
  network_send a b now n = (Ok u, n') ->
  exists delay, network_delay n a b = Ok delay /\ link_frame a b n n' /\
    signals (link_at n' a b) =
      List.filter (outstanding now) (signals (link_at n a b)) ++ [mkSignal (now + delay) None].
Proof.
  intros H. unfold network_send in H. apply m_bind_ok in H as ([] & n1 & K & H).
  apply network_preflight_ok in K as (delay & Hd & _ & -> & _ & _).
  apply network_delay_at in Hd as Hd'. destruct Hd' as [Hs Hdl].
  unfold m_bind at 1, m_gets in H. rewrite link_at_alter, !bool_decide_eq_true_2 in H by done.
  cbn [andb signals link_capacity link_delay update] in H.
  apply m_bind_lift_ok in H as (t & K3 & H). apply checked_add_ok in K3 as [K3 ->].
  injection H as _ <-. exists delay. split; [done|]. split.
  - eapply link_frame_trans; apply link_frame_modify.
  - rewrite !link_at_alter, !bool_decide_eq_true_2 by (try done; by apply modify_link_lookup).
    cbn [andb signals link_capacity link_delay update]. by rewrite Hdl.
Qed.

Lemma sync_book_ok core target now epoch w w' :
  sync_book core [target] now epoch w = (Ok (), w') -> trace_ready now (sw_trace w) ->
  exists delay, network_delay (sw_network w) core target = Ok delay /\
    sw_pending w = None /\ sw_pending w' = Some (mkBooking target (now + delay) false) /\
    link_frame core target (sw_network w) (sw_network w') /\
    signals (link_at (sw_network w') core target) =
      List.filter (outstanding now) (signals (link_at (sw_network w) core target)) ++
      [mkSignal (now + delay) None] /\
    trace_ready now (sw_trace w').
Proof.
  intros H Hr. unfold sync_book in H. apply m_bind_ok in H as ([] & w1 & K & H).
  unfold sync_preflight in K. apply m_bind_ok in K as (w0 & w2 & E & K). injection E as <- <-.
  apply m_bind_lift_ok in K as ([] & K1 & K). apply require_ok in K1. reflect.
  assert (Hp : sw_pending w = None) by (destruct H1; reflect; done).
  cbn [m_each] in K. apply m_bind_ok in K as ([] & w2 & K & K'). injection K' as <-.
  unfold m_zoom in K. destruct (network_preflight core target now (sw_network w)) as [[u|] n1] eqn:E1; [|done].
  apply network_preflight_ok in E1 as (delay & Hd & Hmax & Hn1 & _). injection K as _ <-.
  cbn [m_each] in H. apply m_bind_ok in H as ([] & w2 & K & H). injection H as <-.
  unfold m_bind at 1, m_gets in K. cbn [sw_network update] in K.
  apply m_bind_lift_ok in K as (delay' & Hd' & K). apply m_bind_lift_ok in K as (dl & K2 & K).
  apply checked_add_ok in K2 as [_ ->]. apply m_bind_ok in K as ([] & w3 & K2 & K).
  unfold m_zoom at 1 in K2. cbn [sw_network update] in K2.
  destruct (network_send core target now n1) as [[v|] n2] eqn:E2; [|done]. injection K2 as _ <-.
  apply network_send_ok in E2 as (delay2 & Hd2 & Hf & Hs).
  assert (delay' = delay /\ delay2 = delay) as [-> ->].
  { apply network_delay_at in Hd as [_ <-], Hd' as [_ <-], Hd2 as [_ <-]. rewrite Hn1, link_at_alter.
    by destruct (_ && _). }
  unfold m_bind at 1, m_modify in K.
  match type of K with m_zoom _ _ (trace_emit ?e) ?s = _ =>
    destruct (sync_emit_ok now e s eq_refl eq_refl Hr) as (tr & Etr & Hr') end.
  rewrite Etr in K. injection K as <-. exists delay. cbn [sw_pending sw_network sw_trace update].
  apply network_delay_at in Hd as Hd3. destruct Hd3 as [Hsome _].
  split_and!; try done.
  - eapply link_frame_trans; [|exact Hf]. rewrite Hn1. apply link_frame_modify.
  - rewrite Hs, Hn1, link_at_alter, !bool_decide_eq_true_2 by done.
    cbn [andb signals update]. by rewrite filter_outstanding_idem.
Qed.

(** ** Two controllers

    Two units on a shared network and trace, stepped in turn on each clock edge as the simulator does
    for its cores. *)
Record SyncPair := mkPair {
  pr_a : option Booking; pr_b : option Booking; pr_network : SyncNetwork; pr_trace : Trace }.

Definition unit_a {A} (m : M SyncWorld A) : M SyncPair A :=
  m_zoom (fun s => mkSyncWorld (pr_a s) (pr_network s) (pr_trace s))
         (fun w s => mkPair (sw_pending w) (pr_b s) (sw_network w) (sw_trace w)) m.
Definition unit_b {A} (m : M SyncWorld A) : M SyncPair A :=
  m_zoom (fun s => mkSyncWorld (pr_b s) (pr_network s) (pr_trace s))
         (fun w s => mkPair (pr_a s) (sw_pending w) (sw_network w) (sw_trace w)) m.

Section Pair.
Context (a b : Z) (epoch : Epoch).

Definition pair_step (now : Tick) : M SyncPair (bool * bool) :=
  let! pa := unit_a (sync_step a now epoch) in
  let! pb := unit_b (sync_step b now epoch) in
  m_ret (pa, pb).

Fixpoint pair_run (ts : list Tick) : M SyncPair (list (bool * bool)) :=
  match ts with
  | [] => m_ret []
  | t :: ts => let! p := pair_step t in let! ps := pair_run ts in m_ret (p :: ps)
  end.

(** [a] has booked [b] with deadline [da]; [db] is [b]'s deadline once it has booked [a]. *)
Record booked (last da : Tick) (db : option Tick) (ga gb : bool) (s : SyncPair) : Prop := {
  bp_links : a <> b /\ is_Some (links_ (pr_network s) !! (a, b)) /\ is_Some (links_ (pr_network s) !! (b, a));
  bp_a : pr_a s = Some (mkBooking b da ga);
  bp_b : pr_b s = option_map (fun d => mkBooking a d gb) db;
  bp_to_a : incoming (signals (link_at (pr_network s) b a)) db ga last;
  bp_to_b : incoming (signals (link_at (pr_network s) a b)) (Some da) gb last;
  bp_unsent : db = None -> gb = false;
  bp_trace : trace_ready last (pr_trace s) }.

Lemma trace_ready_mono t t' tr : trace_ready t tr -> t <= t' -> trace_ready t' tr.
Proof using Type. unfold trace_ready. destruct (last _); [lia | done]. Qed.

Lemma incoming_mono l at_ got last now : incoming l at_ got last -> last <= now -> incoming l at_ got now.
Proof using Type. unfold incoming. destruct at_, got; naive_solver lia. Qed.

Lemma incoming_got l d got last now :
  incoming l (Some d) got last -> last <= now -> got || arrived now (Some d) = (d <=? now).
Proof using Type.
  unfold incoming, arrived. destruct got; simpl; [|done]. intros [? _] ?. symmetry. apply Z.leb_le. lia.
Qed.

Definition done_pair (now : Tick) (s : SyncPair) : Prop :=
  pr_a s = None /\ pr_b s = None /\ trace_ready now (pr_trace s).

Lemma pair_step_alone last da s now :
  booked last da None false false s -> last <= now ->
  exists s', pair_step now s = (Ok (da <=? now, false), s') /\ booked now da None false false s'.
Proof using Type.
  intros [(Hne & L1 & L2) Ha Hb Hta Htb _ Htr] Hl.
  destruct (sync_step_waiting a now epoch (mkSyncWorld (pr_a s) (pr_network s) (pr_trace s)) b da None false last
    Ha L2 Hta Hl (trace_ready_mono _ _ _ Htr Hl)) as (n' & tr' & E & (F1 & F2 & F3) & Hin & Hr').
  cbn [arrived orb negb] in E, Hin. rewrite andb_false_r, andb_true_r in E.
  exists (mkPair (Some (mkBooking b da false)) None n' tr'). split.
  - unfold pair_step. rewrite (m_bind_step _ _ (da <=? now) _ (mkPair (Some (mkBooking b da false)) None n' tr')).
    { done. } unfold unit_a, m_zoom. rewrite E. simpl. by rewrite Hb.
  - constructor; simpl; try done; [by rewrite !F2 |].
    rewrite F1 by congruence. exact (incoming_mono _ _ _ _ _ Htb Hl).
Qed.

Lemma pair_step_both last da db ga gb s now :
  booked last da (Some db) ga gb s -> last <= now ->
  exists s', pair_step now s =
      (Ok ((da <=? now) && (now <? db), (db <=? now) && (now <? da)), s') /\
    if Z.max da db <=? now then done_pair now s'
    else booked now da (Some db) (db <=? now) (da <=? now) s'.
Proof using Type.
  intros [(Hne & L1 & L2) Ha Hb Hta Htb _ Htr] Hl.
  destruct (sync_step_waiting a now epoch (mkSyncWorld (pr_a s) (pr_network s) (pr_trace s)) b da (Some db) ga last
    Ha L2 Hta Hl (trace_ready_mono _ _ _ Htr Hl)) as (n1 & tr1 & E1 & (F1 & F2 & F3) & Hin1 & Hr1).
  rewrite (incoming_got _ _ _ _ _ Hta Hl) in E1, Hin1. simpl in F1, F2.
  assert (Htb1 : incoming (signals (link_at n1 a b)) (Some da) gb last) by (by rewrite F1 by congruence).
  destruct (sync_step_waiting b now epoch (mkSyncWorld (pr_b s) n1 tr1) a db (Some da) gb last
    Hb (proj2 (F2 _) L1) Htb1 Hl Hr1) as (n2 & tr2 & E2 & (G1 & G2 & G3) & Hin2 & Hr2).
  rewrite (incoming_got _ _ _ _ _ Htb1 Hl) in E2, Hin2. simpl in G1, G2.
  eexists. split.
  - unfold pair_step.
    erewrite m_bind_step by (unfold unit_a, m_zoom; cbn [sw_pending sw_network sw_trace] in E1; rewrite E1; reflexivity).
    erewrite m_bind_step by (unfold unit_b, m_zoom; cbn [pr_a pr_b pr_network pr_trace sw_pending sw_network sw_trace];
      rewrite E2; reflexivity).
    unfold m_ret. do 3 f_equal; f_equal; symmetry; apply Z.ltb_antisym.
  - assert (Hin3 : incoming (signals (link_at n2 b a)) (Some db) (db <=? now) now) by (by rewrite G1 by congruence).
    assert (L3 : is_Some (links_ n2 !! (a, b)) /\ is_Some (links_ n2 !! (b, a))) by (by rewrite !G2, !F2).
    cbn [sw_pending sw_network sw_trace]. revert Hin2 Hin3. clear - Hne Hr2 L3.
    destruct (Z.leb_spec (Z.max da db) now), (Z.leb_spec da now), (Z.leb_spec db now);
      intros Hin2 Hin3; try lia; [by split_and!|..]; by constructor.
Qed.
Lemma booked_mono last last' da db ga gb s :
  booked last da db ga gb s -> last <= last' -> booked last' da db ga gb s.
Proof using Type.
  intros [H1 H2 H3 H4 H5 H6 H7] Hl. constructor; try done; [by eapply incoming_mono..|].
  by eapply trace_ready_mono.
Qed.

Lemma pair_run_alone last tb da s ts :
  booked last da None false false s -> StronglySorted Z.le (last :: ts) -> Forall (fun t => t <= tb) (last :: ts) ->
  exists s', pair_run ts s = (Ok (map (fun t => (da <=? t, false)) ts), s') /\ booked tb da None false false s'.
Proof using Type.
  revert last s. induction ts as [|t ts IH]; intros last s Hb Hs Hf.
  { exists s. split; [done|]. apply Forall_cons in Hf as [Hf _]. by eapply booked_mono. }
  apply StronglySorted_inv in Hs as [Hs Hall]. apply Forall_cons in Hall as [Hl _].
  apply Forall_cons in Hf as [_ Hf].
  destruct (pair_step_alone _ _ _ _ Hb Hl) as (s1 & E1 & Hb1).
  destruct (IH _ _ Hb1 Hs Hf) as (s2 & E2 & Hb2). exists s2. split; [|done].
  simpl. by rewrite (m_bind_step _ _ _ _ _ E1), (m_bind_step _ _ _ _ _ E2).
Qed.

(** Whether each of the two is paused at [t]. *)
Definition waits (da db t : Tick) : bool * bool := ((da <=? t) && (t <? db), (db <=? t) && (t <? da)).

Lemma pair_run_done last da db s ts :
  done_pair last s -> StronglySorted Z.le (last :: ts) -> Z.max da db <= last ->
  pair_run ts s = (Ok (map (waits da db) ts), s).
Proof using Type.
  intros (Ha & Hb & _) Hs Hm. assert (Hall : Forall (fun t => Z.max da db <= t) ts).
  { apply StronglySorted_inv in Hs as [_ Hs]. eapply Forall_impl; [exact Hs|]. simpl. lia. }
  clear Hs. induction Hall as [|t ts Ht _ IH]; [done|]. simpl.
  assert (E : pair_step t s = (Ok (false, false), s)).
  { destruct s. simpl in *. subst. reflexivity. }
  rewrite (m_bind_step _ _ _ _ _ E), (m_bind_step _ _ _ _ _ IH). unfold m_ret, waits at 2.
  rewrite (proj2 (Z.ltb_ge t db)), (proj2 (Z.ltb_ge t da)), !andb_false_r by lia. done.
Qed.

Lemma pair_run_both last da db ga gb s ts :
  booked last da (Some db) ga gb s -> StronglySorted Z.le (last :: ts) ->
  exists s', pair_run ts s = (Ok (map (waits da db) ts), s') /\
    if existsb (fun t => Z.max da db <=? t) ts then pr_a s' = None /\ pr_b s' = None
    else is_Some (pr_a s') /\ is_Some (pr_b s').
Proof using Type.
  revert last ga gb s. induction ts as [|t ts IH]; intros last ga gb s Hb Hs.
  { exists s. split; [done|]. simpl. rewrite (bp_a _ _ _ _ _ _ Hb), (bp_b _ _ _ _ _ _ Hb). simpl. eauto. }
  apply StronglySorted_inv in Hs as [Hs Hall]. apply Forall_cons in Hall as [Hl _].
  destruct (pair_step_both _ _ _ _ _ _ _ Hb Hl) as (s1 & E1 & H1). simpl.
  rewrite (m_bind_step _ _ _ _ _ E1). destruct (Z.leb_spec (Z.max da db) t) as [Hm|Hm].
  - rewrite (m_bind_step _ _ _ _ _ (pair_run_done _ da db _ _ H1 Hs Hm)). exists s1.
    split; [done | by destruct H1 as (? & ? & _)].
  - destruct (IH _ _ _ _ H1 Hs) as (s2 & E2 & H2). exists s2.
    by rewrite (m_bind_step _ _ _ _ _ E2).
Qed.

Lemma filter_all_consumed now l : all_consumed l -> all_consumed (List.filter (outstanding now) l).
Proof using Type.
  unfold all_consumed. rewrite !Forall_forall. intros H x Hx. apply H.
  apply list_elem_of_In, filter_In in Hx as [Hx _]. by apply list_elem_of_In.
Qed.

(** C8. Two controllers that book each other resume together.  Whenever [a] books [b] at [ta] and [b]
    books [a] at [tb], with any edges in between, both bookings complete at the same edge: the first
    that reaches both deadlines, where each deadline is the booking tick plus that direction's delay.
    Until then each timer is paused exactly from its own deadline on. *)
Theorem sync_rendezvous (ta tb : Tick) (ts1 ts2 : list Tick) (r2 : result (list (bool * bool)))
    (r1 : result (list (bool * bool))) (s0 s1 s2 s3 s4 : SyncPair) :
  a <> b -> is_Some (links_ (pr_network s0) !! (b, a)) -> pr_b s0 = None ->
  all_consumed (signals (link_at (pr_network s0) a b)) ->
  all_consumed (signals (link_at (pr_network s0) b a)) -> trace_ready ta (pr_trace s0) ->
  StronglySorted Z.le (ta :: ts1) -> Forall (fun t => t <= tb) (ta :: ts1) -> StronglySorted Z.le (tb :: ts2) ->
  unit_a (sync_book a [b] ta epoch) s0 = (Ok (), s1) -> pair_run ts1 s1 = (r1, s2) ->
  unit_b (sync_book b [a] tb epoch) s2 = (Ok (), s3) -> pair_run ts2 s3 = (r2, s4) ->
  exists dab dba,
    network_delay (pr_network s0) a b = Ok dab /\ network_delay (pr_network s2) b a = Ok dba /\
    let da := ta + dab in let db := tb + dba in
    r1 = Ok (map (fun t => (da <=? t, false)) ts1) /\ r2 = Ok (map (waits da db) ts2) /\
    if existsb (fun t => Z.max da db <=? t) ts2 then pr_a s4 = None /\ pr_b s4 = None
    else is_Some (pr_a s4) /\ is_Some (pr_b s4).
Proof using Type.
  intros Hne Hba Hb0 Hcab Hcba Hr Hs1 Hf Hs2 B1 R1 B2 R2.
  unfold unit_a, m_zoom in B1.
  destruct (sync_book a [b] ta epoch _) as [[[]|e] w1] eqn:E1; [|done]. injection B1 as <-.
  apply sync_book_ok in E1 as (dab & Hd & _ & Hp & (F1 & F2 & F3) & Hsig & Hr1); [|done].
  cbn [sw_network sw_pending sw_trace] in *. set (da := ta + dab) in *.
  assert (Hbk : booked ta da None false false (mkPair (sw_pending w1) (pr_b s0) (sw_network w1) (sw_trace w1))).
  { constructor; simpl; try done.
    - rewrite !F2. split_and!; [done | by apply network_delay_at in Hd as [? _] | done].
    - rewrite F1 by congruence. done.
    - exists (List.filter (outstanding ta) (signals (link_at (pr_network s0) a b))).
      split; [by apply filter_all_consumed | done]. }
  destruct (pair_run_alone _ tb _ _ _ Hbk Hs1 Hf) as (s2' & E2 & Hbk2).
  rewrite E2 in R1. injection R1 as <- <-.
  unfold unit_b, m_zoom in B2.
  destruct (sync_book b [a] tb epoch _) as [[[]|e] w3] eqn:E3; [|done]. injection B2 as <-.
  pose proof Hbk2 as [(_ & L1 & L2) Ha2 Hb2 Hta2 Htb2 _ Htr2].
  apply sync_book_ok in E3 as (dba & Hd3 & _ & Hp3 & (G1 & G2 & G3) & Hsig3 & Hr3); [|done].
  cbn [sw_network sw_pending sw_trace] in *. set (db := tb + dba) in *.
  assert (Hbk3 : booked tb da (Some db) false false (mkPair (pr_a s2') (sw_pending w3) (sw_network w3) (sw_trace w3))).
  { constructor; simpl; try done.
    - by rewrite !G2.
    - exists (List.filter (outstanding tb) (signals (link_at (pr_network s2') b a))).
      split; [apply filter_all_consumed, Hta2 | done].
    - rewrite G1 by congruence. exact Htb2. }
  destruct (pair_run_both _ _ _ _ _ _ _ Hbk3 Hs2) as (s4' & E4 & H4). rewrite E4 in R2.
  injection R2 as <- <-. by exists dab, dba.
Qed.
End Pair.

(** The network is exactly what is configured.  Construction succeeds only for positive delays and
    capacities between distinct controllers with no pair configured twice; then each connection gives
    both directions their own delay, in ticks, every other pair is unsupported, and nothing is in
    flight. *)
Theorem network_configured (c : Clock) (connections : list SyncConnection) (n : SyncNetwork) :
  network_new c connections = Ok n ->
  network_empty n = true /\
  (forall x, x ∈ connections -> first x <> second x /\
     network_delay n (first x) (second x) = Ok (first_to_second x * period c) /\
     network_delay n (second x) (first x) = Ok (second_to_first x * period c)) /\
  (forall source target, (forall x, x ∈ connections ->
       (first x, second x) <> (source, target) /\ (second x, first x) <> (source, target)) ->
     network_delay n source target = Fault UnsupportedSynchronization).
Proof.
  intros Hn. destruct (network_links _ _ _ Hn) as (_ & _ & Hm & Hd).
  assert (Hl : forall s t y k, Exists (connects s t y k) connections ->
    links_ n !! (s, t) = Some (mkLink (y * period c) k [])) by (intros s t y k He; apply Hm; eauto).
  unfold network_delay. split_and!.
  - unfold network_empty. apply forallb_forall. intros [[s t] l] Hin.
    apply list_elem_of_In, elem_of_map_to_list, Hm in Hin as (y & k & -> & _). done.
  - intros x Hx. rewrite Forall_forall in Hd. split; [by apply Hd|].
    rewrite (Hl (first x) (second x) (first_to_second x) (connection_capacity x)),
      (Hl (second x) (first x) (second_to_first x) (connection_capacity x)); [done|..];
      apply Exists_exists; exists x; unfold connects; eauto 6.
  - intros s t Hno. destruct (links_ n !! (s, t)) as [l|] eqn:E; [|done].
    apply Hm in E as (y & k & _ & He). apply Exists_exists in He as (x & Hx & _ & Hc).
    destruct (Hno x Hx) as [N1 N2]. destruct Hc as [(<- & <- & _)|(<- & <- & _)]; congruence.
Qed.

(** ** Example *)
Definition example_connection : SyncConnection := mkConnection 0 1 2 3 8.
Definition example_network : SyncNetwork :=
  match network_new (mkClock 20 0) [example_connection] with Ok n => n | Fault _ => mkNetwork (mkClock 0 0) ∅ end.

Lemma network_configured_witness :
  network_new (mkClock 20 0) [example_connection] = Ok example_network /\
  network_delay example_network 0 1 = Ok 40 /\ network_delay example_network 1 0 = Ok 60.
Proof.
  assert (E : network_new (mkClock 20 0) [example_connection] = Ok example_network) by (vm_compute; reflexivity).
  split; [exact E|].
  exact (proj2 (proj1 (proj2 (network_configured _ _ _ E)) example_connection ltac:(left))).
Defined.

(** Booked at 100 and at 140 with delays of 40 and 60, both resume at 200. *)
Lemma sync_rendezvous_witness :
  let s0 := mkPair None None example_network trace_new in
  let s1 := snd (unit_a (sync_book 0 [1] 100 1) s0) in
  let s2 := snd (pair_run 0 1 1 [120] s1) in
  let s3 := snd (unit_b (sync_book 1 [0] 140 1) s2) in
  let run := pair_run 0 1 1 [160; 180; 200] s3 in
  fst run = Ok [(true, false); (true, false); (false, false)] /\ pr_a (snd run) = None /\
  pr_b (snd run) = None.
Proof.
  intros s0 s1 s2 s3 run.
  destruct (sync_rendezvous 0 1 1 100 140 [120] [160; 180; 200] (fst run) (fst (pair_run 0 1 1 [120] s1))
    s0 s1 s2 s3 (snd run)) as (dab & dba & H1 & H2 & H3 & H4 & H5);
    try (vm_compute; try eexists; reflexivity).
  - vm_compute. discriminate.
  - vm_compute. constructor.
  - vm_compute. constructor.
  - repeat constructor; vm_compute; discriminate.
  - repeat constructor; vm_compute; discriminate.
  - repeat constructor; vm_compute; discriminate.
  - assert (dab = 40) as -> by (vm_compute in H1; congruence).
    assert (dba = 60) as -> by (vm_compute in H2; congruence).
    exact (conj H4 H5).
Defined.
