(* ===== verification/Backend.v ===== *)
(** * Batched backend execution (src/backend.cpp, include/qsbit/backend.hpp)

    [IQuantumBackend] is an interface: the class [QuantumBackend], with the laws a client may use in
    [LawfulBackend].  [BackendExecution] collects operations and hands them to the backend in batches;
    [MockBackend] is the implementation the source provides.  The refinement theorem states that
    batching cannot be observed: it implements [eager_call], which executes every operation at once. *)

From S2P Require Import Prelude Error Time Event.

Record BackendActivity := mkActivity {
  ba_id : Id; ba_start : Tick; ba_end : Tick; ba_action : EventSpec;
  ba_reference : option MeasurementReference }.

Inductive BackendOperation :=
| BackendEvolution (start tick : Tick) (drives acquisitions : list BackendActivity)
| BackendGates (tick : Tick) (gates : list EventSpec)
| BackendMeasurement (tick : Tick) (references : list MeasurementReference).

Definition operation_tick (o : BackendOperation) : Tick :=
  match o with
  | BackendEvolution _ t _ _ | BackendGates t _ | BackendMeasurement t _ => t
  end.

(** [IQuantumBackend]; an exception of [reset] or [execute] is a fault of any code. *)
Class QuantumBackend (B : Type) := {
  backend_validate : B -> EventSpec -> result unit;
  backend_reset : Z -> Z -> M B unit;
  backend_execute : Epoch -> list BackendOperation -> M B (list bool) }.

Record BackendExecution (B : Type) := mkExecution {
  be_backend : B; max_batch_operations : Z; be_pending : list BackendOperation; be_epoch : Epoch;
  committed_tick : Tick }.
Arguments mkExecution {B}.
Arguments be_backend {B}.
Arguments max_batch_operations {B}.
Arguments be_pending {B}.
Arguments be_epoch {B}.
Arguments committed_tick {B}.
#[global] Instance eta_BackendExecution {B} : Eta (BackendExecution B) := fun x =>
  mkExecution (be_backend x) (max_batch_operations x) (be_pending x) (be_epoch x) (committed_tick x).

Section Execution.
Context {B : Type} `{QuantumBackend B}.

Definition execution_new (backend : B) (max_batch : Z) : result (BackendExecution B) :=
  do? require (0 <? max_batch) InvalidProfile in
  Ok (mkExecution backend max_batch [] 0 0).

Definition execution_validate (x : BackendExecution B) (action : EventSpec) : result unit :=
  backend_validate (be_backend x) action.

Definition execution_reset (qubits seed : Z) (epoch : Epoch) (now : Tick) : M (BackendExecution B) unit :=
  do! m_modify (fun x => x <| be_pending := [] |> <| be_epoch := epoch |> <| committed_tick := now |>) in
  on be_backend (backend_reset qubits seed).

(** Whatever the [try] block throws, the batch is dropped and the fault is [BackendFailure]. *)
Definition execution_execute (expected : Z) : M (BackendExecution B) (list bool) := fun x =>
  match be_pending x with
  | [] => (Ok [], x)
  | _ =>
      let '(r, b) := backend_execute (be_epoch x) (be_pending x) (be_backend x) in
      (match r with
       | Ok results => if size_of results =? expected then Ok results else Fault BackendFailure
       | Fault _ => Fault BackendFailure
       end, x <| be_backend := b |> <| be_pending := [] |>)
  end.

Definition execution_flush : M (BackendExecution B) unit :=
  let! _ := execution_execute 0 in m_ret ().

Definition execution_commit (o : BackendOperation) : M (BackendExecution B) unit :=
  let! x := m_get in
  do! m_lift (require (committed_tick x <=? operation_tick o) Protocol) in
  do! m_modify (fun x => x <| committed_tick := operation_tick o |> <| be_pending ::= fun l => l ++ [o] |>) in
  let! x := m_get in
  if size_of (be_pending x) =? max_batch_operations x then execution_flush else m_ret ().

Definition execution_evolve (from to : Tick) (drives acquisitions : list BackendActivity)
    : M (BackendExecution B) unit :=
  let! x := m_get in
  do! m_lift (require ((from =? committed_tick x) && (from <=? to)) Protocol) in
  if from <? to then execution_commit (BackendEvolution from to drives acquisitions) else m_ret ().

Definition execution_apply (now : Tick) (gates : list EventSpec) : M (BackendExecution B) unit :=
  let! x := m_get in
  do! m_lift (result_each (execution_validate x) gates) in
  match gates with [] => m_ret () | _ => execution_commit (BackendGates now gates) end.

Definition check_measured (epoch : Epoch) (references : list MeasurementReference) : result unit :=
  let? _ := result_fold (fun (seen : gset Z) r =>
    do? require ((ref_epoch r =? epoch) && bool_decide (ref_target r ∉ seen)) Protocol in
    Ok ({[ref_target r]} ∪ seen)) references ∅ in
  Ok ().

Definition execution_measure (now : Tick) (references : list MeasurementReference)
    : M (BackendExecution B) (list bool) :=
  match references with
  | [] => m_ret []
  | _ =>
      let! x := m_get in
      do! m_lift (require (committed_tick x <=? now) Protocol) in
      do! m_lift (check_measured (be_epoch x) references) in
      do! m_modify (fun x => x <| committed_tick := now |>
             <| be_pending ::= fun l => l ++ [BackendMeasurement now references] |>) in
      execution_execute (size_of references)
  end.
End Execution.

(** ** [MockBackend] *)
Record MockBackend := mkMock { outcomes : gmap Z bool; mock_qubits : Z; calls : Z }.
#[global] Instance eta_MockBackend : Eta MockBackend :=
  fun m => mkMock (outcomes m) (mock_qubits m) (calls m).

Definition mock_new (outcomes : gmap Z bool) : MockBackend := mkMock outcomes 0 0.

Definition mock_validate (_ : MockBackend) (action : EventSpec) : result unit :=
  require (negb (bool_decide (targets action = []))) UnsupportedCapability.

Definition mock_reset (qubits _ : Z) : M MockBackend unit :=
  m_modify (fun m => m <| mock_qubits := qubits |> <| calls := 0 |>).

Definition mock_value (m : MockBackend) (epoch : Epoch) (values : list bool) (r : MeasurementReference)
    : result (list bool) :=
  do? require ((ref_epoch r =? epoch) && (ref_target r <? mock_qubits m)) BackendFailure in
  Ok (values ++ [match outcomes m !! ref_measurement r with Some b => b | None => false end]).

Definition mock_values (m : MockBackend) (epoch : Epoch) (values : list bool) (o : BackendOperation)
    : result (list bool) :=
  match o with
  | BackendMeasurement _ references => result_fold (mock_value m epoch) references values
  | _ => Ok values
  end.

Definition mock_execute (epoch : Epoch) (operations : list BackendOperation) : M MockBackend (list bool) :=
  let! m := m_get in
  let! values := m_lift (result_fold (mock_values m epoch) operations []) in
  do! m_modify (fun m => m <| calls ::= fun c => wrap64 (c + 1) |>) in
  m_ret values.

#[global] Instance mock_backend : QuantumBackend MockBackend := {|
  backend_validate := mock_validate; backend_reset := mock_reset; backend_execute := mock_execute |}.

(** ** What a client may assume of a backend (docs/backends.md)

    A backend executes the complete batch, in order; one result per reference.  That is promised of
    the batches the documentation admits only: times never decrease, an evolution starts where the
    operation before it ended, and a measurement appears only at the end ([joins]).  A backend may
    reject any other batch, as the adapters that call [validate_batch] do.  What [validate] checks (kind,
    operation and targets) does not depend on the quantum state.  States are compared by an
    equivalence, since a backend may keep counters of its own; the batch limit is documented not to
    advance the measurement seed. *)
Definition operation_results (o : BackendOperation) : Z :=
  match o with BackendMeasurement _ references => size_of references | _ => 0 end.
Definition batch_results (l : list BackendOperation) : Z := fold_right (fun o n => operation_results o + n) 0 l.

Definition is_measure (o : BackendOperation) : bool :=
  match o with BackendMeasurement _ _ => true | _ => false end.

(** An operation that may come after the time [t]. *)
Definition follows_tick (t : Tick) (o : BackendOperation) : bool :=
  (t <=? operation_tick o) && match o with BackendEvolution start _ _ _ => start =? t | _ => true end.

(** [k] may be appended to [l]. *)
Definition joins (l k : list BackendOperation) : bool :=
  forallb (fun o => negb (is_measure o)) l &&
  match last l, k with Some p, o :: _ => follows_tick (operation_tick p) o | _, _ => true end.

Class LawfulBackend (B : Type) `{QuantumBackend B} `{Equiv B} := {
  backend_equivalence :: Equivalence (≡@{B});
  execute_equiv e l s1 s2 r s1' : s1 ≡ s2 -> backend_execute e l s1 = (Ok r, s1') ->
    exists s2', backend_execute e l s2 = (Ok r, s2') /\ s1' ≡ s2';
  validate_equiv s1 s2 a : s1 ≡ s2 -> backend_validate s1 a = backend_validate s2 a;
  execute_validate e l s r s' a : backend_execute e l s = (Ok r, s') ->
    backend_validate s' a = backend_validate s a;
  execute_nil e s : exists s', backend_execute e [] s = (Ok [], s') /\ s' ≡ s;
  execute_split e l k s r s' : joins l k = true -> backend_execute e (l ++ k) s = (Ok r, s') ->
    exists r1 s1 r2 s2, backend_execute e l s = (Ok r1, s1) /\ backend_execute e k s1 = (Ok r2, s2) /\
      r = r1 ++ r2 /\ s2 ≡ s';
  execute_join e l k s r1 s1 r2 s2 : joins l k = true ->
    backend_execute e l s = (Ok r1, s1) -> backend_execute e k s1 = (Ok r2, s2) ->
    exists s', backend_execute e (l ++ k) s = (Ok (r1 ++ r2), s') /\ s' ≡ s2;
  execute_count e l s r s' : backend_execute e l s = (Ok r, s') -> size_of r = batch_results l }.

#[global] Instance mock_equiv : Equiv MockBackend :=
  fun a b => outcomes a = outcomes b /\ mock_qubits a = mock_qubits b.

(** ** The reference: no batching *)
Inductive BackendCall :=
| CallEvolve (from to : Tick) (drives acquisitions : list BackendActivity)
| CallApply (now : Tick) (gates : list EventSpec)
| CallMeasure (now : Tick) (references : list MeasurementReference).

Record Eager (B : Type) := mkEager { eager_backend : B; eager_epoch : Epoch; eager_tick : Tick }.
Arguments mkEager {B}.
Arguments eager_backend {B}.
Arguments eager_epoch {B}.
Arguments eager_tick {B}.

Fixpoint run_calls {S} (call : BackendCall -> M S (list bool)) (calls : list BackendCall)
    : M S (list (list bool)) :=
  match calls with
  | [] => m_ret []
  | c :: calls => let! r := call c in let! rs := run_calls call calls in m_ret (r :: rs)
  end.

Section Eager.
Context {B : Type} `{QuantumBackend B}.

Definition batched_call (c : BackendCall) : M (BackendExecution B) (list bool) :=
  match c with
  | CallEvolve from to drives acquisitions =>
      do! execution_evolve from to drives acquisitions in m_ret []
  | CallApply now gates => do! execution_apply now gates in m_ret []
  | CallMeasure now references => execution_measure now references
  end.

Definition batched_run (calls : list BackendCall) : M (BackendExecution B) (list (list bool)) :=
  let! rs := run_calls batched_call calls in
  do! execution_flush in m_ret rs.

(** Time never decreases and the operation is executed at once. *)
Definition eager_operation (o : BackendOperation) : M (Eager B) (list bool) := fun y =>
  if eager_tick y <=? operation_tick o then
    let '(r, b) := backend_execute (eager_epoch y) [o] (eager_backend y) in
    (match r with
     | Ok results => if size_of results =? operation_results o then Ok results else Fault BackendFailure
     | Fault _ => Fault BackendFailure
     end, mkEager b (eager_epoch y) (operation_tick o))
  else (Fault Protocol, y).

Definition eager_call (c : BackendCall) : M (Eager B) (list bool) := fun y =>
  match c with
  | CallEvolve from to drives acquisitions =>
      (do! m_lift (require ((from =? eager_tick y) && (from <=? to)) Protocol) in
       if from <? to then eager_operation (BackendEvolution from to drives acquisitions) else m_ret []) y
  | CallApply now gates =>
      (do! m_lift (result_each (backend_validate (eager_backend y)) gates) in
       match gates with [] => m_ret [] | _ => eager_operation (BackendGates now gates) end) y
  | CallMeasure now references =>
      match references with
      | [] => (Ok [], y)
      | _ =>
          (do! m_lift (require (eager_tick y <=? now) Protocol) in
           do! m_lift (check_measured (eager_epoch y) references) in
           eager_operation (BackendMeasurement now references)) y
      end
  end.
End Eager.

Section Batching.
Context {B : Type} `{HQ : QuantumBackend B} `{HE : Equiv B} {HL : LawfulBackend B}.

Lemma batch_results_app l k : batch_results (l ++ k) = batch_results l + batch_results k.
Proof. induction l as [|o l IH]; simpl; [done | rewrite IH; lia]. Qed.

Lemma operation_results_nonneg o : 0 <= operation_results o.
Proof. destruct o; simpl; auto with qsbit; lia. Qed.

Lemma batch_results_nonneg l : 0 <= batch_results l.
Proof. induction l as [|o l IH]; simpl; [lia|]. pose proof (operation_results_nonneg o). lia. Qed.

(** The state a batched execution stands for once its pending operations are executed. *)
Definition batch_inv (x : BackendExecution B) : Prop :=
  size_of (be_pending x) < max_batch_operations x /\
  forallb (fun o => negb (is_measure o)) (be_pending x) = true /\
  match last (be_pending x) with Some o => operation_tick o = committed_tick x | None => True end.

Lemma quiet_results o : is_measure o = false -> operation_results o = 0.
Proof. by destruct o. Qed.

Lemma quiet_batch l : forallb (fun o => negb (is_measure o)) l = true -> batch_results l = 0.
Proof.
  induction l as [|o l IH]; [done|]. simpl. intros H. apply andb_true_iff in H as [H1 H2].
  apply negb_true_iff in H1. by rewrite (quiet_results _ H1), (IH H2).
Qed.

(** What is pending may be followed by an operation that comes after the committed time. *)
Lemma pending_joins x o :
  batch_inv x -> follows_tick (committed_tick x) o = true -> joins (be_pending x) [o] = true.
Proof.
  intros (_ & Hq & Ht) Ho. unfold joins. rewrite Hq. destruct (last (be_pending x)) as [p|]; [|done]. by rewrite Ht.
Qed.

Record pending_ok (x : BackendExecution B) (s : B) : Prop := {
  po_inv : batch_inv x;
  po_run : backend_execute (be_epoch x) (be_pending x) (be_backend x) = (Ok [], s) }.

Definition stands_for (x : BackendExecution B) (y : Eager B) : Prop :=
  committed_tick x = eager_tick y /\ be_epoch x = eager_epoch y /\
  exists s, pending_ok x s /\ s ≡ eager_backend y.

Lemma size_zero {A} (l : list A) : size_of l = 0 -> l = [].
Proof. destruct l; [done|]. unfold size_of. simpl. lia. Qed.

(** One more operation at the end of a batch. *)
Lemma execute_snoc e l o b s t r t' :
  joins l [o] = true -> backend_execute e l b = (Ok [], s) -> s ≡ t -> backend_execute e [o] t = (Ok r, t') ->
  exists s', backend_execute e (l ++ [o]) b = (Ok r, s') /\ s' ≡ t'.
Proof.
  intros Hj H1 Hst H2. destruct (execute_equiv e [o] t s r t' (symmetry Hst) H2) as (s1 & H3 & H4).
  destruct (execute_join e l [o] b [] s r s1 Hj H1 H3) as (s' & H5 & H6).
  exists s'. split; [done|]. by rewrite H6, <-H4.
Qed.

Lemma execute_snoc_inv e l o b r s' :
  joins l [o] = true -> backend_execute e (l ++ [o]) b = (Ok r, s') ->
  exists s, backend_execute e l b = (Ok [], s) /\ forall t, s ≡ t ->
    exists t', backend_execute e [o] t = (Ok r, t') /\ s' ≡ t'.
Proof.
  intros Hj H1. destruct (execute_split e l [o] b r s' Hj H1) as (r1 & s1 & r2 & s2 & H2 & H3 & -> & H4).
  assert (r1 = []) as -> by (apply size_zero; rewrite (execute_count _ _ _ _ _ H2); apply quiet_batch;
    by apply andb_true_iff in Hj as [Hj _]).
  exists s1. split; [done|]. intros t Ht.
  destruct (execute_equiv e [o] s1 t r2 s2 Ht H3) as (t' & H5 & H6).
  exists t'. split; [done|]. by rewrite <-H4, H6.
Qed.

Lemma validate_pending x y a :
  stands_for x y -> backend_validate (be_backend x) a = backend_validate (eager_backend y) a.
Proof.
  intros (_ & _ & s & Hp & Hs).
  by rewrite <-(validate_equiv _ _ _ Hs), (execute_validate _ _ _ _ _ a (po_run _ _ Hp)).
Qed.

Lemma pending_nil b m e t :
  0 < m -> exists s, pending_ok (mkExecution b m [] e t) s /\ s ≡ b.
Proof.
  intros Hm. destruct (execute_nil e b) as (s & E & Hs). exists s. split; [|done].
  constructor; [split_and!; simpl; [by rewrite size_of_nil | done..] | exact E].
Qed.

(** [expected] results come back when a pushed operation completes the batch. *)
Lemma execution_execute_push o r s x t :
  backend_execute (be_epoch x) (be_pending x ++ [o]) (be_backend x) = (Ok r, s) ->
  size_of r = t ->
  execution_execute t (x <| committed_tick := operation_tick o |> <| be_pending ::= fun l => l ++ [o] |>) =
    (Ok r, mkExecution s (max_batch_operations x) [] (be_epoch x) (operation_tick o)).
Proof.
  intros Hx Hr. unfold execution_execute. cbn [be_pending be_epoch be_backend update].
  destruct (be_pending x ++ [o]) as [|o' l'] eqn:E; [by destruct (be_pending x)|].
  rewrite Hx. subst t. by rewrite Z.eqb_refl.
Qed.

Lemma execution_execute_push_inv o r x x' t :
  execution_execute t (x <| committed_tick := operation_tick o |> <| be_pending ::= fun l => l ++ [o] |>) =
    (Ok r, x') ->
  exists s, backend_execute (be_epoch x) (be_pending x ++ [o]) (be_backend x) = (Ok r, s) /\
    size_of r = t /\ x' = mkExecution s (max_batch_operations x) [] (be_epoch x) (operation_tick o).
Proof.
  unfold execution_execute. cbn [be_pending be_epoch be_backend update].
  destruct (be_pending x ++ [o]) as [|o' l'] eqn:E; [by destruct (be_pending x)|].
  destruct (backend_execute _ _ _) as [[res|e] s]; [|done].
  destruct (Z.eqb_spec (size_of res) t); [|done]. intros [= <- <-]. by exists s.
Qed.

Lemma eager_operation_ok o y r y' :
  eager_operation o y = (Ok r, y') -> eager_tick y <= operation_tick o /\
    backend_execute (eager_epoch y) [o] (eager_backend y) = (Ok r, eager_backend y') /\
    size_of r = operation_results o /\ eager_epoch y' = eager_epoch y /\ eager_tick y' = operation_tick o.
Proof.
  unfold eager_operation. destruct (Z.leb_spec (eager_tick y) (operation_tick o)); [|done].
  destruct (backend_execute _ _ _) as [[res|e] s]; [|done].
  destruct (Z.eqb_spec (size_of res) (operation_results o)); [|done]. by intros [= <- <-].
Qed.

Lemma eager_operation_intro o y r b :
  eager_tick y <= operation_tick o ->
  backend_execute (eager_epoch y) [o] (eager_backend y) = (Ok r, b) ->
  eager_operation o y = (Ok r, mkEager b (eager_epoch y) (operation_tick o)).
Proof.
  intros Ht He. unfold eager_operation. rewrite (proj2 (Z.leb_le _ _) Ht), He.
  rewrite (execute_count _ _ _ _ _ He). simpl. by rewrite Z.add_0_r, Z.eqb_refl.
Qed.

Definition push (o : BackendOperation) (x : BackendExecution B) : BackendExecution B :=
  x <| committed_tick := operation_tick o |> <| be_pending ::= fun l => l ++ [o] |>.

Lemma execution_commit_unfold o x :
  committed_tick x <= operation_tick o ->
  execution_commit o x =
    (if size_of (be_pending x) + 1 =? max_batch_operations x then execution_flush else m_ret ()) (push o x).
Proof.
  intros Ht. unfold execution_commit, m_bind, m_get, m_modify, m_lift, require.
  rewrite (proj2 (Z.leb_le _ _) Ht). fold (push o x). unfold push at 1. cbn [be_pending max_batch_operations update].
  by rewrite size_of_app.
Qed.

Lemma push_ok o x r s :
  batch_inv x -> is_measure o = false -> size_of (be_pending x) + 1 <> max_batch_operations x ->
  backend_execute (be_epoch x) (be_pending x ++ [o]) (be_backend x) = (Ok [], s) ->
  r = push o x -> pending_ok r s.
Proof.
  intros (Hr & Hz & _) Ho Hne He ->. constructor; [split_and!|exact He]; simpl.
  - rewrite size_of_app, size_of_cons, size_of_nil. lia.
  - rewrite forallb_app, Hz. simpl. by rewrite Ho.
  - by rewrite last_snoc.
Qed.

Lemma commit_simulated o x y r y' :
  stands_for x y -> is_measure o = false -> follows_tick (committed_tick x) o = true ->
  eager_operation o y = (Ok r, y') ->
  r = [] /\ exists x', execution_commit o x = (Ok (), x') /\ stands_for x' y'.
Proof.
  intros (Ht & He & s & [Hinv Hrun] & Hs) Ho Hf Hy.
  apply eager_operation_ok in Hy as (K1 & K2 & K3 & K4 & K5). rewrite (quiet_results _ Ho) in K3. apply size_zero in K3. subst r.
  split; [done|]. rewrite <-He in K2. destruct (execute_snoc _ _ _ _ _ _ _ _ (pending_joins _ _ Hinv Hf) Hrun Hs K2) as (s' & E & Hs').
  rewrite execution_commit_unfold by (by rewrite Ht).
  destruct (Z.eqb_spec (size_of (be_pending x) + 1) (max_batch_operations x)) as [Hm|Hm].
  - unfold execution_flush. eexists. split.
    { unfold push. by erewrite m_bind_step by (by apply execution_execute_push). }
    destruct (pending_nil s' (max_batch_operations x) (be_epoch x) (operation_tick o)) as (s2 & Hp & Hs2).
    { destruct Hinv. pose proof (size_of_nonneg (be_pending x)). lia. }
    split_and!; [done | simpl; congruence | exists s2; split; [done | by rewrite Hs2]].
  - eexists. split; [done|]. split_and!; [done | simpl; congruence |].
    exists s'. split; [by eapply push_ok | done].
Qed.

Lemma commit_implements o x x' s' :
  batch_inv x -> is_measure o = false -> follows_tick (committed_tick x) o = true ->
  execution_commit o x = (Ok (), x') -> pending_ok x' s' ->
  exists s, pending_ok x s /\ forall y, stands_for x y ->
    exists y', eager_operation o y = (Ok [], y') /\ stands_for x' y'.
Proof.
  intros Hinv Ho Hf Hx Hp'. assert (Hle : committed_tick x <= operation_tick o)
    by (apply andb_true_iff in Hf as [Hf _]; by apply Z.leb_le).
  rewrite execution_commit_unfold in Hx by done.
  assert (Hex : exists s2, backend_execute (be_epoch x) (be_pending x ++ [o]) (be_backend x) = (Ok [], s2) /\
    forall b, s2 ≡ b ->
      stands_for x' (mkEager b (be_epoch x) (operation_tick o))).
  { destruct (Z.eqb_spec (size_of (be_pending x) + 1) (max_batch_operations x)) as [Hm|Hm].
    - unfold execution_flush, push in Hx. apply m_bind_ok in Hx as (r & x1 & E & Hx). injection Hx as <-.
      apply execution_execute_push_inv in E as (s2 & E & Hsz & ->). apply size_zero in Hsz. subst r.
      exists s2. split; [done|]. intros b Hb. split_and!; [done..|].
      exists s'. split; [done|]. destruct Hp' as [_ Hr]. simpl in Hr.
      destruct (execute_nil (be_epoch x) s2) as (s3 & E3 & H3). rewrite E3 in Hr. injection Hr as <-.
      simpl. by rewrite H3.
    - injection Hx as <-. exists s'. split; [exact (po_run _ _ Hp')|].
      intros b Hb. split_and!; [done..|]. by exists s'. }
  destruct Hex as (s2 & E & Hstand).
  destruct (execute_snoc_inv _ _ _ _ _ _ (pending_joins _ _ Hinv Hf) E) as (s & Hrun & Hext).
  exists s. split; [by constructor|]. intros y (Ht & He & s3 & [_ Hrun3] & Hs3).
  rewrite Hrun in Hrun3. injection Hrun3 as <-.
  destruct (Hext _ Hs3) as (b & Hb & Hbs). rewrite He in Hb.
  eexists. split; [apply (eager_operation_intro _ _ _ b); [lia | done]|].
  rewrite <-He. by apply Hstand.
Qed.

Lemma validate_all_pending x y gates :
  stands_for x y ->
  result_each (execution_validate x) gates = result_each (backend_validate (eager_backend y)) gates.
Proof.
  intros Hs. unfold result_each. generalize (). induction gates as [|g gates IH]; intros u; [done|]. simpl.
  unfold execution_validate at 1. rewrite (validate_pending _ _ g Hs).
  destruct (backend_validate _ g); simpl; [apply IH | done].
Qed.

Lemma evolution_follows (x : BackendExecution B) from to drives acquisitions :
  (from =? committed_tick x) && (from <=? to) = true ->
  follows_tick (committed_tick x) (BackendEvolution from to drives acquisitions) = true.
Proof.
  intros H. apply andb_true_iff in H as [H1 H2]. unfold follows_tick. rewrite H1. apply Z.eqb_eq in H1 as <-.
  simpl. by rewrite H2.
Qed.

Lemma instant_follows (x : BackendExecution B) o :
  match o with BackendEvolution _ _ _ _ => false | _ => true end = true ->
  committed_tick x <= operation_tick o -> follows_tick (committed_tick x) o = true.
Proof. intros Ho H. unfold follows_tick. rewrite (proj2 (Z.leb_le _ _) H). by destruct o. Qed.

(** A commit that succeeds does not go back in time. *)
Lemma commit_time o x x' : execution_commit o x = (Ok (), x') -> committed_tick x <= operation_tick o.
Proof.
  unfold execution_commit. intros H. apply m_bind_ok in H as (x0 & x1 & E & H). injection E as <- <-.
  apply m_bind_lift_ok in H as ([] & K & _). by apply require_ok, Z.leb_le in K.
Qed.

Lemma call_simulated c x y r y' :
  stands_for x y -> eager_call c y = (Ok r, y') ->
  exists x', batched_call c x = (Ok r, x') /\ stands_for x' y'.
Proof.
  intros Hs Hy. pose proof Hs as (Ht & He & s & [Hinv Hrun] & Heq).
  destruct c as [from to drives acqs | now gates | now refs]; simpl in *.
  - apply m_bind_lift_ok in Hy as ([] & K & Hy). apply require_ok in K. rewrite <-Ht in K.
    unfold execution_evolve, m_bind, m_get, m_lift. rewrite K. simpl.
    destruct (from <? to); [|injection Hy as <- <-; by exists x].
    destruct (commit_simulated (BackendEvolution from to drives acqs) _ _ _ _ Hs eq_refl
      (evolution_follows _ _ _ drives acqs K) Hy) as (-> & x' & -> & Hs'). by exists x'.
  - apply m_bind_lift_ok in Hy as ([] & K & Hy). rewrite <-(validate_all_pending _ _ _ Hs) in K.
    unfold execution_apply, m_bind, m_get, m_lift. rewrite K.
    destruct gates as [|g gates]; [injection Hy as <- <-; by exists x|].
    pose proof (eager_operation_ok _ _ _ _ Hy) as (K1 & _). rewrite <-Ht in K1.
    destruct (commit_simulated (BackendGates now (g :: gates)) _ _ _ _ Hs eq_refl
      (instant_follows _ (BackendGates _ _) eq_refl K1) Hy) as (-> & x' & -> & Hs'). by exists x'.
  - destruct refs as [|rf refs]; [injection Hy as <- <-; by exists x|].
    apply m_bind_lift_ok in Hy as ([] & K1 & Hy). apply m_bind_lift_ok in Hy as ([] & K2 & Hy).
    apply require_ok in K1. rewrite <-Ht in K1. rewrite <-He in K2.
    apply eager_operation_ok in Hy as (L1 & L2 & L3 & L4 & L5). rewrite <-He in L2.
    assert (Hf := instant_follows x (BackendMeasurement now (rf :: refs)) eq_refl (proj1 (Z.leb_le _ _) K1)).
    destruct (execute_snoc _ _ _ _ _ _ _ _ (pending_joins _ _ Hinv Hf) Hrun Heq L2) as (s' & E & Hs').
    unfold execution_measure, m_bind, m_get, m_lift, m_modify, require. rewrite K1, K2.
    erewrite (execution_execute_push (BackendMeasurement now (rf :: refs)) r s' x) by done.
    destruct (pending_nil s' (max_batch_operations x) (be_epoch x) now) as (s2 & Hp & Hs2).
    { destruct Hinv. pose proof (size_of_nonneg (be_pending x)). lia. }
    eexists. split; [done|]. split_and!; [done | simpl; congruence |].
    exists s2. split; [done | by rewrite Hs2].
Qed.

(** What a successful call did, seen from a run whose pending operations will succeed. *)
Lemma call_implements c x r x' s' :
  batch_inv x -> batched_call c x = (Ok r, x') -> pending_ok x' s' ->
  exists s, pending_ok x s /\ forall y, stands_for x y ->
    exists y', eager_call c y = (Ok r, y') /\ stands_for x' y'.
Proof.
  intros Hinv Hx Hp'.
  assert (Hsame : x' = x -> forall r0, (forall y, stands_for x y -> eager_call c y = (Ok r0, y)) -> r = r0 ->
    exists s, pending_ok x s /\ forall y, stands_for x y ->
      exists y', eager_call c y = (Ok r, y') /\ stands_for x' y').
  { intros -> r0 Hc ->. exists s'. split; [done|]. intros y Hs. exists y. split; [by apply Hc | done]. }
  destruct c as [from to drives acqs | now gates | now refs]; simpl in Hx.
  - apply m_bind_ok in Hx as ([] & x1 & Hx & E). injection E as <- <-.
    unfold execution_evolve in Hx. apply m_bind_ok in Hx as (x0 & x2 & E & Hx). injection E as <- <-.
    apply m_bind_lift_ok in Hx as ([] & K & Hx). apply require_ok in K.
    destruct (from <? to) eqn:Eft.
    + destruct (commit_implements (BackendEvolution from to drives acqs) _ _ _ Hinv eq_refl
        (evolution_follows _ _ _ drives acqs K) Hx Hp') as (s & Hp & Hc).
      exists s. split; [done|]. intros y Hs. destruct (Hc y Hs) as (y' & Hy & Hs'). exists y'. split; [|done].
      unfold eager_call, m_bind, m_lift. destruct Hs as (Ht & _). rewrite <-Ht, K, Eft. done.
    + injection Hx as <-. apply (Hsame eq_refl []); [|done]. intros y (Ht & _).
      unfold eager_call, m_bind, m_lift. by rewrite <-Ht, K, Eft.
  - apply m_bind_ok in Hx as ([] & x1 & Hx & E). injection E as <- <-.
    unfold execution_apply in Hx. apply m_bind_ok in Hx as (x0 & x2 & E & Hx). injection E as <- <-.
    apply m_bind_lift_ok in Hx as ([] & K & Hx). destruct gates as [|g gates].
    + injection Hx as <-. by apply (Hsame eq_refl []).
    + destruct (commit_implements (BackendGates now (g :: gates)) _ _ _ Hinv eq_refl
        (instant_follows _ (BackendGates _ _) eq_refl (commit_time _ _ _ Hx)) Hx Hp') as (s & Hp & Hc).
      exists s. split; [done|]. intros y Hs. destruct (Hc y Hs) as (y' & Hy & Hs'). exists y'. split; [|done].
      unfold eager_call, m_bind, m_lift. by rewrite <-(validate_all_pending _ _ _ Hs), K.
  - destruct refs as [|rf refs]; [injection Hx as <- <-; by apply (Hsame eq_refl [])|].
    unfold execution_measure in Hx. apply m_bind_ok in Hx as (x0 & x2 & E & Hx). injection E as <- <-.
    apply m_bind_lift_ok in Hx as ([] & K1 & Hx). apply m_bind_lift_ok in Hx as ([] & K2 & Hx).
    unfold m_bind at 1, m_modify in Hx.
    apply (execution_execute_push_inv (BackendMeasurement now (rf :: refs))) in Hx as (s2 & E & Hsz & ->).
    assert (Hf := instant_follows x (BackendMeasurement now (rf :: refs)) eq_refl
      (proj1 (Z.leb_le _ _) (require_ok _ _ _ K1))).
    destruct (execute_snoc_inv _ _ _ _ _ _ (pending_joins _ _ Hinv Hf) E) as (s & Hrun & Hext).
    exists s. split; [by constructor|]. intros y (Ht & He & s3 & [_ Hrun3] & Hs3).
    rewrite Hrun in Hrun3. injection Hrun3 as <-. destruct (Hext _ Hs3) as (b & Hb & Hbs). rewrite He in Hb.
    apply require_ok, Z.leb_le in K1. eexists. split.
    { unfold eager_call, m_bind, m_lift, require. rewrite <-Ht, (proj2 (Z.leb_le _ _) K1), <-He, K2.
      apply (eager_operation_intro _ _ _ b); [simpl; lia | done]. }
    destruct (pending_nil s2 (max_batch_operations x) (be_epoch x) now) as (s4 & Hp & Hs4).
    { destruct Hinv. pose proof (size_of_nonneg (be_pending x)). lia. }
    split_and!; [done | done |]. exists s4. split; [done | by rewrite Hs4].
Qed.

Lemma run_simulated calls x y rs y' :
  stands_for x y -> run_calls eager_call calls y = (Ok rs, y') ->
  exists x', run_calls batched_call calls x = (Ok rs, x') /\ stands_for x' y'.
Proof.
  revert x y rs. induction calls as [|c calls IH]; intros x y rs Hs Hy; simpl in *.
  - injection Hy as <- <-. by exists x.
  - apply m_bind_ok in Hy as (r & y1 & Hc & Hy). apply m_bind_ok in Hy as (rs' & y2 & Hr & Hy).
    injection Hy as <- <-. destruct (call_simulated _ _ _ _ _ Hs Hc) as (x1 & E1 & Hs1).
    destruct (IH _ _ _ Hs1 Hr) as (x2 & E2 & Hs2). exists x2.
    by rewrite (m_bind_step _ _ _ _ _ E1), (m_bind_step _ _ _ _ _ E2).
Qed.

(** ** Bounds: a batch never reaches its limit between calls, whatever happens *)
Definition bounded (m : Z) (x : BackendExecution B) : Prop :=
  max_batch_operations x = m /\ batch_inv x.

Lemma execute_bounded m t x r x' :
  0 < m -> max_batch_operations x = m -> execution_execute t x = (r, x') -> bounded m x' /\ be_pending x' = [].
Proof.
  intros Hm Hx H. enough (be_pending x' = [] /\ max_batch_operations x' = m) as [H1 H2].
  { unfold bounded, batch_inv. by rewrite H1, H2, size_of_nil. }
  unfold execution_execute in H. destruct (be_pending x) eqn:E; [by injection H as <- <-|].
  destruct (backend_execute _ _ _) as [[res|e] s]; [destruct (_ =? _)|]; by injection H as <- <-.
Qed.

Lemma commit_bounded m o : 0 < m -> is_measure o = false -> keeps (bounded m) (execution_commit o).
Proof.
  intros Hm Ho x r x' (Hx & Hinv) H. pose proof Hinv as (Hr & Hz & _). unfold execution_commit, m_bind, m_get, m_lift, m_modify in H.
  destruct (require _ _); [|injection H as <- <-; by split]. cbn [max_batch_operations be_pending update] in H.
  destruct (Z.eqb_spec (size_of (be_pending x ++ [o])) (max_batch_operations x)).
  - unfold execution_flush, m_bind, m_ret in H.
    match type of H with context [execution_execute 0 ?v] => destruct (execution_execute 0 v) as [q x1] eqn:E end.
    apply (execute_bounded m) in E as [E _]; [|done..]. destruct q; by injection H as <- <-.
  - injection H as <- <-. split; [done|]. unfold batch_inv. simpl.
    rewrite size_of_app, size_of_cons, size_of_nil, forallb_app, Hz, last_snoc in *. simpl. rewrite Ho.
    split_and!; [lia | done..].
Qed.

Lemma call_bounded m c : 0 < m -> keeps (bounded m) (batched_call c).
Proof.
  intros Hm. destruct c as [from to drives acqs | now gates | now refs]; simpl.
  - unfold execution_evolve. keep_steps. by apply commit_bounded.
  - unfold execution_apply. keep_steps. by apply commit_bounded.
  - unfold execution_measure. destruct refs as [|rf refs]; [apply keeps_ret|].
    intros x r x' [Hx Hinv] H. unfold m_bind, m_get, m_lift, m_modify in H.
    destruct (require _ _); [|by injection H as <- <-]. destruct (check_measured _ _); [|by injection H as <- <-].
    by apply (execute_bounded m) in H as [H _].
Qed.

Lemma keeps_calls m calls : 0 < m -> keeps (bounded m) (run_calls batched_call calls).
Proof.
  intros Hm. induction calls as [|c calls IH]; simpl; [apply keeps_ret|].
  keep_steps; [by apply call_bounded | done].
Qed.

Lemma run_implements calls x rs x' s' :
  0 < max_batch_operations x -> batch_inv x -> run_calls batched_call calls x = (Ok rs, x') ->
  pending_ok x' s' ->
  exists s, pending_ok x s /\ forall y, stands_for x y ->
    exists y', run_calls eager_call calls y = (Ok rs, y') /\ stands_for x' y'.
Proof.
  revert x rs. induction calls as [|c calls IH]; intros x rs Hm Hinv Hx Hp; simpl in Hx.
  - injection Hx as <- <-. exists s'. split; [done|]. intros y Hs. by exists y.
  - apply m_bind_ok in Hx as (r & x1 & Hc & Hx). apply m_bind_ok in Hx as (rs' & x2 & Hr & Hx).
    injection Hx as <- <-.
    destruct (call_bounded _ c Hm x _ x1 (conj eq_refl Hinv) Hc) as [Hm1 Hinv1].
    destruct (IH x1 rs') as (s1 & Hp1 & Hsim1); [by rewrite Hm1 | done..|].
    destruct (call_implements _ _ _ _ _ Hinv Hc Hp1) as (s & Hp0 & Hsim0).
    exists s. split; [done|]. intros y Hs. destruct (Hsim0 y Hs) as (y1 & Hy1 & Hs1).
    destruct (Hsim1 y1 Hs1) as (y2 & Hy2 & Hs2). exists y2. simpl.
    by rewrite (m_bind_step _ _ _ _ _ Hy1), (m_bind_step _ _ _ _ _ Hy2).
Qed.

Lemma flush_stands x y :
  stands_for x y -> exists x', execution_flush x = (Ok (), x') /\ be_backend x' ≡ eager_backend y /\
    committed_tick x' = eager_tick y /\ be_pending x' = [].
Proof.
  intros (Ht & _ & s & [_ Hrun] & Hs). unfold execution_flush, execution_execute, m_bind, m_ret.
  destruct (be_pending x) as [|o l] eqn:E.
  - exists x. split_and!; try done. destruct (execute_nil (be_epoch x) (be_backend x)) as (s2 & E2 & H2).
    rewrite E2 in Hrun. injection Hrun as ->. by rewrite <-H2.
  - rewrite Hrun. by eexists.
Qed.

Lemma flush_implements x x' : batch_inv x -> execution_flush x = (Ok (), x') -> exists s, pending_ok x s.
Proof.
  unfold execution_flush, execution_execute, m_bind, m_ret. intros Hinv H.
  destruct (backend_execute (be_epoch x) (be_pending x) (be_backend x)) as [[res|e] s] eqn:E.
  - exists s. constructor; [done|]. rewrite E. do 2 f_equal. apply size_zero.
    rewrite (execute_count _ _ _ _ _ E). apply quiet_batch, Hinv.
  - destruct (be_pending x) eqn:Ep; [|done]. destruct (execute_nil (be_epoch x) (be_backend x)) as (s2 & E2 & _).
    by rewrite E2 in E.
Qed.

(** C13. Batching cannot be observed.  For any backend that executes a batch the documentation admits (no
    measurement before its end, adjoining times) as its operations in order, and any sequence of evolutions, gate applications and measurements closed by a flush, the batched
    execution succeeds exactly when executing every operation at once does; the measurement results
    are the same, nothing stays pending, and the backends and the committed times agree.  The batch
    limit therefore changes neither results nor final state. *)
Theorem batching_unobservable (calls : list BackendCall) (b : B) (limit : Z) (epoch : Epoch) (tick : Tick)
    (rs : list (list bool)) :
  0 < limit ->
  ((exists x', batched_run calls (mkExecution b limit [] epoch tick) = (Ok rs, x')) <->
   (exists y', run_calls eager_call calls (mkEager b epoch tick) = (Ok rs, y'))) /\
  forall x' y',
    batched_run calls (mkExecution b limit [] epoch tick) = (Ok rs, x') ->
    run_calls eager_call calls (mkEager b epoch tick) = (Ok rs, y') ->
    be_backend x' ≡ eager_backend y' /\ committed_tick x' = eager_tick y' /\ be_pending x' = [].
Proof.
  intros Hm. set (x := mkExecution b limit [] epoch tick). set (y := mkEager b epoch tick).
  assert (Hinv : batch_inv x) by (by split_and!).
  assert (Hs0 : stands_for x y).
  { destruct (pending_nil b limit epoch tick Hm) as (s & Hp & Hs). split_and!; [done..|]. by exists s. }
  assert (Hback : forall y', run_calls eager_call calls y = (Ok rs, y') ->
    exists x', batched_run calls x = (Ok rs, x') /\ be_backend x' ≡ eager_backend y' /\
      committed_tick x' = eager_tick y' /\ be_pending x' = []).
  { intros y' Hy. destruct (run_simulated _ _ _ _ _ Hs0 Hy) as (x1 & E1 & Hs1).
    destruct (flush_stands _ _ Hs1) as (x2 & E2 & Hx2). exists x2. split; [|done].
    unfold batched_run. by rewrite (m_bind_step _ _ _ _ _ E1), (m_bind_step _ _ _ _ _ E2). }
  split; [split|].
  - intros [x' Hx]. unfold batched_run in Hx. apply m_bind_ok in Hx as (rs' & x1 & Hr & Hx).
    apply m_bind_ok in Hx as ([] & x2 & Hf & Hx). injection Hx as -> ->.
    destruct (keeps_calls limit calls Hm x _ x1 (conj eq_refl Hinv) Hr) as [_ Hinv1].
    destruct (flush_implements _ _ Hinv1 Hf) as (s1 & Hp1).
    destruct (run_implements calls x rs x1 s1 Hm Hinv Hr Hp1) as (s & _ & Hsim).
    destruct (Hsim y Hs0) as (y' & Hy & _). by exists y'.
  - intros [y' Hy]. destruct (Hback y' Hy) as (x' & Hx & _). by exists x'.
  - intros x' y' Hx Hy. destruct (Hback y' Hy) as (x2 & Hx2 & H). rewrite Hx in Hx2. by injection Hx2 as <-.
Qed.

(** C34. Whatever the backend does, at most the configured number of operations is ever pending, fewer
    between calls; a batch the backend rejects is dropped and reported as [BackendFailure]. *)
Theorem batches_bounded (calls : list BackendCall) (b : B) (limit : Z) (epoch : Epoch) (tick : Tick)
    (r : result (list (list bool))) (x : BackendExecution B) :
  0 < limit -> run_calls batched_call calls (mkExecution b limit [] epoch tick) = (r, x) ->
  size_of (be_pending x) < limit /\
  (forall t e x', execution_execute t x = (Fault e, x') -> e = BackendFailure /\ be_pending x' = []).
Proof.
  intros Hm H. assert (Hinit : bounded limit (mkExecution b limit [] epoch tick)) by (by split_and!).
  destruct (keeps_calls limit calls Hm _ _ _ Hinit H) as [Hl [Hb _]].
  rewrite Hl in Hb. split; [done|]. intros t e x' He.
  destruct (execute_bounded limit _ _ _ _ Hm Hl He) as [_ Hp]. split; [|done].
  unfold execution_execute in He. destruct (be_pending x); [done|].
  destruct (backend_execute _ _ _) as [[res|e'] s]; [destruct (_ =? _)|]; congruence.
Qed.
End Batching.

(** ** The mock backend is lawful *)
Lemma mock_values_app m e l k vs :
  result_fold (mock_values m e) (l ++ k) vs =
  (let? ws := result_fold (mock_values m e) l vs in result_fold (mock_values m e) k ws).
Proof. revert vs. induction l as [|o l IH]; intros vs; simpl; [done|].
  destruct (mock_values m e vs o); simpl; [apply IH | done].
Qed.

(** Values are appended to those before, and depend on the state only through [≡]. *)
Lemma mock_value_shift m e refs vs :
  result_fold (mock_value m e) refs vs =
  (let? ws := result_fold (mock_value m e) refs [] in Ok (vs ++ ws)).
Proof.
  revert vs. induction refs as [|r refs IH]; intros vs; simpl; [by rewrite app_nil_r|].
  unfold mock_value at 1 3. destruct (require _ _); simpl; [|done]. rewrite IH.
  rewrite (IH [_]). destruct (result_fold _ refs []); simpl; [by rewrite <-app_assoc | done].
Qed.

Lemma mock_values_shift m e l vs :
  result_fold (mock_values m e) l vs =
  (let? ws := result_fold (mock_values m e) l [] in Ok (vs ++ ws)).
Proof.
  revert vs. induction l as [|o l IH]; intros vs; simpl; [by rewrite app_nil_r|].
  destruct o as [| |t refs]; simpl; [apply IH..|]. rewrite (mock_value_shift m e refs vs).
  destruct (result_fold (mock_value m e) refs []) as [ws|]; simpl; [|done].
  rewrite IH, (IH ws). destruct (result_fold _ l []); simpl; [by rewrite app_assoc | done].
Qed.

Lemma mock_values_equiv m1 m2 e l vs :
  m1 ≡ m2 -> result_fold (mock_values m1 e) l vs = result_fold (mock_values m2 e) l vs.
Proof.
  intros [Ho Hq]. revert vs. induction l as [|o l IH]; intros vs; simpl; [done|].
  assert (mock_values m1 e vs o = mock_values m2 e vs o) as ->.
  { destruct o as [| |t refs]; simpl; try done. revert vs. induction refs as [|r refs IHr]; intros vs; simpl; [done|].
    unfold mock_value at 1 3. rewrite Ho, Hq. destruct (require _ _); simpl; [apply IHr | done]. }
  destruct (mock_values m2 e vs o); simpl; [apply IH | done].
Qed.

Lemma mock_values_count m e l vs ws :
  result_fold (mock_values m e) l vs = Ok ws -> size_of ws = size_of vs + batch_results l.
Proof.
  revert vs. induction l as [|o l IH]; intros vs H; simpl in H; [injection H as <-; simpl; lia|].
  apply result_bind_ok in H as (us & Ho & H). apply IH in H. rewrite H. simpl.
  enough (size_of us = size_of vs + operation_results o) by lia.
  destruct o as [| |t refs]; simpl in *; try (injection Ho as <-; lia). clear H IH. revert vs us Ho.
  induction refs as [|r refs IHr]; intros vs us Ho; simpl in Ho; [injection Ho as <-; rewrite size_of_nil; lia|].
  apply result_bind_ok in Ho as (v1 & H1 & Ho). unfold mock_value in H1. inv_ok H1.
  rewrite (IHr _ _ Ho), size_of_app, !size_of_cons, size_of_nil. lia.
Qed.

Lemma mock_execute_eq e l m :
  mock_execute e l m =
  match result_fold (mock_values m e) l [] with
  | Ok vs => (Ok vs, m <| calls ::= fun c => wrap64 (c + 1) |>)
  | Fault c => (Fault c, m)
  end.
Proof. unfold mock_execute, m_bind, m_get, m_lift. by destruct (result_fold _ l []). Qed.

Ltac mock_run H :=
  cbn [backend_execute mock_backend] in H; rewrite mock_execute_eq in H;
  match type of H with context [result_fold ?f ?l []] =>
    let E := fresh "E" in destruct (result_fold f l []) eqn:E; [|discriminate H] end;
  injection H as ? ?; subst.

#[global] Instance mock_lawful : LawfulBackend MockBackend.
Proof.
  constructor.
  - split; [by split | intros x y [? ?]; by split | intros x y z [? ?] [? ?]; split; congruence].
  - intros e l s1 s2 r s1' Hs H. mock_run H. eexists. cbn [backend_execute mock_backend].
    rewrite mock_execute_eq, <-(mock_values_equiv _ _ _ _ _ Hs), E. split; [done|]. exact Hs.
  - done.
  - done.
  - intros e s. eexists. cbn [backend_execute mock_backend]. rewrite mock_execute_eq. by split.
  - intros e l k s r s' _ H. mock_run H. rewrite mock_values_app in E.
    apply result_bind_ok in E as (v1 & E1 & E2). rewrite mock_values_shift in E2.
    apply result_bind_ok in E2 as (v2 & E2 & E3). injection E3 as <-.
    eexists v1, _, v2, _. cbn [backend_execute mock_backend]. rewrite !mock_execute_eq, E1. split; [done|].
    rewrite (mock_values_equiv _ s) by done. by rewrite E2.
  - intros e l k s r1 s1 r2 s2 _ H1 H2. mock_run H1. mock_run H2. eexists. cbn [backend_execute mock_backend].
    rewrite mock_execute_eq, mock_values_app, E. simpl. rewrite mock_values_shift.
    rewrite (mock_values_equiv _ s) in E0 by done. rewrite E0. by split.
  - intros e l s r s' H. mock_run H. apply mock_values_count in E. by rewrite E, size_of_nil.
Qed.

(** ** Examples *)
Definition example_calls : list BackendCall :=
  [CallEvolve 0 10 [] []; CallEvolve 10 20 [] []; CallEvolve 20 30 [] [];
   CallMeasure 30 [mkReference 1 7 0]; CallEvolve 30 40 [] []].
Definition example_mock : MockBackend := snd (mock_reset 2 0 (mock_new {[7 := true]})).

(** Batches of two and of one thousand operations give the outcome of immediate execution. *)
Lemma batching_unobservable_witness :
  exists x' y', batched_run example_calls (mkExecution example_mock 2 [] 1 0) =
      (Ok [[]; []; []; [true]; []], x') /\
    run_calls eager_call example_calls (mkEager example_mock 1 0) = (Ok [[]; []; []; [true]; []], y') /\
    be_backend x' ≡ eager_backend y' /\ calls (be_backend x') = 3 /\ calls (eager_backend y') = 5.
Proof.
  destruct (batching_unobservable example_calls example_mock 2 1 0 [[]; []; []; [true]; []] ltac:(lia))
    as [Hiff Heq].
  assert (Hx : exists x', batched_run example_calls (mkExecution example_mock 2 [] 1 0) =
      (Ok [[]; []; []; [true]; []], x') /\ calls (be_backend x') = 3)
    by (eexists; split; vm_compute; reflexivity).
  assert (Hy : exists y', run_calls eager_call example_calls (mkEager example_mock 1 0) =
      (Ok [[]; []; []; [true]; []], y') /\ calls (eager_backend y') = 5)
    by (eexists; split; vm_compute; reflexivity).
  destruct Hx as (x' & Hx & Hc1), Hy as (y' & Hy & Hc2). exists x', y'.
  exact (conj Hx (conj Hy (conj (proj1 (Heq _ _ Hx Hy)) (conj Hc1 Hc2)))).
Defined.

(** Unit 5 does not exist: the batch is dropped. *)
Lemma batches_bounded_witness :
  let run := run_calls batched_call [CallEvolve 0 10 [] []; CallMeasure 10 [mkReference 1 7 5]]
               (mkExecution example_mock 2 [] 1 0) in
  fst run = Fault BackendFailure /\ size_of (be_pending (snd run)) < 2.
Proof.
  intros run. split; [vm_compute; reflexivity|].
  exact (proj1 (batches_bounded _ example_mock 2 1 0 (fst run) (snd run) ltac:(lia)
    ltac:(apply surjective_pairing))).
Defined.
