(* ===== verification/Resources.v ===== *)
(** * Output reservations (src/device/resources.cpp, include/qsbit/device/resources.hpp)

    Every operation a controller launches occupies its port, its resources and its targets for an
    interval.  [ResourceReservations] refuses a launch that conflicts with an earlier one; this file
    shows that it keeps the reserved operations free of conflicts, and refuses nothing else. *)

From S2P Require Import Prelude Error Time Event Protocol.

(** [ScheduledEvent] of include/qsbit/control_protocol.hpp. *)
Record ScheduledEvent := mkScheduled {
  se_event : OperationEvent; se_start : Tick; se_end : Tick; se_resolved : EventSpec }.

Definition se_id (a : ScheduledEvent) : Id := oe_id (se_event a).
Definition se_action (a : ScheduledEvent) : EventSpec := oe_action (se_event a).

Definition common_target (a b : EventSpec) : bool :=
  existsb (fun q => existsb (Z.eqb q) (targets b)) (targets a).

Definition output_name (e : EventSpec) : option string :=
  match ev_spec e with SpecGateOutput o => Some (output_gate o) | _ => None end.

(** Both are outputs of the same two-qubit gate. *)
Definition same_gate (a b : EventSpec) : bool :=
  match output_name a, output_name b with
  | Some g, Some h => String.eqb g h
  | _, _ => false
  end.

Definition overlap (a b : ScheduledEvent) : bool := (se_start a <? se_end b) && (se_start b <? se_end a).

Definition resource_free (x y : ResourceUse) : bool :=
  negb (res_id x =? res_id y) || (negb (res_exclusive x) && negb (res_exclusive y)).

(** The part of [pair] that applies to overlapping intervals; [true] when the early [return] is taken. *)
Definition pair_overlapping (a b : ScheduledEvent) : result bool :=
  let x := se_resolved a in
  let y := se_resolved b in
  do? require (negb (ev_port x =? ev_port y)) ResourceConflict in
  if same_gate (se_action a) (se_action b) then
    do? require ((se_start a =? se_start b) && (se_end a =? se_end b)) GateInputMismatch in
    Ok true
  else
    do? result_each (fun rx => result_each (fun ry => require (resource_free rx ry) ResourceConflict)
           (resources y)) (resources x) in
    do? (if negb (is_arm x) && negb (is_arm y) && common_target x y
         then require (bool_decide (kind x = Pulse) && bool_decide (kind y = Pulse)) ResourceConflict
         else Ok ()) in
    Ok false.

Definition sample_meets_gate (a b : ScheduledEvent) : bool :=
  is_acquire (se_resolved a) && is_gate (se_resolved b) && (se_end a =? se_start b).

Definition pair_check (a b : ScheduledEvent) : result unit :=
  let? done := (if overlap a b then pair_overlapping a b else Ok false) in
  if done : bool then Ok () else
  if common_target (se_resolved a) (se_resolved b)
  then require (negb (sample_meets_gate a b || sample_meets_gate b a)) ResourceConflict
  else Ok ().

Definition check_action (reservations : list ScheduledEvent) (acc : gset Z * list ScheduledEvent)
    (action : ScheduledEvent) : result (gset Z * list ScheduledEvent) :=
  let '(ids, earlier) := acc in
  do? require (bool_decide (se_id action ∉ ids)) Protocol in
  do? result_each (fun old =>
        do? require (negb (se_id old =? se_id action)) Protocol in
        pair_check action old) reservations in
  do? result_each (fun b => pair_check action b) earlier in
  Ok ({[se_id action]} ∪ ids, earlier ++ [action]).

Definition resources_check (reservations actions : list ScheduledEvent) : result unit :=
  let? _ := result_fold (check_action reservations) actions (∅, []) in Ok ().

(** The state is [reservations_]. *)
Definition resources_reserve (actions : list ScheduledEvent) : M (list ScheduledEvent) unit :=
  let! reservations := m_get in
  do! m_lift (resources_check reservations actions) in
  m_modify (fun l => l ++ actions).

Definition discard_before (now : Tick) (reservations : list ScheduledEvent) : list ScheduledEvent :=
  List.filter (fun a => negb (se_end a <? now)) reservations.

(** ** When two operations are compatible *)
Definition compatible (a b : ScheduledEvent) : Prop := pair_check a b = Ok ().

Lemma common_target_iff a b : common_target a b = true <-> exists q, q ∈ targets a /\ q ∈ targets b.
Proof.
  unfold common_target. rewrite existsb_exists. setoid_rewrite existsb_exists. split.
  - intros (q & Hq & p & Hp & E). apply Z.eqb_eq in E as <-. exists q. by rewrite !list_elem_of_In.
  - intros (q & Hq & Hp). exists q. rewrite list_elem_of_In in Hq, Hp. split; [done|]. exists q. by rewrite Z.eqb_refl.
Qed.

Lemma common_target_sym a b : common_target a b = common_target b a.
Proof.
  apply eq_true_iff_eq. rewrite !common_target_iff. naive_solver.
Qed.

Lemma same_gate_sym a b : same_gate a b = same_gate b a.
Proof. unfold same_gate. destruct (output_name a), (output_name b); try done. apply String.eqb_sym. Qed.

Lemma resource_free_sym x y : resource_free x y = resource_free y x.
Proof. unfold resource_free. rewrite Z.eqb_sym. by destruct (_ =? _), (res_exclusive x), (res_exclusive y). Qed.

(** What [pair] demands, as one proposition. *)
Record conflict_free (a b : ScheduledEvent) : Prop := {
  cf_port : overlap a b = true -> ev_port (se_resolved a) <> ev_port (se_resolved b);
  cf_gate : overlap a b = true -> same_gate (se_action a) (se_action b) = true ->
    se_start a = se_start b /\ se_end a = se_end b;
  cf_resources : overlap a b = true -> same_gate (se_action a) (se_action b) = false ->
    forall x y, x ∈ resources (se_resolved a) -> y ∈ resources (se_resolved b) -> resource_free x y = true;
  cf_targets : overlap a b = true -> same_gate (se_action a) (se_action b) = false ->
    is_arm (se_resolved a) = false -> is_arm (se_resolved b) = false ->
    common_target (se_resolved a) (se_resolved b) = true ->
    kind (se_resolved a) = Pulse /\ kind (se_resolved b) = Pulse;
  cf_sample : ~ (overlap a b = true /\ same_gate (se_action a) (se_action b) = true) ->
    common_target (se_resolved a) (se_resolved b) = true ->
    sample_meets_gate a b = false /\ sample_meets_gate b a = false }.

Lemma require_iff b e : require b e = Ok () <-> b = true.
Proof. destruct b; simpl; split; done || congruence. Qed.

Lemma result_seq_iff (m : result unit) (k : result unit) :
  result_bind m (fun _ => k) = Ok () <-> m = Ok () /\ k = Ok ().
Proof. destruct m as [[]|]; simpl; naive_solver. Qed.

(** The last test, common to both paths. *)
Lemma sample_check_iff a b :
  (if common_target (se_resolved a) (se_resolved b)
   then require (negb (sample_meets_gate a b || sample_meets_gate b a)) ResourceConflict else Ok ()) = Ok () <->
  (common_target (se_resolved a) (se_resolved b) = true ->
   sample_meets_gate a b = false /\ sample_meets_gate b a = false).
Proof.
  destruct (common_target _ _); [|naive_solver].
  rewrite require_iff, negb_true_iff, orb_false_iff. naive_solver.
Qed.

Lemma resources_each_iff l k :
  result_each (fun x => result_each (fun y => require (resource_free x y) ResourceConflict) k) l = Ok () <->
  forall x y, x ∈ l -> y ∈ k -> resource_free x y = true.
Proof.
  rewrite result_each_ok, Forall_forall. setoid_rewrite result_each_ok. setoid_rewrite Forall_forall.
  setoid_rewrite require_iff. naive_solver.
Qed.

Lemma compatible_iff a b : compatible a b <-> conflict_free a b.
Proof.
  unfold compatible, pair_check. destruct (overlap a b) eqn:Eo; cbn [result_bind].
  2: { rewrite sample_check_iff. split; [intros H; constructor; rewrite ?Eo; naive_solver|].
       intros [_ _ _ _ H]. apply H. rewrite Eo. naive_solver. }
  unfold pair_overlapping. destruct (same_gate _ _) eqn:Eg.
  - split.
    + intros H. apply result_bind_ok in H as (skip & H & _).
      apply result_bind_ok in H as ([] & K1 & H). apply result_bind_ok in H as ([] & K2 & _).
      rewrite require_iff in K1, K2. reflect. constructor; rewrite ?Eo, ?Eg; naive_solver.
    + intros [H1 H2 _ _ _]. specialize (H1 Eo). destruct (H2 Eo Eg) as [E1 E2].
      rewrite (proj2 (Z.eqb_neq _ _) H1), E1, E2, !Z.eqb_refl. done.
  - split.
    + intros H. apply result_bind_ok in H as (skip & H & Hs).
      apply result_bind_ok in H as ([] & K1 & H). apply result_bind_ok in H as ([] & K2 & H).
      apply result_bind_ok in H as ([] & K3 & H). apply Ok_inj in H as <-.
      rewrite sample_check_iff in Hs. rewrite resources_each_iff in K2. rewrite require_iff in K1. reflect.
      constructor; rewrite ?Eo, ?Eg; try naive_solver. intros _ _ A1 A2 A3.
      rewrite A1, A2, A3 in K3. simpl in K3. rewrite require_iff in K3. by reflect.
    + intros [H1 _ H3 H4 H5]. rewrite (proj2 (Z.eqb_neq _ _) (H1 Eo)). cbn [negb require result_bind].
      rewrite (proj2 (resources_each_iff _ _) (H3 Eo Eg)). cbn [result_bind].
      assert (K : (if negb (is_arm (se_resolved a)) && negb (is_arm (se_resolved b)) &&
        common_target (se_resolved a) (se_resolved b)
        then require (bool_decide (kind (se_resolved a) = Pulse) && bool_decide (kind (se_resolved b) = Pulse))
          ResourceConflict else Ok ()) = Ok ()).
      { destruct (_ && _) eqn:E; [|done]. reflect. destruct (H4 Eo Eg) as [-> ->]; done. }
      rewrite K. cbn [result_bind]. apply sample_check_iff, H5. rewrite Eg. naive_solver.
Qed.

Lemma overlap_sym a b : overlap a b = overlap b a.
Proof. unfold overlap. apply andb_comm. Qed.

Lemma compatible_sym a b : compatible a b -> compatible b a.
Proof.
  rewrite !compatible_iff. intros [H1 H2 H3 H4 H5].
  constructor; rewrite (overlap_sym b a), ?(same_gate_sym (se_action b)), ?(common_target_sym (se_resolved b)).
  - intros Ho E. by apply (H1 Ho).
  - intros Ho Hg. by destruct (H2 Ho Hg) as [-> ->].
  - intros Ho Hg x y Hx Hy. rewrite resource_free_sym. by apply H3.
  - intros Ho Hg A1 A2 A3. by destruct (H4 Ho Hg A2 A1 A3).
  - intros Hn Hc. by destruct (H5 Hn Hc).
Qed.

(** ** The reservations are free of conflicts *)
Record reserved_wf (l : list ScheduledEvent) : Prop := {
  rw_ids : NoDup (map se_id l);
  rw_pairs : ForallOrdPairs compatible l }.

Lemma pairs_app (R : ScheduledEvent -> ScheduledEvent -> Prop) l k :
  ForallOrdPairs R (l ++ k) <->
  ForallOrdPairs R l /\ ForallOrdPairs R k /\ forall x y, x ∈ l -> y ∈ k -> R x y.
Proof.
  induction l as [|a l IH]; simpl.
  - split; [|naive_solver]. intros H. split_and!; [constructor | done | by intros x y ?%elem_of_nil].
  - split.
    + intros H. inversion H as [|? ? Ha Hl]; subst. apply IH in Hl as (H1 & H2 & H3).
      rewrite Forall_app in Ha. destruct Ha as [Ha Hk]. split_and!; [by constructor | done |].
      intros x y [->|Hx]%elem_of_cons Hy; [by rewrite Forall_forall in Hk; apply Hk | by apply H3].
    + intros (H1 & H2 & H3). inversion H1 as [|? ? Ha Hl]; subst. constructor.
      * apply Forall_app. split; [done|]. apply Forall_forall. intros y Hy. apply H3; [by left | done].
      * apply IH. split_and!; [done..|]. intros x y Hx Hy. apply H3; [by right | done].
Qed.

Lemma pairs_snoc l a : ForallOrdPairs compatible (l ++ [a]) <->
  ForallOrdPairs compatible l /\ Forall (compatible a) l.
Proof.
  rewrite pairs_app. split.
  - intros (H1 & _ & H3). split; [done|]. apply Forall_forall. intros x Hx. apply compatible_sym, H3; [done | by left].
  - intros [H1 H2]. split_and!; [done | by repeat constructor |]. rewrite Forall_forall in H2.
    intros x y Hx [->|[]%elem_of_nil]%elem_of_cons. by apply compatible_sym, H2.
Qed.

Lemma ids_snoc l a : NoDup (map se_id (l ++ [a])) <-> NoDup (map se_id l) /\ se_id a ∉ map se_id l.
Proof.
  rewrite map_app, NoDup_app. simpl. split.
  - intros (H1 & H2 & _). split; [done|]. intros Hin. by apply (H2 _ Hin), list_elem_of_singleton.
  - intros [H1 H2]. split_and!; [done | | apply NoDup_singleton]. intros x Hx [->|[]%elem_of_nil]%elem_of_cons. done.
Qed.

Lemma in_ids x l : x ∈ map se_id l <-> exists a, a ∈ l /\ se_id a = x.
Proof. rewrite list_elem_of_In, in_map_iff. setoid_rewrite <-list_elem_of_In. naive_solver. Qed.

(** One more action, after [earlier] of the same launch. *)
Lemma check_action_iff reservations ids earlier a acc :
  (forall x, x ∈ ids <-> x ∈ map se_id earlier) -> reserved_wf (reservations ++ earlier) ->
  check_action reservations (ids, earlier) a = Ok acc <->
  acc = ({[se_id a]} ∪ ids, earlier ++ [a]) /\ reserved_wf (reservations ++ earlier ++ [a]).
Proof.
  intros Hids [Hnd Hpairs].
  assert (Hwf : reserved_wf (reservations ++ earlier ++ [a]) <->
    (se_id a ∉ ids) /\ Forall (fun old => se_id old <> se_id a /\ compatible a old) reservations /\
    Forall (compatible a) earlier).
  { rewrite app_assoc. split.
    - intros [H1 H2]. rewrite ids_snoc in H1. rewrite pairs_snoc, Forall_app in H2.
      destruct H1 as [_ H1], H2 as (_ & H2 & H3). rewrite in_ids in H1. split_and!; [| |done].
      + rewrite Hids, in_ids. intros (b & Hb & E). apply H1. exists b. rewrite elem_of_app. auto.
      + apply Forall_forall. intros b Hb. rewrite Forall_forall in H2. split; [|by apply H2].
        intros E. apply H1. exists b. rewrite elem_of_app. auto.
    - intros (H1 & H2 & H3). constructor.
      + rewrite ids_snoc. split; [done|]. rewrite in_ids. intros (b & [Hb|Hb]%elem_of_app & E).
        * rewrite Forall_forall in H2. by apply (H2 b Hb).
        * apply H1, Hids, in_ids. eauto.
      + rewrite pairs_snoc, Forall_app. split_and!; [done| |done]. eapply Forall_impl; [exact H2|]. naive_solver. }
  rewrite Hwf. unfold check_action. clear Hwf. split.
  - intros H. apply result_bind_ok in H as ([] & K1 & H). apply result_bind_ok in H as ([] & K2 & H).
    apply result_bind_ok in H as ([] & K3 & H). apply Ok_inj in H as <-. apply require_ok in K1. reflect.
    apply result_each_ok in K2, K3. split_and!; [done..| |done].
    eapply Forall_impl; [exact K2|]. intros b Hb. simpl in Hb. apply result_seq_iff in Hb as [Hb ?].
    apply require_iff in Hb. by reflect.
  - intros (-> & H1 & H2 & H3). rewrite bool_decide_eq_true_2 by done. cbn [require result_bind].
    assert (K2 : result_each (fun old => do? require (negb (se_id old =? se_id a)) Protocol in pair_check a old)
      reservations = Ok ()).
    { apply result_each_ok. eapply Forall_impl; [exact H2|]. intros b [Hb Hcb]. simpl.
      by rewrite (proj2 (Z.eqb_neq _ _) Hb). }
    assert (K3 : result_each (fun b => pair_check a b) earlier = Ok ()) by (by apply result_each_ok).
    rewrite K2. cbn [result_bind]. by rewrite K3.
Qed.

Lemma reserved_wf_prefix l k : reserved_wf (l ++ k) -> reserved_wf l.
Proof.
  intros [H1 H2]. constructor; [|by apply pairs_app in H2 as [? _]].
  rewrite map_app in H1. by apply NoDup_app in H1 as [? _].
Qed.

Lemma check_actions_iff reservations actions ids earlier :
  (forall x, x ∈ ids <-> x ∈ map se_id earlier) -> reserved_wf (reservations ++ earlier) ->
  is_ok (result_fold (check_action reservations) actions (ids, earlier)) = true <->
  reserved_wf (reservations ++ earlier ++ actions).
Proof.
  revert ids earlier. induction actions as [|a actions IH]; intros ids earlier Hids Hwf; cbn [result_fold].
  - rewrite app_nil_r. split; [done | done].
  - pose proof (check_action_iff reservations ids earlier a) as Ha.
    destruct (check_action reservations (ids, earlier) a) as [acc|e] eqn:E; cbn [result_bind].
    + destruct (proj1 (Ha acc Hids Hwf) eq_refl) as [-> Hwf1].
      rewrite IH; [by rewrite <-(app_assoc earlier)| |done].
      intros x. rewrite map_app, elem_of_app, elem_of_union, Hids. simpl. set_solver.
    + split; [done|]. intros H. exfalso.
      assert (Hpre : reserved_wf (reservations ++ earlier ++ [a])).
      { apply (reserved_wf_prefix _ actions). by rewrite <-!app_assoc. }
      pose proof (proj2 (Ha _ Hids Hwf) (conj eq_refl Hpre)). done.
Qed.

(** C15. A launch is accepted exactly when it is free of conflicts.  With reservations that are pairwise
    compatible and have distinct identities, [reserve] succeeds if and only if that remains true with
    the launch added, and then appends it; otherwise it changes nothing.  Compatible means: intervals
    that overlap use different ports and, unless both drive the same two-qubit gate over the same
    interval, no exclusive resource in common and no target in common unless both are pulses; and a
    measurement is not sampled at the tick a gate on its target starts. *)
Theorem reserve_exact (reservations actions : list ScheduledEvent) (r : result unit)
    (l : list ScheduledEvent) :
  NoDup (map se_id reservations) -> ForallOrdPairs conflict_free reservations ->
  resources_reserve actions reservations = (r, l) ->
  match r with
  | Ok _ => l = reservations ++ actions /\ NoDup (map se_id l) /\ ForallOrdPairs conflict_free l
  | Fault _ => l = reservations /\
      ~ (NoDup (map se_id (reservations ++ actions)) /\ ForallOrdPairs conflict_free (reservations ++ actions))
  end.
Proof.
  assert (Hcf : forall l, ForallOrdPairs conflict_free l <-> ForallOrdPairs compatible l).
  { assert (Hmono : forall (R S : ScheduledEvent -> ScheduledEvent -> Prop) l,
      (forall a b, R a b -> S a b) -> ForallOrdPairs R l -> ForallOrdPairs S l).
    { intros R S k HRS. induction 1; constructor; [|done]. eapply Forall_impl; eauto. }
    intros k. split; apply Hmono; apply compatible_iff. }
  rewrite !Hcf. intros Hnd Hp H. unfold resources_reserve, m_bind, m_get, m_lift, m_modify in H.
  pose proof (check_actions_iff reservations actions ∅ [] ltac:(set_solver)) as Hc.
  rewrite !app_nil_r in Hc. simpl in Hc. specialize (Hc (Build_reserved_wf _ Hnd Hp)).
  unfold resources_check in H. destruct (result_fold _ actions _) as [acc|e]; simpl in H, Hc.
  - injection H as <- <-. destruct (proj1 Hc eq_refl) as [H1 H2]. rewrite Hcf. auto.
  - injection H as <- <-. split; [done|]. intros [H1 H2]. rewrite Hcf in H2.
    pose proof (proj2 Hc (Build_reserved_wf _ H1 H2)). done.
Qed.

(** Dropping reservations that ended keeps the rest conflict-free. *)
Lemma discard_wf now l : reserved_wf l -> reserved_wf (discard_before now l).
Proof.
  intros [H1 H2]. unfold discard_before. constructor.
  - induction l as [|a l IH]; simpl; [done|]. inversion H1 as [|? ? Ha Hl]; inversion H2; subst.
    destruct (negb _); [|by apply IH]. simpl. constructor; [|by apply IH].
    rewrite in_ids. intros (b & Hb & E). apply Ha. rewrite in_ids. exists b. split; [|done].
    apply list_elem_of_In, filter_In in Hb as [Hb _]. by apply list_elem_of_In.
  - induction H2 as [|a l Ha Hl IH]; simpl; [constructor|]. inversion H1; subst.
    destruct (negb _); [|by apply IH]. constructor; [|by apply IH].
    apply Forall_forall. intros b Hb. rewrite Forall_forall in Ha. apply Ha.
    apply list_elem_of_In, filter_In in Hb as [Hb _]. by apply list_elem_of_In.
Qed.

(** ** Example: an operation on a busy port is refused *)
Definition example_gate (id port q start stop : Z) : ScheduledEvent :=
  let e := mkEvent port 0 (stop - start) (SpecGate (mkGate "x" (mkOperands [q] []) (gate_amplitude default_gate) Always)) in
  mkScheduled (mkOperation 1 id 0 1 port 0 e None None) start stop e.

Lemma reserve_exact_witness :
  resources_reserve [example_gate 2 0 1 10 30] [example_gate 1 0 0 0 20] =
    (Fault ResourceConflict, [example_gate 1 0 0 0 20]) /\
  ~ (NoDup (map se_id [example_gate 1 0 0 0 20; example_gate 2 0 1 10 30]) /\
     ForallOrdPairs conflict_free [example_gate 1 0 0 0 20; example_gate 2 0 1 10 30]).
Proof.
  assert (E : resources_reserve [example_gate 2 0 1 10 30] [example_gate 1 0 0 0 20] =
    (Fault ResourceConflict, [example_gate 1 0 0 0 20])) by (vm_compute; reflexivity).
  split; [exact E|].
  exact (proj2 (reserve_exact [example_gate 1 0 0 0 20] [example_gate 2 0 1 10 30] _ _
    ltac:(apply NoDup_singleton) ltac:(repeat constructor) E)).
Defined.
