(* ===== verification/Gates.v ===== *)
(** * Two-qubit gates (src/device/gates.cpp, include/qsbit/device/gates.hpp)

    Two controllers that drive their outputs of one gate at the same tick apply the gate.
    [resolve_gate_outputs] decides, from the outputs that start at a tick, which gates those are. *)

From S2P Require Import Prelude Error Time Event Profile Protocol Resources.

Record DeviceProfile := mkDevice { dp_qubits : Z; dp_seed : Z; dp_gates : gmap string TwoQubitGate }.

Definition device_profile (p : Profile) : result DeviceProfile :=
  let? gates := result_fold (fun (gates : gmap string TwoQubitGate) g =>
    do? require (bool_decide (gates !! tq_name g = None)) InvalidProfile in
    Ok (<[tq_name g := g]> gates)) (two_qubit_gates p) ∅ in
  Ok (mkDevice (qubits p) (seed p) gates).

Definition device_gate (d : DeviceProfile) (name : string) : result TwoQubitGate :=
  match dp_gates d !! name with Some g => Ok g | None => Fault InvalidProfile end.

Definition spec_of_gate (g : TwoQubitGate) : EventSpec :=
  mkEvent (ev_port default_event) (ev_delay default_event) (tq_duration g)
    (SpecGate (mkGate (tq_operation g) (mkOperands (tq_targets g) (tq_resources g))
                 (gate_amplitude default_gate) (gate_flag default_gate))).

Definition gate_action (d : DeviceProfile) (name : string) : result EventSpec :=
  let? g := device_gate d name in Ok (spec_of_gate g).

(** The endpoint an output drives. *)
Definition endpoint (e : OperationEvent) : GateInput :=
  mkInput (default 0 (oe_core e)) (oe_source_port e) (oe_codeword e).

(** The lambda given to [std::count_if]; the right operand of [&&] may throw. *)
Definition output_matches (g : TwoQubitGate) (now : Tick) (input : GateInput) (output : ScheduledEvent)
    : result bool :=
  if bool_decide (input = endpoint (se_event output)) then
    let? stop := checked_add now (tq_duration g) in Ok (se_end output =? stop)
  else Ok false.

Definition count_matching (g : TwoQubitGate) (now : Tick) (input : GateInput)
    (outputs : list ScheduledEvent) : result Z :=
  result_fold (fun n output =>
    let? m := output_matches g now input output in Ok (if m : bool then n + 1 else n)) outputs 0.

Definition resolve_gate (d : DeviceProfile) (now : Tick) (name : string) (outputs : list ScheduledEvent)
    : result EventSpec :=
  let? g := device_gate d name in
  do? require (size_of outputs =? size_of (tq_inputs g)) GateInputMismatch in
  do? result_each (fun input =>
        let? n := count_matching g now input outputs in
        require (n =? 1) GateInputMismatch) (tq_inputs g) in
  gate_action d name.

(** [std::map<std::string, ...>] is the list of its entries in key order. *)
Definition resolve_gate_outputs (d : DeviceProfile) (now : Tick)
    (gate_outputs : list (string * list ScheduledEvent)) : result (list EventSpec) :=
  result_fold (fun gates entry =>
    let? action := resolve_gate d now (fst entry) (snd entry) in
    Ok (gates ++ [action])) gate_outputs [].

(** ** Properties *)
Lemma count_matching_ok g now input outputs n :
  count_matching g now input outputs = Ok n ->
  n = count_if (fun o => bool_decide (input = endpoint (se_event o)) && (se_end o =? now + tq_duration g)) outputs.
Proof.
  unfold count_matching. intros H.
  apply (result_fold_prefix (fun seen n => n = count_if (fun o =>
    bool_decide (input = endpoint (se_event o)) && (se_end o =? now + tq_duration g)) seen) _ _ []) in H;
    [done | done |].
  intros seen o m m' _ -> H1. apply result_bind_ok in H1 as (b & Hb & H1). apply Ok_inj in H1 as <-.
  rewrite count_if_app, count_if_cons, count_if_nil. unfold output_matches in Hb.
  destruct (bool_decide _); [|apply Ok_inj in Hb as <-; simpl; lia].
  apply result_bind_ok in Hb as (stop & Hs & Hb). apply checked_add_ok in Hs as [_ ->].
  apply Ok_inj in Hb as <-. simpl. destruct (_ =? _); lia.
Qed.

(** Each of finitely many distinct keys once, and nothing else. *)
Lemma permutation_of_counts `{EqDecision K} {A} (key : A -> K) (ok : A -> bool) keys (l : list A) :
  NoDup keys -> size_of l = size_of keys ->
  (forall k, k ∈ keys -> count_if (fun a => bool_decide (k = key a) && ok a) l = 1) ->
  map key l ≡ₚ keys /\ Forall (fun a => ok a = true) l.
Proof.
  revert l. induction keys as [|k keys IH]; intros l Hnd Hsz Hc.
  { destruct l; [by split; constructor|]. rewrite size_of_cons, size_of_nil in Hsz.
    pose proof (size_of_nonneg l). lia. }
  inversion Hnd as [|? ? Hk Hnd']; subst.
  destruct (count_if_exists (fun a => bool_decide (k = key a) && ok a) l) as [E|(a & Ha & Hp)].
  { rewrite (Hc k) in E by (by left). lia. }
  reflect. apply list_elem_of_split in Ha as (l1 & l2 & ->). subst k.
  assert (Hl : size_of (l1 ++ l2) = size_of keys).
  { rewrite !size_of_app, !size_of_cons in Hsz. rewrite size_of_app. lia. }
  destruct (IH (l1 ++ l2) Hnd' Hl) as [Hperm Hok].
  { intros k Hin. specialize (Hc k ltac:(by right)). rewrite count_if_app, count_if_cons in Hc.
    rewrite count_if_app. rewrite bool_decide_eq_false_2 in Hc by (intros ->; done). simpl in Hc. lia. }
  split.
  - rewrite map_app. simpl. rewrite <-Permutation_middle, <-map_app. by constructor.
  - rewrite Forall_app in *. destruct Hok. split; [done | by constructor].
Qed.

Lemma resolve_gate_ok d now name outputs a :
  resolve_gate d now name outputs = Ok a ->
  exists g, dp_gates d !! name = Some g /\ a = spec_of_gate g /\
    size_of outputs = size_of (tq_inputs g) /\
    forall input, input ∈ tq_inputs g -> count_if (fun o =>
      bool_decide (input = endpoint (se_event o)) && (se_end o =? now + tq_duration g)) outputs = 1.
Proof.
  unfold resolve_gate, gate_action, device_gate. destruct (dp_gates d !! name) as [g|]; [|done].
  cbn [result_bind]. intros H. apply result_bind_ok in H as ([] & K1 & H). apply require_ok in K1.
  apply result_bind_ok in H as ([] & K2 & H). apply Ok_inj in H as <-. reflect.
  exists g. split_and!; try done. intros input Hin. apply result_each_ok in K2. rewrite Forall_forall in K2.
  specialize (K2 input Hin). cbv beta in K2. apply result_bind_ok in K2 as (n & Hn & K2).
  apply require_ok in K2. reflect. by rewrite <-(count_matching_ok _ _ _ _ _ Hn).
Qed.

(** The device knows the profile's gates, by name. *)
Lemma device_profile_gates p d name g :
  device_profile p = Ok d -> dp_gates d !! name = Some g -> g ∈ two_qubit_gates p /\ tq_name g = name.
Proof.
  unfold device_profile. intros H Hg. apply result_bind_ok in H as (gates & Hf & H). apply Ok_inj in H as <-.
  simpl in Hg. enough (Hall : gates !! name = Some g -> g ∈ [] ++ two_qubit_gates p /\ tq_name g = name) by auto.
  revert Hf. apply (result_fold_prefix (fun seen (m : gmap string TwoQubitGate) =>
    m !! name = Some g -> g ∈ seen /\ tq_name g = name)); [by rewrite lookup_empty |].
  intros seen x m m' _ IH Hm. apply result_bind_ok in Hm as ([] & _ & Hm). apply Ok_inj in Hm as <-.
  rewrite lookup_insert_Some, elem_of_app. intros [[<- <-]|[_ Hl]]; [split; [right; by left | done]|].
  destruct (IH Hl). auto.
Qed.

(** C35. A gate is applied exactly when all its inputs are driven together.  If the outputs that start at
    a tick resolve, then every named gate is configured, its outputs are one per input of the gate
    and no others, each ends one gate duration later, and the resolved operation acts on the gate's
    targets and resources. *)
Theorem gate_outputs_complete (d : DeviceProfile) (now : Tick)
    (gate_outputs : list (string * list ScheduledEvent)) (gates : list EventSpec) :
  map_Forall (fun _ g => NoDup (tq_inputs g)) (dp_gates d) ->
  resolve_gate_outputs d now gate_outputs = Ok gates ->
  Forall2 (fun entry a => exists g,
    dp_gates d !! fst entry = Some g /\
    map (fun o => endpoint (se_event o)) (snd entry) ≡ₚ tq_inputs g /\
    Forall (fun o => se_end o = now + tq_duration g) (snd entry) /\
    a = spec_of_gate g /\ targets a = tq_targets g /\ kind a = IdealGate /\ ev_duration a = tq_duration g)
    gate_outputs gates.
Proof.
  intros Hd H. unfold resolve_gate_outputs in H.
  apply (result_fold_prefix (fun seen gates => Forall2 (fun entry a => exists g,
    dp_gates d !! fst entry = Some g /\
    map (fun o => endpoint (se_event o)) (snd entry) ≡ₚ tq_inputs g /\
    Forall (fun o => se_end o = now + tq_duration g) (snd entry) /\
    a = spec_of_gate g /\ targets a = tq_targets g /\ kind a = IdealGate /\ ev_duration a = tq_duration g)
    seen gates) _ _ []) in H; [done | constructor |].
  intros seen [name outputs] acc acc' _ IH H1. apply result_bind_ok in H1 as (a & Ha & H1).
  apply Ok_inj in H1 as <-. apply Forall2_app; [done|]. constructor; [|constructor].
  apply resolve_gate_ok in Ha as (g & Hg & -> & Hsz & Hc). exists g.
  destruct (permutation_of_counts (fun o => endpoint (se_event o)) (fun o => se_end o =? now + tq_duration g)
    (tq_inputs g) outputs (Hd _ _ Hg) Hsz Hc) as [Hp Hok].
  split_and!; try done. eapply Forall_impl; [exact Hok|]. intros o Ho. by apply Z.eqb_eq.
Qed.

(** ** Example: the built-in controlled-not, driven from both sides *)
Definition example_output (port codeword start : Z) : ScheduledEvent :=
  let e := mkEvent port 0 20 (SpecGateOutput (mkGateOutput "cx01")) in
  mkScheduled (mkOperation 1 (port + 1) 0 1 port codeword e None None) start (start + 20) e.

Lemma gate_outputs_complete_witness :
  exists d gates, device_profile default_unchecked = Ok d /\
    resolve_gate_outputs d 100 [("cx01"%string, [example_output 0 6 100; example_output 1 10 100])] = Ok gates /\
    exists g, dp_gates d !! "cx01"%string = Some g /\ gates = [spec_of_gate g].
Proof.
  destruct (device_profile default_unchecked) as [d|] eqn:Ed; [|vm_compute in Ed; discriminate].
  assert (Hd : device_profile default_unchecked = Ok d) by exact Ed.
  vm_compute in Ed. apply Ok_inj in Ed.
  assert (Hr : exists gates, resolve_gate_outputs d 100
    [("cx01"%string, [example_output 0 6 100; example_output 1 10 100])] = Ok gates)
    by (rewrite <-Ed; eexists; vm_compute; reflexivity).
  destruct Hr as (gates & Hr). exists d, gates. split; [reflexivity|]. split; [exact Hr|].
  assert (Hn : map_Forall (fun _ g => NoDup (tq_inputs g)) (dp_gates d)).
  { apply map_Forall_lookup_2. intros name g Hg. destruct (device_profile_gates _ _ _ _ Hd Hg) as [Hin _].
    apply list_elem_of_singleton in Hin as ->. apply (bool_decide_eq_true_1 (NoDup _)). vm_compute. reflexivity. }
  pose proof (gate_outputs_complete d 100 _ gates Hn Hr) as H.
  inversion H as [|? a ? ? (g & Hg & _ & _ & Ha & _) Hnil]; subst. inversion Hnil; subst. eauto.
Defined.
