(* ===== verification/Readouts.v ===== *)
(** * Readouts (src/device/readouts.cpp, include/qsbit/device/readouts.hpp)

    An acquisition in a launch becomes a pending [Readout]: it is sampled when the acquisition ends and
    its result is ready once the discriminator, armed by the acquisition itself or by a separate arm
    event of the same launch, has worked for its delay. *)

From S2P Require Import Prelude Error Time Event Protocol Resources.

Record Readout := mkReadout {
  ro_reference : MeasurementReference; ro_end : Tick; ro_arm : Tick; ro_ready : Tick;
  ro_sample : option bool; ro_core : option Z }.
#[global] Instance eta_Readout : Eta Readout := fun r =>
  mkReadout (ro_reference r) (ro_end r) (ro_arm r) (ro_ready r) (ro_sample r) (ro_core r).

(** [std::map<Id, unsigned>], read and incremented with [operator[]]. *)
Definition tally (m : gmap Z Z) (id : Id) : Z := default 0 (m !! id).
Definition count_one (m : gmap Z Z) (id : Id) : gmap Z Z := <[id := wrap32 (tally m id + 1)]> m.

Record ReadoutPairing := mkReadoutPairing {
  identities : gmap Z MeasurementReference; acquisitions : gmap Z Z; arms : gmap Z Z }.

Definition se_acquires (a : ScheduledEvent) : bool := is_acquire (se_action a).
Definition se_arms (a : ScheduledEvent) : bool := is_arm (se_action a).

(** The first loop of [prepare]. *)
Definition note_readout (epoch : Epoch) (s : ReadoutPairing) (action : ScheduledEvent) : result ReadoutPairing :=
  if se_acquires action || se_arms action then
    match oe_reference (se_event action) with
    | None => Fault InvalidMeasurement
    | Some r =>
        do? require (ref_epoch r =? epoch) InvalidMeasurement in
        do? require (bool_decide (targets (se_action action) = [ref_target r])) InvalidMeasurement in
        do? require (match identities s !! ref_measurement r with
                     | Some old => bool_decide (old = r)
                     | None => true
                     end) InvalidMeasurement in
        let names := match identities s !! ref_measurement r with
                     | Some _ => identities s
                     | None => <[ref_measurement r := r]> (identities s)
                     end in
        Ok (if se_arms action
            then mkReadoutPairing names (acquisitions s) (count_one (arms s) (ref_measurement r))
            else mkReadoutPairing names (count_one (acquisitions s) (ref_measurement r)) (arms s))
    end
  else Ok s.

Definition discriminator (e : EventSpec) : Tick * bool :=
  match ev_spec e with
  | SpecAcquire a => (discriminator_delay a, separate_arm a)
  | _ => (0, false)
  end.

(** The tick the discriminator is armed at: the last matching arm event's start, or the acquisition's. *)
Definition arm_tick (actions : list ScheduledEvent) (action : ScheduledEvent) : Tick :=
  if snd (discriminator (se_action action)) then
    fold_left (fun arm other =>
      if se_arms other && bool_decide (oe_reference (se_event other) = oe_reference (se_event action))
      then se_start other else arm) actions (se_start action)
  else se_start action.

(** The second loop. *)
Definition make_readout (pending : gmap Z Readout) (s : ReadoutPairing) (actions : list ScheduledEvent)
    (readouts : list Readout) (action : ScheduledEvent) : result (list Readout) :=
  if se_acquires action then
    match oe_reference (se_event action) with
    | None => Fault Protocol
    | Some r =>
        let id := ref_measurement r in
        let '(delay, separate) := discriminator (se_action action) in
        do? require ((tally (acquisitions s) id =? 1) && bool_decide (pending !! id = None) &&
                     (tally (arms s) id =? (if separate then 1 else 0))) Protocol in
        let arm := arm_tick actions action in
        let? ready := checked_add (Z.max (se_end action) arm) delay in
        Ok (readouts ++ [mkReadout r (se_end action) arm ready None (oe_core (se_event action))])
    end
  else Ok readouts.

Definition readouts_prepare (pending : gmap Z Readout) (actions : list ScheduledEvent) (epoch : Epoch)
    : result (list Readout) :=
  let? s := result_fold (note_readout epoch) actions (mkReadoutPairing ∅ ∅ ∅) in
  let? readouts := result_fold (make_readout pending s actions) actions [] in
  do? result_each (fun entry =>
        if 0 <? snd entry then require (tally (acquisitions s) (fst entry) =? 1) Protocol else Ok ())
      (map_to_list (arms s)) in
  Ok readouts.

(** The state is [pending_]. *)
Definition readouts_insert (readouts : list Readout) : M (gmap Z Readout) unit :=
  m_each (fun r =>
    let! pending := m_get in
    do! m_lift (require (bool_decide (pending !! ref_measurement (ro_reference r) = None)) Protocol) in
    m_modify (<[ref_measurement (ro_reference r) := r]>)) readouts.

(** [at]: for a measurement that is pending; the code reads only those. *)
Definition readout_at (pending : gmap Z Readout) (id : Id) : option Readout := pending !! id.

Definition readouts_sample (id : Id) (value : bool) (pending : gmap Z Readout) : gmap Z Readout :=
  alter (fun r => r <| ro_sample := Some value |>) id pending.

Definition readout_result (r : Readout) : result Completion :=
  match ro_sample r with
  | Some v => Ok (mkCompletion (ro_reference r) v)
  | None => Fault Protocol
  end.

Definition readouts_erase (id : Id) (pending : gmap Z Readout) : gmap Z Readout := delete id pending.
Definition readouts_empty (pending : gmap Z Readout) : bool := bool_decide (pending = ∅).
Definition readouts_reset (pending : gmap Z Readout) : gmap Z Readout := ∅.

(** ** ReadoutPairing acquisitions with arms *)
Definition has_measurement (p : ScheduledEvent -> bool) (id : Id) (a : ScheduledEvent) : bool :=
  p a && match oe_reference (se_event a) with Some r => ref_measurement r =? id | None => false end.

(** A readout member names a current measurement of its only target. *)
Definition names (epoch : Epoch) (a : ScheduledEvent) (r : MeasurementReference) : Prop :=
  oe_reference (se_event a) = Some r /\ ref_epoch r = epoch /\ targets (se_action a) = [ref_target r].

Record noted (epoch : Epoch) (seen : list ScheduledEvent) (s : ReadoutPairing) : Prop := {
  no_acquisitions : forall id, tally (acquisitions s) id = count_if (has_measurement se_acquires id) seen;
  no_arms : forall id, tally (arms s) id = count_if (has_measurement se_arms id) seen;
  no_named : forall a, a ∈ seen -> se_acquires a || se_arms a = true ->
    exists r, names epoch a r /\ identities s !! ref_measurement r = Some r }.

Lemma tally_one m id id' n :
  (forall i, tally m i = n i) -> n id < max32 -> 0 <= n id ->
  tally (count_one m id) id' = n id' + (if id =? id' then 1 else 0).
Proof.
  intros Hm Hn H0. unfold count_one. rewrite Hm, wrap32_small by (unfold u32; lia).
  unfold tally. destruct (Z.eqb_spec id id') as [<-|Hne].
  - by rewrite lookup_insert_eq.
  - rewrite lookup_insert_ne by done. fold (tally m id'). rewrite Hm. lia.
Qed.

Lemma acquires_not_arms a : se_acquires a = true -> se_arms a = false.
Proof.
  unfold se_acquires, se_arms, is_acquire, is_arm. intros H. reflect. by rewrite bool_decide_eq_false_2 by congruence.
Qed.

Lemma note_readout_ok epoch seen s a s' :
  size_of (seen ++ [a]) <= max32 -> noted epoch seen s -> note_readout epoch s a = Ok s' ->
  noted epoch (seen ++ [a]) s'.
Proof.
  intros Hsz [HA HR HN] H. unfold note_readout in H.
  rewrite size_of_app, size_of_cons, size_of_nil in Hsz.
  assert (Hbound : forall p id, count_if (has_measurement p id) seen < max32).
  { intros p id. pose proof (count_if_bound (has_measurement p id) seen). lia. }
  destruct (se_acquires a || se_arms a) eqn:Er.
  2: { apply Ok_inj in H as <-. reflect. constructor.
    - intros id. rewrite count_if_app, count_if_cons, count_if_nil, <-HA. unfold has_measurement at 1. rewrite H. simpl. lia.
    - intros id. rewrite count_if_app, count_if_cons, count_if_nil, <-HR. unfold has_measurement at 1. rewrite H0. simpl. lia.
    - intros b [Hb|[->|[]%elem_of_nil]%elem_of_cons]%elem_of_app Hor; [by apply HN|]. by rewrite H, H0 in Hor. }
  destruct (oe_reference (se_event a)) as [r|] eqn:Eref; [|done].
  apply result_bind_ok in H as ([] & K1 & H). apply result_bind_ok in H as ([] & K2 & H).
  apply result_bind_ok in H as ([] & K3 & H). apply Ok_inj in H.
  apply require_ok in K1, K2, K3. reflect.
  set (nm := match identities s !! ref_measurement r with Some _ => identities s
             | None => <[ref_measurement r := r]> (identities s) end) in H.
  assert (Hids : identities s' = nm) by (by destruct (se_arms a); subst s').
  assert (Hnm : nm !! ref_measurement r = Some r /\
    forall m r', identities s !! m = Some r' -> nm !! m = Some r').
  { unfold nm. destruct (identities s !! ref_measurement r) as [old|] eqn:E.
    - reflect. by subst.
    - split; [by rewrite lookup_insert_eq|]. intros m r' Hm. rewrite lookup_insert_ne; [done | congruence]. }
  assert (Hnamed : forall b, b ∈ seen ++ [a] -> se_acquires b || se_arms b = true ->
    exists r, names epoch b r /\ identities s' !! ref_measurement r = Some r).
  { rewrite Hids. intros b [Hb|[->|[]%elem_of_nil]%elem_of_cons]%elem_of_app Hor.
    - destruct (HN b Hb Hor) as (r' & Hn & Hi). exists r'. split; [done | by apply Hnm].
    - exists r. split; [by split_and! | exact (proj1 Hnm)]. }
  destruct (se_arms a) eqn:Earm; subst s'; constructor; try exact Hnamed; intros id; simpl;
    rewrite count_if_app, count_if_cons, count_if_nil;
    unfold has_measurement at 2; rewrite Eref, ?Earm;
    rewrite ?(tally_one _ _ _ _ HR), ?(tally_one _ _ _ _ HA) by auto with qsbit.
  all: try rewrite HA; try rewrite HR; cbn [andb]; try lia.
  - destruct (se_acquires a) eqn:Ea; [by rewrite (acquires_not_arms _ Ea) in Earm | simpl; lia].
  - destruct Er as [Er|Er]; [rewrite Er; simpl; lia | done].
Qed.

Lemma note_all_ok epoch actions s :
  size_of actions <= max32 -> result_fold (note_readout epoch) actions (mkReadoutPairing ∅ ∅ ∅) = Ok s ->
  noted epoch actions s.
Proof.
  intros Hsz H.
  refine (result_fold_prefix (fun seen s => size_of seen <= max32 -> noted epoch seen s) _ actions [] _ s _ _ H Hsz).
  - intros _. constructor; [done..|]. by intros a ?%elem_of_nil.
  - intros seen a s1 s2 _ IH H2 Hsz2. eapply note_readout_ok; [done | | exact H2]. apply IH.
    rewrite size_of_app, size_of_cons, size_of_nil in Hsz2. lia.
Qed.

Definition arms_reference (a : ScheduledEvent) (o : ScheduledEvent) : bool :=
  se_arms o && bool_decide (oe_reference (se_event o) = oe_reference (se_event a)).

(** The loop that looks for the arm event keeps the last match. *)
Lemma arm_search a actions start :
  let arm := fold_left (fun arm other => if arms_reference a other then se_start other else arm) actions start in
  (exists o, o ∈ actions /\ arms_reference a o = true /\ arm = se_start o) \/
  (arm = start /\ forall o, o ∈ actions -> arms_reference a o = false).
Proof.
  revert start. induction actions as [|o actions IH]; intros start; simpl.
  { right. split; [done|]. by intros o ?%elem_of_nil. }
  destruct (IH (if arms_reference a o then se_start o else start)) as [(o' & Hin & Ho & E)|[E Hn]].
  - left. exists o'. split_and!; [by right | done..].
  - destruct (arms_reference a o) eqn:Eo.
    + left. exists o. split_and!; [by left | done..].
    + right. split; [done|]. intros o' [->|Hin]%elem_of_cons; [done | by apply Hn].
Qed.

(** ** What [prepare] returns *)
Record readout_of (pending : gmap Z Readout) (epoch : Epoch) (actions : list ScheduledEvent)
    (a : ScheduledEvent) (r : Readout) : Prop := {
  rf_names : names epoch a (ro_reference r);
  rf_core : ro_core r = oe_core (se_event a);
  rf_end : ro_end r = se_end a;
  rf_fresh : pending !! ref_measurement (ro_reference r) = None;
  rf_unsampled : ro_sample r = None;
  rf_arm : if snd (discriminator (se_action a))
    then exists o, o ∈ actions /\ se_arms o = true /\
           oe_reference (se_event o) = Some (ro_reference r) /\ ro_arm r = se_start o
    else ro_arm r = se_start a /\
         forall o, o ∈ actions -> se_arms o = true -> oe_reference (se_event o) <> Some (ro_reference r);
  rf_ready : ro_ready r = Z.max (ro_end r) (ro_arm r) + fst (discriminator (se_action a)) /\
    ro_ready r <= max64 }.

Lemma make_readout_ok pending epoch actions s a rs rs' :
  noted epoch actions s -> a ∈ actions -> make_readout pending s actions rs a = Ok rs' ->
  if se_acquires a then exists r, rs' = rs ++ [r] /\ readout_of pending epoch actions a r /\
    count_if (has_measurement se_acquires (ref_measurement (ro_reference r))) actions = 1
  else rs' = rs.
Proof.
  intros [HA HR HN] Hin H. unfold make_readout in H.
  destruct (se_acquires a) eqn:Ea; [|by apply Ok_inj in H].
  destruct (HN a Hin ltac:(by rewrite Ea)) as (r & (Hr & Hep & Htg) & Hid). rewrite Hr in H. cbv zeta in H.
  destruct (discriminator (se_action a)) as [delay separate] eqn:Ed.
  apply result_bind_ok in H as ([] & K1 & H). apply require_ok in K1. reflect.
  apply result_bind_ok in H as (ready & K2 & H). apply checked_add_ok in K2 as [K2 ->].
  apply Ok_inj in H as <-. eexists. split; [reflexivity|]. rewrite HA, HR in *.
  split; [|done]. constructor; simpl; rewrite ?Ed; simpl; try done.
  destruct separate; simpl.
  - unfold arm_tick. rewrite Ed. simpl.
    destruct (arm_search a actions (se_start a)) as [(o & Ho & Hm & E)|[_ Hno]].
    + exists o. unfold arms_reference in Hm. apply andb_true_iff in Hm as [Hm1 Hm2].
      apply bool_decide_eq_true in Hm2. by rewrite <-Hr.
    + exfalso. destruct (count_if_exists (has_measurement se_arms (ref_measurement r)) actions) as [E|(o & Ho & Hm)];
        [lia|]. unfold has_measurement in Hm. apply andb_true_iff in Hm as [Harm Hm].
      destruct (HN o Ho) as (r' & (Hr' & _) & Hid'); [by rewrite Harm, orb_true_r|].
      rewrite Hr' in Hm. apply Z.eqb_eq in Hm. specialize (Hno o Ho). unfold arms_reference in Hno.
      rewrite Harm, Hr', Hr, bool_decide_eq_true_2 in Hno; [done | congruence].
  - unfold arm_tick. rewrite Ed. simpl. split; [done|]. intros o Ho Harm Heq.
    pose proof (count_if_pos (has_measurement se_arms (ref_measurement r)) actions o Ho) as Hpos.
    unfold has_measurement in Hpos at 1. rewrite Harm, Heq, Z.eqb_refl in Hpos. specialize (Hpos eq_refl). lia.
Qed.


(** If every acquired measurement occurs once, the acquisitions' measurements are distinct. *)
Lemma acquired_once_nodup (id_of : ScheduledEvent -> Id) actions :
  (forall a, a ∈ actions -> se_acquires a = true ->
    has_measurement se_acquires (id_of a) a = true /\
    count_if (has_measurement se_acquires (id_of a)) actions = 1) ->
  NoDup (map id_of (List.filter se_acquires actions)).
Proof.
  induction actions as [|a actions IH]; intros H; simpl; [constructor|].
  assert (Htail : NoDup (map id_of (List.filter se_acquires actions))).
  { apply IH. intros b Hb Hacq. destruct (H b ltac:(by right) Hacq) as [Hm Hc]. split; [done|].
    rewrite count_if_cons in Hc. pose proof (count_if_pos _ _ _ Hb Hm).
    destruct (has_measurement se_acquires (id_of b) a); lia. }
  destruct (se_acquires a) eqn:Ea; [|done]. simpl. constructor; [|done].
  destruct (H a ltac:(by left) Ea) as [Hm Hc]. rewrite count_if_cons, Hm in Hc.
  intros Hin. apply list_elem_of_In, in_map_iff in Hin as (b & Heq & Hin).
  apply filter_In in Hin as [Hin Hacq]. apply list_elem_of_In in Hin.
  destruct (H b ltac:(by right) Hacq) as [Hmb _]. rewrite Heq in Hmb.
  pose proof (count_if_pos _ _ _ Hin Hmb). lia.
Qed.

Lemma Forall2_in_l {A B} (R : A -> B -> Prop) l k x : Forall2 R l k -> x ∈ l -> exists y, y ∈ k /\ R x y.
Proof.
  induction 1 as [|a b l k Hab _ IH]; intros Hx; [by apply elem_of_nil in Hx|].
  apply elem_of_cons in Hx as [->|Hx]; [exists b; split; [by left | done]|].
  destruct (IH Hx) as (y & Hy & HR). exists y. split; [by right | done].
Qed.

Lemma Forall2_map_eq {A B C} (R : A -> B -> Prop) (f : A -> C) (g : B -> C) l k :
  (forall a b, R a b -> f a = g b) -> Forall2 R l k -> map f l = map g k.
Proof. intros Hfg. induction 1; simpl; [done|]. f_equal; auto. Qed.

(** What [prepare] promises its callers. *)
Lemma readouts_prepare_sound (pending : gmap Z Readout) (actions : list ScheduledEvent) (epoch : Epoch)
    (rs : list Readout) :
  size_of actions <= max32 -> readouts_prepare pending actions epoch = Ok rs ->
  Forall2 (readout_of pending epoch actions) (List.filter se_acquires actions) rs /\
  NoDup (map (fun r => ref_measurement (ro_reference r)) rs) /\
  forall o, o ∈ actions -> se_arms o = true ->
    exists r, r ∈ rs /\ oe_reference (se_event o) = Some (ro_reference r).
Proof.
  intros Hsz H. unfold readouts_prepare in H. apply result_bind_ok in H as (s & Hs & H).
  apply result_bind_ok in H as (rs' & Hm & H). apply result_bind_ok in H as ([] & Ho & H).
  apply Ok_inj in H as ->. pose proof (note_all_ok _ _ _ Hsz Hs) as Hn.
  set (I := fun seen rs => (forall a, a ∈ seen -> a ∈ actions) /\
      Forall2 (fun a r => readout_of pending epoch actions a r /\
        count_if (has_measurement se_acquires (ref_measurement (ro_reference r))) actions = 1)
        (List.filter se_acquires seen) rs).
  assert (Hmake : I ([] ++ actions) rs).
  { refine (result_fold_prefix I _ actions [] [] rs _ _ Hm); [split; [by intros a ?%elem_of_nil | constructor]|].
    intros seen a r1 r2 Hin [Hsub IH] Hmk. split.
    - intros b [Hb|[->|[]%elem_of_nil]%elem_of_cons]%elem_of_app; auto.
    - rewrite List.filter_app. apply (make_readout_ok _ epoch) in Hmk; [|done..]. simpl.
      destruct (se_acquires a); [|by subst; rewrite app_nil_r].
      destruct Hmk as (r & -> & Hr). by apply Forall2_app; [|constructor]. }
  destruct Hmake as [_ Hall]. simpl in Hall.
  assert (Hids : map (fun a => from_option ref_measurement 0 (oe_reference (se_event a)))
                   (List.filter se_acquires actions) = map (fun r => ref_measurement (ro_reference r)) rs).
  { eapply Forall2_map_eq; [|exact Hall]. intros a r [Hr _]. simpl. by destruct (rf_names _ _ _ _ _ Hr) as [-> _]. }
  assert (Hfind : forall a, a ∈ actions -> se_acquires a = true -> exists r, r ∈ rs /\
    readout_of pending epoch actions a r /\
    count_if (has_measurement se_acquires (ref_measurement (ro_reference r))) actions = 1).
  { intros a Ha Hacq. apply (Forall2_in_l _ _ _ a Hall).
    by apply list_elem_of_In, filter_In; rewrite <-list_elem_of_In. }
  split_and!.
  - eapply Forall2_impl; [exact Hall|]. by intros a r [Hr _].
  - rewrite <-Hids. apply acquired_once_nodup. intros a Ha Hacq.
    destruct (Hfind a Ha Hacq) as (r & _ & Hr & Hc). destruct (rf_names _ _ _ _ _ Hr) as [E _].
    unfold has_measurement at 1. rewrite E, Hacq. simpl. by rewrite Z.eqb_refl.
  - intros o Hin Harm. destruct (no_named _ _ _ Hn o Hin) as (r & (Er & _) & Hid); [by rewrite Harm, orb_true_r|].
    assert (Hpos : 0 < tally (arms s) (ref_measurement r)).
    { rewrite (no_arms _ _ _ Hn). apply (count_if_pos _ _ o Hin). unfold has_measurement.
      by rewrite Harm, Er, Z.eqb_refl. }
    unfold tally in Hpos. destruct (arms s !! ref_measurement r) as [k|] eqn:Ek; [|simpl in Hpos; lia].
    rewrite result_each_ok, Forall_forall in Ho.
    specialize (Ho (ref_measurement r, k) (proj2 (elem_of_map_to_list _ _ _) Ek)). simpl in Ho, Hpos.
    rewrite (proj2 (Z.ltb_lt 0 k) Hpos) in Ho. apply require_ok, Z.eqb_eq in Ho.
    rewrite (no_acquisitions _ _ _ Hn) in Ho.
    destruct (count_if_exists (has_measurement se_acquires (ref_measurement r)) actions) as [E|(a & Ha & Hma)]; [lia|].
    unfold has_measurement in Hma. apply andb_true_iff in Hma as [Hacq Hma].
    destruct (Hfind a Ha Hacq) as (r' & Hr' & Hof & _). exists r'. split; [done|].
    destruct (no_named _ _ _ Hn a Ha) as (ra & (Era & _) & Hida); [by rewrite Hacq|].
    destruct (rf_names _ _ _ _ _ Hof) as [Era' _]. rewrite Era in Hma, Era'. apply Z.eqb_eq in Hma.
    rewrite Er, <-Era'. rewrite Hma in Hida. congruence.
Qed.

(** Inserting distinct fresh readouts cannot fail. *)
Definition ro_id (r : Readout) : Id := ref_measurement (ro_reference r).
Definition add_readout (pending : gmap Z Readout) (r : Readout) : gmap Z Readout := <[ro_id r := r]> pending.

Lemma readouts_insert_ok rs pending :
  NoDup (map ro_id rs) -> Forall (fun r => pending !! ro_id r = None) rs ->
  readouts_insert rs pending = (Ok (), fold_left add_readout rs pending).
Proof.
  unfold readouts_insert. revert pending. induction rs as [|r rs IH]; intros pending Hnd Hf; simpl; [done|].
  inversion Hnd as [|? ? Hout Hnd']; inversion Hf as [|? ? Hr Hf']; subst.
  unfold m_bind at 1 2, m_get, m_lift. fold (ro_id r). rewrite bool_decide_eq_true_2 by done. simpl.
  apply IH; [done|]. rewrite Forall_forall in *. intros r' Hr'. fold (ro_id r).
  unfold add_readout. rewrite lookup_insert_ne; [by apply Hf'|]. intros E. apply Hout.
  apply list_elem_of_In, in_map_iff. exists r'. by rewrite <-list_elem_of_In.
Qed.

Lemma lookup_add_readouts rs pending id :
  NoDup (map ro_id rs) ->
  fold_left add_readout rs pending !! id =
    match List.find (fun r => ro_id r =? id) rs with Some r => Some r | None => pending !! id end.
Proof.
  revert pending. induction rs as [|r rs IH]; intros pending Hnd; simpl; [done|].
  inversion Hnd as [|? ? Hout Hnd']; subst. rewrite IH by done. unfold add_readout.
  destruct (Z.eqb_spec (ro_id r) id) as [<-|Hne].
  - rewrite lookup_insert_eq. destruct (List.find _ rs) as [r'|] eqn:E; [|done].
    apply find_some in E as [Hin E]. apply Z.eqb_eq in E. exfalso. apply Hout.
    apply list_elem_of_In, in_map_iff. eauto.
  - by rewrite lookup_insert_ne.
Qed.

(** C36. Readouts pair every acquisition with its arm.  If a launch is accepted, its readouts are its
    acquisitions in order, each with a fresh measurement of the acquisition's only target; the
    discriminator starts at the acquisition, or at the launch's arm event for that measurement when
    the acquisition asks for one, and the result is ready its delay after both have happened.  No
    measurement occurs twice and no arm event is without its acquisition. *)
Theorem prepared_readouts (pending : gmap Z Readout) (actions : list ScheduledEvent) (epoch : Epoch)
    (rs : list Readout) :
  size_of actions <= max32 -> readouts_prepare pending actions epoch = Ok rs ->
  Forall2 (readout_of pending epoch actions) (List.filter se_acquires actions) rs /\
  NoDup (map (fun r => ref_measurement (ro_reference r)) rs) /\
  forall o, o ∈ actions -> se_arms o = true ->
    exists r, r ∈ rs /\ oe_reference (se_event o) = Some (ro_reference r).
Proof. apply readouts_prepare_sound. Qed.

(** ** Example: an acquisition with a separate arm *)
Definition example_acquire (separate : bool) (id start stop : Z) : ScheduledEvent :=
  let e := mkEvent 2 0 (stop - start) (SpecAcquire (mkAcquire "measure" (mkOperands [0] []) 20 separate)) in
  mkScheduled (mkOperation 1 id 0 1 2 0 e (Some (mkReference 1 9 0)) None) start stop e.
Definition example_arm (id start stop : Z) : ScheduledEvent :=
  let e := mkEvent 3 0 (stop - start) (SpecArm (mkArm "arm" (mkOperands [0] []))) in
  mkScheduled (mkOperation 1 id 0 1 3 0 e (Some (mkReference 1 9 0)) None) start stop e.

Lemma prepared_readouts_witness :
  let launch := [example_acquire true 1 100 140; example_arm 2 150 160] in
  readouts_prepare ∅ launch 1 = Ok [mkReadout (mkReference 1 9 0) 140 150 170 None None] /\
  exists r, r ∈ [mkReadout (mkReference 1 9 0) 140 150 170 None None] /\
    oe_reference (se_event (example_arm 2 150 160)) = Some (ro_reference r).
Proof.
  assert (E : readouts_prepare ∅ [example_acquire true 1 100 140; example_arm 2 150 160] 1 =
    Ok [mkReadout (mkReference 1 9 0) 140 150 170 None None]) by (vm_compute; reflexivity).
  split; [exact E|].
  destruct (prepared_readouts ∅ [example_acquire true 1 100 140; example_arm 2 150 160] 1 _
    ltac:(vm_compute; discriminate) E) as (_ & _ & H).
  refine (H (example_arm 2 150 160) _ _); [right; left | vm_compute; reflexivity].
Defined.
