(* ===== verification/Electronics.v ===== *)
(** * Control electronics (src/device/control_electronics.cpp, include/qsbit/device.hpp)

    The device side: it accepts the launches of all controllers, checks them against what is already
    reserved, and at each physical boundary (a tick where something starts, ends or becomes ready)
    evolves and measures the backend, applies gates and delivers results.  The backend and the
    delivery callback are parameters; the callback acts on a state [F] of its own. *)

From S2P Require Import Prelude Error Time Event Trace Profile Protocol Backend Resources Gates Readouts.

Record Boundary := mkBoundary { bd_starts : list ScheduledEvent; bd_ends : list Id; bd_ready : list Id }.
#[global] Instance eta_Boundary : Eta Boundary :=
  fun b => mkBoundary (bd_starts b) (bd_ends b) (bd_ready b).
Definition no_boundary : Boundary := mkBoundary [] [] [].

Record ControlElectronics (B : Type) := mkElectronics {
  ce_profile : DeviceProfile; ce_backend : BackendExecution B; reservations_ : list ScheduledEvent;
  boundaries_ : gmap Z Boundary; active_ : gmap Z ScheduledEvent; readouts_ : gmap Z Readout;
  last_tick_ : Tick; processed_tick_ : option Tick }.
Arguments mkElectronics {B}.
Arguments ce_profile {B}.
Arguments ce_backend {B}.
Arguments reservations_ {B}.
Arguments boundaries_ {B}.
Arguments active_ {B}.
Arguments readouts_ {B}.
Arguments last_tick_ {B}.
Arguments processed_tick_ {B}.
#[global] Instance eta_ControlElectronics {B} : Eta (ControlElectronics B) := fun d =>
  mkElectronics (ce_profile d) (ce_backend d) (reservations_ d) (boundaries_ d) (active_ d)
    (readouts_ d) (last_tick_ d) (processed_tick_ d).

Section Electronics.
Context {B F : Type} `{HQ : QuantumBackend B}.
(** [Deliver]. *)
Context (deliver : Completion -> M F unit).

Record DeviceWorld := mkDeviceWorld {
  dw_device : ControlElectronics B; dw_trace : Trace; dw_env : F }.
#[global] Instance eta_DeviceWorld : Eta DeviceWorld :=
  fun w => mkDeviceWorld (dw_device w) (dw_trace w) (dw_env w).

Definition electronics_new (profile : DeviceProfile) (backend : B) (max_batch : Z)
    : result (ControlElectronics B) :=
  let? x := execution_new backend max_batch in
  match execution_reset (dp_qubits profile) (dp_seed profile) 1 0 x with
  | (Ok _, x) => Ok (mkElectronics profile x [] ∅ ∅ ∅ 0 None)
  | (Fault code, _) => Fault code
  end.

Definition modify_device (f : ControlElectronics B -> ControlElectronics B) : M DeviceWorld unit :=
  m_modify (fun w => w <| dw_device ::= f |>).
Definition device_emit (e : TraceEvent) : M DeviceWorld unit := on dw_trace (trace_emit e).
Definition on_backend {A} (m : M (BackendExecution B) A) : M DeviceWorld A :=
  m_zoom (fun w => ce_backend (dw_device w))
         (fun x w => w <| dw_device ::= fun d => d <| ce_backend := x |> |>) m.

(** [validate], [resolve], [prepare] and [preflight] are [const]. *)
Definition device_validate (d : ControlElectronics B) (action : EventSpec) : result unit :=
  let? a := match output_name action with
            | Some name => gate_action (ce_profile d) name
            | None => Ok action
            end in
  execution_validate (ce_backend d) a.

Definition resolve_event (d : ControlElectronics B) (batch : TriggeredEvents)
    (actions : list ScheduledEvent) (event : OperationEvent) : result (list ScheduledEvent) :=
  do? require ((oe_epoch event =? tg_epoch batch) && (oe_label event =? tg_label batch)) Protocol in
  do? device_validate d (oe_action event) in
  let? start := checked_add (fire_tick batch) (ev_delay (oe_action event)) in
  let? resolved :=
    match output_name (oe_action event) with
    | Some name =>
        let? g := device_gate (ce_profile d) name in
        do? require (bool_decide (endpoint event ∈ tq_inputs g) &&
                     (ev_duration (oe_action event) =? tq_duration g)) GateInputMismatch in
        let? a := gate_action (ce_profile d) (tq_name g) in
        Ok (oe_action event <| ev_spec := ev_spec a |>)
    | None => Ok (oe_action event)
    end in
  let? stop := checked_add start (ev_duration (oe_action event)) in
  Ok (actions ++ [mkScheduled event start stop resolved]).

Definition device_resolve (d : ControlElectronics B) (batch : TriggeredEvents)
    : result (list ScheduledEvent) :=
  result_fold (resolve_event d batch) (tg_events batch) [].

Definition device_prepare (d : ControlElectronics B) (batch : TriggeredEvents)
    : result (list ScheduledEvent * list Readout) :=
  let? actions := device_resolve d batch in
  do? resources_check (reservations_ d) actions in
  let? readouts := readouts_prepare (readouts_ d) actions (tg_epoch batch) in
  do? require (match processed_tick_ d with Some t => t <? fire_tick batch | None => true end) Protocol in
  Ok (actions, readouts).

Definition device_preflight (d : ControlElectronics B) (batch : TriggeredEvents) : result unit :=
  let? _ := device_prepare d batch in Ok ().

Definition at_boundary (t : Tick) (f : Boundary -> Boundary) : M DeviceWorld unit :=
  modify_device (fun d => d <| boundaries_ ::= upsert no_boundary f t |>).

Definition accept_action (batch : TriggeredEvents) (a : ScheduledEvent) : M DeviceWorld unit :=
  let e := se_event a in
  do! at_boundary (se_start a) (fun b => b <| bd_starts ::= fun l => l ++ [a] |>) in
  do! at_boundary (se_end a) (fun b => b <| bd_ends ::= fun l => l ++ [oe_id e] |>) in
  device_emit (trace_event (fire_tick batch) (tg_epoch batch) "CodewordTriggered" (oe_id e) (tg_label batch) 0
    <| te_core := oe_core e |> <| te_port := ev_port (oe_action e) |> <| te_codeword := oe_codeword e |>
    <| te_targets := targets (se_resolved a) |> <| te_operation := operation (se_resolved a) |>).

Definition device_accept (batch : TriggeredEvents) : M DeviceWorld unit :=
  let! d := m_gets dw_device in
  let! p := m_lift (device_prepare d batch) in
  let '(actions, readouts) := p in
  do! m_zoom (fun w => reservations_ (dw_device w))
        (fun l w => w <| dw_device ::= fun d => d <| reservations_ := l |> |>)
        (resources_reserve actions) in
  do! m_zoom (fun w => readouts_ (dw_device w))
        (fun r w => w <| dw_device ::= fun d => d <| readouts_ := r |> |>)
        (readouts_insert readouts) in
  do! m_each (fun r => at_boundary (ro_ready r)
        (fun b => b <| bd_ready ::= fun l => l ++ [ref_measurement (ro_reference r)] |>)) readouts in
  m_each (accept_action batch) actions.

(** ** [process] *)

(** The activities of the operations in progress, in the order of their identities. *)
Definition activities (p : EventSpec -> bool) (with_reference : bool) (active : gmap Z ScheduledEvent)
    : list BackendActivity :=
  omap (fun entry =>
    let a := snd entry in
    if p (se_action a)
    then Some (mkActivity (fst entry) (se_start a) (se_end a) (se_action a)
                 (if with_reference then oe_reference (se_event a) else None))
    else None) (ordered_entries Z.leb active).

Definition is_pulse (e : EventSpec) : bool := bool_decide (kind e = Pulse).

(** The measurements that are sampled at a boundary: those whose acquisition ends. *)
Definition collect_sample (active : gmap Z ScheduledEvent) (samples : list MeasurementReference) (id : Id)
    : result (list MeasurementReference) :=
  match active !! id with
  | None => Fault Protocol
  | Some a =>
      Ok (if se_acquires a
          then match oe_reference (se_event a) with Some r => samples ++ [r] | None => samples end
          else samples)
  end.

Definition distinct_targets (samples : list MeasurementReference) : result (gset Z) :=
  result_fold (fun (seen : gset Z) r =>
    do? require (bool_decide (ref_target r ∉ seen)) ResourceConflict in
    Ok ({[ref_target r]} ∪ seen)) samples ∅.

(** One operation that starts: an ideal gate is applied at once, a gate output joins its gate. *)
Definition collect_start (d : ControlElectronics B) (epoch : Epoch) (sampled : gset Z)
    (acc : list EventSpec * gmap string (list ScheduledEvent)) (a : ScheduledEvent)
    : result (list EventSpec * gmap string (list ScheduledEvent)) :=
  do? require (oe_epoch (se_event a) =? epoch) Protocol in
  do? device_validate d (se_action a) in
  if is_gate (se_action a) then
    do? result_each (fun target => require (bool_decide (target ∉ sampled)) ResourceConflict)
          (targets (se_resolved a)) in
    Ok (match output_name (se_action a) with
        | Some name => (fst acc, upsert [] (fun l => l ++ [a]) name (snd acc))
        | None => (fst acc ++ [se_action a], snd acc)
        end)
  else Ok acc.

(** Everything checked before the backend is touched: the samples, the gates and the gate outputs. *)
Definition prepare_boundary (d : ControlElectronics B) (now : Tick) (epoch : Epoch) (b : Boundary)
    : result (list MeasurementReference * list EventSpec * list (string * list ScheduledEvent)) :=
  let? samples := result_fold (collect_sample (active_ d)) (bd_ends b) [] in
  let? sampled := distinct_targets samples in
  let? p := result_fold (collect_start d epoch sampled) (bd_starts b) ([], ∅) in
  let outputs := ordered_entries String.leb (snd p) in
  let? paired := resolve_gate_outputs (ce_profile d) now outputs in
  Ok (samples, fst p ++ paired, outputs).

Definition commit_sample (now : Tick) (epoch : Epoch) (sample : MeasurementReference * bool)
    : M DeviceWorld unit :=
  let '(r, value) := sample in
  do! modify_device (fun d => d <| readouts_ ::= readouts_sample (ref_measurement r) value |>) in
  let! d := m_gets dw_device in
  device_emit (trace_event now epoch "MeasurementSampled" (ref_measurement r) 0 0
    <| te_core := match readout_at (readouts_ d) (ref_measurement r) with
                  | Some ro => ro_core ro | None => None end |>
    <| te_targets := [ref_target r] |> <| te_value := if value : bool then 1 else 0 |>).

(** [active_.at(id)] has been checked by [prepare_boundary]. *)
Definition commit_end (now : Tick) (epoch : Epoch) (id : Id) : M DeviceWorld unit :=
  let! d := m_gets dw_device in
  match active_ d !! id with
  | None => m_fault Protocol
  | Some a =>
      do! device_emit (trace_event now epoch "OperationEnd" id (oe_label (se_event a)) 0
            <| te_core := oe_core (se_event a) |> <| te_port := ev_port (se_action a) |>
            <| te_targets := targets (se_resolved a) |> <| te_operation := operation (se_resolved a) |>) in
      modify_device (fun d => d <| active_ ::= delete id |>)
  end.

Definition commit_gate (now : Tick) (epoch : Epoch) (name : string) : M DeviceWorld unit :=
  let! d := m_gets dw_device in
  let! g := m_lift (device_gate (ce_profile d) name) in
  device_emit (trace_event now epoch "GateApplied" 0 0 0
    <| te_operation := tq_operation g |> <| te_targets := tq_targets g |>
    <| te_value := tq_duration g |> <| te_detail := name |>).

Definition commit_start (now : Tick) (epoch : Epoch) (a : ScheduledEvent) : M DeviceWorld unit :=
  let! d := m_gets dw_device in
  do! m_lift (require (bool_decide (active_ d !! se_id a = None)) Protocol) in
  do! modify_device (fun d => d <| active_ ::= insert (se_id a) a |>) in
  device_emit (trace_event now epoch "OperationStart" (se_id a) (oe_label (se_event a)) 0
    <| te_core := oe_core (se_event a) |> <| te_port := ev_port (se_action a) |>
    <| te_codeword := oe_codeword (se_event a) |> <| te_targets := targets (se_resolved a) |>
    <| te_operation := operation (se_resolved a) |> <| te_value := wrap64 (se_end a - se_start a) |>).

(** [readouts_.at(id)]: a ready readout is pending. *)
Definition commit_ready (now : Tick) (epoch : Epoch) (id : Id) : M DeviceWorld unit :=
  let! d := m_gets dw_device in
  match readout_at (readouts_ d) id with
  | None => m_fault Protocol
  | Some ro =>
      let! c := m_lift (readout_result ro) in
      do! on dw_env (deliver c) in
      do! device_emit (trace_event now epoch "ResultReady" id 0 0
            <| te_core := ro_core ro |> <| te_targets := [ref_target (ro_reference ro)] |>
            <| te_value := if comp_value c then 1 else 0 |>) in
      modify_device (fun d => d <| readouts_ ::= readouts_erase id |>)
  end.

Definition process_boundary (now : Tick) (epoch : Epoch) (b : Boundary) : M DeviceWorld unit :=
  let! d := m_gets dw_device in
  let! p := m_lift (prepare_boundary d now epoch b) in
  let '(samples, gates, outputs) := p in
  do! (if last_tick_ d <? now
       then on_backend (execution_evolve (last_tick_ d) now (activities is_pulse false (active_ d))
                          (activities is_acquire true (active_ d)))
       else m_ret ()) in
  let! outcomes := on_backend (execution_measure now samples) in
  do! m_each (commit_sample now epoch) (combine samples outcomes) in
  do! m_each (commit_end now epoch) (bd_ends b) in
  do! on_backend (execution_apply now gates) in
  do! m_each (fun entry => commit_gate now epoch (fst entry)) outputs in
  do! m_each (commit_start now epoch) (bd_starts b) in
  do! m_each (commit_ready now epoch) (bd_ready b) in
  modify_device (fun d => d <| last_tick_ := now |> <| processed_tick_ := Some now |>
    <| boundaries_ ::= delete now |> <| reservations_ ::= discard_before now |>).

Definition device_process (now : Tick) (epoch : Epoch) : M DeviceWorld unit :=
  let! d := m_gets dw_device in
  do! m_lift (require ((last_tick_ d <=? now) &&
                       match processed_tick_ d with Some t => t <? now | None => true end) Protocol) in
  match boundaries_ d !! now with
  | None => m_ret ()
  | Some b => process_boundary now epoch b
  end.

Definition next_boundary (d : ControlElectronics B) : option Tick := least_key (boundaries_ d).

Definition device_drained (d : ControlElectronics B) : bool :=
  bool_decide (boundaries_ d = ∅) && bool_decide (active_ d = ∅) && bool_decide (readouts_ d = ∅).

Definition device_finalize (now : Tick) : M DeviceWorld unit :=
  let! d := m_gets dw_device in
  do! m_lift (require (device_drained d) Protocol) in
  do! m_lift (require (last_tick_ d <=? now) Protocol) in
  do! (if last_tick_ d <? now then on_backend (execution_evolve (last_tick_ d) now [] []) else m_ret ()) in
  do! modify_device (fun d => d <| last_tick_ := now |>) in
  on_backend execution_flush.

Definition device_reset (now : Tick) (epoch : Epoch) : M DeviceWorld unit :=
  let! d := m_gets dw_device in
  do! m_each (fun a =>
        if now <=? se_end a
        then device_emit (trace_event now epoch "ResetAborted" (se_id a) (oe_label (se_event a)) 0)
        else m_ret ()) (reservations_ d) in
  do! modify_device (fun d => d <| boundaries_ := ∅ |> <| active_ := ∅ |> <| readouts_ := ∅ |>
        <| reservations_ := [] |>) in
  do! on_backend (execution_reset (dp_qubits (ce_profile d)) (dp_seed (ce_profile d)) epoch now) in
  modify_device (fun d => d <| last_tick_ := now |> <| processed_tick_ := None |>).
End Electronics.
Arguments DeviceWorld : clear implicits.

(** ** What [accept] does to the schedule *)
Definition boundary_at (m : gmap Z Boundary) (t : Tick) : Boundary := default no_boundary (m !! t).

Lemma boundary_at_upsert f k m t :
  boundary_at (upsert no_boundary f k m) t = if decide (t = k) then f (boundary_at m k) else boundary_at m t.
Proof. unfold boundary_at. rewrite lookup_upsert. by destruct (decide _). Qed.

Definition starting_at (t : Tick) : list ScheduledEvent -> list ScheduledEvent :=
  List.filter (fun a => se_start a =? t).
Definition ending_at (t : Tick) (l : list ScheduledEvent) : list Id :=
  map se_id (List.filter (fun a => se_end a =? t) l).
Definition ready_at (t : Tick) (l : list Readout) : list Id :=
  map ro_id (List.filter (fun r => ro_ready r =? t) l).

(** A boundary with more work appended. *)
Definition join_boundary (b : Boundary) (starts : list ScheduledEvent) (ends ready : list Id) : Boundary :=
  mkBoundary (bd_starts b ++ starts) (bd_ends b ++ ends) (bd_ready b ++ ready).

Lemma join_boundary_nil b : join_boundary b [] [] [] = b.
Proof. destruct b. unfold join_boundary. simpl. by rewrite !app_nil_r. Qed.

Lemma join_boundary_join b s1 e1 r1 s2 e2 r2 :
  join_boundary (join_boundary b s1 e1 r1) s2 e2 r2 = join_boundary b (s1 ++ s2) (e1 ++ e2) (r1 ++ r2).
Proof. unfold join_boundary. simpl. by rewrite <-!app_assoc. Qed.

(** [later m t starts ends ready m']: the boundary of every tick gains what is listed for that tick. *)
Definition gains (starts ends : list ScheduledEvent) (ready : list Readout) (m m' : gmap Z Boundary) : Prop :=
  forall t, boundary_at m' t =
    join_boundary (boundary_at m t) (starting_at t starts) (ending_at t ends) (ready_at t ready).

Lemma gains_nil m : gains [] [] [] m m.
Proof. intros t. by rewrite join_boundary_nil. Qed.

Lemma gains_trans s1 e1 r1 s2 e2 r2 m1 m2 m3 :
  gains s1 e1 r1 m1 m2 -> gains s2 e2 r2 m2 m3 -> gains (s1 ++ s2) (e1 ++ e2) (r1 ++ r2) m1 m3.
Proof.
  intros H1 H2 t. rewrite H2, H1, join_boundary_join.
  unfold starting_at, ending_at, ready_at. by rewrite !List.filter_app, !map_app.
Qed.

Section Accept.
Context {B F : Type} `{HQ : QuantumBackend B}.
Abbreviation World := (DeviceWorld B F).

(** The parts of the device that [accept] leaves alone. *)
Record same_backend (d d' : ControlElectronics B) : Prop := {
  sb_profile : ce_profile d' = ce_profile d;
  sb_backend : ce_backend d' = ce_backend d;
  sb_active : active_ d' = active_ d;
  sb_last : last_tick_ d' = last_tick_ d;
  sb_processed : processed_tick_ d' = processed_tick_ d }.

Definition with_boundaries (f : gmap Z Boundary -> gmap Z Boundary) (w : World) : World :=
  w <| dw_device ::= fun d => d <| boundaries_ ::= f |> |>.

Lemma at_boundary_eq t f (w : World) :
  at_boundary t f w = (Ok (), with_boundaries (upsert no_boundary f t) w).
Proof. reflexivity. Qed.

(** Scheduling the results of the new readouts. *)
Lemma schedule_ready rs (w : World) :
  exists m, m_each (fun r => at_boundary (ro_ready r)
      (fun b => b <| bd_ready ::= fun l => l ++ [ref_measurement (ro_reference r)] |>)) rs w =
    (Ok (), with_boundaries (fun _ => m) w) /\ gains [] [] rs (boundaries_ (dw_device w)) m.
Proof.
  revert w. induction rs as [|r rs IH]; intros w.
  - exists (boundaries_ (dw_device w)). split; [|apply gains_nil]. by destruct w as [[] ? ?].
  - cbn [m_each]. unfold m_bind at 1. rewrite at_boundary_eq.
    destruct (IH (with_boundaries (upsert no_boundary
      (fun b => b <| bd_ready ::= fun l => l ++ [ref_measurement (ro_reference r)] |>) (ro_ready r)) w))
      as (m & E & Hg). exists m. split; [rewrite E; by destruct w as [[] ? ?]|].
    apply (gains_trans [] [] [r] [] [] rs _ _ _) with (2 := Hg). intros t.
    simpl. rewrite boundary_at_upsert. unfold join_boundary, ready_at. simpl.
    destruct (decide (t = ro_ready r)) as [->|Hne].
    + rewrite Z.eqb_refl. by destruct (boundary_at _ _); simpl; rewrite !app_nil_r.
    + rewrite (proj2 (Z.eqb_neq _ _)) by congruence. by destruct (boundary_at _ _); simpl; rewrite !app_nil_r.
Qed.

(** Scheduling one action and recording it. *)
Lemma accept_action_ok batch a (w : World) :
  trace_ready (fire_tick batch) (dw_trace w) ->
  exists m t, accept_action batch a w =
      (Ok (), w <| dw_trace := t |> <| dw_device ::= fun d => d <| boundaries_ := m |> |>) /\
    gains [a] [a] [] (boundaries_ (dw_device w)) m /\ trace_ready (fire_tick batch) t.
Proof.
  intros Hr. unfold accept_action, m_bind. rewrite !at_boundary_eq. cbv beta iota.
  unfold device_emit, m_zoom. rewrite trace_emit_plain by (reflexivity || done).
  eexists _, _. split; [reflexivity|]. split; [|by apply trace_ready_push].
  intros t. simpl. rewrite !boundary_at_upsert. unfold join_boundary, starting_at, ending_at. simpl.
  destruct (boundary_at (boundaries_ (dw_device w)) t) as [st en rd] eqn:Eb.
  generalize (se_start a) as start, (se_end a) as stop. intros start stop.
  destruct (Z.eqb_spec start t), (Z.eqb_spec stop t);
    repeat (destruct (decide _); try congruence); subst; simpl; rewrite ?Eb; simpl; rewrite ?app_nil_r; reflexivity.
Qed.

Lemma accept_actions_ok batch actions (w : World) :
  trace_ready (fire_tick batch) (dw_trace w) ->
  exists m t, m_each (accept_action batch) actions w =
      (Ok (), w <| dw_trace := t |> <| dw_device ::= fun d => d <| boundaries_ := m |> |>) /\
    gains actions actions [] (boundaries_ (dw_device w)) m.
Proof.
  revert w. induction actions as [|a l IH]; intros w Hr.
  - exists (boundaries_ (dw_device w)), (dw_trace w). split; [by destruct w as [[] ? ?] | apply gains_nil].
  - cbn [m_each]. destruct (accept_action_ok batch a w Hr) as (m & t & E & Hg & Ht).
    unfold m_bind at 1. rewrite E.
    destruct (IH (mkDeviceWorld (dw_device w <| boundaries_ := m |>) t (dw_env w)) Ht)
      as (m' & t' & E' & Hg'). exists m', t'. split; [refine (eq_trans E' _); by destruct w as [[] ? ?]|].
    by apply (gains_trans [a] [a] [] l l []) with (m2 := m).
Qed.

(** What an accepted launch leaves. *)
Record accepted (batch : TriggeredEvents) (d d' : ControlElectronics B) (actions : list ScheduledEvent)
    (rs : list Readout) : Prop := {
  ac_same : same_backend d d';
  ac_reserved : reservations_ d' = reservations_ d ++ actions;
  ac_boundaries : gains actions actions rs (boundaries_ d) (boundaries_ d');
  ac_readouts : forall id, readouts_ d' !! id =
    match List.find (fun r => ro_id r =? id) rs with Some r => Some r | None => readouts_ d !! id end }.

Lemma device_prepare_ok (d : ControlElectronics B) batch actions rs :
  device_prepare d batch = Ok (actions, rs) ->
  device_resolve d batch = Ok actions /\ resources_check (reservations_ d) actions = Ok () /\
  readouts_prepare (readouts_ d) actions (tg_epoch batch) = Ok rs.
Proof.
  unfold device_prepare. intros H. apply result_bind_ok in H as (l & H1 & H).
  apply result_bind_ok in H as ([] & H2 & H). apply result_bind_ok in H as (k & H3 & H).
  apply result_bind_ok in H as (? & _ & H). apply Ok_inj, pair_equal_spec in H as [<- <-]. done.
Qed.

Lemma device_resolve_size (d : ControlElectronics B) batch actions :
  device_resolve d batch = Ok actions -> size_of actions = size_of (tg_events batch).
Proof.
  unfold device_resolve. intros H.
  refine (result_fold_prefix (fun seen l => size_of l = size_of seen) _ _ [] [] _ _ _ H); [done|].
  intros seen e l l' _ IH E. unfold resolve_event in E. inv_ok E. by rewrite !size_of_app, IH.
Qed.

Lemma device_accept_ok batch actions rs (w : World) :
  device_prepare (dw_device w) batch = Ok (actions, rs) -> size_of actions <= max32 ->
  trace_ready (fire_tick batch) (dw_trace w) ->
  exists d' t, device_accept batch w = (Ok (), mkDeviceWorld d' t (dw_env w)) /\
    accepted batch (dw_device w) d' actions rs.
Proof.
  intros Hp Hsz Hr. destruct (device_prepare_ok _ _ _ _ Hp) as (_ & Hc & Hro).
  destruct (readouts_prepare_sound _ _ _ _ Hsz Hro) as (Hof & Hnd & _).
  assert (Hfresh : Forall (fun r => readouts_ (dw_device w) !! ro_id r = None) rs).
  { clear -Hof. induction Hof as [|a r l k Har _ IH]; constructor; [apply (rf_fresh _ _ _ _ _ Har) | exact IH]. }
  set (d1 := dw_device w <| reservations_ := reservations_ (dw_device w) ++ actions |>
      <| readouts_ := fold_left add_readout rs (readouts_ (dw_device w)) |>).
  destruct (schedule_ready rs (mkDeviceWorld d1 (dw_trace w) (dw_env w))) as (m1 & E1 & G1).
  destruct (accept_actions_ok batch actions
    (mkDeviceWorld (d1 <| boundaries_ := m1 |>) (dw_trace w) (dw_env w)) Hr) as (m2 & t & E2 & G2).
  eexists _, t. split.
  - unfold device_accept. refine (eq_trans (m_bind_step _ _ _ _ _ eq_refl) _).
    refine (eq_trans (m_bind_step _ _ _ _ _ (f_equal (fun r => (r, w)) Hp)) _). cbv beta iota.
    refine (eq_trans (m_bind_step _ _ tt _ (mkDeviceWorld (dw_device w
      <| reservations_ := reservations_ (dw_device w) ++ actions |>) (dw_trace w) (dw_env w)) _) _).
    { unfold m_zoom, resources_reserve, m_bind, m_get, m_lift. rewrite Hc. by destruct w as [[] ? ?]. }
    refine (eq_trans (m_bind_step _ _ tt _ (mkDeviceWorld d1 (dw_trace w) (dw_env w)) _) _).
    { unfold m_zoom. cbn [dw_device readouts_ update]. by rewrite readouts_insert_ok. }
    refine (eq_trans (m_bind_step _ _ _ _ _ E1) _). exact E2.
  - constructor; try done.
    + pose proof (gains_trans [] [] rs actions actions [] _ _ _ G1 G2) as G. by rewrite app_nil_r in G.
    + intros id. by apply lookup_add_readouts.
Qed.

(** C37. Preflight decides acceptance.  If [preflight] passes, [accept] of the same launch cannot fail:
    it reserves every action, adds every start, end and result to the boundary of its tick after what
    was there, adds the readouts, and touches neither the backend nor the operations in progress.  If
    [preflight] faults, [accept] raises the same fault and changes nothing. *)
Theorem preflight_decides_accept (batch : TriggeredEvents) (w : World) :
  size_of (tg_events batch) <= max32 -> trace_ready (fire_tick batch) (dw_trace w) ->
  match device_preflight (dw_device w) batch with
  | Ok _ => exists d' t actions rs,
      device_accept batch w = (Ok (), mkDeviceWorld d' t (dw_env w)) /\
      device_resolve (dw_device w) batch = Ok actions /\
      readouts_prepare (readouts_ (dw_device w)) actions (tg_epoch batch) = Ok rs /\
      accepted batch (dw_device w) d' actions rs
  | Fault e => device_accept batch w = (Fault e, w)
  end.
Proof.
  intros Hsz Hr. unfold device_preflight.
  destruct (device_prepare (dw_device w) batch) as [[actions rs]|e] eqn:E; cbn [result_bind].
  - destruct (device_prepare_ok _ _ _ _ E) as (Hres & _ & Hro).
    rewrite <-(device_resolve_size _ _ _ Hres) in Hsz.
    destruct (device_accept_ok batch actions rs w E Hsz Hr) as (d' & t & H1 & H2). eauto 8.
  - unfold device_accept, m_bind, m_gets, m_lift. by rewrite E.
Qed.
End Accept.

(** ** Example: a measurement on a device with the mock backend *)
Definition example_device : ControlElectronics MockBackend :=
  mkElectronics (mkDevice 2 0 ∅) (mkExecution (snd (mock_reset 2 0 (mock_new {[9 := true]}))) 1024 [] 1 0)
    [] ∅ ∅ ∅ 0 None.
Definition example_device_world : DeviceWorld MockBackend (list Completion) :=
  mkDeviceWorld example_device trace_new [].
Definition example_launch : TriggeredEvents :=
  mkTriggered 1 1 100 [se_event (example_acquire true 1 100 140); se_event (example_arm 2 100 160)].

Lemma preflight_decides_accept_witness :
  exists d' t, device_accept example_launch example_device_world = (Ok (), mkDeviceWorld d' t []) /\
    boundary_at (boundaries_ d') 140 = mkBoundary [] [1] [].
Proof.
  pose proof (preflight_decides_accept example_launch example_device_world ltac:(vm_compute; congruence) I) as H.
  destruct (device_preflight _ _) as [u|e] eqn:E in H; [|vm_compute in E; discriminate].
  destruct H as (d' & t & actions & rs & H1 & H2 & H3 & Hacc). exists d', t. split; [exact H1|].
  rewrite (ac_boundaries _ _ _ _ _ Hacc 140). vm_compute in H2. apply Ok_inj in H2 as <-.
  vm_compute in H3. apply Ok_inj in H3 as <-. vm_compute. reflexivity.
Defined.
