(* ===== verification/Pipeline.v ===== *)
(** * The in-order pipeline (src/cpu/pipeline.cpp, include/qsbit/cpu/pipeline.hpp, cpu/trace.hpp)

    A fetch request, a fetched instruction, one being decoded and one being executed.  Control
    operations are handed to timing control, which may decline ([None]) to be asked again at the next
    edge; loads and stores wait for the data port.  [CpuCycleModel] and [VliwCpuCycleModel] are this
    pipeline with [Scalar] and [DualCodeword] issue.

    The file shows that the pipeline is an implementation of the sequential machine of Isa.v: every
    step leaves the architectural state alone or executes exactly the instruction at the program
    counter, and an exception leaves the state of the instruction it belongs to. *)

From S2P Require Import Prelude Error Time Trace Mailbox Isa ControlCommand Image Memory.

Inductive ControlIssue := Scalar | DualCodeword.
#[global] Instance ControlIssue_eq_dec : EqDecision ControlIssue.
Proof. solve_decision. Defined.

Record Fetch := mkFetch { ft_id : Id; ft_pc : Z; ft_generation : Id }.

(** [operations] is an array of two. *)
Record Frame := mkFrame {
  fr_id : Id; fr_pc : Z; fr_word : Z; fr_lhs : Z; fr_rhs : Z; fr_fault : option ErrorCode;
  fr_decoded : option Decoded; fr_effect : option Effect; memory_request : Id; bundle : bool;
  operations : list ControlOperation; completed_lanes : Z }.
#[global] Instance eta_Frame : Eta Frame := fun f =>
  mkFrame (fr_id f) (fr_pc f) (fr_word f) (fr_lhs f) (fr_rhs f) (fr_fault f) (fr_decoded f)
    (fr_effect f) (memory_request f) (bundle f) (operations f) (completed_lanes f).

Definition frame_new (id : Id) (pc word : Z) (fault : option ErrorCode) : Frame :=
  mkFrame id pc word 0 0 fault None None 0 false (repeat (mkControl 0 (WaitCommand 0)) 2) 0.

(** [CpuPipelineTrace]: the last state it reported. *)
Record CpuPipelineTrace := mkPipelineTrace { previous_ : option CpuPipelineState; pt_epoch : Epoch }.

Record InOrderPipeline := mkPipeline {
  issue_ : ControlIssue; pl_clock : Clock; pipeline_trace : CpuPipelineTrace; registers_ : list Z;
  pc_ : Z; fetch_pc : Z; fetch_request : option Fetch; fetched_ : option Frame;
  decode_ : option Frame; execute_ : option Frame; next_fetch : Id; next_data : Id;
  generation_ : Id; halted_ : bool }.
#[global] Instance eta_InOrderPipeline : Eta InOrderPipeline := fun p =>
  mkPipeline (issue_ p) (pl_clock p) (pipeline_trace p) (registers_ p) (pc_ p) (fetch_pc p)
    (fetch_request p) (fetched_ p) (decode_ p) (execute_ p) (next_fetch p) (next_data p)
    (generation_ p) (halted_ p).

Definition pipeline_reset (entry : Z) (p : InOrderPipeline) : InOrderPipeline :=
  mkPipeline (issue_ p) (pl_clock p) (mkPipelineTrace None (pt_epoch (pipeline_trace p))) (repeat 0 32)
    entry entry None None None None 1 1 0 false.

Definition pipeline_new (clk : Clock) (entry : Z) (issue : ControlIssue) : InOrderPipeline :=
  pipeline_reset entry
    (mkPipeline issue clk (mkPipelineTrace None 0) (repeat 0 32) 0 0 None None None None 1 1 0 false).

(** [CpuCycleModel] and [VliwCpuCycleModel]. *)
Definition cpu_cycle_model (clk : Clock) (entry : Z) : InOrderPipeline := pipeline_new clk entry Scalar.
Definition vliw_cycle_model (clk : Clock) (entry : Z) : InOrderPipeline := pipeline_new clk entry DualCodeword.

(** [pipeline_.registers()[n]]. *)
Definition register (p : InOrderPipeline) (n : Z) : Z := register_value (registers_ p) n.

(** The cycle number a trace event carries. *)
Definition local_cycle (c : Clock) (now : Tick) : Tick := wrap64 (now - phase c) / period c.

Section Pipeline.
Context {E : Type}.
(** [CpuPorts::control]: it works on the shared trace and on a state of its own. *)
Context (control : ControlOperation -> M (Trace * E) (option Z)).

Record PipelineWorld := mkPipelineWorld {
  pw_cpu : InOrderPipeline; pw_fetch : MemoryPort; pw_data : MemoryPort; pw_trace : Trace; pw_env : E }.
#[global] Instance eta_PipelineWorld : Eta PipelineWorld := fun w =>
  mkPipelineWorld (pw_cpu w) (pw_fetch w) (pw_data w) (pw_trace w) (pw_env w).

Definition modify_cpu (f : InOrderPipeline -> InOrderPipeline) : M PipelineWorld unit :=
  m_modify (fun w => w <| pw_cpu ::= f |>).
Definition cpu_emit (e : TraceEvent) : M PipelineWorld unit := on pw_trace (trace_emit e).
Definition call_control (o : ControlOperation) : M PipelineWorld (option Z) :=
  m_zoom (fun w => (pw_trace w, pw_env w))
         (fun s w => w <| pw_trace := fst s |> <| pw_env := snd s |>) (control o).
Definition take_fetch (now : Tick) : M PipelineWorld (option (Envelope MemoryResponse)) :=
  m_zoom (fun w => responses (pw_fetch w))
         (fun b w => w <| pw_fetch ::= fun p => p <| responses := b |> |>) (mailbox_take now).
Definition take_data (now : Tick) : M PipelineWorld (option (Envelope MemoryResponse)) :=
  m_zoom (fun w => responses (pw_data w))
         (fun b w => w <| pw_data ::= fun p => p <| responses := b |> |>) (mailbox_take now).
Definition request_fetch (now : Tick) (epoch : Epoch) (r : MemoryRequest) : M PipelineWorld unit :=
  m_zoom (fun w => requests (pw_fetch w))
         (fun b w => w <| pw_fetch ::= fun p => p <| requests := b |> |>) (mailbox_publish now epoch r).
Definition request_data (now : Tick) (epoch : Epoch) (r : MemoryRequest) : M PipelineWorld unit :=
  m_zoom (fun w => requests (pw_data w))
         (fun b w => w <| pw_data ::= fun p => p <| requests := b |> |>) (mailbox_publish now epoch r).

(** [CpuPipelineTrace::sample]. *)
Definition stage_of (f : option Frame) : option CpuPipelineInstruction :=
  match f with
  | Some f => Some (mkPipeInstr (fr_id f) (fr_pc f) (Some (fr_word f)) false)
  | None => None
  end.
Definition pipeline_state (p : InOrderPipeline) : CpuPipelineState :=
  mkPipeState
    (match fetch_request p with
     | Some f => Some (mkPipeInstr (ft_id f) (ft_pc f) None
                         (negb (ft_generation f =? generation_ p) || halted_ p))
     | None => None
     end) (stage_of (fetched_ p)) (stage_of (decode_ p)) (stage_of (execute_ p)) (halted_ p).

Definition sample (now : Tick) (epoch : Epoch) : M PipelineWorld unit :=
  let! p := m_gets pw_cpu in
  let state := pipeline_state p in
  let t := pipeline_trace p in
  if match previous_ t with
     | Some previous => (epoch =? pt_epoch t) && bool_decide (state = previous)
     | None => false
     end
  then m_ret ()
  else
    do! cpu_emit (pipeline_event now epoch (local_cycle (pl_clock p) now) state) in
    modify_cpu (fun p => p <| pipeline_trace := mkPipelineTrace (Some state) epoch |>).

Definition write_registers (d : Decoded) (v : Z) (registers : list Z) : list Z :=
  let registers := if writes_rd d && negb (rd d =? 0) then <[Z.to_nat (rd d) := v]> registers else registers in
  <[O := 0]> registers.

Definition retire (frame : Frame) (d : Decoded) (v next : Z) (now : Tick) (epoch : Epoch)
    : M PipelineWorld unit :=
  do! modify_cpu (fun p => p <| registers_ ::= write_registers d v |> <| pc_ := next |>) in
  let! p := m_gets pw_cpu in
  cpu_emit (retired_event now epoch (fr_id frame) (local_cycle (pl_clock p) now)
    (mkRetired (fr_pc frame) (fr_word frame) (if writes_rd d then rd d else 0) next v (registers_ p))).

(** The fetch port's response becomes the fetched instruction, unless a flush has overtaken it. *)
Definition receive_fetch (now : Tick) (epoch : Epoch) : M PipelineWorld unit :=
  let! response := take_fetch now in
  match response with
  | None => m_ret ()
  | Some response =>
      if negb (env_epoch response =? epoch) then m_ret () else
      let! p := m_gets pw_cpu in
      match fetch_request p with
      | None => m_fault Protocol
      | Some f =>
          do! m_lift (require (rs_id (value response) =? ft_id f) Protocol) in
          do! (if (ft_generation f =? generation_ p) && negb (halted_ p) then
                 do! m_lift (require (match fetched_ p with None => true | Some _ => false end) Protocol) in
                 modify_cpu (fun p => p <| fetched_ :=
                   Some (frame_new (ft_id f) (ft_pc f) (rs_value (value response)) (rs_fault (value response))) |>)
               else m_ret ()) in
          modify_cpu (fun p => p <| fetch_request := None |>)
      end
  end.

Definition modify_execute (f : Frame -> Frame) : M PipelineWorld unit :=
  modify_cpu (fun p => p <| execute_ ::= option_map f |>).

(** The loop over the lanes of a bundle, started at the lanes that remain. *)
Fixpoint issue_lanes (remaining : list ControlOperation) : M PipelineWorld bool :=
  match remaining with
  | [] => m_ret true
  | o :: remaining =>
      let! reply := call_control o in
      match reply with
      | Some _ =>
          do! modify_execute (fun f => f <| completed_lanes ::= fun n => n + 1 |>) in
          issue_lanes remaining
      | None => m_ret false
      end
  end.

(** A memory instruction: publish the request once, then wait for its response. *)
Definition execute_memory (now : Tick) (epoch : Epoch) (frame : Frame) (e : Effect)
    : M PipelineWorld (option Z) :=
  if memory_request frame =? 0 then
    let! full := m_gets (fun w => mailbox_full (requests (pw_data w))) in
    if full : bool then m_ret None else
    let! p := m_gets pw_cpu in
    let id := next_data p in
    let! next := m_lift (checked_add id 1) in
    do! modify_cpu (fun p => p <| next_data := next |>) in
    do! request_data now epoch (mkRequest id (address e) (store_value e) (width e)
          (bool_decide (memory e = MemStore)) false) in
    do! modify_execute (fun f => f <| memory_request := id |>) in
    m_ret None
  else
    let! response := take_data now in
    match response with
    | None => m_ret None
    | Some response =>
        do! m_lift (require ((env_epoch response =? epoch) &&
                             (rs_id (value response) =? memory_request frame)) Protocol) in
        match rs_fault (value response) with
        | Some code => m_fault code
        | None =>
            let v := rs_value (value response) in
            if sign_extend_load e then
              let! v := m_lift (sign_extend v (width e * 8)) in m_ret (Some v)
            else m_ret (Some v)
        end
    end.

(** What an instruction that completes retires: its value, the next address, and whether the
    instructions behind it are flushed. *)
Definition execute_frame (now : Tick) (epoch : Epoch) (frame : Frame) (d : Decoded)
    : M PipelineWorld (option (Z * Z * bool)) :=
  let fall_through := wrap32 (fr_pc frame + 4) in
  if bundle frame then
    let! completed := issue_lanes (drop (Z.to_nat (completed_lanes frame)) (operations frame)) in
    m_ret (if completed : bool then Some (0, fall_through, false) else None)
  else if bool_decide (op d = Quantum) then
    let! o := m_lift (adapt_quantum d (fr_id frame) (fr_lhs frame) (fr_rhs frame)) in
    let! reply := call_control o in
    m_ret (match reply with Some v => Some (v, fall_through, false) | None => None end)
  else
    let! p := m_gets pw_cpu in
    if bool_decide (op d = Ecall) && (register p 17 =? 93) then
      let! reply := call_control (mkControl (fr_id frame) HaltCommand) in
      match reply with
      | Some _ =>
          do! modify_cpu (fun p => p <| halted_ := true |>) in
          m_ret (Some (0, fall_through, true))
      | None => m_ret None
      end
    else
      let! e :=
        match fr_effect frame with
        | Some e => m_ret e
        | None =>
            let! e := m_lift (evaluate d (fr_pc frame) (fr_lhs frame) (fr_rhs frame)) in
            do! modify_execute (fun f => f <| fr_effect := Some e |>) in
            m_ret e
        end in
      match memory e with
      | MemNone => m_ret (Some (eff_value e, next_pc e, branch_taken e))
      | _ =>
          let! v := execute_memory now epoch frame e in
          m_ret (match v with Some v => Some (v, next_pc e, false) | None => None end)
      end.

Definition stall_detail (d : Decoded) : string :=
  if bool_decide (op d = Quantum) || bool_decide (op d = Ecall)
  then "timing control or measurement register" else "memory response".

(** The execute stage; the result is [flush]. *)
Definition execute_stage (now : Tick) (epoch : Epoch) : M PipelineWorld bool :=
  let! p := m_gets pw_cpu in
  match execute_ p with
  | None => m_ret false
  | Some frame =>
      match fr_fault frame with
      | Some code => m_fault code
      | None =>
          match fr_decoded frame with
          | None => m_fault Protocol
          | Some d =>
              let! completed := execute_frame now epoch frame d in
              match completed with
              | Some (v, next, flush) =>
                  do! retire frame d v next now epoch in
                  do! modify_cpu (fun p => p <| execute_ := None |>) in
                  m_ret flush
              | None =>
                  do! cpu_emit (trace_event now epoch "CpuStalled" (fr_id frame) 0 0
                        <| te_detail := stall_detail d |>) in
                  m_ret false
              end
          end
      end
  end.

Definition flush_stage (now : Tick) (epoch : Epoch) : M PipelineWorld unit :=
  let! p := m_gets pw_cpu in
  do! modify_cpu (fun p => p <| decode_ := None |> <| fetched_ := None |>) in
  let! g := m_lift (checked_add (generation_ p) 1) in
  do! modify_cpu (fun p => p <| generation_ := g |> <| fetch_pc := pc_ p |>) in
  cpu_emit (trace_event now epoch "PipelineFlushed" 0 0 0).

(** The [try] block: operands are read when the instruction enters the execute stage. *)
Definition decode_frame (p : InOrderPipeline) (frame : Frame) : result Frame :=
  if bool_decide (issue_ p = DualCodeword) && (fr_word frame .& 127 =? BundleOpcode) then
    let? ops := decode_cw_bundle (fr_word frame) (fr_id frame) (registers_ p) in
    Ok (frame <| operations := [fst ops; snd ops] |> <| bundle := true |>
          <| fr_decoded := Some (mkDecoded Quantum (fr_word frame) 0 0 0 0 false false false) |>)
  else
    let? d := decode (fr_word frame) in
    Ok (frame <| fr_decoded := Some d |> <| fr_lhs := register p (rs1 d) |>
          <| fr_rhs := register p (rs2 d) |>).

Definition enter_execute (p : InOrderPipeline) (frame : Frame) : Frame :=
  match fr_fault frame with
  | Some _ => frame
  | None =>
      match decode_frame p frame with
      | Ok frame => frame
      | Fault code => frame <| fr_fault := Some code |>
      end
  end.

Definition decode_stage (p : InOrderPipeline) : InOrderPipeline :=
  match execute_ p, decode_ p with
  | None, Some frame => p <| decode_ := None |> <| execute_ := Some (enter_execute p frame) |>
  | _, _ => p
  end.

Definition fetched_stage (p : InOrderPipeline) : InOrderPipeline :=
  match decode_ p, fetched_ p with
  | None, Some frame => p <| decode_ := Some frame |> <| fetched_ := None |>
  | _, _ => p
  end.

Definition fetch_stage (now : Tick) (epoch : Epoch) : M PipelineWorld unit :=
  let! p := m_gets pw_cpu in
  let! full := m_gets (fun w => mailbox_full (requests (pw_fetch w))) in
  match fetch_request p, fetched_ p, full with
  | None, None, false =>
      let id := next_fetch p in
      let! next := m_lift (checked_add id 1) in
      do! modify_cpu (fun p => p <| next_fetch := next |>) in
      do! request_fetch now epoch (mkRequest id (fetch_pc p) 0 4 false true) in
      modify_cpu (fun p => p <| fetch_request := Some (mkFetch id (fetch_pc p) (generation_ p)) |>
        <| fetch_pc := wrap32 (fetch_pc p + 4) |>)
  | _, _, _ => m_ret ()
  end.

Definition pipeline_step (now : Tick) (epoch : Epoch) : M PipelineWorld unit :=
  let! p := m_gets pw_cpu in
  do! m_lift (require (clock_edge (pl_clock p) now) Protocol) in
  do! receive_fetch now epoch in
  let! p := m_gets pw_cpu in
  if halted_ p then sample now epoch else
  let! flush := execute_stage now epoch in
  do! (if flush : bool then flush_stage now epoch else m_ret ()) in
  let! p := m_gets pw_cpu in
  if halted_ p then sample now epoch else
  do! modify_cpu (fun p => fetched_stage (decode_stage p)) in
  do! fetch_stage now epoch in
  sample now epoch.
End Pipeline.
Arguments PipelineWorld : clear implicits.

(** ** The sequential machine *)
Record Arch := mkArch { ar_pc : Z; ar_registers : list Z; ar_halted : bool }.

Definition arch_of (p : InOrderPipeline) : Arch := mkArch (pc_ p) (registers_ p) (halted_ p).

Definition is_bundle (issue : ControlIssue) (w : Z) : bool :=
  bool_decide (issue = DualCodeword) && (w .& 127 =? BundleOpcode).

Definition bundle_decoded (w : Z) : Decoded := mkDecoded Quantum w 0 0 0 0 false false false.

(** What a completed instruction leaves. *)
Definition arch_write (d : Decoded) (v next : Z) (halts : bool) (a : Arch) : Arch :=
  mkArch next (write_registers d v (ar_registers a)) (ar_halted a || halts).

(** The instruction [w] of identity [id] executed in the state [a]; [reply] is the value timing
    control or memory answers with, when it is asked. *)
Definition isa_next (issue : ControlIssue) (id : Id) (w reply : Z) (a : Arch) : result Arch :=
  let operand n := register_value (ar_registers a) n in
  let fall_through := wrap32 (ar_pc a + 4) in
  if is_bundle issue w then
    let? _ := decode_cw_bundle w id (ar_registers a) in
    Ok (arch_write (bundle_decoded w) 0 fall_through false a)
  else
    let? d := decode w in
    if bool_decide (op d = Quantum) then
      let? _ := adapt_quantum d id (operand (rs1 d)) (operand (rs2 d)) in
      Ok (arch_write d reply fall_through false a)
    else if bool_decide (op d = Ecall) && (operand 17 =? 93) then
      Ok (arch_write d 0 fall_through true a)
    else
      let? e := evaluate d (ar_pc a) (operand (rs1 d)) (operand (rs2 d)) in
      let? v := match memory e with
                | MemNone => Ok (eff_value e)
                | _ => if sign_extend_load e then sign_extend reply (width e * 8) else Ok reply
                end in
      Ok (arch_write d v (next_pc e) false a).

(** An instruction that does not branch falls through; memory instructions do not branch. *)
Lemma evaluate_next d pc a b e :
  evaluate d pc a b = Ok e ->
  (branch_taken e = false -> next_pc e = wrap32 (pc + 4)) /\ (memory e <> MemNone -> branch_taken e = false).
Proof.
  unfold evaluate. intros H. apply result_bind_ok in H as ([] & _ & H).
  apply result_bind_ok in H as (e1 & He & H). apply result_bind_ok in H as ([] & _ & H).
  apply Ok_inj in H as <-.
  destruct (op d); try discriminate He; apply Ok_inj in He as <-; cbn [is_branch andb]; simpl;
    try (case_match; simpl); split; congruence.
Qed.

Lemma evaluate_memory d pc a b e :
  evaluate d pc a b = Ok e ->
  memory e = match op d with
             | Lb | Lh | Lw | Lbu | Lhu => MemLoad | Sb | Sh | Sw => MemStore | _ => MemNone
             end.
Proof.
  unfold evaluate. intros H. apply result_bind_ok in H as ([] & _ & H).
  apply result_bind_ok in H as (e1 & He & H). apply result_bind_ok in H as ([] & _ & H).
  apply Ok_inj in H as <-.
  destruct (op d); try discriminate He; apply Ok_inj in He as <-; cbn [is_branch andb]; simpl;
    try (case_match; simpl); reflexivity.
Qed.

(** ** The pipeline invariant *)

(** What the program's memory holds at an address: a word, or a fault of the access. *)
Definition Code : Type := Z -> result Z.

Definition code_response (code : Code) (pc : Z) (w : Z) (fault : option ErrorCode) : Prop :=
  match code pc with Ok v => w = v /\ fault = None | Fault c => fault = Some c end.

(** An instruction on its way to the execute stage. *)
Definition fresh (code : Code) (f : Frame) : Prop :=
  exists id pc w fault, f = frame_new id pc w fault /\ code_response code pc w fault.

Fixpoint consecutive (pc : Z) (l : list Z) : Prop :=
  match l with
  | [] => True
  | x :: l => x = pc /\ consecutive (wrap32 (pc + 4)) l
  end.

Definition stage_pc (f : option Frame) : list Z := match f with Some f => [fr_pc f] | None => [] end.
(** The fetch that no flush has overtaken. *)
Definition live_fetch (p : InOrderPipeline) : list Z :=
  match fetch_request p with
  | Some f => if ft_generation f =? generation_ p then [ft_pc f] else []
  | None => []
  end.
(** The addresses of the instructions in the pipeline, oldest first, and the next to be fetched. *)
Definition in_flight (p : InOrderPipeline) : list Z :=
  stage_pc (execute_ p) ++ stage_pc (decode_ p) ++ stage_pc (fetched_ p) ++ live_fetch p ++ [fetch_pc p].

(** What [evaluate] gave, if it has been asked. *)
Definition effect_ok (f : Frame) (e : option Effect) : Prop :=
  match e with
  | Some e => exists d, fr_decoded f = Some d /\ evaluate d (fr_pc f) (fr_lhs f) (fr_rhs f) = Ok e
  | None => True
  end.

(** A frame in the execute stage: an instruction as it entered, and its progress. *)
Definition in_execute (code : Code) (p : InOrderPipeline) (f : Frame) : Prop :=
  exists g e m n, fresh code g /\ effect_ok (enter_execute p g) e /\
    f = enter_execute p g <| fr_effect := e |> <| memory_request := m |> <| completed_lanes := n |>.

Record pipe_inv (code : Code) (p : InOrderPipeline) : Prop := {
  pi_order : consecutive (pc_ p) (in_flight p);
  pi_fetched : forall f, fetched_ p = Some f -> fresh code f;
  pi_decode : forall f, decode_ p = Some f -> fresh code f;
  pi_execute : forall f, execute_ p = Some f -> in_execute code p f;
  pi_generation : forall f, fetch_request p = Some f -> ft_generation f <= generation_ p;
  pi_one : forall f, fetched_ p = Some f -> fetch_request p = None;
  pi_halted : halted_ p = true -> live_fetch p = [];
  pi_zero : register p 0 = 0 }.

Lemma register_zero d v l : register_value (write_registers d v l) 0 = 0.
Proof. unfold register_value, write_registers. generalize (if writes_rd d && negb (rd d =? 0) then <[Z.to_nat (rd d):=v]> l else l). by intros []. Qed.

Lemma enter_execute_ext p q g :
  issue_ p = issue_ q -> registers_ p = registers_ q -> enter_execute p g = enter_execute q g.
Proof. intros H1 H2. unfold enter_execute, decode_frame, register. by rewrite H1, H2. Qed.

Lemma in_execute_ext code p q f :
  issue_ p = issue_ q -> registers_ p = registers_ q -> in_execute code p f -> in_execute code q f.
Proof. intros H1 H2. unfold in_execute. by setoid_rewrite (enter_execute_ext p q _ H1 H2). Qed.

(** The progress a frame can make without completing. *)
Definition progress (p : InOrderPipeline) (f : Frame) (p' : InOrderPipeline) : Prop :=
  exists nd e m n, effect_ok f e /\
    p' = p <| next_data := nd |>
           <| execute_ := Some (f <| fr_effect := e |> <| memory_request := m |> <| completed_lanes := n |>) |>.

Lemma in_execute_progress code p f p' g :
  in_execute code p f -> progress p f p' -> execute_ p' = Some g -> in_execute code p' g.
Proof.
  intros (h & e & m & n & Hh & He & ->) (nd & e' & m' & n' & He' & ->) H. simpl in H. injection H as <-.
  apply (in_execute_ext _ p); [done..|]. exists h, e', m', n'. split_and!; [done | | done].
  exact He'.
Qed.

Section Execution.
Context {E : Type} (control : ControlOperation -> M (Trace * E) (option Z)).
Abbreviation World := (PipelineWorld E).

Lemma keeps_cpu {A T} (I : InOrderPipeline -> Prop) (get : World -> T) set (m : M T A) :
  (forall t w, pw_cpu (set t w) = pw_cpu w) -> keeps (fun w => I (pw_cpu w)) (m_zoom get set m).
Proof. intros H. apply keeps_zoom. intros t w Hw. by rewrite H. Qed.

Lemma keeps_modify_cpu (I : InOrderPipeline -> Prop) f :
  (forall p, I p -> I (f p)) -> keeps (fun w : World => I (pw_cpu w)) (modify_cpu f).
Proof. intros H. apply keeps_modify. intros w Hw. by apply H. Qed.

Lemma progress_execute p f p' h :
  (forall e m n, effect_ok f e -> exists e' m' n', effect_ok f e' /\
     h (f <| fr_effect := e |> <| memory_request := m |> <| completed_lanes := n |>) =
       f <| fr_effect := e' |> <| memory_request := m' |> <| completed_lanes := n' |>) ->
  progress p f p' -> progress p f (p' <| execute_ ::= option_map h |>).
Proof.
  intros H (nd & e & m & n & He & ->). destruct (H e m n He) as (e' & m' & n' & He' & E').
  exists nd, e', m', n'. split; [done|]. rewrite <-E'. reflexivity.
Qed.

Lemma keeps_lanes p f l : keeps (fun w => progress p f (pw_cpu w)) (issue_lanes control l).
Proof.
  induction l as [|o l IH]; simpl; keep_steps; try done; [by apply keeps_cpu|].
  apply keeps_modify_cpu. intros q. apply progress_execute. intros e m n He. eexists e, m, _. by split.
Qed.

Lemma keeps_memory p f now epoch g e :
  keeps (fun w : World => progress p f (pw_cpu w)) (execute_memory now epoch g e).
Proof.
  unfold execute_memory. keep_steps; try (by apply keeps_cpu).
  - apply keeps_modify_cpu. intros q (nd & ? & ? & ? & He & ->). by eexists _, _, _, _.
  - apply keeps_modify_cpu. intros q. apply progress_execute. intros e' m n He. by eexists e', _, n.
Qed.

(** Timing control's answer to [o] is [v]. *)
Definition answers (o : ControlOperation) (v : Z) : Prop :=
  exists s s', control o s = (Ok (Some v), s').

(** The answer of memory that is at the head of the data port. *)
Definition data_reply (now : Tick) (w : World) (v : Z) : Prop :=
  exists m, mailbox_peek (responses (pw_data w)) now = Some m /\
    rs_fault (value m) = None /\ rs_value (value m) = v.

(** How a frame completes. *)
Definition completes (now : Tick) (w : World) (f : Frame) (d : Decoded) (v next : Z) (flush : bool) : Prop :=
  let fall_through := wrap32 (fr_pc f + 4) in
  if bundle f then v = 0 /\ next = fall_through /\ flush = false
  else if bool_decide (op d = Quantum) then
    (exists o, adapt_quantum d (fr_id f) (fr_lhs f) (fr_rhs f) = Ok o /\ answers o v) /\
    next = fall_through /\ flush = false
  else if bool_decide (op d = Ecall) && (register (pw_cpu w) 17 =? 93) then
    v = 0 /\ next = fall_through /\ flush = true
  else exists e, evaluate d (fr_pc f) (fr_lhs f) (fr_rhs f) = Ok e /\ next = next_pc e /\
    flush = branch_taken e /\
    match memory e with
    | MemNone => v = eff_value e
    | _ => exists reply, data_reply now w reply /\
        (if sign_extend_load e then sign_extend reply (width e * 8) else Ok reply) = Ok v
    end.

Definition halts (w : World) (f : Frame) (d : Decoded) : bool :=
  negb (bundle f) && bool_decide (op d = Ecall) && (register (pw_cpu w) 17 =? 93).

Lemma call_control_ok o v (w w' : World) :
  call_control control o w = (Ok (Some v), w') -> answers o v.
Proof.
  unfold call_control, m_zoom. destruct (control o _) as [r s] eqn:E0. intros [= -> _]. by eexists _, _.
Qed.

Lemma execute_memory_reply now epoch f e v (w w' : World) :
  execute_memory now epoch f e w = (Ok (Some v), w') ->
  exists reply, data_reply now w reply /\
    (if sign_extend_load e then sign_extend reply (width e * 8) else Ok reply) = Ok v.
Proof.
  unfold execute_memory. destruct (_ =? 0).
  - intros H. apply m_bind_ok in H as (full & w1 & _ & H). destruct full; inv_ok H; done.
  - intros H. apply m_bind_ok in H as (r & w1 & Hr & H).
    unfold take_data, m_zoom, mailbox_take in Hr. destruct (mailbox_peek _ now) as [m|] eqn:Em; [|].
    + apply pair_equal_spec in Hr as [Hr _]. apply Ok_inj in Hr as <-.
      apply m_bind_lift_ok in H as ([] & _ & H). destruct (rs_fault (value m)) eqn:Ef; [done|].
      exists (rs_value (value m)). split; [by exists m|].
      destruct (sign_extend_load e).
      * apply m_bind_lift_ok in H as (x & Hx & H). apply m_ret_ok in H as [H _]. congruence.
      * apply m_ret_ok in H as [H _]. congruence.
    + apply pair_equal_spec in Hr as [Hr _]. apply Ok_inj in Hr as <-. apply m_ret_ok in H as [H _]. done.
Qed.

(** An instruction stays in the execute stage until it completes; if it does, it is as [completes]
    says, and it has only then stopped the machine. *)
Definition outcome (now : Tick) (w : World) (f : Frame) (d : Decoded)
    (r : result (option (Z * Z * bool))) (w' : World) : Prop :=
  exists p', progress (pw_cpu w) f p' /\
  match r with
  | Ok (Some (v, next, flush)) => completes now w f d v next flush /\
      pw_cpu w' = p' <| halted_ := halted_ p' || halts w f d |>
  | _ => pw_cpu w' = p'
  end.

Lemma outcome_done now w f d x w' :
  match x with Some (v, next, flush) => completes now w f d v next flush | None => True end ->
  halts w f d = false -> progress (pw_cpu w) f (pw_cpu w') -> outcome now w f d (Ok x) w'.
Proof.
  intros Hx Hh Hp. exists (pw_cpu w'). split; [done|]. destruct x as [[[v next] flush]|]; [|done].
  split; [done|]. rewrite Hh, orb_false_r. by destruct (pw_cpu w').
Qed.

Lemma outcome_fault now w f d c w' :
  progress (pw_cpu w) f (pw_cpu w') -> outcome now w f d (Fault c) w'.
Proof. intros Hp. by exists (pw_cpu w'). Qed.

(** The instructions evaluated by [rv32::evaluate]. *)
Lemma outcome_effect now epoch f d e (w w1 : World) r w' :
  bundle f = false -> bool_decide (op d = Quantum) = false ->
  bool_decide (op d = Ecall) && (register (pw_cpu w) 17 =? 93) = false ->
  progress (pw_cpu w) f (pw_cpu w1) -> pw_data w1 = pw_data w ->
  evaluate d (fr_pc f) (fr_lhs f) (fr_rhs f) = Ok e ->
  match memory e with
  | MemNone => m_ret (Some (eff_value e, next_pc e, branch_taken e))
  | _ => let! v := execute_memory now epoch f e in
         m_ret (match v with Some v => Some (v, next_pc e, false) | None => None end)
  end w1 = (r, w') -> outcome now w f d r w'.
Proof.
  intros Hb Hq He Hp Hdata Hev H. destruct (evaluate_next _ _ _ _ _ Hev) as [_ Hmem].
  assert (Hh : halts w f d = false) by (unfold halts; by rewrite Hb).
  assert (Hc : forall v flush, flush = branch_taken e -> match memory e with
      | MemNone => v = eff_value e
      | _ => exists reply, data_reply now w reply /\
          (if sign_extend_load e then sign_extend reply (width e * 8) else Ok reply) = Ok v
      end -> completes now w f d v (next_pc e) flush).
  { intros v flush -> Hv. unfold completes. rewrite Hb, Hq, He. by exists e. }
  assert (Hwait : memory e <> MemNone -> (let! v := execute_memory now epoch f e in
      m_ret (match v with Some v => Some (v, next_pc e, false) | None => None end)) w1 = (r, w') ->
      outcome now w f d r w').
  { intros Hm Hx. unfold m_bind, m_ret in Hx.
    destruct (execute_memory now epoch f e w1) as [[v|c] w2] eqn:E2; injection Hx as <- <-;
      pose proof (keeps_memory _ _ _ _ _ _ _ _ _ Hp E2) as Hp2; [|by apply outcome_fault].
    apply outcome_done; [|done..]. destruct v as [v|]; [|done]. apply Hc; [by rewrite Hmem|].
    apply execute_memory_reply in E2 as (reply & Hr & Hv). unfold data_reply in *. rewrite Hdata in Hr.
    destruct (memory e); [done | by exists reply..]. }
  destruct (memory e) eqn:Em; try (by apply Hwait).
  injection H as <- <-. apply outcome_done; [by apply Hc | done..].
Qed.

Lemma execute_frame_spec now epoch f d (w : World) r w' :
  fr_decoded f = Some d -> effect_ok f (fr_effect f) -> execute_ (pw_cpu w) = Some f ->
  execute_frame control now epoch f d w = (r, w') -> outcome now w f d r w'.
Proof.
  intros Hd He Hf H.
  assert (Hp : progress (pw_cpu w) f (pw_cpu w)).
  { exists (next_data (pw_cpu w)), (fr_effect f), (memory_request f), (completed_lanes f). split; [done|].
    destruct (pw_cpu w), f; simpl in *. by subst. }
  unfold execute_frame in H. destruct (bundle f) eqn:Eb.
  { assert (Hh : halts w f d = false) by (unfold halts; by rewrite Eb).
    unfold m_bind, m_ret in H. destruct (issue_lanes _ _ w) as [[b|c] w1] eqn:E1;
      injection H as <- <-; pose proof (keeps_lanes _ _ _ _ _ _ Hp E1); [|by apply outcome_fault].
    apply outcome_done; [|done..]. destruct b; [|done]. unfold completes. by rewrite Eb. }
  assert (Hcall : forall o x w1, call_control control o w = (x, w1) -> progress (pw_cpu w) f (pw_cpu w1)).
  { intros o x w1. by apply (keeps_cpu (progress (pw_cpu w) f)). }
  destruct (bool_decide (op d = Quantum)) eqn:Eq.
  { assert (Hh : halts w f d = false).
    { unfold halts. apply bool_decide_eq_true in Eq. by rewrite Eq, andb_false_r. }
    unfold m_bind, m_ret, m_lift in H.
    destruct (adapt_quantum _ _ _ _) as [o|c] eqn:Eo; [|injection H as <- <-; by apply outcome_fault].
    destruct (call_control control o w) as [[v|c] w1] eqn:E1; injection H as <- <-; specialize (Hcall _ _ _ E1);
      [|by apply outcome_fault].
    apply outcome_done; [|done..]. destruct v as [v|]; [|done]. unfold completes. rewrite Eb, Eq.
    split_and!; try done. exists o. split; [done|]. by eapply call_control_ok. }
  unfold m_bind at 1, m_gets at 1 in H.
  destruct (bool_decide (op d = Ecall) && (register (pw_cpu w) 17 =? 93)) eqn:Ee.
  { unfold m_bind, m_ret, modify_cpu, m_modify in H. destruct (call_control control _ w) as [[v|c] w1] eqn:E1; specialize (Hcall _ _ _ E1);
      [destruct v as [v|]|]; injection H as <- <-; [|by exists (pw_cpu w1)|by apply outcome_fault].
    exists (pw_cpu w1). split; [done|]. unfold completes, halts. rewrite Eb, Eq, Ee.
    split; [done|]. simpl. by rewrite Ee, orb_true_r. }
  unfold m_bind at 1 in H. destruct (fr_effect f) as [e|] eqn:Ef.
  - destruct He as (d' & Hd' & Hev). replace d' with d in Hev by congruence. exact (outcome_effect now epoch f d e w w r w' Eb Eq Ee Hp eq_refl Hev H).
  - unfold m_bind at 1, m_lift in H. destruct (evaluate _ _ _ _) as [e|c] eqn:Ev.
    + eapply outcome_effect; [done..| | |exact Ev|exact H]; [|done].
      apply progress_execute; [|done]. intros e' m n _. exists (Some e), m, n. split; [by exists d | done].
    + injection H as <- <-. by apply outcome_fault.
Qed.

(** ** The execute stage and the sequential machine *)

(** A frame that entered the execute stage without a fault. *)
Record entered (p : InOrderPipeline) (id pc w : Z) (f : Frame) : Prop := {
  en_id : fr_id f = id;
  en_pc : fr_pc f = pc;
  en_decode : if is_bundle (issue_ p) w
    then bundle f = true /\ fr_decoded f = Some (bundle_decoded w) /\
         exists ops, decode_cw_bundle w id (registers_ p) = Ok ops
    else bundle f = false /\ exists d, decode w = Ok d /\ fr_decoded f = Some d /\
         fr_lhs f = register p (rs1 d) /\ fr_rhs f = register p (rs2 d) }.

Lemma enter_execute_ok p id pc w fault :
  fr_fault (enter_execute p (frame_new id pc w fault)) = None ->
  fault = None /\ entered p id pc w (enter_execute p (frame_new id pc w fault)).
Proof.
  unfold enter_execute. simpl. destruct fault as [c|]; [done|].
  destruct (decode_frame p (frame_new id pc w None)) as [f|c] eqn:E0; [|done]. intros Hf. split; [done|].
  unfold decode_frame in E0. cbn [fr_word fr_id frame_new] in E0. fold (is_bundle (issue_ p) w) in E0.
  destruct (is_bundle (issue_ p) w) eqn:Eb; apply result_bind_ok in E0 as (x & Hx & E0);
    apply Ok_inj in E0 as <-; constructor; try done; rewrite Eb.
  - split_and!; [done..|]. by exists x.
  - split; [done|]. by exists x.
Qed.

Lemma in_execute_entered code p f :
  in_execute code p f -> fr_fault f = None ->
  exists id w, code (fr_pc f) = Ok w /\ entered p id (fr_pc f) w f.
Proof.
  intros (g & e & m & n & (id & pc & w & fault & -> & Hcode) & _ & ->) Hf.
  destruct (enter_execute_ok p id pc w fault Hf) as [-> [Hid Hpc Hdec]]. exists id, w.
  simpl. rewrite Hpc. unfold code_response in Hcode. split.
  - destruct (code pc); [by destruct Hcode as [-> _] | done].
  - by constructor.
Qed.

(** Where the answer that an instruction uses comes from. *)
Definition reply_given (now : Tick) (w : World) (issue : ControlIssue) (id word reply : Z) (a : Arch) : Prop :=
  forall d, is_bundle issue word = false -> decode word = Ok d ->
    let lhs := register_value (ar_registers a) (rs1 d) in
    let rhs := register_value (ar_registers a) (rs2 d) in
    (forall o, op d = Quantum -> adapt_quantum d id lhs rhs = Ok o -> answers o reply) /\
    (forall e, op d <> Quantum -> evaluate d (ar_pc a) lhs rhs = Ok e -> memory e <> MemNone ->
       data_reply now w reply).

(** The instruction at the program counter, executed with an answer of the environment. *)
Definition isa_step (code : Code) (now : Tick) (w : World) (a' : Arch) : Prop :=
  let p := pw_cpu w in
  exists id word reply, code (pc_ p) = Ok word /\
    isa_next (issue_ p) id word reply (arch_of p) = Ok a' /\
    reply_given now w (issue_ p) id word reply (arch_of p).

Lemma completes_isa code now w f d v next flush :
  in_execute code (pw_cpu w) f -> fr_fault f = None -> fr_decoded f = Some d ->
  fr_pc f = pc_ (pw_cpu w) -> completes now w f d v next flush ->
  isa_step code now w (arch_write d v next (halts w f d) (arch_of (pw_cpu w))) /\
  (flush = false -> next = wrap32 (pc_ (pw_cpu w) + 4) /\ halts w f d = false).
Proof.
  intros Hin Hf Hd Hpc Hc. destruct (in_execute_entered _ _ _ Hin Hf) as (id & word & Hcode & [Hid _ Hen]).
  rewrite Hpc in Hcode. unfold completes in Hc. unfold isa_step, isa_next, halts.
  cbn [arch_of ar_pc ar_registers ar_halted]. cbv zeta. rewrite Hpc in Hc.
  destruct (is_bundle _ word) eqn:Eb.
  { destruct Hen as (Hb & Hbd & ops & Hops). rewrite Hb in *. destruct Hc as (-> & -> & ->).
    split; [|done]. exists id, word, 0. rewrite Eb, Hops. replace d with (bundle_decoded word) by congruence.
    split_and!; [done..|]. intros d0. by rewrite Eb. }
  destruct Hen as (Hb & d' & Hdec & Hd' & Hl & Hr). replace d' with d in * by congruence. clear d' Hd'.
  rewrite Hb in *. cbn [negb andb].
  assert (Hgiven : forall reply, (op d = Quantum -> forall o, adapt_quantum d id (fr_lhs f) (fr_rhs f) = Ok o -> answers o reply) ->
    (op d <> Quantum -> forall e, evaluate d (pc_ (pw_cpu w)) (fr_lhs f) (fr_rhs f) = Ok e -> memory e <> MemNone ->
      data_reply now w reply) -> reply_given now w (issue_ (pw_cpu w)) id word reply (arch_of (pw_cpu w))).
  { unfold reply_given. intros reply H1 H2 d0 _ Hd0. replace d0 with d by congruence.
    unfold register in Hl, Hr. simpl. rewrite <-Hl, <-Hr. split; eauto. }
  unfold register in Hl, Hr. rewrite Hid in Hc. clear Hid.
  destruct (bool_decide (op d = Quantum)) eqn:Eq.
  { destruct Hc as ((o & Ho & Hans) & -> & ->). apply bool_decide_eq_true in Eq. split; [|by rewrite Eq].
    exists id, word, v. rewrite Eb, Hdec. cbn [result_bind]. rewrite <-Hl, <-Hr, Ho, Eq. split_and!; [done..|].
    apply Hgiven; [|done]. intros _ o' Ho'. by replace o' with o by congruence. }
  apply bool_decide_eq_false in Eq. fold (register (pw_cpu w) 17).
  destruct (bool_decide (op d = Ecall) && (register (pw_cpu w) 17 =? 93)) eqn:Ee.
  { destruct Hc as (-> & -> & ->). split; [|done]. exists id, word, 0. rewrite Eb, Hdec. cbn [result_bind]. rewrite (bool_decide_eq_false_2 _ Eq), Ee.
    split_and!; [done..|]. apply Hgiven; [done|]. intros _ e Hev. exfalso. unfold evaluate in Hev.
    apply andb_true_iff in Ee as [Ee _]. apply bool_decide_eq_true in Ee. rewrite Ee in Hev.
    by apply result_bind_ok in Hev as (? & _ & Hev). }
  destruct Hc as (e & Hev & -> & -> & Hv). destruct (evaluate_next _ _ _ _ _ Hev) as [Hnext _].
  split; [|by auto].
  assert (Hreply : exists reply, (memory e <> MemNone -> data_reply now w reply) /\
    match memory e with
    | MemNone => Ok (eff_value e)
    | _ => if sign_extend_load e then sign_extend reply (width e * 8) else Ok reply
    end = Ok v).
  { destruct (memory e); [exists 0; by subst|..]; destruct Hv as (reply & H1 & H2); by exists reply. }
  destruct Hreply as (reply & Hrep & Hv'). exists id, word, reply.
  rewrite Eb, Hdec. cbn [result_bind]. rewrite (bool_decide_eq_false_2 _ Eq), Ee, <-Hl, <-Hr, Hev.
  cbn [result_bind]. rewrite Hv'. split_and!; [done..|].
  apply Hgiven; [done|]. intros _ e' Hev'. by replace e' with e by congruence.
Qed.

(** ** The stages keep the invariant *)
Lemma progress_arch p f p' : progress p f p' -> arch_of p' = arch_of p.
Proof. by intros (? & ? & ? & ? & _ & ->). Qed.

Lemma progress_frame p f p' :
  progress p f p' -> (issue_ p', registers_ p', generation_ p', pc_ p', halted_ p', fetch_request p', fetched_ p',
    decode_ p', fetch_pc p') = (issue_ p, registers_ p, generation_ p, pc_ p, halted_ p, fetch_request p, fetched_ p,
    decode_ p, fetch_pc p) /\ stage_pc (execute_ p') = [fr_pc f].
Proof. by intros (? & ? & ? & ? & _ & ->). Qed.

Lemma pipe_inv_progress code p f p' :
  pipe_inv code p -> execute_ p = Some f -> progress p f p' -> pipe_inv code p'.
Proof.
  intros Hinv Hf Hp. pose proof (in_execute_progress code p f p') as Hin.
  specialize (fun g => Hin g (pi_execute _ _ Hinv f Hf) Hp). destruct Hinv as [H1 H2 H3 _ H5 H6 H7 H8].
  destruct Hp as (nd & e & m & n & _ & ->). constructor; try done.
  unfold in_flight in *. rewrite Hf in H1. exact H1.
Qed.

(** Between a retirement that flushes and the flush. *)
Record flushing (p : InOrderPipeline) : Prop := {
  fl_execute : execute_ p = None;
  fl_generation : forall f, fetch_request p = Some f -> ft_generation f <= generation_ p;
  fl_zero : register p 0 = 0 }.

Lemma cpu_emit_cpu e (w w' : World) r : cpu_emit e w = (r, w') -> pw_cpu w' = pw_cpu w.
Proof. unfold cpu_emit, m_zoom. destruct (trace_emit _ _). by intros [= _ <-]. Qed.

(** Retiring the instruction in the execute stage. *)
Lemma retire_inv code p f d v next flush halt :
  pipe_inv code p -> execute_ p = Some f -> (flush = false -> next = wrap32 (pc_ p + 4) /\ halt = false) ->
  let p' := p <| halted_ := halted_ p || halt |> <| registers_ ::= write_registers d v |> <| pc_ := next |>
              <| execute_ := None |> in
  if flush : bool then flushing p' else pipe_inv code p'.
Proof.
  intros [H1 H2 H3 H4 H5 H6 H7 H8] Hf Hn p'.
  assert (Hz : register p' 0 = 0) by apply register_zero.
  destruct flush; [by constructor|]. destruct (Hn eq_refl) as [-> ->].
  unfold in_flight in H1. rewrite Hf in H1. destruct H1 as [_ H1].
  constructor; try done. subst p'. simpl. by rewrite orb_false_r.
Qed.

Lemma execute_stage_spec code now epoch (w : World) r w' :
  pipe_inv code (pw_cpu w) -> execute_stage control now epoch w = (r, w') ->
  (arch_of (pw_cpu w') = arch_of (pw_cpu w) \/ isa_step code now w (arch_of (pw_cpu w'))) /\
  match r with
  | Ok true => flushing (pw_cpu w')
  | Ok false => pipe_inv code (pw_cpu w')
  | Fault _ => True
  end.
Proof.
  intros Hinv H. unfold execute_stage in H. unfold m_bind at 1, m_gets in H.
  destruct (execute_ (pw_cpu w)) as [f|] eqn:Hf; [|injection H as <- <-; split; [by left | done]].
  destruct (fr_fault f) eqn:Hfault; [injection H as <- <-; split; [by left | done]|].
  destruct (fr_decoded f) as [d|] eqn:Hd; [|injection H as <- <-; split; [by left | done]].
  pose proof (pi_execute _ _ Hinv f Hf) as Hin.
  assert (Heff : effect_ok f (fr_effect f)).
  { destruct Hin as (g & e & m & n & _ & He & ->). exact He. }
  assert (Hpc : fr_pc f = pc_ (pw_cpu w)).
  { pose proof (pi_order _ _ Hinv) as Ho. unfold in_flight in Ho. rewrite Hf in Ho. by destruct Ho. }
  unfold m_bind at 1 in H. destruct (execute_frame control now epoch f d w) as [x w1] eqn:Ex.
  destruct (execute_frame_spec _ _ _ _ _ _ _ Hd Heff Hf Ex) as (p' & Hp & Hx).
  destruct x as [[[[v next] flush]|]|c]; cycle 1.
  { unfold m_bind in H. destruct (cpu_emit _ w1) as [y w2] eqn:Ey. apply cpu_emit_cpu in Ey.
    assert (Hw : w' = w2) by (destruct y; by injection H as _ <-). rewrite Hw, Ey, Hx.
    split; [left; by eapply progress_arch|].
    destruct y; injection H as <- _; [by eapply pipe_inv_progress | done]. }
  { injection H as <- <-. rewrite Hx. split; [left; by eapply progress_arch | done]. }
  destruct Hx as [Hc Hw1]. destruct (completes_isa code _ _ _ _ _ _ _ Hin Hfault Hd Hpc Hc) as [Hisa Hfl].
  destruct (progress_frame _ _ _ Hp) as [Hpf _]. simplify_eq.
  unfold retire, m_bind, modify_cpu, m_modify, m_gets, m_ret in H. cbv beta iota in H.
  destruct (cpu_emit _ _) as [y w2] eqn:Ey. apply cpu_emit_cpu in Ey.
  set (p2 := p' <| halted_ := halted_ p' || halts w f d |> <| registers_ ::= write_registers d v |> <| pc_ := next |>) in *.
  assert (Hp2 : pw_cpu w2 = p2) by (rewrite Ey; simpl; by rewrite Hw1).
  assert (Harch : arch_of p2 = arch_write d v next (halts w f d) (arch_of (pw_cpu w))).
  { unfold arch_of, arch_write, p2. simpl. congruence. }
  assert (Hpi : pipe_inv code p') by (by eapply pipe_inv_progress).
  assert (Hg : exists g, execute_ p' = Some g).
  { destruct Hp as (? & ? & ? & ? & _ & ->). eexists. reflexivity. }
  destruct Hg as (g & Hg). destruct y as [[]|c]; injection H as <- <-.
  - split; [right; simpl; rewrite Hp2; change (arch_of _) with (arch_of p2); by rewrite Harch|].
    pose proof (retire_inv code p' g d v next flush (halts w f d) Hpi Hg) as Hr.
    simpl. rewrite Hp2. destruct flush; apply Hr; [done|]. intros _. replace (pc_ p') with (pc_ (pw_cpu w)) by congruence.
    by apply Hfl.
  - split; [right; by rewrite Hp2, Harch | done].
Qed.

(** The response at the head of the fetch port, if it is the one waited for, is what memory holds. *)
Definition fetch_answers (code : Code) (now : Tick) (epoch : Epoch) (w : World) : Prop :=
  forall m f, mailbox_peek (responses (pw_fetch w)) now = Some m -> env_epoch m = epoch ->
    fetch_request (pw_cpu w) = Some f -> rs_id (value m) = ft_id f ->
    code_response code (ft_pc f) (rs_value (value m)) (rs_fault (value m)).

Lemma receive_inv code p f v fault :
  pipe_inv code p -> fetch_request p = Some f -> code_response code (ft_pc f) v fault ->
  let q := if (ft_generation f =? generation_ p) && negb (halted_ p)
           then p <| fetched_ := Some (frame_new (ft_id f) (ft_pc f) v fault) |> else p in
  fetched_ p = None -> pipe_inv code (q <| fetch_request := None |>).
Proof.
  intros [H1 H2 H3 H4 H5 H6 H7 H8] Hf Hc q Hno. unfold in_flight, live_fetch in *. rewrite Hf in *.
  subst q. destruct (ft_generation f =? generation_ p) eqn:Eg; cbn [andb].
  - destruct (halted_ p) eqn:Eh; [by specialize (H7 eq_refl)|]. rewrite Hno in H1. cbn [negb].
    constructor; try done. intros g [= <-]. by exists (ft_id f), (ft_pc f), v, fault.
  - constructor; done.
Qed.

Lemma receive_fetch_spec code now epoch (w : World) r w' :
  pipe_inv code (pw_cpu w) -> fetch_answers code now epoch w -> receive_fetch now epoch w = (r, w') ->
  pipe_inv code (pw_cpu w') /\ arch_of (pw_cpu w') = arch_of (pw_cpu w) /\
  issue_ (pw_cpu w') = issue_ (pw_cpu w) /\ pw_data w' = pw_data w.
Proof.
  intros Hinv Hans H. unfold receive_fetch, m_bind at 1, take_fetch, m_zoom, mailbox_take in H.
  destruct (mailbox_peek (responses (pw_fetch w)) now) as [m|] eqn:Em.
  2: { injection H as <- <-. by destruct w as [? [] ? ? ?]. }
  destruct (env_epoch m =? epoch) eqn:Ee; cbn [negb] in H; [|by injection H as <- <-].
  apply Z.eqb_eq in Ee. unfold m_bind at 1, m_gets in H. cbn [pw_cpu update] in H.
  destruct (fetch_request (pw_cpu w)) as [f|] eqn:Ef; [|by injection H as <- <-].
  unfold m_bind at 1, m_lift at 1, require at 1 in H.
  destruct (rs_id (value m) =? ft_id f) eqn:Ei; [|by injection H as <- <-]. apply Z.eqb_eq in Ei.
  pose proof (Hans m f Em Ee Ef Ei) as Hc. unfold m_bind, m_lift, m_ret, modify_cpu, m_modify, require in H.
  pose proof (receive_inv code _ f _ _ Hinv Ef Hc) as Hr. cbv zeta in Hr.
  assert (Hstale : pipe_inv code (pw_cpu w <| fetch_request := None |>) \/ 
     (ft_generation f =? generation_ (pw_cpu w)) && negb (halted_ (pw_cpu w)) = true).
  { destruct (_ && _) eqn:El; [by right|]. left. destruct (fetched_ (pw_cpu w)) as [g|] eqn:Eg; [|by apply Hr].
    by rewrite (pi_one _ _ Hinv g Eg) in Ef. }
  destruct ((ft_generation f =? generation_ (pw_cpu w)) && negb (halted_ (pw_cpu w))) eqn:El.
  - destruct (fetched_ (pw_cpu w)) eqn:Eg; injection H as <- <-; [done|]. simpl. split; [by apply Hr | done].
  - injection H as <- <-. simpl. by destruct Hstale.
Qed.

Lemma flush_stage_spec code now epoch (w : World) r w' :
  flushing (pw_cpu w) -> flush_stage now epoch w = (r, w') ->
  arch_of (pw_cpu w') = arch_of (pw_cpu w) /\ (r = Ok () -> pipe_inv code (pw_cpu w')).
Proof.
  intros [H1 H2 H3] H. unfold flush_stage, m_bind, m_gets, modify_cpu, m_modify, m_lift in H.
  destruct (checked_add _ 1) as [g|c] eqn:Eg; [|by injection H as <- <-].
  apply checked_add_ok in Eg as [_ ->]. apply cpu_emit_cpu in H. rewrite H. simpl. split; [done|]. intros _.
  assert (Hlive : forall q, fetch_request q = fetch_request (pw_cpu w) ->
    generation_ q = generation_ (pw_cpu w) + 1 -> live_fetch q = []).
  { unfold live_fetch. intros q -> ->. destruct (fetch_request (pw_cpu w)) as [f|]; [|done]. specialize (H2 f eq_refl).
    by rewrite (proj2 (Z.eqb_neq _ _)) by lia. }
  constructor; simpl; try done.
  - unfold in_flight. rewrite Hlive by done. simpl. by rewrite H1.
  - intros f. by rewrite H1.
  - intros f Hf. specialize (H2 f Hf). lia.
  - intros _. by apply Hlive.
Qed.

Lemma decode_stage_inv code p : pipe_inv code p -> pipe_inv code (fetched_stage (decode_stage p)).
Proof.
  intros Hinv. assert (Hd : pipe_inv code (decode_stage p)).
  { unfold decode_stage. destruct (execute_ p) as [|] eqn:Ex; [done|]. destruct (decode_ p) as [g|] eqn:Ed; [|done].
    destruct Hinv as [H1 H2 H3 H4 H5 H6 H7 H8]. destruct (H3 g Ed) as (id & pc & w & fault & -> & Hc).
    constructor; try done.
    - unfold in_flight in *. rewrite Ex, Ed in H1. simpl.
      replace (fr_pc (enter_execute p (frame_new id pc w fault))) with pc; [exact H1|].
      unfold enter_execute, decode_frame. simpl. destruct fault; [done|].
      destruct (_ && _); [by destruct (decode_cw_bundle _ _ _) | by destruct (decode _)].
    - intros f [= <-]. apply (in_execute_ext code p); [done..|]. exists (frame_new id pc w fault), None, 0, 0. split_and!; [by exists id, pc, w, fault | done |].
      unfold enter_execute, decode_frame. simpl. destruct fault; [done|].
      destruct (_ && _); [by destruct (decode_cw_bundle _ _ _) | by destruct (decode _)]. }
  generalize dependent (decode_stage p). clear. intros p Hinv. unfold fetched_stage.
  destruct (decode_ p) as [|] eqn:Ed; [done|]. destruct (fetched_ p) as [g|] eqn:Ef; [|done].
  destruct Hinv as [H1 H2 H3 H4 H5 H6 H7 H8]. constructor; try done.
  - unfold in_flight in *. rewrite Ed, Ef in H1. exact H1.
  - intros f [= <-]. by apply H2.
Qed.

Lemma consecutive_snoc pc l x : consecutive pc (l ++ [x]) -> consecutive pc (l ++ [x; wrap32 (x + 4)]).
Proof.
  revert pc. induction l as [|y l IH]; intros pc; simpl; [intros [-> _]; done|].
  intros [-> H]. split; [done|]. by apply IH.
Qed.

Lemma fetch_stage_spec code now epoch (w : World) r w' :
  pipe_inv code (pw_cpu w) -> halted_ (pw_cpu w) = false -> fetch_stage now epoch w = (r, w') ->
  arch_of (pw_cpu w') = arch_of (pw_cpu w) /\ (r = Ok () -> pipe_inv code (pw_cpu w')).
Proof.
  intros Hinv Hh H. pose proof Hinv as [H1 H2 H3 H4 H5 H6 H7 H8].
  unfold fetch_stage, m_bind, m_gets, m_ret, modify_cpu, m_modify, m_lift, request_fetch, m_zoom in H.
  destruct (fetch_request (pw_cpu w)) eqn:Ef; [by injection H as <- <-|].
  destruct (fetched_ (pw_cpu w)) eqn:Eg; [by injection H as <- <-|].
  destruct (mailbox_full _); [by injection H as <- <-|].
  destruct (checked_add _ 1) as [g|c] eqn:Ea; [|by injection H as <- <-].
  destruct (mailbox_publish _ _ _ _) as [[[]|c] b] eqn:Ep; injection H as <- <-; [|done].
  split; [done|]. intros _. constructor; simpl; try done.
  - unfold in_flight, live_fetch in *. rewrite Ef, Eg in H1. simpl in *. rewrite Eg, Z.eqb_refl. simpl.
    rewrite !app_assoc in *. by apply consecutive_snoc in H1.
  - intros f. by rewrite Eg.
  - intros f [= <-]. simpl. lia.
  - intros f. by rewrite Eg.
  - by rewrite Hh.
Qed.

Lemma sample_cpu now epoch (w w' : World) r :
  sample now epoch w = (r, w') -> exists t, pw_cpu w' = pw_cpu w <| pipeline_trace := t |>.
Proof.
  unfold sample, m_bind, m_gets, m_ret, modify_cpu, m_modify. intros H.
  destruct (match previous_ _ with Some _ => _ | None => _ end); 
    [injection H as <- <-; exists (pipeline_trace (pw_cpu w)); by destruct (pw_cpu w)|].
  destruct (cpu_emit _ w) as [y w1] eqn:Ey. apply cpu_emit_cpu in Ey.
  destruct y as [[]|c]; injection H as <- <-.
  - eexists. simpl. by rewrite Ey.
  - exists (pipeline_trace (pw_cpu w)). rewrite Ey. by destruct (pw_cpu w).
Qed.

Lemma isa_step_ext code now (w1 w2 : World) a :
  arch_of (pw_cpu w1) = arch_of (pw_cpu w2) -> issue_ (pw_cpu w1) = issue_ (pw_cpu w2) ->
  pw_data w1 = pw_data w2 -> isa_step code now w1 a -> isa_step code now w2 a.
Proof.
  intros Ha Hi Hd (id & word & reply & H1 & H2 & H3). pose proof (f_equal ar_pc Ha) as Hp. simpl in Hp.
  exists id, word, reply. rewrite <-Hp, <-Ha, <-Hi. split_and!; [done..|].
  unfold reply_given, data_reply in *. by rewrite <-Hd.
Qed.

Lemma sample_spec code now epoch (w w' : World) r :
  sample now epoch w = (r, w') ->
  arch_of (pw_cpu w') = arch_of (pw_cpu w) /\ (pipe_inv code (pw_cpu w) -> pipe_inv code (pw_cpu w')).
Proof. intros Hs. apply sample_cpu in Hs as (t & ->). split; [done|]. by intros []. Qed.

(** The stages before execution move up. *)
Lemma refill_spec code now epoch (w w' : World) r :
  pipe_inv code (pw_cpu w) -> halted_ (pw_cpu w) = false ->
  (do! modify_cpu (fun p => fetched_stage (decode_stage p)) in
   do! fetch_stage now epoch in sample now epoch) w = (r, w') ->
  arch_of (pw_cpu w') = arch_of (pw_cpu w) /\ (r = Ok () -> pipe_inv code (pw_cpu w')).
Proof.
  intros Hinv Eh H. unfold m_bind at 1, modify_cpu, m_modify in H. apply (decode_stage_inv code) in Hinv.
  match type of H with _ ?s = _ => set (w4 := s) in H end.
  assert (Ha4 : arch_of (pw_cpu w4) = arch_of (pw_cpu w)).
  { unfold w4, fetched_stage, decode_stage. simpl. generalize (pw_cpu w). intros p.
    destruct (execute_ p) eqn:E1, (decode_ p) eqn:E2, (fetched_ p) eqn:E3; simpl; by rewrite ?E2, ?E3. }
  unfold m_bind at 1 in H. destruct (fetch_stage now epoch w4) as [r5 w5] eqn:E5.
  assert (Eh4 : halted_ (pw_cpu w4) = false).
  { change (halted_ (pw_cpu w4)) with (ar_halted (arch_of (pw_cpu w4))). by rewrite Ha4. }
  destruct (fetch_stage_spec code _ _ w4 _ _ Hinv Eh4 E5) as [Ha5 Hinv5].
  rewrite Ha4 in Ha5. destruct r5 as [[]|c]; [|by injection H as <- <-].
  destruct (sample_spec code _ _ _ _ _ H) as [H1 H2]. rewrite H1. auto.
Qed.

(** The parts of a step: it stops before the execute stage, or the execute stage decides what it does to
    the architectural state. *)
Lemma pipeline_step_stages code now epoch (w : World) r w' :
  pipe_inv code (pw_cpu w) -> fetch_answers code now epoch w ->
  pipeline_step control now epoch w = (r, w') ->
  (r = Ok () -> pipe_inv code (pw_cpu w')) /\
  (arch_of (pw_cpu w') = arch_of (pw_cpu w) /\
     (clock_edge (pl_clock (pw_cpu w)) now = false \/ halted_ (pw_cpu w) = true \/
      exists c w1, receive_fetch now epoch w = (Fault c, w1)) \/
   exists w1 r2 w2, receive_fetch now epoch w = (Ok (), w1) /\
     execute_stage control now epoch w1 = (r2, w2) /\ arch_of (pw_cpu w') = arch_of (pw_cpu w2) /\
     forall c, r2 = Fault c -> r = Fault c).
Proof.
  intros Hinv Hans H. unfold pipeline_step in H. unfold m_bind at 1, m_gets at 1 in H.
  unfold m_bind at 1, m_lift at 1, require in H. destruct (clock_edge _ now) eqn:Ee; [|injection H as <- <-; by auto].
  unfold m_bind at 1 in H. destruct (receive_fetch now epoch w) as [r1 w1] eqn:E1.
  destruct (receive_fetch_spec _ _ _ _ _ _ Hinv Hans E1) as (Hinv1 & Ha1 & Hi1 & Hd1).
  destruct r1 as [[]|c]; [|injection H as <- <-; split; [done | left; eauto 8]].
  unfold m_bind at 1, m_gets at 1 in H. destruct (halted_ (pw_cpu w1)) eqn:Eh1.
  { destruct (sample_spec code _ _ _ _ _ H) as [H1 H2]. rewrite H1, Ha1. split; [auto|]. left.
    pose proof (f_equal ar_halted Ha1) as Hh. simpl in Hh. rewrite <-Hh. auto. }
  unfold m_bind at 1 in H. destruct (execute_stage control now epoch w1) as [r2 w2] eqn:E2.
  destruct (execute_stage_spec _ _ _ _ _ _ Hinv1 E2) as [_ Hx].
  assert (Hdone : arch_of (pw_cpu w') = arch_of (pw_cpu w2) -> (forall c, r2 = Fault c -> r = Fault c) ->
    exists w1 r2 w2, receive_fetch now epoch w = (Ok (), w1) /\
      execute_stage control now epoch w1 = (r2, w2) /\ arch_of (pw_cpu w') = arch_of (pw_cpu w2) /\
      forall c, r2 = Fault c -> r = Fault c) by (intros; exists w1, r2, w2; by split_and!).
  rewrite E1 in Hdone.
  destruct r2 as [flush|c]; [|injection H as <- <-; split; [done | right; apply Hdone; [done | intros; by simplify_eq]]].
  unfold m_bind at 1 in H.
  destruct ((if flush then flush_stage now epoch else m_ret ()) w2) as [r3 w3] eqn:E3.
  assert (Hfl : arch_of (pw_cpu w3) = arch_of (pw_cpu w2) /\ (r3 = Ok () -> pipe_inv code (pw_cpu w3))).
  { destruct flush; [by eapply flush_stage_spec | by injection E3 as <- <-]. }
  destruct Hfl as [Ha3 Hinv3].
  destruct r3 as [[]|c]; [|injection H as <- <-; split; [done | right; apply Hdone; [done | intros; by simplify_eq]]]. specialize (Hinv3 eq_refl).
  unfold m_bind at 1, m_gets at 1 in H. destruct (halted_ (pw_cpu w3)) eqn:Eh.
  { destruct (sample_spec code _ _ _ _ _ H) as [H1 H2]. rewrite Ha3 in H1. split; [auto | right; apply Hdone; [done | intros; by simplify_eq]]. }
  destruct (refill_spec code _ _ _ _ _ Hinv3 Eh H) as [H1 H2]. rewrite Ha3 in H1. split; [auto | right; apply Hdone; [done | intros; by simplify_eq]].
Qed.

(** C38. The pipeline refines the sequential machine.  In every step, whatever timing control and
    memory answer and even if the step ends in an exception, the architectural state (program counter,
    registers, halted) stays as it was or becomes what executing the one instruction at the program
    counter gives, with the answer timing control or the data port gave for it; no younger
    instruction has an effect, and none is lost or executed twice.  The invariant that ties the
    stages to the program order is kept. *)
Theorem pipeline_refines_isa (code : Code) (now : Tick) (epoch : Epoch) (w : World) (r : result unit)
    (w' : World) :
  pipe_inv code (pw_cpu w) -> fetch_answers code now epoch w ->
  pipeline_step control now epoch w = (r, w') ->
  (arch_of (pw_cpu w') = arch_of (pw_cpu w) \/ isa_step code now w (arch_of (pw_cpu w'))) /\
  (r = Ok () -> pipe_inv code (pw_cpu w')).
Proof.
  intros Hinv Hans H. destruct (pipeline_step_stages _ _ _ _ _ _ Hinv Hans H)
    as [Hk [[Ha _]|(w1 & r2 & w2 & E1 & E2 & Ha & _)]]; [by auto|]. split; [|done].
  destruct (receive_fetch_spec _ _ _ _ _ _ Hinv Hans E1) as (Hinv1 & Ha1 & Hi1 & Hd1).
  destruct (execute_stage_spec _ _ _ _ _ _ Hinv1 E2) as [[Hs|Hs] _]; rewrite Ha.
  - left. congruence.
  - right. by apply (isa_step_ext _ _ w1).
Qed.

(** ** Progress and precise exceptions *)

(** The instruction needs no answer: it is neither a control nor a memory instruction. *)
Definition unassisted (issue : ControlIssue) (id word : Z) (a : Arch) : Prop :=
  let operand n := register_value (ar_registers a) n in
  if is_bundle issue word then is_ok (decode_cw_bundle word id (ar_registers a)) = false
  else match decode word with
  | Fault _ => True
  | Ok d => op d <> Quantum /\ (op d = Ecall -> operand 17 <> 93) /\
      forall e, evaluate d (ar_pc a) (operand (rs1 d)) (operand (rs2 d)) = Ok e -> memory e = MemNone
  end.

(** The response at the head of the fetch port is the one waited for. *)
Definition fetch_expected (now : Tick) (epoch : Epoch) (w : World) : Prop :=
  forall m, mailbox_peek (responses (pw_fetch w)) now = Some m -> env_epoch m = epoch ->
    exists f, fetch_request (pw_cpu w) = Some f /\ rs_id (value m) = ft_id f.

Lemma receive_fetch_expected code now epoch (w : World) r w' :
  pipe_inv code (pw_cpu w) -> fetch_expected now epoch w -> receive_fetch now epoch w = (r, w') ->
  r = Ok () /\ execute_ (pw_cpu w') = execute_ (pw_cpu w).
Proof.
  intros Hinv Hex H. unfold receive_fetch, m_bind at 1, take_fetch, m_zoom, mailbox_take in H.
  destruct (mailbox_peek (responses (pw_fetch w)) now) as [m|] eqn:Em; [|by injection H as <- <-].
  destruct (env_epoch m =? epoch) eqn:Ee; cbn [negb] in H; [|by injection H as <- <-].
  apply Z.eqb_eq in Ee. unfold m_bind at 1, m_gets in H. cbn [pw_cpu update] in H.
  destruct (Hex m Em Ee) as (f & Ef & Ei). rewrite Ef, Ei in H.
  unfold m_bind, m_lift, m_ret, modify_cpu, m_modify, require in H. rewrite Z.eqb_refl in H.
  destruct (fetched_ (pw_cpu w)) as [g|] eqn:Eg; [by rewrite (pi_one _ _ Hinv g Eg) in Ef|].
  destruct (_ && _); by injection H as <- <-.
Qed.

(** A frame whose instruction cannot be executed carries the fault. *)
Lemma in_execute_fault code p f c :
  in_execute code p f -> fr_fault f = Some c ->
  code (fr_pc f) = Fault c \/
  exists word, code (fr_pc f) = Ok word /\
    forall reply a, ar_registers a = registers_ p -> isa_next (issue_ p) (fr_id f) word reply a = Fault c.
Proof.
  intros (g & e & m & n & (id & pc & w & fault & -> & Hcode) & _ & ->) Hf.
  unfold code_response in Hcode. unfold enter_execute in *. cbn [fr_fault frame_new] in *.
  destruct fault as [c'|].
  { cbn [fr_fault fr_pc update frame_new] in *. left. destruct (code pc); [by destruct Hcode | congruence]. }
  destruct (decode_frame p (frame_new id pc w None)) as [h|c'] eqn:E0.
  { exfalso. unfold decode_frame in E0. simpl in E0, Hf. destruct (_ && _);
      apply result_bind_ok in E0 as (x & _ & E0); apply Ok_inj in E0 as <-; done. }
  right. exists w. cbn [fr_fault fr_pc fr_id update frame_new] in *. injection Hf as ->. split.
  { destruct (code pc); [by destruct Hcode as [-> _] | done]. }
  intros reply a Ha. unfold isa_next. unfold decode_frame in E0. cbn [fr_word fr_id frame_new] in E0.
  fold (is_bundle (issue_ p) w) in E0. rewrite Ha. destruct (is_bundle _ w).
  - destruct (decode_cw_bundle _ _ _); [done | cbn in E0; by injection E0 as ->].
  - destruct (decode w); [done | cbn in E0; by injection E0 as ->].
Qed.

(** An instruction without assistance completes in the execute stage, or raises its exception. *)
Lemma execute_stage_unassisted code now epoch f word (w : World) r w' :
  pipe_inv code (pw_cpu w) -> execute_ (pw_cpu w) = Some f -> code (pc_ (pw_cpu w)) = Ok word ->
  unassisted (issue_ (pw_cpu w)) (fr_id f) word (arch_of (pw_cpu w)) ->
  execute_stage control now epoch w = (r, w') ->
  match isa_next (issue_ (pw_cpu w)) (fr_id f) word 0 (arch_of (pw_cpu w)) with
  | Ok a => arch_of (pw_cpu w') = a
  | Fault c => r = Fault c /\ arch_of (pw_cpu w') = arch_of (pw_cpu w)
  end.
Proof.
  intros Hinv Hf Hcode Hun H. pose proof (pi_execute _ _ Hinv f Hf) as Hin.
  assert (Hpc : fr_pc f = pc_ (pw_cpu w)).
  { pose proof (pi_order _ _ Hinv) as Ho. unfold in_flight in Ho. rewrite Hf in Ho. by destruct Ho. }
  unfold execute_stage in H. unfold m_bind at 1, m_gets in H. rewrite Hf in H.
  destruct (fr_fault f) as [c|] eqn:Hfault.
  { injection H as <- <-. destruct (in_execute_fault _ _ _ _ Hin Hfault) as [Hc|(word' & Hc & Hi)];
      rewrite Hpc, Hcode in Hc; [done|]. injection Hc as <-. by rewrite Hi. }
  destruct (in_execute_entered _ _ _ Hin Hfault) as (id & word' & Hc & [Hid _ Hen]).
  rewrite Hpc, Hcode in Hc. injection Hc as <-. subst id. unfold unassisted in Hun.
  destruct (is_bundle (issue_ (pw_cpu w)) word) eqn:Eb.
  { destruct Hen as (_ & _ & ops & Hops). cbn [arch_of ar_registers] in Hun. by rewrite Hops in Hun. }
  destruct Hen as (Hb & d & Hdec & Hd & Hl & Hr). rewrite Hdec in Hun. destruct Hun as (Hq & He & Hmem).
  rewrite Hd in H. unfold isa_next. rewrite Eb, Hdec. cbn [result_bind]. rewrite (bool_decide_eq_false_2 _ Hq).
  cbn [arch_of ar_registers ar_pc] in *. unfold register in Hl, Hr. rewrite <-Hl, <-Hr, <-Hpc in *.
  assert (Hecall : bool_decide (op d = Ecall) && (register_value (registers_ (pw_cpu w)) 17 =? 93) = false).
  { destruct (bool_decide (op d = Ecall)) eqn:Eo; [|done]. apply bool_decide_eq_true in Eo.
    apply Z.eqb_neq. by apply He. }
  rewrite Hecall. unfold m_bind at 1, execute_frame in H. rewrite Hb, (bool_decide_eq_false_2 _ Hq) in H.
  unfold m_bind at 1, m_gets at 1, register in H. rewrite Hecall in H. unfold m_bind at 1 in H.
  assert (Heff : effect_ok f (fr_effect f)).
  { destruct Hin as (g & e & m & n & _ & He' & ->). exact He'. }
  destruct (evaluate d (fr_pc f) (fr_lhs f) (fr_rhs f)) as [e|c] eqn:Ev.
  - cbn [result_bind]. rewrite (Hmem e eq_refl) in *. cbn [result_bind].
    assert (Hgo : exists w1, (arch_of (pw_cpu w1), issue_ (pw_cpu w1)) = (arch_of (pw_cpu w), issue_ (pw_cpu w)) /\
      match fr_effect f with
      | Some e => m_ret e
      | None => let! e := m_lift (Ok e) in do! modify_execute (fun f => f <| fr_effect := Some e |>) in m_ret e
      end w = (Ok e, w1)).
    { destruct (fr_effect f) as [e'|]; [|eexists; refine (conj _ eq_refl); reflexivity]. exists w. destruct Heff as (d' & Hd' & Hev).
      replace d' with d in Hev by congruence. by replace e' with e by congruence. }
    destruct Hgo as (w1 & Ha & Hw1). rewrite Hw1, (Hmem e eq_refl) in H.
    unfold m_ret, retire, m_bind, modify_cpu, m_modify, m_gets in H.
    destruct (cpu_emit _ _) as [y w2] eqn:Ey. apply cpu_emit_cpu in Ey.
    assert (Hw2 : arch_of (pw_cpu w2) = arch_write d (eff_value e) (next_pc e) false (arch_of (pw_cpu w1))).
    { rewrite Ey. unfold arch_write, arch_of. simpl. by rewrite orb_false_r. }
    apply pair_equal_spec in Ha as [Ha _]. rewrite Ha in Hw2. destruct y; injection H as <- <-; exact Hw2.
  - cbn [result_bind]. destruct (fr_effect f) as [e'|].
    { destruct Heff as (d' & Hd' & Hev). replace d' with d in Hev by congruence. congruence. }
    unfold m_bind, m_lift in H. by injection H as <- <-.
Qed.

(** C39. The oldest instruction is executed at once, and exceptions are precise.  When an instruction
    that needs no answer of timing control or memory is in the execute stage, the step changes the
    architectural state exactly as the instruction does; if the instruction, or the fetch of it,
    raises an exception, the step ends in that exception and the architectural state is the one before
    the instruction. *)
Theorem oldest_instruction_executes (code : Code) (now : Tick) (epoch : Epoch) (f : Frame) (w : World)
    (r : result unit) (w' : World) :
  pipe_inv code (pw_cpu w) -> fetch_answers code now epoch w -> fetch_expected now epoch w ->
  clock_edge (pl_clock (pw_cpu w)) now = true -> halted_ (pw_cpu w) = false ->
  execute_ (pw_cpu w) = Some f -> pipeline_step control now epoch w = (r, w') ->
  match code (pc_ (pw_cpu w)) with
  | Fault c => r = Fault c /\ arch_of (pw_cpu w') = arch_of (pw_cpu w)
  | Ok word =>
      unassisted (issue_ (pw_cpu w)) (fr_id f) word (arch_of (pw_cpu w)) ->
      match isa_next (issue_ (pw_cpu w)) (fr_id f) word 0 (arch_of (pw_cpu w)) with
      | Ok a => arch_of (pw_cpu w') = a
      | Fault c => r = Fault c /\ arch_of (pw_cpu w') = arch_of (pw_cpu w)
      end
  end.
Proof.
  intros Hinv Hans Hex Hedge Hh Hf H.
  destruct (pipeline_step_stages _ _ _ _ _ _ Hinv Hans H)
    as [_ [[_ [He|[He|(c & w1 & E1)]]]|(w1 & r2 & w2 & E1 & E2 & Ha & Hr)]]; try congruence.
  { by destruct (receive_fetch_expected _ _ _ _ _ _ Hinv Hex E1). }
  destruct (receive_fetch_spec _ _ _ _ _ _ Hinv Hans E1) as (Hinv1 & Ha1 & Hi1 & _).
  destruct (receive_fetch_expected _ _ _ _ _ _ Hinv Hex E1) as [_ Hf1]. rewrite Hf in Hf1.
  pose proof (f_equal ar_pc Ha1) as Hp1. cbn [arch_of ar_pc] in Hp1.
  rewrite Ha, <-Ha1, <-Hi1, <-Hp1. destruct (code (pc_ (pw_cpu w1))) as [word|c] eqn:Ec.
  - intros Hun. pose proof (execute_stage_unassisted _ _ _ _ _ _ _ _ Hinv1 Hf1 Ec Hun E2) as Hx.
    destruct (isa_next _ _ word 0 _); [done|]. destruct Hx as [-> Hx]. by rewrite (Hr _ eq_refl).
  - pose proof (pi_execute _ _ Hinv1 f Hf1) as Hin.
    assert (Hpc : fr_pc f = pc_ (pw_cpu w1)).
    { pose proof (pi_order _ _ Hinv1) as Ho. unfold in_flight in Ho. rewrite Hf1 in Ho. by destruct Ho. }
    unfold execute_stage in E2. unfold m_bind at 1, m_gets in E2. rewrite Hf1 in E2.
    destruct (fr_fault f) as [c'|] eqn:Hfault.
    + injection E2 as <- <-. rewrite (Hr _ eq_refl).
      destruct (in_execute_fault _ _ _ _ Hin Hfault) as [Hc|(? & Hc & _)]; rewrite Hpc, Ec in Hc; [|done].
      by injection Hc as ->.
    + destruct (in_execute_entered _ _ _ Hin Hfault) as (? & ? & Hc & _). rewrite Hpc, Ec in Hc. done.
Qed.
End Execution.

(** ** Example: three instructions, fetched in time *)
Definition accept_control (o : ControlOperation) : M (Trace * unit) (option Z) := m_ret (Some 0).

(** addi x1, x0, 5; addi x1, x1, 1; ecall. *)
Definition example_code : Code := fun pc =>
  if pc =? 0 then Ok 0x00500093 else if pc =? 4 then Ok 0x00108093 else if pc =? 8 then Ok 0x00000073
  else Fault InstructionAccess.

Definition example_port : MemoryPort := mkPort (mkMailbox 1 (mkClock 10 0) 1 []) (mkMailbox 1 (mkClock 10 0) 1 []).

(** A memory that answers a fetch before the next edge. *)
Definition example_feed (now : Tick) (w : PipelineWorld unit) : PipelineWorld unit :=
  w <| pw_fetch := match fetch_request (pw_cpu w) with
    | Some f => example_port <| responses ::= fun b => b <| entries :=
        [mkEnvelope now (now + 10) 1 (match example_code (ft_pc f) with
           | Ok v => mkResponse (ft_id f) v None | Fault c => mkResponse (ft_id f) 0 (Some c) end)] |> |>
    | None => pw_fetch w
    end |>.

Fixpoint example_steps (n : nat) (now : Tick) (w : PipelineWorld unit) : PipelineWorld unit :=
  match n with
  | O => w
  | S n => example_steps n (now + 10) (example_feed now (snd (pipeline_step accept_control now 1 w)))
  end.

Definition example_start : PipelineWorld unit :=
  mkPipelineWorld (pipeline_new (mkClock 10 0) 0 Scalar) example_port example_port trace_new ().
(** At tick 30 the first instruction is in the execute stage. *)
Definition example_running : PipelineWorld unit := example_steps 3 0 example_start.

Lemma pipeline_new_inv code clk entry issue : pipe_inv code (pipeline_new clk entry issue).
Proof. by constructor. Qed.

Lemma example_running_inv : pipe_inv example_code (pw_cpu example_running).
Proof.
  vm_compute. constructor; try (intros; discriminate).
  - simpl. auto 10.
  - intros f [= <-]. by exists 2, 4, 0x00108093, None.
  - intros f [= <-]. by exists (frame_new 1 0 0x00500093 None), None, 0, 0; split_and!; [exists 1, 0, 0x00500093, None | |].
  - intros f [= <-]. simpl. lia.
  - reflexivity.
Qed.

Lemma example_running_answers :
  fetch_answers example_code 30 1 example_running /\ fetch_expected 30 1 example_running.
Proof.
  assert (Hp : mailbox_peek (responses (pw_fetch example_running)) 30 =
    Some (mkEnvelope 20 30 1 (mkResponse 3 0x00000073 None))) by (vm_compute; reflexivity).
  assert (Hf : fetch_request (pw_cpu example_running) = Some (mkFetch 3 8 0)) by (vm_compute; reflexivity).
  split; [intros m f|intros m]; rewrite Hp, ?Hf.
  - intros [= <-] _ [= <-] _. split; reflexivity.
  - intros [= <-] _. exists (mkFetch 3 8 0). split; reflexivity.
Qed.

(** The first instruction retires: register 1 holds 5. *)
Lemma pipeline_refines_isa_witness :
  exists w', snd (pipeline_step accept_control 30 1 example_running) = w' /\
    register (pw_cpu w') 1 = 5 /\ isa_step accept_control example_code 30 example_running (arch_of (pw_cpu w')).
Proof.
  exists (snd (pipeline_step accept_control 30 1 example_running)). split; [reflexivity|].
  split; [vm_compute; reflexivity|].
  destruct (pipeline_refines_isa accept_control example_code 30 1 example_running _ _ example_running_inv
    (proj1 example_running_answers) (surjective_pairing _)) as [[H|H] _]; [|exact H].
  exfalso. apply (f_equal ar_pc) in H. vm_compute in H. discriminate H.
Defined.

Lemma oldest_instruction_executes_witness :
  arch_of (pw_cpu (snd (pipeline_step accept_control 30 1 example_running))) =
    mkArch 4 (<[1%nat := 5]> (repeat 0 32)) false.
Proof.
  assert (Hf : exists f, execute_ (pw_cpu example_running) = Some f /\ fr_id f = 1) by (eexists; split; vm_compute; reflexivity).
  destruct Hf as (f & Hf & Hid).
  pose proof (oldest_instruction_executes accept_control example_code 30 1 f example_running _ _ example_running_inv
    (proj1 example_running_answers) (proj2 example_running_answers) ltac:(vm_compute; reflexivity)
    ltac:(vm_compute; reflexivity) Hf (surjective_pairing _)) as H.
  change (pc_ (pw_cpu example_running)) with 0 in H. change (example_code 0) with (Ok (A:=Z) 0x00500093) in H.
  cbv beta iota in H. rewrite Hid in H.
  assert (Hn : isa_next (issue_ (pw_cpu example_running)) 1 0x00500093 0 (arch_of (pw_cpu example_running)) =
    Ok (mkArch 4 (<[1%nat := 5]> (repeat 0 32)) false)) by (vm_compute; reflexivity).
  rewrite Hn in H. apply H. unfold unassisted.
  assert (Hd : exists d, decode 0x00500093 = Ok d /\ op d = Addi) by (eexists; split; vm_compute; reflexivity).
  change (is_bundle (issue_ (pw_cpu example_running)) 0x00500093) with false. cbv iota.
  destruct Hd as (d & -> & Ho). rewrite Ho. split; [intros K; discriminate K | split; [intros K; discriminate K |]].
  intros e He. apply evaluate_memory in He. rewrite He, Ho. reflexivity.
Defined.
