(* ===== verification/Mmio.v ===== *)
(** * Decoder registers (src/decoder/mmio.cpp, include/qsbit/decoder/mmio.hpp,
    contracts/include/qsbit/contracts/decoder.hpp)

    Every core sees a block of eight word registers through which it selects a decoder, assembles a
    packet of measurement bits and issues commands.  [mmio_access] turns a memory request into the
    command it stands for.  The file shows that a command carries what the core wrote last, whatever
    other cores and refused accesses did in between. *)

From S2P Require Import Prelude Error Time Image Memory.

Module registers.
Definition RegisterBytes : Z := 32.
Definition Select : Z := 0.
Definition Count : Z := 4.
Definition DataLow : Z := 8.
Definition DataHigh : Z := 12.
Definition Tag : Z := 16.
Definition Command : Z := 20.
Definition ResultLow : Z := 24.
Definition ResultHigh : Z := 28.
Definition Submit : Z := 1.
Definition Reset : Z := 2.
Definition Consume : Z := 3.
Definition Ready : Z := 1.
Definition Busy : Z := 2.
End registers.

Inductive DecoderReadKind := ReadCount | ReadStatus | ReadLow | ReadHigh.
#[global] Instance DecoderReadKind_eq_dec : EqDecision DecoderReadKind.
Proof. solve_decision. Defined.

Inductive DecoderCommand :=
| DecoderSubmit (decoder count tag data : Z)
| DecoderReset (decoder tag : Z)
| DecoderConsume (decoder : Z)
| DecoderRead (decoder : Z) (kind : DecoderReadKind).
#[global] Instance DecoderCommand_eq_dec : EqDecision DecoderCommand.
Proof. solve_decision. Defined.

Record Registers := mkDecoderRegisters {
  r_decoder : Z; r_count : Z; r_low : Z; r_high : Z; r_tag : Z }.
#[global] Instance eta_Registers : Eta Registers := fun r =>
  mkDecoderRegisters (r_decoder r) (r_count r) (r_low r) (r_high r) (r_tag r).
Definition registers_zero : Registers := mkDecoderRegisters 0 0 0 0 0.

Record DecoderMmio := mkMmio { mm_base : Z; mm_decoders : gset Z; mm_registers : gmap Z Registers }.
#[global] Instance eta_DecoderMmio : Eta DecoderMmio := fun m =>
  mkMmio (mm_base m) (mm_decoders m) (mm_registers m).

Definition mmio_new (base : Z) (decoders : gset Z) : result DecoderMmio :=
  do? require ((base mod 4 =? 0) && (base <=? max32 - (registers.RegisterBytes - 1))) InvalidProfile in
  Ok (mkMmio base decoders ∅).

Definition mmio_contains (m : DecoderMmio) (address : Z) : bool :=
  negb (bool_decide (mm_decoders m = ∅)) && (mm_base m <=? address) &&
  (address <? mm_base m + registers.RegisterBytes).

Definition validate_memory (m : DecoderMmio) (image : ProgramImage) : result unit :=
  require (bool_decide (mm_decoders m = ∅) ||
           (base image + size_of (bytes image) <=? mm_base m) ||
           (mm_base m + registers.RegisterBytes <=? base image)) InvalidProfile.

(** [registers_[core]]. *)
Definition core_registers (m : DecoderMmio) (core : Z) : Registers :=
  default registers_zero (mm_registers m !! core).

Definition known (m : DecoderMmio) (decoder : Z) : bool := bool_decide (decoder ∈ mm_decoders m).

Definition write_register (core : Z) (f : Registers -> Registers) : M DecoderMmio (option DecoderCommand) :=
  do! m_modify (fun m => m <| mm_registers ::= upsert registers_zero f core |>) in m_ret None.

(** The [switch] of a write to [Command]. *)
Definition issue_command (m : DecoderMmio) (r : Registers) (v : Z) : result DecoderCommand :=
  do? require (known m (r_decoder r)) InvalidOperand in
  if v =? registers.Consume then Ok (DecoderConsume (r_decoder r))
  else if v =? registers.Reset then Ok (DecoderReset (r_decoder r) (r_tag r))
  else if v =? registers.Submit then
    do? require ((0 <? r_count r) && (r_count r <=? 64)) InvalidOperand in
    Ok (DecoderSubmit (r_decoder r) (r_count r) (r_tag r) (r_low r .| wrap64 (r_high r <<< 32)))
  else Fault InvalidOperand.

Definition write_access (core : Z) (offset v : Z) : M DecoderMmio (option DecoderCommand) :=
  let! m := m_get in
  if offset =? registers.Select then
    do! m_lift (require (known m v) InvalidOperand) in
    write_register core (fun r => r <| r_decoder := v |>)
  else if offset =? registers.Count then write_register core (fun r => r <| r_count := v |>)
  else if offset =? registers.DataLow then write_register core (fun r => r <| r_low := v |>)
  else if offset =? registers.DataHigh then write_register core (fun r => r <| r_high := v |>)
  else if offset =? registers.Tag then write_register core (fun r => r <| r_tag := v |>)
  else if offset =? registers.Command then
    let! c := m_lift (issue_command m (core_registers m core) v) in m_ret (Some c)
  else m_fault InvalidOperand.

Definition read_access (m : DecoderMmio) (r : Registers) (offset : Z) : result DecoderCommand :=
  do? require (known m (r_decoder r)) InvalidOperand in
  if offset =? registers.Count then Ok (DecoderRead (r_decoder r) ReadCount)
  else if offset =? registers.Command then Ok (DecoderRead (r_decoder r) ReadStatus)
  else if offset =? registers.ResultLow then Ok (DecoderRead (r_decoder r) ReadLow)
  else if offset =? registers.ResultHigh then Ok (DecoderRead (r_decoder r) ReadHigh)
  else Fault Protocol.

(** A core without registers has those of a fresh entry, so that the entry [registers_[core]] makes
    before a fault is not observable. *)
Definition mmio_access (core : Z) (request : MemoryRequest) : M DecoderMmio (option DecoderCommand) :=
  let! m := m_get in
  do! m_lift (require (mmio_contains m (mr_address request) && (mr_width request =? 4) &&
                       (mr_address request mod 4 =? 0) && negb (mr_instruction request)) InvalidOperand) in
  let offset := mr_address request - mm_base m in
  if mr_write request then write_access core offset (mr_value request)
  else let! c := m_lift (read_access m (core_registers m core) offset) in m_ret (Some c).

Definition mmio_reset (m : DecoderMmio) : DecoderMmio := m <| mm_registers := ∅ |>.

(** ** The registers hold what was written last *)

(** Accesses in order; those that fault are answered with the fault. *)
Definition mmio_run (m : DecoderMmio) (history : list (Z * MemoryRequest)) : DecoderMmio :=
  fold_left (fun m a => snd (mmio_access (fst a) (snd a) m)) history m.

(** A request that writes the register at [offset] of [core]. *)
Definition writes (m : DecoderMmio) (core offset : Z) (a : Z * MemoryRequest) : bool :=
  let r := snd a in
  (fst a =? core) && mr_write r && (mr_address r =? mm_base m + offset) && (mr_width r =? 4) &&
  negb (mr_instruction r) && negb (bool_decide (mm_decoders m = ∅)) &&
  (if offset =? registers.Select then known m (mr_value r) else true).

(** The value of the last of them; zero if there is none. *)
Definition last_written (m : DecoderMmio) (core offset : Z) (history : list (Z * MemoryRequest)) : Z :=
  match last (List.filter (writes m core offset) history) with
  | Some a => mr_value (snd a)
  | None => 0
  end.

Definition written (m : DecoderMmio) (core : Z) (history : list (Z * MemoryRequest)) : Registers :=
  mkDecoderRegisters (last_written m core registers.Select history) (last_written m core registers.Count history)
    (last_written m core registers.DataLow history) (last_written m core registers.DataHigh history)
    (last_written m core registers.Tag history).

Lemma last_written_snoc m core offset history a :
  last_written m core offset (history ++ [a]) =
    if writes m core offset a then mr_value (snd a) else last_written m core offset history.
Proof.
  unfold last_written. rewrite List.filter_app. simpl. destruct (writes m core offset a).
  - by rewrite last_snoc.
  - by rewrite app_nil_r.
Qed.

(** What [mmio_access] demands of every request. *)
Definition word_request (m : DecoderMmio) (r : MemoryRequest) : bool :=
  mmio_contains m (mr_address r) && (mr_width r =? 4) && (mr_address r mod 4 =? 0) && negb (mr_instruction r).

Lemma writes_word m core o c r :
  mm_base m mod 4 = 0 -> o mod 4 = 0 -> 0 <= o < registers.RegisterBytes ->
  writes m core o (c, r) =
    (c =? core) && mr_write r && (mr_address r - mm_base m =? o) && word_request m r &&
    (if o =? registers.Select then known m (mr_value r) else true).
Proof.
  intros Hb Ho Hr. unfold writes, word_request, mmio_contains, registers.RegisterBytes in *. cbn [fst snd].
  replace (mr_address r =? mm_base m + o) with (mr_address r - mm_base m =? o) by lia.
  destruct (c =? core), (mr_write r); cbn [andb]; try done.
  destruct (Z.eqb_spec (mr_address r - mm_base m) o) as [E|]; cbn [andb]; [|done].
  replace (mm_base m <=? mr_address r) with true by lia.
  replace (mr_address r <? mm_base m + 32) with true by lia.
  replace (mr_address r mod 4 =? 0) with true by (symmetry; apply Z.eqb_eq; lia_div).
  by destruct (mr_width r =? 4), (mr_instruction r), (bool_decide _).
Qed.

(** The registers of a core after one access. *)
Definition written_by (m : DecoderMmio) (core : Z) (a : Z * MemoryRequest) (r : Registers) : Registers :=
  let pick o (old : Z) := if writes m core o a then mr_value (snd a) else old in
  mkDecoderRegisters (pick registers.Select (r_decoder r)) (pick registers.Count (r_count r))
    (pick registers.DataLow (r_low r)) (pick registers.DataHigh (r_high r)) (pick registers.Tag (r_tag r)).

Lemma written_snoc m core history a :
  written m core (history ++ [a]) = written_by m core a (written m core history).
Proof. unfold written. by rewrite !last_written_snoc. Qed.

Lemma core_registers_upsert m f c core :
  core_registers (m <| mm_registers ::= upsert registers_zero f c |>) core =
    if c =? core then f (core_registers m core) else core_registers m core.
Proof.
  unfold core_registers. simpl. rewrite lookup_upsert.
  destruct (Z.eqb_spec c core) as [->|Hne]; [by rewrite decide_True | rewrite decide_False; congruence].
Qed.

Lemma mmio_access_eq core r m :
  mmio_access core r m =
    if word_request m r then
      if mr_write r then write_access core (mr_address r - mm_base m) (mr_value r) m
      else (let? c := read_access m (core_registers m core) (mr_address r - mm_base m) in Ok (Some c), m)
    else (Fault InvalidOperand, m).
Proof.
  unfold mmio_access, m_bind, m_get, m_lift. fold (word_request m r).
  destruct (word_request m r); [|done]. simpl. destruct (mr_write r); [done|]. by destruct (read_access _ _ _).
Qed.

(** The write of one register. *)
Lemma write_access_eq core o v m :
  snd (write_access core o v m) =
    if o =? registers.Select then
      if known m v then m <| mm_registers ::= upsert registers_zero (fun r => r <| r_decoder := v |>) core |> else m
    else if o =? registers.Count then m <| mm_registers ::= upsert registers_zero (fun r => r <| r_count := v |>) core |>
    else if o =? registers.DataLow then m <| mm_registers ::= upsert registers_zero (fun r => r <| r_low := v |>) core |>
    else if o =? registers.DataHigh then m <| mm_registers ::= upsert registers_zero (fun r => r <| r_high := v |>) core |>
    else if o =? registers.Tag then m <| mm_registers ::= upsert registers_zero (fun r => r <| r_tag := v |>) core |>
    else m.
Proof.
  unfold write_access, write_register, m_bind, m_get, m_lift, m_modify, m_ret.
  destruct (o =? registers.Select); [by destruct (known m v)|].
  destruct (o =? registers.Count); [done|]. destruct (o =? registers.DataLow); [done|].
  destruct (o =? registers.DataHigh); [done|]. destruct (o =? registers.Tag); [done|].
  destruct (o =? registers.Command); [|done]. by destruct (issue_command _ _ _).
Qed.

(** One access changes the registers as [written_by] says, and nothing else. *)
Lemma access_registers m core c request :
  mm_base m mod 4 = 0 ->
  let m' := snd (mmio_access c request m) in
  mm_base m' = mm_base m /\ mm_decoders m' = mm_decoders m /\
  core_registers m' core = written_by m core (c, request) (core_registers m core).
Proof.
  intros Hb. unfold written_by. rewrite !writes_word by (done || (unfold registers.RegisterBytes; lia) || lia).
  cbv zeta. rewrite mmio_access_eq. cbn [snd]. set (o := mr_address request - mm_base m).
  destruct (word_request m request); [|rewrite !andb_false_r; cbn [andb snd]; by destruct (core_registers m core)].
  destruct (mr_write request); [|rewrite andb_false_r; cbn [andb snd]; by destruct (core_registers m core)].
  rewrite !andb_true_r, write_access_eq.
  unfold registers.Select, registers.Count, registers.DataLow, registers.DataHigh, registers.Tag.
  repeat match goal with
  | |- context [if o =? ?n then _ else _] => destruct (Z.eqb_spec o n) as [->|]
  end; cbn [Z.eqb Pos.eqb andb]; rewrite ?andb_true_r, ?andb_false_r; cbn [andb].
  1: destruct (known m (mr_value request)); rewrite ?andb_true_r, ?andb_false_r.
  all: try (rewrite core_registers_upsert; destruct (c =? core)); by destruct (core_registers m core).
Qed.

Lemma mmio_run_registers m history core :
  mm_base m mod 4 = 0 -> mm_registers m = ∅ ->
  mm_base (mmio_run m history) = mm_base m /\ mm_decoders (mmio_run m history) = mm_decoders m /\
  core_registers (mmio_run m history) core = written m core history.
Proof.
  intros Hb Hr. induction history as [|[c r] history IH] using rev_ind.
  { split_and!; [done..|]. unfold core_registers. simpl. rewrite Hr. done. }
  unfold mmio_run in *. rewrite fold_left_app. cbn [fold_left fst snd].
  set (m1 := fold_left _ history m) in *. destruct IH as (H1 & H2 & H3).
  destruct (access_registers m1 core c r) as (E1 & E2 & E3); [by rewrite H1|].
  split_and!; [by rewrite E1 | by rewrite E2 |]. rewrite E3, H3, written_snoc.
  unfold written_by, writes, known. by rewrite H1, H2.
Qed.

Lemma last_written_u32 m core o history :
  Forall (fun a => u32 (mr_value (snd a))) history -> u32 (last_written m core o history).
Proof.
  intros Hall. unfold last_written. destruct (last _) as [a|] eqn:E; [|unfold u32, max32; lia].
  apply last_Some_elem_of, list_elem_of_In, filter_In in E as [E _]. rewrite Forall_forall in Hall.
  by apply Hall, list_elem_of_In.
Qed.

(** The write of a command code by [core]. *)
Definition command_request (m : DecoderMmio) (id code : Z) : MemoryRequest :=
  mkRequest id (mm_base m + registers.Command) code 4 true false.

(** A submission is what the core wrote.  After any history of accesses by all cores, faulting ones
    included, writing [Submit] to a core's command register submits, to the decoder the core selected
    last, as many bits as it wrote last to [Count], with the tag and the two data words it wrote last
    to [Tag], [DataLow] and [DataHigh] (zero where it never wrote); it is refused exactly when no
    known decoder is selected or the count is not between 1 and 64, and changes no register. *)
Theorem submission_as_written (m : DecoderMmio) (history : list (Z * MemoryRequest)) (core id : Z) :
  mm_base m mod 4 = 0 -> mm_registers m = ∅ -> Forall (fun a => u32 (mr_value (snd a))) history ->
  let w := written m core history in
  mmio_access core (command_request m id registers.Submit) (mmio_run m history) =
    (if known m (r_decoder w) && (0 <? r_count w) && (r_count w <=? 64)
     then Ok (Some (DecoderSubmit (r_decoder w) (r_count w) (r_tag w) (r_low w + 4294967296 * r_high w)))
     else Fault InvalidOperand, mmio_run m history).
Proof.
  intros Hb Hr Hall w. destruct (mmio_run_registers m history core Hb Hr) as (H1 & H2 & H3).
  set (m1 := mmio_run m history) in *. fold w in H3. rewrite mmio_access_eq. cbn [mr_write command_request mr_address mr_value].
  rewrite H1. replace (mm_base m + registers.Command - mm_base m) with registers.Command by lia.
  assert (Hdata : r_low w .| wrap64 (r_high w <<< 32) = r_low w + 4294967296 * r_high w).
  { pose proof (last_written_u32 m core registers.DataLow history Hall) as Hl.
    pose proof (last_written_u32 m core registers.DataHigh history Hall) as Hh.
    change (u32 (r_low w)) in Hl. change (u32 (r_high w)) in Hh. unfold u32, max32 in *.
    rewrite (shiftl_arith _ _ 4294967296) by (lia || reflexivity).
    rewrite wrap64_small by (unfold u64, max64; lia). rewrite Z.lor_comm.
    rewrite (lor_disjoint _ _ 32); [lia | lia | | change (2 ^ 32) with 4294967296; lia].
    change (2 ^ 32) with 4294967296. apply Z.mod_mul. lia. }
  unfold write_access, issue_command, m_bind, m_get, m_lift, m_ret. rewrite H3, Hdata. clear Hdata.
  unfold registers.Command, registers.Submit, registers.Consume, registers.Reset in *.
  cbn [Z.eqb Pos.eqb registers.Select registers.Count registers.DataLow registers.DataHigh registers.Tag].
  assert (Hk : known m1 (r_decoder w) = known m (r_decoder w)) by (unfold known; by rewrite H2). rewrite Hk.
  destruct (known m (r_decoder w)) eqn:Ek.
  - replace (word_request m1 _) with true; [cbn [andb require result_bind]; by destruct (0 <? r_count w), (r_count w <=? 64)|].
    symmetry. unfold word_request, mmio_contains, command_request, registers.RegisterBytes, registers.Command.
    cbn [mr_address mr_width mr_instruction]. rewrite H1, H2. repeat (apply andb_true_intro; split); try lia; try done.
    + apply negb_true_iff, bool_decide_eq_false. unfold known in Ek. apply bool_decide_eq_true in Ek. set_solver.
    + apply Z.eqb_eq. lia_div.
  - destruct (word_request m1 _); reflexivity.
Qed.

(** Core 1's refused selection and core 0's writes leave core 1's packet alone. *)
Definition example_mmio : DecoderMmio := mkMmio 0x40000000 {[3; 5]} ∅.
Definition example_write (offset v : Z) : MemoryRequest := mkRequest 1 (0x40000000 + offset) v 4 true false.
Definition example_history : list (Z * MemoryRequest) :=
  [(1, example_write registers.Select 5); (0, example_write registers.Count 9); (1, example_write registers.Count 3);
   (1, example_write registers.DataLow 6); (1, example_write registers.Select 4); (0, example_write registers.DataLow 7)].

Lemma submission_as_written_witness :
  fst (mmio_access 1 (command_request example_mmio 1 registers.Submit) (mmio_run example_mmio example_history)) =
    Ok (Some (DecoderSubmit 5 3 0 6)).
Proof.
  rewrite (submission_as_written example_mmio example_history 1 1 eq_refl eq_refl
    ltac:(forall_list ltac:(unfold u32, max32; simpl; lia))).
  vm_compute. reflexivity.
Defined.
