(* ===== verification/Decoder.v ===== *)
(** * The decoder system (src/decoder.cpp, include/qsbit/decoder.hpp)

    Cores send measurement bits to decoders over one shared link.  A request is transmitted, arrives,
    and is admitted to the session of its core and decoder; a session with a full block of measurements
    starts a job, whose result comes back over a second shared link and is added (exclusive or) to the
    session's result until the core consumes it.

    A configured decoder is a function from measurement bits to output bits ([DecoderConfig::decode], a
    callback); [None] stands for an empty [std::function].  The file shows that the bookkeeping is
    consistent: capacities hold, a session has at most one job and a returned result always finds its
    session. *)

From S2P Require Import Prelude Error Time Trace Image Memory Mmio.

Record DecoderConfig := mkDecoderConfig {
  dc_id : Z; dc_measurements : Z; dc_outputs : Z; dc_latency : Tick; initiation_interval : Tick;
  dc_decode : option (list Z -> result (list bool)) }.

Record DecoderSystemConfig := mkDecoderSystemConfig {
  ds_base : Z; request_capacity : Z; ds_result_capacity : Z; link_latency : Tick; bytes_per_tick : Z;
  packet_overhead : Z; decoders : list DecoderConfig }.

Record Session := mkSession { ss_measurements : list Z; ss_result : option Z; submitted : bool }.
#[global] Instance eta_Session : Eta Session := fun s =>
  mkSession (ss_measurements s) (ss_result s) (submitted s).
Definition session_new : Session := mkSession [] None false.

Record Request := mkDecoderRequest {
  rq_id : Id; rq_core : Z; rq_decoder : Z; rq_count : Z; rq_tag : Z; rq_data : Z; sent : Tick;
  rq_arrival : Tick; transmitted : bool }.
#[global] Instance eta_Request : Eta Request := fun r =>
  mkDecoderRequest (rq_id r) (rq_core r) (rq_decoder r) (rq_count r) (rq_tag r) (rq_data r) (sent r)
    (rq_arrival r) (transmitted r).

Record Job := mkJob {
  jb_id : Id; jb_core : Z; jb_decoder : Z; jb_start : Tick; jb_completion : Tick; jb_result : Z;
  jb_arrival : option Tick; started : bool; completed : bool }.
#[global] Instance eta_Job : Eta Job := fun j =>
  mkJob (jb_id j) (jb_core j) (jb_decoder j) (jb_start j) (jb_completion j) (jb_result j) (jb_arrival j)
    (started j) (completed j).

Record DecoderSystem := mkDecoderSystem {
  ds_config : DecoderSystemConfig; ds_mmio : DecoderMmio; sessions_ : gmap (Z * Z) Session;
  available_ : gmap Z Tick; requests_ : list Request; reset_request : option Request; jobs_ : list Job;
  tx_available : Tick; rx_available : Tick; ds_next : Id }.
#[global] Instance eta_DecoderSystem : Eta DecoderSystem := fun d =>
  mkDecoderSystem (ds_config d) (ds_mmio d) (sessions_ d) (available_ d) (requests_ d) (reset_request d)
    (jobs_ d) (tx_available d) (rx_available d) (ds_next d).

Record DecoderWorld := mkDecoderWorld { xw_system : DecoderSystem; xw_trace : Trace }.
#[global] Instance eta_DecoderWorld : Eta DecoderWorld :=
  fun w => mkDecoderWorld (xw_system w) (xw_trace w).

Definition decoder_ids (c : DecoderSystemConfig) : gset Z := list_to_set (map dc_id (decoders c)).

Definition check_decoder (ids : gset Z) (d : DecoderConfig) : result (gset Z) :=
  do? require (bool_decide (dc_id d ∉ ids) && (0 <? dc_measurements d) && (dc_measurements d <=? 1048576) &&
               (0 <? dc_outputs d) && (dc_outputs d <=? 64) && (0 <? dc_latency d) &&
               (0 <? initiation_interval d) && match dc_decode d with Some _ => true | None => false end)
    InvalidProfile in
  Ok ({[dc_id d]} ∪ ids).

Definition decoders_new (c : DecoderSystemConfig) : result DecoderSystem :=
  let? mmio := mmio_new (ds_base c) (decoder_ids c) in
  do? require ((0 <? request_capacity c) && (0 <? ds_result_capacity c) && (0 <? bytes_per_tick c) &&
               (0 <? link_latency c)) InvalidProfile in
  let? _ := result_fold check_decoder (decoders c) ∅ in
  Ok (mkDecoderSystem c mmio ∅ ∅ [] None [] 0 0 1).

Definition find_decoder (d : DecoderSystem) (id : Z) : result DecoderConfig :=
  match List.find (fun c => dc_id c =? id) (decoders (ds_config d)) with
  | Some c => Ok c
  | None => Fault InvalidOperand
  end.

Definition modify_system (f : DecoderSystem -> DecoderSystem) : M DecoderWorld unit :=
  m_modify (fun w => w <| xw_system ::= f |>).

(** [DecoderSystem::event]. *)
Definition decoder_emit (now : Tick) (epoch : Epoch) (k : DecoderEventKind) (id : Id)
    (core target tag : Z) : M DecoderWorld unit :=
  let! d := m_gets xw_system in
  on xw_trace (trace_emit (decoder_event now epoch id core
    (mkDecoderEvent k (mkDecoderTrace target tag (size_of (requests_ d))
       (match reset_request d with Some _ => 1 | None => 0 end) (size_of (jobs_ d)))))).

(** [sessions_[key]] makes the session if there is none. *)
Definition session_at (d : DecoderSystem) (key : Z * Z) : Session := default session_new (sessions_ d !! key).
Definition modify_session (key : Z * Z) (f : Session -> Session) : M DecoderWorld unit :=
  modify_system (fun d => d <| sessions_ ::= upsert session_new f key |>).
Definition touch_session (key : Z * Z) : M DecoderWorld unit := modify_session key (fun s => s).

Definition some_result (s : Session) : bool := match ss_result s with Some _ => true | None => false end.

(** Ticks a packet of [n] bits takes on a link. *)
Definition packet_ticks (c : DecoderSystemConfig) (n : Z) : result Tick :=
  let? bytes := checked_add (packet_overhead c) ((n + 7) / 8) in
  Ok (Z.max 1 ((bytes + bytes_per_tick c - 1) / bytes_per_tick c)).

(** ** [access] *)
Definition consume_result (core decoder : Z) (now : Tick) (epoch : Epoch) : M DecoderWorld (option Z) :=
  do! touch_session (core, decoder) in
  let! d := m_gets xw_system in
  let s := session_at d (core, decoder) in
  do! m_lift (require (some_result s && negb (submitted s) && bool_decide (ss_measurements s = [])) Protocol) in
  do! modify_session (core, decoder) (fun _ => session_new) in
  do! decoder_emit now epoch ResultConsumed 0 core decoder 0 in
  m_ret (Some 0).

Definition matches (core decoder : Z) (p : Request) : bool := (rq_core p =? core) && (rq_decoder p =? decoder).

Definition session_status (d : DecoderSystem) (core decoder : Z) : Z :=
  let s := session_at d (core, decoder) in
  let pending := match reset_request d with Some p => matches core decoder p | None => false end ||
                 existsb (matches core decoder) (requests_ d) in
  (if some_result s then registers.Ready else 0) .|
  (if pending || submitted s || negb (bool_decide (ss_measurements s = [])) then registers.Busy else 0).

Definition read_register (core decoder : Z) (k : DecoderReadKind) : M DecoderWorld (option Z) :=
  match k with
  | ReadCount =>
      let! d := m_gets xw_system in
      let! c := m_lift (find_decoder d decoder) in m_ret (Some (dc_outputs c))
  | _ =>
      do! touch_session (core, decoder) in
      let! d := m_gets xw_system in
      match k with
      | ReadStatus => m_ret (Some (session_status d core decoder))
      | _ =>
          match ss_result (session_at d (core, decoder)) with
          | Some v => m_ret (Some (wrap32 (v >>> (if bool_decide (k = ReadLow) then 0 else 32))))
          | None => m_fault Protocol
          end
      end
  end.

(** A reset or a submission goes to the request link; [None] when it is full. *)
Definition submit_request (reset : bool) (core decoder count tag data : Z) (now : Tick) (epoch : Epoch)
    : M DecoderWorld (option Z) :=
  let! d := m_gets xw_system in
  let c := ds_config d in
  if (if reset then match reset_request d with Some _ => true | None => false end
      else request_capacity c <=? size_of (requests_ d))
  then m_ret None
  else
    let! duration := m_lift (packet_ticks c count) in
    let at_ := Z.max now (tx_available d) in
    let! stop := m_lift (checked_add at_ duration) in
    let! arrives := m_lift (checked_add stop (link_latency c)) in
    do! m_lift (require (negb (ds_next d =? max64)) Capacity) in
    let packet := mkDecoderRequest (ds_next d) core decoder count tag data at_ arrives false in
    do! modify_system (fun d =>
      (if reset then d <| reset_request := Some packet |> else d <| requests_ ::= fun l => l ++ [packet] |>)
        <| ds_next ::= fun n => n + 1 |> <| tx_available := stop |>) in
    do! decoder_emit now epoch RequestSubmitted (ds_next d) core decoder tag in
    m_ret (Some 0).

Definition decoder_access (core : Z) (request : MemoryRequest) (now : Tick) (epoch : Epoch)
    : M DecoderWorld (option Z) :=
  let! command := m_zoom (fun w => ds_mmio (xw_system w))
      (fun m w => w <| xw_system ::= fun d => d <| ds_mmio := m |> |>) (mmio_access core request) in
  match command with
  | None => m_ret (Some 0)
  | Some (DecoderConsume decoder) => consume_result core decoder now epoch
  | Some (DecoderRead decoder k) => read_register core decoder k
  | Some (DecoderReset decoder tag) => submit_request true core decoder 0 tag 0 now epoch
  | Some (DecoderSubmit decoder count tag data) => submit_request false core decoder count tag data now epoch
  end.

(** ** [step] *)
Definition put_requests (l : list Request) : M DecoderWorld unit :=
  modify_system (fun d => d <| requests_ := l |>).

(** The lambda [transmitted]; [put] stores the request it is given a reference to. *)
Definition mark_transmitted (now : Tick) (epoch : Epoch) (put : Request -> M DecoderWorld unit) (p : Request)
    : M DecoderWorld unit :=
  if negb (transmitted p) && (sent p <=? now) then
    do! decoder_emit now epoch RequestSent (rq_id p) (rq_core p) (rq_decoder p) (rq_tag p) in
    put (p <| transmitted := true |>)
  else m_ret ().

(** The loop over the requests: [before] has been visited. *)
Fixpoint mark_requests (now : Tick) (epoch : Epoch) (before rest : list Request) : M DecoderWorld unit :=
  match rest with
  | [] => m_ret ()
  | p :: rest =>
      do! mark_transmitted now epoch (fun q => put_requests (before ++ q :: rest)) p in
      let q := if sent p <=? now then p <| transmitted := true |> else p in
      mark_requests now epoch (before ++ [q]) rest
  end.

Definition cancels_request (p item : Request) : bool :=
  (rq_core item =? rq_core p) && (rq_decoder item =? rq_decoder p) && (rq_id item <? rq_id p).
Definition cancels_job (p : Request) (item : Job) : bool :=
  (jb_core item =? rq_core p) && (jb_decoder item =? rq_decoder p) && (jb_id item <? rq_id p).

Definition perform_reset (p : Request) (now : Tick) (epoch : Epoch) : M DecoderWorld unit :=
  do! modify_system (fun d => d <| reset_request := None |>
        <| requests_ ::= List.filter (fun item => negb (cancels_request p item)) |>
        <| jobs_ ::= List.filter (fun item => negb (cancels_job p item)) |>) in
  do! modify_session (rq_core p, rq_decoder p) (fun _ => session_new) in
  decoder_emit now epoch Reset (rq_id p) (rq_core p) (rq_decoder p) (rq_tag p).

Definition advance_transmission (now : Tick) (epoch : Epoch) : M DecoderWorld unit :=
  let! d := m_gets xw_system in
  do! mark_requests now epoch [] (requests_ d) in
  match reset_request d with
  | None => m_ret ()
  | Some p =>
      do! mark_transmitted now epoch
            (fun q => modify_system (fun d => d <| reset_request := Some q |>)) p in
      if rq_arrival p <=? now then perform_reset p now epoch else m_ret ()
  end.

Definition put_jobs (l : list Job) : M DecoderWorld unit := modify_system (fun d => d <| jobs_ := l |>).
Definition job_emit (now : Tick) (epoch : Epoch) (k : DecoderEventKind) (j : Job) : M DecoderWorld unit :=
  decoder_emit now epoch k (jb_id j) (jb_core j) (jb_decoder j) 0.

(** [sessions_.at(key)] throws [std::out_of_range], which ends the simulation as a backend failure. *)
Definition return_result (now : Tick) (epoch : Epoch) (j : Job) : M DecoderWorld unit :=
  let! d := m_gets xw_system in
  match sessions_ d !! (jb_core j, jb_decoder j) with
  | None => m_fault BackendFailure
  | Some _ =>
      do! modify_session (jb_core j, jb_decoder j)
            (fun s => s <| ss_result := Some (default 0 (ss_result s) .^ jb_result j) |> <| submitted := false |>) in
      job_emit now epoch ResultReturned j
  end.

(** The loop over the jobs: [before] has been visited and kept. *)
Fixpoint advance_from (now : Tick) (epoch : Epoch) (before rest : list Job) : M DecoderWorld unit :=
  match rest with
  | [] => m_ret ()
  | j :: rest =>
      let starts := negb (started j) && (jb_start j <=? now) in
      do! (if starts then
             do! job_emit now epoch Started j in put_jobs (before ++ j <| started := true |> :: rest)
           else m_ret ()) in
      let j := if starts then j <| started := true |> else j in
      let completes := negb (completed j) && (jb_completion j <=? now) in
      do! (if completes then
             do! job_emit now epoch Completed j in put_jobs (before ++ j <| completed := true |> :: rest)
           else m_ret ()) in
      let j := if completes then j <| completed := true |> else j in
      if match jb_arrival j with Some t => t <=? now | None => false end then
        do! return_result now epoch j in
        do! put_jobs (before ++ rest) in
        advance_from now epoch before rest
      else advance_from now epoch (before ++ [j]) rest
  end.

Definition advance_jobs (now : Tick) (epoch : Epoch) : M DecoderWorld unit :=
  let! d := m_gets xw_system in advance_from now epoch [] (jobs_ d).

Definition packet_bits (p : Request) : list Z := map (fun bit => (rq_data p >>> bit) .& 1) (upto (rq_count p)).

(** The bits of a result, the first the least significant. *)
Definition result_bits (result : list bool) : Z :=
  fold_left (fun bits i =>
    bits .| wrap64 ((if nth (Z.to_nat i) result false then 1 else 0) <<< i)) (upto (size_of result)) 0.

Definition holds_result (s : Session) : bool := some_result s || submitted s.
(** Sessions that have a result or wait for one. *)
Definition reserved (d : DecoderSystem) : Z := count_map holds_result (sessions_ d).

(** A complete block of measurements starts a job. *)
Definition start_job (p : Request) (c : DecoderConfig) (now : Tick) : M DecoderWorld unit :=
  let key := (rq_core p, rq_decoder p) in
  let! d := m_gets xw_system in
  let! bits := m_lift (match dc_decode c with
                       | Some decode => decode (ss_measurements (session_at d key))
                       | None => Fault BackendFailure
                       end) in
  do! m_lift (require (size_of bits =? dc_outputs c) BackendFailure) in
  let! soonest := m_lift (checked_add now 1) in
  let start := Z.max soonest (default 0 (available_ d !! dc_id c)) in
  let! free := m_lift (checked_add start (initiation_interval c)) in
  do! modify_system (fun d => d <| available_ ::= insert (dc_id c) free |>) in
  let! complete := m_lift (checked_add start (dc_latency c)) in
  do! modify_system (fun d => d <| jobs_ ::= fun l => l ++
        [mkJob (rq_id p) (rq_core p) (rq_decoder p) start complete (result_bits bits) None false false] |>) in
  modify_session key (fun s => s <| submitted := true |> <| ss_measurements := [] |>).

(** One iteration of [admit_requests]; [false] when it breaks. *)
Definition admit_request (p : Request) (now : Tick) (epoch : Epoch) : M DecoderWorld bool :=
  let key := (rq_core p, rq_decoder p) in
  let! d := m_gets xw_system in
  let! c := m_lift (find_decoder d (rq_decoder p)) in
  do! touch_session key in
  let! d := m_gets xw_system in
  let s := session_at d key in
  if submitted s then m_ret false else
  let total := size_of (ss_measurements s) + rq_count p in
  do! m_lift (require (total <=? dc_measurements c) Protocol) in
  if (total =? dc_measurements c) && negb (some_result s) && (ds_result_capacity (ds_config d) <=? reserved d)
  then m_ret false
  else
    do! modify_session key (fun s => s <| ss_measurements ::= fun l => l ++ packet_bits p |>) in
    do! decoder_emit now epoch RequestArrived (rq_id p) (rq_core p) (rq_decoder p) (rq_tag p) in
    let! d := m_gets xw_system in
    do! (if size_of (ss_measurements (session_at d key)) =? dc_measurements c
         then start_job p c now else m_ret ()) in
    m_ret true.

(** The loop; the state's requests are [rest]. *)
Fixpoint admit_from (now : Tick) (epoch : Epoch) (rest : list Request) : M DecoderWorld unit :=
  match rest with
  | [] => m_ret ()
  | p :: rest =>
      if rq_arrival p <=? now then
        let! continue := admit_request p now epoch in
        if continue : bool then do! put_requests rest in admit_from now epoch rest else m_ret ()
      else m_ret ()
  end.

Definition admit_requests (now : Tick) (epoch : Epoch) : M DecoderWorld unit :=
  let! d := m_gets xw_system in admit_from now epoch (requests_ d).

(** The completed job with the least completion time, then identity; the result is its index. *)
Definition better_job (ready : option (nat * Job)) (entry : nat * Job) : option (nat * Job) :=
  let j := snd entry in
  if completed j && match jb_arrival j with None => true | Some _ => false end &&
     match ready with
     | None => true
     | Some (_, r) => (jb_completion j <? jb_completion r) ||
                      ((jb_completion j =? jb_completion r) && (jb_id j <? jb_id r))
     end
  then Some entry else ready.
Definition ready_job (jobs : list Job) : option (nat * Job) := fold_left better_job (imap pair jobs) None.

Definition transmit_result (now : Tick) : M DecoderWorld unit :=
  let! d := m_gets xw_system in
  if rx_available d <=? now then
    match ready_job (jobs_ d) with
    | None => m_ret ()
    | Some (i, j) =>
        let! c := m_lift (find_decoder d (jb_decoder j)) in
        let! duration := m_lift (packet_ticks (ds_config d) (dc_outputs c)) in
        let! stop := m_lift (checked_add now duration) in
        let! arrives := m_lift (checked_add stop (link_latency (ds_config d))) in
        modify_system (fun d => d <| jobs_ ::= alter (fun j => j <| jb_arrival := Some arrives |>) i |>
          <| rx_available := stop |>)
    end
  else m_ret ().

Definition decoder_step (now : Tick) (epoch : Epoch) : M DecoderWorld unit :=
  do! advance_transmission now epoch in
  do! advance_jobs now epoch in
  do! admit_requests now epoch in
  transmit_result now.

Definition decoder_reset (d : DecoderSystem) : DecoderSystem :=
  mkDecoderSystem (ds_config d) (mmio_reset (ds_mmio d)) ∅ ∅ [] None [] 0 0 (ds_next d).

Definition decoder_idle (d : DecoderSystem) : bool :=
  bool_decide (requests_ d = []) && match reset_request d with None => true | Some _ => false end &&
  match jobs_ d with [] => true | _ => false end &&
  forallb (fun entry => bool_decide (ss_measurements (snd entry) = [])) (map_to_list (sessions_ d)).

(** The lambda [include]. *)
Definition include_tick (now : Tick) (next : option Tick) (t : Tick) : option Tick :=
  if (now <? t) && match next with None => true | Some n => t <? n end then Some t else next.

Definition request_boundaries (p : Request) : list Tick :=
  (if transmitted p then [] else [sent p]) ++ [rq_arrival p].
Definition job_boundaries (rx : Tick) (j : Job) : list Tick :=
  [jb_start j; jb_completion j] ++
  match jb_arrival j with Some t => [t] | None => if completed j then [rx] else [] end.

Definition decoder_next_boundary (d : DecoderSystem) (now : Tick) : option Tick :=
  fold_left (include_tick now)
    (flat_map request_boundaries (requests_ d) ++
     match reset_request d with Some p => request_boundaries p | None => [] end ++
     flat_map (job_boundaries (rx_available d)) (jobs_ d)) None.

(** ** The bookkeeping is consistent *)

(** What matters of a request and of a job. *)
Record Packet := mkPacket { pk_id : Id; pk_key : Z * Z; pk_count : Z; pk_arrival : Tick }.
Definition packet_of (p : Request) : Packet := mkPacket (rq_id p) (rq_core p, rq_decoder p) (rq_count p) (rq_arrival p).
Definition job_key (j : Job) : Z * Z := (jb_core j, jb_decoder j).
Definition job_of (j : Job) : Id * (Z * Z) := (jb_id j, job_key j).

Record config_ok (c : DecoderSystemConfig) : Prop := {
  co_latency : 0 < link_latency c;
  co_measurements : Forall (fun d => 0 < dc_measurements d) (decoders c) }.

(** The packets on the request link: their identities and arrivals. *)
Record link_wf (last : Tick) (next : Id) (free : Tick) (packets : list Packet) (reset : option Packet)
    (jobs : list (Id * (Z * Z))) : Prop := {
  lk_packets : Forall (fun p => pk_id p < next /\ pk_arrival p <= free /\ 0 <= pk_count p) packets;
  lk_reset : forall p, reset = Some p -> pk_id p < next /\ last < pk_arrival p <= free;
  lk_order : forall p, reset = Some p ->
    Forall (fun r => pk_id r < pk_id p \/ pk_arrival p < pk_arrival r) packets;
  lk_jobs : Forall (fun j => fst j < next) jobs;
  lk_older : forall p, reset = Some p -> Forall (fun j => snd j = pk_key p -> fst j < pk_id p) jobs }.

Record decoder_wf (last : Tick) (d : DecoderSystem) : Prop := {
  wd_config : config_ok (ds_config d);
  wd_requests : size_of (requests_ d) <= request_capacity (ds_config d);
  wd_reserved : reserved d <= ds_result_capacity (ds_config d);
  wd_nodup : NoDup (map job_key (jobs_ d));
  wd_jobs : forall key, submitted (session_at d key) = true <-> key ∈ map job_key (jobs_ d);
  wd_blocks : forall key c, find_decoder d (snd key) = Ok c ->
    size_of (ss_measurements (session_at d key)) <= dc_measurements c;
  wd_link : link_wf last (ds_next d) (tx_available d + link_latency (ds_config d))
    (map packet_of (requests_ d)) (option_map packet_of (reset_request d)) (map job_of (jobs_ d)) }.

Lemma job_keys_of jobs : map job_key jobs = map snd (map job_of jobs).
Proof. rewrite map_map. by apply map_ext. Qed.

(** Nothing else of the state matters. *)
Lemma decoder_wf_ext last d d' :
  ds_config d' = ds_config d -> map packet_of (requests_ d') = map packet_of (requests_ d) ->
  option_map packet_of (reset_request d') = option_map packet_of (reset_request d) ->
  map job_of (jobs_ d') = map job_of (jobs_ d) -> sessions_ d' = sessions_ d ->
  tx_available d' = tx_available d -> ds_next d' = ds_next d ->
  decoder_wf last d -> decoder_wf last d'.
Proof.
  intros Hc Hp Hr Hj Hs Ht Hn [H1 H2 H3 H4 H5 H6 H7].
  assert (Hsz : size_of (requests_ d') = size_of (requests_ d))
    by (rewrite <-(size_of_map packet_of (requests_ d')), Hp; apply size_of_map).
  constructor; unfold reserved, session_at, find_decoder in *; rewrite ?Hc, ?Hs, ?Hsz, ?job_keys_of, ?Hj, ?Hp, ?Hr, ?Ht, ?Hn; try done;
    rewrite <-?job_keys_of; done.
Qed.

Lemma link_wf_later last last' next free free' packets reset jobs :
  last <= last' -> free <= free' -> (forall p, reset = Some p -> last' < pk_arrival p) ->
  link_wf last next free packets reset jobs -> link_wf last' next free' packets reset jobs.
Proof.
  intros Hl Hf Hr [H1 H2 H3 H4 H5]. constructor; try done.
  - eapply Forall_impl; [exact H1|]. simpl. lia.
  - intros p Hp. specialize (H2 p Hp). specialize (Hr p Hp). lia.
Qed.

Lemma session_at_upsert d f key k :
  session_at (d <| sessions_ ::= upsert session_new f key |>) k =
    if decide (k = key) then f (session_at d key) else session_at d k.
Proof. unfold session_at. simpl. rewrite lookup_upsert. by destruct (decide _). Qed.

Lemma reserved_upsert d f key :
  reserved (d <| sessions_ ::= upsert session_new f key |>) =
    reserved d - (if holds_result (session_at d key) then 1 else 0) +
    (if holds_result (f (session_at d key)) then 1 else 0).
Proof.
  unfold reserved, session_at, upsert. simpl.
  replace (partial_alter _ key (sessions_ d)) with (<[key := f (default session_new (sessions_ d !! key))]> (sessions_ d)).
  2: { apply map_eq. intros k. destruct (decide (k = key)) as [->|Hne].
       - by rewrite lookup_insert_eq, lookup_partial_alter_eq.
       - by rewrite lookup_insert_ne, lookup_partial_alter_ne. }
  rewrite count_map_insert. by destruct (sessions_ d !! key).
Qed.

(** A session changes without starting or ending a job. *)
Lemma session_wf last d f key :
  let s := session_at d key in
  decoder_wf last d -> submitted (f s) = submitted s -> (holds_result (f s) = true -> holds_result s = true) ->
  (forall c, find_decoder d (snd key) = Ok c -> size_of (ss_measurements (f s)) <= dc_measurements c) ->
  decoder_wf last (d <| sessions_ ::= upsert session_new f key |>).
Proof.
  intros s [H1 H2 H3 H4 H5 H6 H7] Hs Hh Hm. constructor; try done.
  - rewrite reserved_upsert. fold s. destruct (holds_result (f s)) eqn:E1; [rewrite (Hh eq_refl); simpl; lia|].
    destruct (holds_result s); simpl; lia.
  - intros k. rewrite session_at_upsert. destruct (decide (k = key)) as [->|]; [|apply H5]. fold s.
    rewrite Hs. apply H5.
  - intros k c Hc. rewrite session_at_upsert. destruct (decide (k = key)) as [->|]; [by apply Hm | by apply H6].
Qed.

Lemma touch_wf last d key : decoder_wf last d -> decoder_wf last (d <| sessions_ ::= upsert session_new (fun s => s) key |>).
Proof. intros H. apply session_wf; [done..|]. intros c Hc. by apply (wd_blocks _ _ H). Qed.

Lemma find_decoder_ok d id c : config_ok (ds_config d) -> find_decoder d id = Ok c -> 0 < dc_measurements c.
Proof.
  intros [_ Hm]. unfold find_decoder. destruct (List.find _ _) as [x|] eqn:E; [|done]. intros [= <-].
  apply find_some in E as [Hin _]. rewrite Forall_forall in Hm. by apply Hm, list_elem_of_In.
Qed.

Section Bookkeeping.
Context (last now : Tick) (epoch : Epoch).

Definition good (w : DecoderWorld) : Prop := decoder_wf last (xw_system w).

Lemma keeps_decoder_emit k id core target tag : keeps good (decoder_emit now epoch k id core target tag).
Proof.
  unfold decoder_emit. apply keeps_bind; [apply keeps_gets|]. intros d. by apply keeps_zoom.
Qed.

Lemma keeps_system f : (forall d, decoder_wf last d -> decoder_wf last (f d)) -> keeps good (modify_system f).
Proof. intros Hf. apply keeps_modify. intros w. apply Hf. Qed.

Lemma keeps_touch key : keeps good (touch_session key).
Proof. apply keeps_system. intros d. apply touch_wf. Qed.

(** A step whose continuation sees the state it started from. *)
Lemma keeps_gets_bind {A B} (f : DecoderWorld -> A) (k : A -> M DecoderWorld B) :
  (forall w r w', good w -> k (f w) w = (r, w') -> good w') -> keeps good (let! a := m_gets f in k a).
Proof. intros H w r w' Hw Hk. by eapply H. Qed.

Lemma keeps_use {A} (m : M DecoderWorld A) w r w' : keeps good m -> good w -> m w = (r, w') -> good w'.
Proof. intros H Hw. by apply H. Qed.

Lemma keeps_consume core decoder : keeps good (consume_result core decoder now epoch).
Proof.
  unfold consume_result. apply keeps_bind; [apply keeps_touch|]. intros []. apply keeps_gets_bind.
  intros w r w' Hw H. cbv zeta in H. unfold m_bind at 1, m_lift at 1 in H.
  destruct (require _ Protocol) as [[]|c] eqn:E; [|by injection H as <- <-]. apply require_ok in E. reflect.
  unfold m_bind at 1, modify_session, modify_system, m_modify in H. revert H. apply keeps_use.
  { apply keeps_bind; [apply keeps_decoder_emit|]. intros []. apply keeps_ret. }
  unfold good in *. simpl. apply session_wf; [done | by destruct (submitted _) | done |].
  intros c Hc. simpl. rewrite size_of_nil. pose proof (find_decoder_ok _ _ _ (wd_config _ _ Hw) Hc). lia.
Qed.

Lemma keeps_read core decoder k : keeps good (read_register core decoder k).
Proof.
  unfold read_register. destruct k; keep_steps; apply keeps_touch.
Qed.

Lemma packet_ticks_pos c n t : packet_ticks c n = Ok t -> 1 <= t.
Proof. unfold packet_ticks. intros H. apply result_bind_ok in H as (b & _ & H). apply Ok_inj in H as <-. lia. Qed.

Lemma keeps_submit reset core decoder count tag data :
  last <= now -> 0 <= count -> keeps good (submit_request reset core decoder count tag data now epoch).
Proof.
  intros Hnow Hcount. unfold submit_request. apply keeps_gets_bind. intros w r w' Hw H. cbv zeta in H.
  destruct (if reset then _ else _) eqn:Efull; [by injection H as <- <-|].
  unfold m_bind at 1, m_lift at 1 in H. destruct (packet_ticks _ count) as [dur|] eqn:Ed; [|by injection H as <- <-].
  apply packet_ticks_pos in Ed. unfold m_bind at 1, m_lift at 1 in H.
  destruct (checked_add _ dur) as [stop|] eqn:Es; [|by injection H as <- <-]. apply checked_add_ok in Es as [_ Es].
  unfold m_bind at 1, m_lift at 1 in H.
  destruct (checked_add stop _) as [arr|] eqn:Ea; [|by injection H as <- <-]. apply checked_add_ok in Ea as [_ Ea].
  unfold m_bind at 1, m_lift at 1 in H. destruct (require _ Capacity) as [[]|] eqn:En; [|by injection H as <- <-].
  unfold m_bind at 1, modify_system, m_modify in H. revert H. apply keeps_use.
  { apply keeps_bind; [apply keeps_decoder_emit|]. intros []. apply keeps_ret. }
  unfold good in *. destruct w as [d tr]. simpl in *. destruct Hw as [H1 H2 H3 H4 H5 H6 [L1 L2 L3 L4 L5]].
  pose proof (co_latency _ H1) as Hlat.
  assert (Hold : Forall (fun p => pk_id p < ds_next d + 1 /\ pk_arrival p <= stop + link_latency (ds_config d) /\ 0 <= pk_count p)
    (map packet_of (requests_ d))) by (eapply Forall_impl; [exact L1|]; simpl; lia).
  assert (Hjobs : Forall (fun j => fst j < ds_next d + 1) (map job_of (jobs_ d)))
    by (eapply Forall_impl; [exact L4|]; simpl; lia).
  destruct reset; simpl in Efull.
  - destruct (reset_request d) eqn:Er; [done|]. constructor; try done. simpl. constructor; simpl; try done.
    + intros p [= <-]. simpl. lia.
    + intros p [= <-]. eapply Forall_impl; [exact L1|]. simpl. lia.
    + intros p [= <-]. eapply Forall_impl; [exact L4|]. simpl. lia.
  - apply Z.leb_gt in Efull. constructor; try done; simpl.
    { rewrite size_of_app, size_of_cons, size_of_nil. lia. }
    rewrite map_app. constructor; simpl; try done.
    + apply Forall_app. split; [done|]. constructor; [|constructor]. simpl. lia.
    + intros p Hp. specialize (L2 p Hp). lia.
    + intros p Hp. apply Forall_app. split; [by apply L3|]. constructor; [|constructor]. right. simpl.
      specialize (L2 p Hp). lia.
Qed.

(** A submission has at least one bit. *)
Lemma mmio_submit_count core request m decoder count tag data m' :
  mmio_access core request m = (Ok (Some (DecoderSubmit decoder count tag data)), m') -> 0 < count.
Proof.
  rewrite mmio_access_eq. destruct (word_request m request); [|done]. destruct (mr_write request).
  - unfold write_access, write_register, m_bind, m_get, m_lift, m_ret, m_modify.
    do 5 (destruct (_ =? _); [try destruct (known _ _); intros [=]|]). destruct (_ =? _); [|intros [=]].
    unfold issue_command. destruct (known _ _); [|intros [=]]. cbn [require result_bind].
    destruct (_ =? registers.Consume); [intros [=]|]. destruct (_ =? registers.Reset); [intros [=]|].
    destruct (_ =? registers.Submit); [|intros [=]]. destruct (_ && _) eqn:E; [|intros [=]].
    intros [= _ <- _ _ _]. reflect. lia.
  - unfold read_access. destruct (known _ _); [|intros [=]]. cbn [require result_bind].
    repeat (destruct (_ =? _); [intros [=]|]). intros [=].
Qed.

Lemma keeps_access core request : last <= now -> keeps good (decoder_access core request now epoch).
Proof.
  intros Hnow w r w' Hw H. unfold decoder_access, m_bind, m_zoom in H.
  destruct (mmio_access core request (ds_mmio (xw_system w))) as [c m] eqn:Em.
  set (w1 := w <| xw_system ::= fun d => d <| ds_mmio := m |> |>) in H.
  assert (Hw1 : good w1) by (unfold good in *; revert Hw; by apply decoder_wf_ext).
  destruct c as [[[decoder count tag data|decoder tag|decoder|decoder k]|]|c].
  - apply mmio_submit_count in Em. revert H. apply keeps_use; [apply keeps_submit; lia | done].
  - revert H. apply keeps_use; [apply keeps_submit; lia | done].
  - revert H. apply keeps_use; [apply keeps_consume | done].
  - revert H. apply keeps_use; [apply keeps_read | done].
  - by injection H as <- <-.
  - by injection H as <- <-.
Qed.
End Bookkeeping.

(** *** One step *)
Lemma decoder_emit_system now epoch k id core target tag w r w' :
  decoder_emit now epoch k id core target tag w = (r, w') -> xw_system w' = xw_system w.
Proof.
  unfold decoder_emit, m_bind, m_gets, m_zoom. destruct (trace_emit _ _). by intros [= _ <-].
Qed.

Lemma mark_requests_spec now epoch rest before w w' :
  requests_ (xw_system w) = before ++ rest -> mark_requests now epoch before rest w = (Ok (), w') ->
  exists l, xw_system w' = xw_system w <| requests_ := l |> /\ map packet_of l = map packet_of (before ++ rest).
Proof.
  revert before w. induction rest as [|p rest IH]; intros before w Hr H; cbn [mark_requests] in H.
  { injection H as <-. exists (before ++ []). rewrite <-Hr. by destruct w as [[] ?]. }
  unfold m_bind at 1 in H. destruct (mark_transmitted _ _ _ p w) as [[[]|c] w1] eqn:E; [|done].
  set (q := if sent p <=? now then p <| transmitted := true |> else p) in *.
  assert (Hw1 : exists q', xw_system w1 = xw_system w <| requests_ := before ++ q' :: rest |> /\
    packet_of q' = packet_of p /\ q' = q).
  { unfold mark_transmitted in E. destruct (negb (transmitted p) && (sent p <=? now)) eqn:Ec.
    - unfold m_bind in E. destruct (decoder_emit _ _ _ _ _ _ _ w) as [[[]|c] w2] eqn:Ee; [|done].
      apply decoder_emit_system in Ee. unfold put_requests, modify_system, m_modify in E. injection E as <-.
      reflect. exists q. unfold q. rewrite (proj2 (Z.leb_le _ _) H1). simpl. by rewrite Ee.
    - injection E as <-. exists p. split_and!; [|done|].
      + rewrite <-Hr. by destruct w as [[] ?].
      + unfold q. destruct (sent p <=? now); [|done]. destruct p as [? ? ? ? ? ? ? ? []]; simpl in *; done. }
  destruct Hw1 as (q' & Hs & Hq & ->). destruct (IH (before ++ [q]) w1) as (l & Hl & Hm).
  - rewrite Hs, <-app_assoc. done.
  - exact H.
  - exists l. rewrite Hl, Hs. split; [done|]. rewrite Hm, <-app_assoc, !map_app. simpl. by rewrite Hq.
Qed.

Lemma filter_sub {A} (p : A -> bool) (P : A -> Prop) l : Forall P l -> Forall P (List.filter p l).
Proof. induction 1; simpl; [done|]. destruct (p x); [by constructor | done]. Qed.

Lemma size_of_filter {A} (p : A -> bool) l : size_of (List.filter p l) <= size_of l.
Proof. induction l as [|x l IH]; simpl; [done|]. destruct (p x); rewrite !size_of_cons; lia. Qed.

Lemma Forall_map_filter {A B} (f : A -> B) (p : A -> bool) (P : B -> Prop) l :
  Forall P (map f l) -> Forall P (map f (List.filter p l)).
Proof. rewrite !List.Forall_map. apply filter_sub. Qed.

(** An arrived reset cancels everything of its session. *)
Lemma decoder_reset_wf last now d p :
  decoder_wf last d -> last <= now -> option_map packet_of (reset_request d) = Some (packet_of p) ->
  decoder_wf now (d <| reset_request := None |>
    <| requests_ ::= List.filter (fun item => negb (cancels_request p item)) |>
    <| jobs_ ::= List.filter (fun item => negb (cancels_job p item)) |>
    <| sessions_ ::= upsert session_new (fun _ => session_new) (rq_core p, rq_decoder p) |>).
Proof.
  intros [H1 H2 H3 H4 H5 H6 [L1 L2 L3 L4 L5]] Hl Hp.
  set (d1 := d <| reset_request := None |> <| requests_ ::= List.filter (fun item => negb (cancels_request p item)) |>
    <| jobs_ ::= List.filter (fun item => negb (cancels_job p item)) |>).
  assert (Hat : forall k, session_at d1 k = session_at d k) by done.
  constructor; try done.
  - simpl. pose proof (size_of_filter (fun item => negb (cancels_request p item)) (requests_ d)). lia.
  - pose proof (reserved_upsert d1 (fun _ => session_new) (rq_core p, rq_decoder p)) as Hr.
    change (holds_result session_new) with false in Hr. cbv iota in Hr. unfold reserved at 1. unfold reserved at 1 in Hr.
    simpl in *. rewrite Hr. change (reserved d1) with (reserved d).
    destruct (holds_result _); lia.
  - simpl. clear -H4. induction (jobs_ d) as [|j l IH]; simpl in *; [constructor|]. inversion H4 as [|? ? Hj Hl]; subst.
    destruct (negb _); [|by apply IH]. simpl. constructor; [|by apply IH]. intros Hin. apply Hj.
    apply list_elem_of_In, in_map_iff in Hin as (x & Hx & Hin). apply filter_In in Hin as [Hin _].
    apply list_elem_of_In, in_map_iff. by exists x.
  - intros k. rewrite session_at_upsert. destruct (decide (k = (rq_core p, rq_decoder p))) as [->|Hne].
    + split; [done|]. intros Hin. exfalso. simpl in Hin. apply list_elem_of_In, in_map_iff in Hin as (j & Hj & Hin).
      apply filter_In in Hin as [Hin Hc]. specialize (L5 _ Hp). rewrite List.Forall_map, Forall_forall in L5.
      specialize (L5 j ltac:(by apply list_elem_of_In) Hj). unfold cancels_job in Hc. simpl in L5.
      injection Hj as Hc1 Hc2. rewrite Hc1, Hc2, !Z.eqb_refl, (proj2 (Z.ltb_lt _ _) L5) in Hc. done.
    + rewrite Hat, H5. simpl. rewrite !list_elem_of_In, !in_map_iff. split; intros (j & Hj & Hin); exists j; (split; [done|]).
      * apply filter_In. split; [done|]. unfold cancels_job. destruct (_ && _ && _) eqn:E; [|done]. reflect.
        exfalso. apply Hne. rewrite <-Hj. unfold job_key. congruence.
      * by apply filter_In in Hin as [Hin _].
  - intros k c Hc. rewrite session_at_upsert. destruct (decide _); [|by apply H6].
    simpl. rewrite size_of_nil. pose proof (find_decoder_ok d _ _ H1 Hc). lia.
  - constructor; simpl; try done; [by apply Forall_map_filter | by apply Forall_map_filter].
Qed.

Lemma mark_reset_spec now epoch p w w' :
  mark_transmitted now epoch (fun q => modify_system (fun d => d <| reset_request := Some q |>)) p w = (Ok (), w') ->
  reset_request (xw_system w) = Some p ->
  exists q, xw_system w' = xw_system w <| reset_request := Some q |> /\ packet_of q = packet_of p.
Proof.
  unfold mark_transmitted. intros H Hr. destruct (_ && _).
  - unfold m_bind in H. destruct (decoder_emit _ _ _ _ _ _ _ w) as [[[]|c] w2] eqn:Ee; [|done].
    apply decoder_emit_system in Ee. injection H as <-. exists (p <| transmitted := true |>). simpl. by rewrite Ee.
  - injection H as <-. exists p. split; [|done]. destruct w as [[] ?]. simpl in *. by rewrite Hr.
Qed.

Lemma advance_transmission_wf last now epoch w w' :
  decoder_wf last (xw_system w) -> last <= now -> advance_transmission now epoch w = (Ok (), w') ->
  decoder_wf now (xw_system w').
Proof.
  intros Hw Hl H. unfold advance_transmission in H. unfold m_bind at 1, m_gets in H.
  unfold m_bind at 1 in H. destruct (mark_requests _ _ _ _ w) as [[[]|c] w1] eqn:E1; [|done].
  destruct (mark_requests_spec now epoch (requests_ (xw_system w)) [] w w1 eq_refl E1) as (l & Hs & Hm).
  assert (Hw1 : decoder_wf last (xw_system w1)) by (rewrite Hs; revert Hw; by apply decoder_wf_ext).
  assert (Hr1 : reset_request (xw_system w1) = reset_request (xw_system w)) by (by rewrite Hs).
  assert (Hlater : forall d, decoder_wf last d -> (forall p, option_map packet_of (reset_request d) = Some p -> now < pk_arrival p) ->
    decoder_wf now d).
  { intros d [? ? ? ? ? ? Hlk] Hp. constructor; try done. eapply link_wf_later; [exact Hl | | exact Hp | exact Hlk]. lia. }
  destruct (reset_request (xw_system w)) as [p|].
  2: { injection H as <-. apply Hlater; [done|]. by rewrite Hr1. }
  unfold m_bind at 1 in H. destruct (mark_transmitted _ _ _ p w1) as [[[]|c] w2] eqn:E2; [|done].
  destruct (mark_reset_spec _ _ _ _ _ E2 Hr1) as (q & Hs2 & Hq).
  assert (Hw2 : decoder_wf last (xw_system w2)).
  { rewrite Hs2. revert Hw1. apply decoder_wf_ext; try done. simpl. by rewrite Hq, Hr1. }
  destruct (Z.leb_spec (rq_arrival p) now).
  - unfold perform_reset, modify_session, modify_system, m_modify in H. unfold m_bind at 1 2 in H.
    apply decoder_emit_system in H. rewrite H. apply (decoder_reset_wf last now (xw_system w2) p); [done..|].
    rewrite Hs2. simpl. by rewrite Hq.
  - injection H as <-. apply Hlater; [done|]. rewrite Hs2. simpl. intros ? [= <-]. by rewrite Hq.
Qed.

(** A returned result ends its job and keeps its session reserved. *)
Lemma return_wf last d before rest j v :
  decoder_wf last d -> jobs_ d = before ++ j :: rest ->
  decoder_wf last (d <| jobs_ := before ++ rest |>
    <| sessions_ ::= upsert session_new (fun s => s <| ss_result := Some (v s) |> <| submitted := false |>) (job_key j) |>).
Proof.
  intros [H1 H2 H3 H4 H5 H6 H7] Hj. set (d1 := d <| jobs_ := before ++ rest |>).
  rewrite Hj, map_app in H4. cbn [map] in H4. rewrite <-Permutation_middle in H4.
  inversion H4 as [|? ? Hout Hnd]; subst. rewrite <-map_app in Hout, Hnd.
  assert (Hs : submitted (session_at d (job_key j)) = true).
  { apply H5. rewrite Hj, map_app. apply elem_of_app. right. by left. }
  constructor; try done.
  - pose proof (reserved_upsert d1 (fun s => s <| ss_result := Some (v s) |> <| submitted := false |>) (job_key j)) as Hr.
    change (session_at d1 (job_key j)) with (session_at d (job_key j)) in Hr.
    unfold holds_result in Hr. rewrite Hs, orb_true_r in Hr. unfold reserved at 1 in Hr. unfold reserved at 1. simpl in *.
    rewrite Hr. change (reserved d1) with (reserved d). lia.
  - intros k. rewrite session_at_upsert. change (session_at d1) with (session_at d). simpl.
    destruct (decide (k = job_key j)) as [->|Hne]; [done|]. rewrite H5, Hj, !map_app, !elem_of_app. simpl.
    rewrite elem_of_cons. naive_solver.
  - intros k c Hc. rewrite session_at_upsert. change (session_at d1) with (session_at d).
    destruct (decide (k = job_key j)) as [->|Hne]; simpl; by apply H6.
  - destruct H7 as [L1 L2 L3 L4 L5]. rewrite Hj, map_app in L4, L5. simpl in L4, L5. constructor; try done; simpl.
    + rewrite map_app. rewrite Forall_app in *. destruct L4 as [? L4]. inversion L4. done.
    + intros p Hp. specialize (L5 p Hp). rewrite map_app. rewrite Forall_app in *. destruct L5 as [? L5]. by inversion L5.
Qed.

Lemma job_emit_system now epoch k j w r w' : job_emit now epoch k j w = (r, w') -> xw_system w' = xw_system w.
Proof. apply decoder_emit_system. Qed.

(** Reporting progress of a job replaces it by one with the same identity. *)
Lemma job_progress_wf last now epoch (b : bool) k before rest j j' w w' :
  decoder_wf last (xw_system w) -> jobs_ (xw_system w) = before ++ j :: rest ->
  (if b then do! job_emit now epoch k j in put_jobs (before ++ j' :: rest) else m_ret ()) w = (Ok (), w') ->
  job_of j' = job_of j ->
  let x := if b then j' else j in
  decoder_wf last (xw_system w') /\ jobs_ (xw_system w') = before ++ x :: rest /\ job_of x = job_of j.
Proof.
  intros Hw Hj H Hv x. subst x. destruct b; [|by injection H as <-].
  unfold m_bind in H. destruct (job_emit _ _ _ _ w) as [[[]|c] w1] eqn:E; [|done]. apply job_emit_system in E.
  injection H as <-. simpl. rewrite E. split_and!; [|done..]. revert Hw. apply decoder_wf_ext; try done.
  simpl. rewrite Hj, !map_app. simpl. by rewrite Hv.
Qed.

Lemma advance_from_wf last now epoch rest before w w' :
  decoder_wf last (xw_system w) -> jobs_ (xw_system w) = before ++ rest ->
  advance_from now epoch before rest w = (Ok (), w') -> decoder_wf last (xw_system w').
Proof.
  revert before w. induction rest as [|j rest IH]; intros before w Hw Hj H; cbn [advance_from] in H; [by injection H as <-|].
  set (b1 := negb (started j) && (jb_start j <=? now)) in H.
  set (j1 := if b1 then j <| started := true |> else j) in H.
  set (b2 := negb (completed j1) && (jb_completion j1 <=? now)) in H.
  set (j2 := if b2 then j1 <| completed := true |> else j1) in H.
  apply m_bind_ok in H as ([] & w1 & E1 & H). apply m_bind_ok in H as ([] & w2 & E2 & H).
  destruct (job_progress_wf last now epoch b1 Started before rest j _ _ _ Hw Hj E1 eq_refl) as (Hw1 & Hj1 & _).
  fold j1 in Hj1.
  destruct (job_progress_wf last now epoch b2 Completed before rest j1 _ _ _ Hw1 Hj1 E2 eq_refl)
    as (Hw2 & Hj2 & _).
  fold j2 in Hj2.
  destruct (match jb_arrival j2 with Some t => t <=? now | None => false end).
  - unfold m_bind at 1 in H. destruct (return_result now epoch j2 w2) as [[[]|c] w3] eqn:E3; [|done].
    unfold return_result, m_bind at 1, m_gets in E3.
    destruct (sessions_ (xw_system w2) !! (jb_core j2, jb_decoder j2)) as [s|] eqn:Es; [|done].
    unfold m_bind at 1, modify_session, modify_system, m_modify in E3. apply job_emit_system in E3.
    unfold m_bind at 1, put_jobs, modify_system, m_modify in H. revert H. apply IH; [|done].
    simpl. rewrite E3. simpl. change (jb_core j2, jb_decoder j2) with (job_key j2).
    apply (return_wf last (xw_system w2) before rest j2 (fun s => default 0 (ss_result s) .^ jb_result j2)); done.
  - revert H. apply IH; [done|]. by rewrite <-app_assoc.
Qed.

(** A new job for a session that waits for none. *)
Lemma start_wf last d p jb avail :
  decoder_wf last d -> submitted (session_at d (rq_core p, rq_decoder p)) = false ->
  (some_result (session_at d (rq_core p, rq_decoder p)) = false -> reserved d < ds_result_capacity (ds_config d)) ->
  rq_id p < ds_next d -> (forall q, reset_request d = Some q -> rq_id p < rq_id q) ->
  job_of jb = (rq_id p, (rq_core p, rq_decoder p)) ->
  decoder_wf last (d <| available_ := avail |> <| jobs_ ::= fun l => l ++ [jb] |>
    <| sessions_ ::= upsert session_new (fun s => s <| submitted := true |> <| ss_measurements := [] |>)
         (rq_core p, rq_decoder p) |>).
Proof.
  intros [H1 H2 H3 H4 H5 H6 H7] Hs Hc Hid Hq Hjb. set (key := (rq_core p, rq_decoder p)) in *.
  set (d1 := d <| available_ := avail |> <| jobs_ ::= fun l => l ++ [jb] |>).
  assert (Hkey : job_key jb = key) by exact (f_equal snd Hjb). constructor; try done.
  - pose proof (reserved_upsert d1 (fun s => s <| submitted := true |> <| ss_measurements := [] |>) key) as Hr.
    change (session_at d1 key) with (session_at d key) in Hr. unfold holds_result in Hr. rewrite Hs in Hr.
    unfold reserved at 1 in Hr. unfold reserved at 1. simpl in *. rewrite Hr. change (reserved d1) with (reserved d).
    rewrite orb_true_r, orb_false_r. destruct (some_result _); [lia|]. specialize (Hc eq_refl). lia.
  - simpl. rewrite map_app. apply NoDup_app. split_and!; [done | | apply NoDup_singleton].
    intros k Hk [->|[]%elem_of_nil]%elem_of_cons. rewrite Hkey in Hk. apply H5 in Hk. congruence.
  - intros k. rewrite session_at_upsert. change (session_at d1) with (session_at d). simpl.
    rewrite map_app, elem_of_app. simpl. rewrite list_elem_of_singleton, Hkey.
    destruct (decide (k = key)) as [->|Hne]; [naive_solver|]. rewrite H5. naive_solver.
  - intros k c Hk. rewrite session_at_upsert. change (session_at d1) with (session_at d).
    destruct (decide (k = key)) as [->|Hne]; [|by apply H6]. simpl. rewrite size_of_nil.
    pose proof (find_decoder_ok d _ _ H1 Hk). lia.
  - destruct H7 as [L1 L2 L3 L4 L5]. constructor; try done; simpl; rewrite map_app; simpl.
    + apply Forall_app. split; [done|]. rewrite Hjb. by repeat constructor.
    + intros q Hq'. apply Forall_app. split; [by apply L5|]. constructor; [|constructor]. rewrite Hjb. simpl. intros _.
      destruct (reset_request d) as [x|]; [|done]. injection Hq' as <-. simpl. by apply Hq.
Qed.

Lemma size_of_packet_bits p : 0 <= rq_count p -> size_of (packet_bits p) = rq_count p.
Proof.
  intros H. unfold packet_bits. rewrite size_of_map. unfold upto, size_of. rewrite length_map, length_seq. lia.
Qed.

Lemma start_job_wf last p c now w w' :
  let d := xw_system w in
  decoder_wf last d -> submitted (session_at d (rq_core p, rq_decoder p)) = false ->
  (some_result (session_at d (rq_core p, rq_decoder p)) = false -> reserved d < ds_result_capacity (ds_config d)) ->
  rq_id p < ds_next d -> (forall q, reset_request d = Some q -> rq_id p < rq_id q) ->
  start_job p c now w = (Ok (), w') ->
  decoder_wf last (xw_system w') /\ requests_ (xw_system w') = requests_ d /\
  reset_request (xw_system w') = reset_request d /\ ds_next (xw_system w') = ds_next d.
Proof.
  intros d Hw Hs Hc Hid Hq H. unfold start_job in H. unfold m_bind at 1, m_gets in H.
  apply m_bind_lift_ok in H as (bits & _ & H). apply m_bind_lift_ok in H as ([] & _ & H).
  apply m_bind_lift_ok in H as (soonest & _ & H). cbv zeta in H. apply m_bind_lift_ok in H as (free & _ & H).
  unfold m_bind at 1, modify_system at 1, m_modify at 1 in H. apply m_bind_lift_ok in H as (stop & _ & H).
  unfold m_bind, modify_session, modify_system, m_modify in H. injection H as <-. split; [|done].
  simpl. apply (start_wf last d p _ _ Hw Hs Hc Hid Hq). done.
Qed.

Lemma admit_request_wf last now epoch p rest w b w' :
  decoder_wf last (xw_system w) -> now <= last -> requests_ (xw_system w) = p :: rest -> rq_arrival p <= now ->
  admit_request p now epoch w = (Ok b, w') ->
  decoder_wf last (xw_system w') /\ requests_ (xw_system w') = p :: rest.
Proof.
  intros Hw Hnow Hr Harr H. unfold admit_request in H. cbv zeta in H. set (key := (rq_core p, rq_decoder p)) in H.
  unfold m_bind at 1, m_gets at 1 in H. apply m_bind_lift_ok in H as (c & Hc & H).
  apply m_bind_ok in H as ([] & w1 & Et & H).
  assert (Hw1 : xw_system w1 = xw_system w <| sessions_ ::= upsert session_new (fun s => s) key |>) by (by injection Et as <-).
  apply m_bind_ok in H as (d1 & ? & Eg & H). apply m_gets_ok in Eg as [Eg ->].
  assert (Ht : decoder_wf last d1) by (rewrite Eg, Hw1; by apply touch_wf).
  assert (Hd1 : requests_ d1 = p :: rest /\ ds_next d1 = ds_next (xw_system w) /\
    reset_request d1 = reset_request (xw_system w) /\ ds_config d1 = ds_config (xw_system w)) by (by rewrite Eg, Hw1).
  destruct Hd1 as (Hr1 & Hn1 & Hre1 & Hc1). clear Hw1 Et.
  destruct (submitted (session_at d1 key)) eqn:Es; [apply m_ret_ok in H as [_ ->]; by rewrite <-Eg|].
  apply m_bind_lift_ok in H as ([] & Htot & H). apply require_ok in Htot. apply Z.leb_le in Htot.
  destruct (_ && _ && _) eqn:Efull; [apply m_ret_ok in H as [_ ->]; by rewrite <-Eg|].
  apply m_bind_ok in H as ([] & w1' & Ep & H).
  assert (Hp : xw_system w1' = d1 <| sessions_ ::= upsert session_new
    (fun s => s <| ss_measurements ::= fun l => l ++ packet_bits p |>) key |>) by (rewrite Eg; by injection Ep as <-).
  apply m_bind_ok in H as ([] & w2 & Ee & H). apply decoder_emit_system in Ee. rewrite Hp in Ee. clear Hp Ep w1'.
  pose proof (wd_link _ _ Hw) as [L1 L2 L3 _ _]. rewrite Hr in L1, L3. cbn [map] in L1, L3.
  pose proof (Forall_inv L1) as (Hid & _ & Hcount). simpl in Hid, Hcount.
  assert (Hfind : find_decoder d1 (snd key) = Ok c) by (unfold find_decoder in *; by rewrite Hc1).
  assert (Hpush : decoder_wf last (d1 <| sessions_ ::= upsert session_new
    (fun s => s <| ss_measurements ::= fun l => l ++ packet_bits p |>) key |>)).
  { apply session_wf; [done..|]. intros c' Hc'. simpl. rewrite size_of_app, size_of_packet_bits by done.
    replace c' with c by congruence. done. }
  apply m_bind_ok in H as (d2 & ? & Eg2 & H). apply m_gets_ok in Eg2 as [Eg2 ->]. rewrite Ee in Eg2.
  assert (Hat : session_at d2 key = (session_at d1 key) <| ss_measurements ::= fun l => l ++ packet_bits p |>).
  { rewrite Eg2, session_at_upsert. by rewrite decide_True. }
  assert (Hw2 : xw_system w2 = d2 /\ ds_next d2 = ds_next d1 /\ reset_request d2 = reset_request d1 /\
    ds_config d2 = ds_config d1 /\ requests_ d2 = requests_ d1 /\ reserved d2 = reserved d1).
  { split; [congruence|]. rewrite Eg2. split_and!; try done. rewrite reserved_upsert.
    change (holds_result (_ <| ss_measurements ::= _ |>)) with (holds_result (session_at d1 key)). lia. }
  destruct Hw2 as (Hw2 & Hn2 & Hre2 & Hc2 & Hr2 & Hres2). rewrite <-Eg2 in Hpush.
  apply m_bind_ok in H as ([] & w3 & E3 & H). apply m_ret_ok in H as [_ ->].
  rewrite Hat in E3. cbn [ss_measurements update] in E3. rewrite size_of_app, size_of_packet_bits in E3 by done.
  destruct (Z.eqb_spec (size_of (ss_measurements (session_at d1 key)) + rq_count p) (dc_measurements c)) as [Hfull|].
  2: { injection E3 as <-. rewrite Hw2, Hr2. done. }
  destruct (start_job_wf last p c now w2 w3) as (Hw3 & Hr3 & _); fold key; rewrite ?Hw2, ?Hat, ?Hres2, ?Hc2, ?Hn2, ?Hre2; try done.
  - intros Hno. change (some_result _) with (some_result (session_at d1 key)) in Hno.
    rewrite Hno in Efull. simpl in Efull. by apply Z.leb_gt in Efull.
  - by rewrite Hn1.
  - rewrite Hre1. intros q Hq. rewrite Hq in L2, L3. simpl in L2, L3.
    specialize (L2 _ eq_refl). specialize (L3 _ eq_refl). pose proof (Forall_inv L3) as Hor. simpl in Hor, L2. lia.
  - split; [done|]. by rewrite Hr3, Hw2, Hr2.
Qed.

Lemma admit_from_wf last now epoch rest w w' :
  decoder_wf last (xw_system w) -> now <= last -> requests_ (xw_system w) = rest ->
  admit_from now epoch rest w = (Ok (), w') -> decoder_wf last (xw_system w').
Proof.
  intros Hw Hnow. revert w Hw. induction rest as [|p rest IH]; intros w Hw Hr H; cbn [admit_from] in H; [by injection H as <-|].
  destruct (Z.leb_spec (rq_arrival p) now); [|by injection H as <-].
  apply m_bind_ok in H as (b & w1 & E1 & H).
  destruct (admit_request_wf last now epoch p rest w b w1 Hw Hnow Hr ltac:(done) E1) as [Hw1 Hr1].
  destruct b; [|by injection H as <-]. unfold m_bind at 1, put_requests, modify_system, m_modify in H.
  revert H. apply IH; [|done]. simpl. destruct Hw1 as [H1 H2 H3 H4 H5 H6 [L1 L2 L3 L4 L5]]. rewrite Hr1 in *.
  cbn [map] in *. constructor; try done; simpl.
  - rewrite size_of_cons in H2. lia.
  - constructor; try done; simpl.
    + by inversion L1.
    + intros q Hq. specialize (L3 q Hq). by inversion L3.
Qed.

Lemma transmit_result_wf last now w r w' :
  decoder_wf last (xw_system w) -> transmit_result now w = (r, w') -> decoder_wf last (xw_system w').
Proof.
  intros Hw H. unfold transmit_result, m_bind, m_gets, m_lift, m_ret, modify_system, m_modify in H.
  destruct (_ <=? _); [|by injection H as <- <-]. destruct (ready_job _) as [[i j]|]; [|by injection H as <- <-].
  destruct (find_decoder _ _); [|by injection H as <- <-]. destruct (packet_ticks _ _); [|by injection H as <- <-].
  destruct (checked_add now _); [|by injection H as <- <-]. destruct (checked_add _ _); [|by injection H as <- <-].
  injection H as <- <-. simpl. revert Hw. apply decoder_wf_ext; try done. simpl.
  generalize (jobs_ (xw_system w)). clear. intros l. revert i. induction l as [|x l IH]; intros [|i]; simpl; try done.
  f_equal. apply IH.
Qed.

Lemma decoder_step_wf last now epoch w w' :
  decoder_wf last (xw_system w) -> last <= now -> decoder_step now epoch w = (Ok (), w') ->
  decoder_wf now (xw_system w').
Proof.
  intros Hw Hl H. unfold decoder_step in H. apply m_bind_ok in H as ([] & w1 & E1 & H).
  pose proof (advance_transmission_wf _ _ _ _ _ Hw Hl E1) as Hw1.
  apply m_bind_ok in H as ([] & w2 & E2 & H). unfold advance_jobs, m_bind, m_gets in E2.
  pose proof (advance_from_wf now now epoch _ [] _ _ Hw1 eq_refl E2) as Hw2.
  apply m_bind_ok in H as ([] & w3 & E3 & H). unfold admit_requests, m_bind, m_gets in E3.
  pose proof (admit_from_wf now now epoch _ _ _ Hw2 ltac:(lia) eq_refl E3) as Hw3.
  by eapply transmit_result_wf.
Qed.

(** *** Reachable states *)

(** What happens to the system, with the tick of the last step. *)
Inductive decoder_reachable (c : DecoderSystemConfig) : Tick -> DecoderSystem -> Prop :=
| reach_new d : decoders_new c = Ok d -> decoder_reachable c 0 d
| reach_access last core request now epoch w :
    decoder_reachable c last (xw_system w) -> last <= now ->
    decoder_reachable c last (xw_system (snd (decoder_access core request now epoch w)))
| reach_step last now epoch w :
    decoder_reachable c last (xw_system w) -> last <= now -> fst (decoder_step now epoch w) = Ok () ->
    decoder_reachable c now (xw_system (snd (decoder_step now epoch w)))
| reach_reset last d : decoder_reachable c last d -> decoder_reachable c last (decoder_reset d).

Lemma empty_wf last d :
  config_ok (ds_config d) -> 0 <= request_capacity (ds_config d) -> 0 <= ds_result_capacity (ds_config d) ->
  sessions_ d = ∅ -> requests_ d = [] -> reset_request d = None -> jobs_ d = [] -> decoder_wf last d.
Proof.
  intros H1 H2 H3 Hs Hr Hre Hj.
  assert (Hat : forall key, session_at d key = session_new) by (intros; unfold session_at; by rewrite Hs, lookup_empty).
  constructor; try done; rewrite ?Hr, ?Hj, ?Hre.
  - by rewrite size_of_nil.
  - unfold reserved. rewrite Hs. done.
  - constructor.
  - intros key. rewrite Hat. split; [done | by intros ?%elem_of_nil].
  - intros key c Hc. rewrite Hat. simpl. rewrite size_of_nil. pose proof (find_decoder_ok d _ _ H1 Hc). lia.
  - constructor; try done; constructor.
Qed.

Lemma decoders_new_wf c d : decoders_new c = Ok d -> decoder_wf 0 d /\ ds_config d = c.
Proof.
  intros H. unfold decoders_new in H. apply result_bind_ok in H as (m & _ & H).
  apply result_bind_ok in H as ([] & H1 & H). apply result_bind_ok in H as (ids & H2 & H). apply Ok_inj in H as <-.
  apply require_ok in H1. reflect. split; [|done]. apply empty_wf; try done; simpl; try lia. constructor; [done|].
  refine (result_fold_prefix (fun seen _ => Forall (fun d => 0 < dc_measurements d) seen) _ _ [] _ _ _ _ H2); [constructor|].
  intros seen x ids1 ids2 _ IH Hx. apply result_bind_ok in Hx as ([] & Hx & _). apply require_ok in Hx. reflect.
  apply Forall_app. split; [done|]. by constructor.
Qed.

Lemma reachable_config c last d : decoder_reachable c last d -> decoder_wf last d.
Proof.
  induction 1 as [d H|last core request now epoch w H IH Hl|last now epoch w H IH Hl Hok|last d H IH].
  - exact (proj1 (decoders_new_wf c d H)).
  - eapply (keeps_access last now epoch core request Hl w); [exact IH | apply surjective_pairing].
  - apply (decoder_step_wf last now epoch w); [done..|]. rewrite <-Hok. apply surjective_pairing.
  - destruct IH as [H1 H2 H3 H4 H5 H6 H7]. apply empty_wf; try done.
    + simpl. pose proof (size_of_nonneg (requests_ d)). lia.
    + simpl. unfold reserved, count_map in H3. pose proof (count_if_nonneg (fun entry : _ * Session => holds_result (snd entry)) (map_to_list (sessions_ d))). lia.
Qed.

(** C40. The decoder system's books are consistent.  In every state reached from a valid configuration by
    register accesses of any core (refused ones included), steps at any non-decreasing ticks and
    resets: at most the configured number of requests are queued and of results reserved; every job
    in progress belongs to a session that waits for a result, so that the result finds it; and every
    waiting session has exactly one job. *)
Theorem decoder_consistent (c : DecoderSystemConfig) (last : Tick) (d : DecoderSystem) :
  decoder_reachable c last d ->
  size_of (requests_ d) <= request_capacity (ds_config d) /\
  reserved d <= ds_result_capacity (ds_config d) /\
  NoDup (map job_key (jobs_ d)) /\
  (forall j, j ∈ jobs_ d -> exists s, sessions_ d !! job_key j = Some s /\ submitted s = true) /\
  (forall key s, sessions_ d !! key = Some s -> submitted s = true -> exists j, j ∈ jobs_ d /\ job_key j = key).
Proof.
  intros H. destruct (reachable_config _ _ _ H) as [_ H2 H3 H4 H5 _ _]. split_and!; try done.
  - intros j Hj. assert (Hs : submitted (session_at d (job_key j)) = true).
    { apply H5. by apply list_elem_of_In, in_map, list_elem_of_In. }
    unfold session_at in Hs. destruct (sessions_ d !! job_key j) as [s|]; [by exists s | done].
  - intros key s Hk Hs. assert (Hin : key ∈ map job_key (jobs_ d)) by (apply H5; unfold session_at; by rewrite Hk).
    apply list_elem_of_In, in_map_iff in Hin as (j & Hj & Hin). exists j. by rewrite list_elem_of_In.
Qed.

(** ** Example: a two-bit parity decoder *)
Definition parity (l : list Z) : result (list bool) := Ok [negb (fold_left Z.lxor l 0 =? 0)].
Definition example_decoder : DecoderSystemConfig :=
  mkDecoderSystemConfig 0x40000000 2 1 1 4 4 [mkDecoderConfig 3 2 1 5 1 (Some parity)].
Definition example_decoder_new : DecoderSystem :=
  match decoders_new example_decoder with
  | Ok d => d
  | Fault _ => mkDecoderSystem example_decoder example_mmio ∅ ∅ [] None [] 0 0 1
  end.

(** Core 1 submits the bits 1 and 0; the job runs when they have arrived. *)
Definition example_writes : list MemoryRequest :=
  [example_write registers.Select 3; example_write registers.Count 2; example_write registers.DataLow 1;
   example_write registers.Command registers.Submit].
Definition example_submitted : DecoderWorld :=
  fold_left (fun w r => snd (decoder_access 1 r 10 1 w)) example_writes (mkDecoderWorld example_decoder_new trace_new).
Definition example_decoding : DecoderWorld := snd (decoder_step 20 1 example_submitted).

Lemma example_decoding_reachable : decoder_reachable example_decoder 20 (xw_system example_decoding).
Proof.
  assert (Hs : decoder_reachable example_decoder 0 (xw_system example_submitted)).
  { unfold example_submitted. assert (H0 : decoder_reachable example_decoder 0 (xw_system (mkDecoderWorld example_decoder_new trace_new))).
    { apply reach_new. vm_compute. reflexivity. }
    revert H0. generalize (mkDecoderWorld example_decoder_new trace_new).
    induction example_writes as [|r l IH]; intros w Hw; [done|]. cbn [fold_left]. apply IH.
    apply reach_access; [done | lia]. }
  apply (reach_step _ 0); [done | lia | vm_compute; reflexivity].
Qed.

Lemma decoder_consistent_witness :
  exists j, jobs_ (xw_system example_decoding) = [j] /\ jb_result j = 1 /\
    exists s, sessions_ (xw_system example_decoding) !! (1, 3) = Some s /\ submitted s = true.
Proof.
  destruct (decoder_consistent example_decoder 20 (xw_system example_decoding) example_decoding_reachable)
    as (_ & _ & _ & Hj & _).
  assert (E : exists j, jobs_ (xw_system example_decoding) = [j] /\ jb_result j = 1 /\ job_key j = (1, 3))
    by (eexists; split_and!; vm_compute; reflexivity).
  destruct E as (j & E & Er & Ek). exists j. split; [exact E|]. split; [exact Er|].
  rewrite <-Ek. apply Hj. rewrite E. left.
Defined.
