(* ===== verification/Core.v ===== *)
(** * A controller core (src/core.cpp, include/qsbit/core.hpp)

    A core composes a CPU, its memory, timing control, the measurement registers, a timing control
    unit and a synchronization unit; mailboxes connect them.  Its three clocked processes are
    [cpu_edge], [memory_edge] and [tcu_edge].  The CPU a factory makes is one of the two models of the
    repository.  The synchronization network and the simulator's trace are shared by all cores and
    part of the state the processes work on; the device behind the memory is a parameter. *)

From S2P Require Import Prelude Error Time Event Trace Mailbox Isa ControlCommand Image Memory Feedback.
From S2P Require Import Profile Protocol TimingControl Tcu Sync Pipeline.

Record Core := mkCore {
  core_id : Z; co_profile : Profile; co_identity : option Z; co_sync : option Booking;
  co_registers : MeasurementRegisters; co_control : TimingControl; co_links : ControlLinks;
  fetch_port : MemoryPort; data_port : MemoryPort; co_memory : MemoryModel; co_cpu : InOrderPipeline;
  co_tcu : TcuCycleModel }.
#[global] Instance eta_Core : Eta Core := fun c =>
  mkCore (core_id c) (co_profile c) (co_identity c) (co_sync c) (co_registers c) (co_control c)
    (co_links c) (fetch_port c) (data_port c) (co_memory c) (co_cpu c) (co_tcu c).

Definition CpuFactory : Type := Clock -> Z -> option InOrderPipeline.

Record CoreConfig := mkCoreConfig {
  cc_id : Z; cc_profile : Profile; cc_image : ProgramImage; cc_factory : option CpuFactory;
  cc_sync_capacity : Z }.

Definition make_cpu (factory : option CpuFactory) (clk : Clock) (entry : Z) : option InOrderPipeline :=
  match factory with Some f => f clk entry | None => Some (cpu_cycle_model clk entry) end.

Section New.
Context (show_double : double -> string).

(** The members are built in declaration order before the profile is validated. *)
Definition core_new (config : CoreConfig) (identify : bool) : result Core :=
  let p := cc_profile config in
  let? timing := timing_config show_double p in
  let? links := links_new (transport_config p) in
  let? fetch := port_new (cpu_clock p) in
  let? data := port_new (cpu_clock p) in
  let? mem := memory_new (cc_image config) (cpu_clock p) (memory_latency p) in
  let cpu := make_cpu (cc_factory config) (cpu_clock p) (entry (cc_image config)) in
  let? config' := tcu_config show_double p in
  let? tcu := tcu_new config' (cc_sync_capacity config) in
  do? profile_validate p in
  match cpu with
  | None => Fault InvalidProfile
  | Some cpu =>
      Ok (mkCore (cc_id config) p (if identify then Some (cc_id config) else None) None
            (registers_new (mkFeedbackConfig (qubits p) (p_result_capacity p) (p_fast_feedback p)))
            (control_new timing) links fetch data mem cpu tcu)
  end.
End New.

(** What a core's processes work on. *)
Record CoreWorld := mkCoreWorld { kw_core : Core; kw_network : SyncNetwork; kw_trace : Trace }.
#[global] Instance eta_CoreWorld : Eta CoreWorld :=
  fun w => mkCoreWorld (kw_core w) (kw_network w) (kw_trace w).

(** A core's [trace_] forwards to the simulator's and stamps the core's number. *)
Definition identified {A} (m : M CoreWorld A) : M CoreWorld A := fun w =>
  let '(r, w') := m (w <| kw_trace ::= trace_for (co_identity (kw_core w)) |>) in
  (r, w' <| kw_trace ::= trace_root |>).

Definition modify_core (f : Core -> Core) : M CoreWorld unit := m_modify (fun w => w <| kw_core ::= f |>).
Definition on_links {A} (m : M ControlLinks A) : M CoreWorld A :=
  m_zoom (fun w => co_links (kw_core w)) (fun l w => w <| kw_core ::= fun c => c <| co_links := l |> |>) m.
Definition core_emit (e : TraceEvent) : M CoreWorld unit := on kw_trace (trace_emit e).

(** ** [cpu_edge] *)
Definition control_view (w : CoreWorld) : ControlWorld :=
  mkControlWorld (co_control (kw_core w)) (co_registers (kw_core w)) (co_links (kw_core w)) (kw_trace w).
Definition set_control_view (v : ControlWorld) (w : CoreWorld) : CoreWorld :=
  mkCoreWorld (kw_core w <| co_control := cw_control v |> <| co_registers := cw_registers v |>
                 <| co_links := cw_links v |>) (kw_network w) (cw_trace v).

(** The state behind the CPU's control port, apart from the trace. *)
Definition ControlState : Type := TimingControl * MeasurementRegisters * ControlLinks.
Definition cpu_view (w : CoreWorld) : PipelineWorld ControlState :=
  let c := kw_core w in
  mkPipelineWorld (co_cpu c) (fetch_port c) (data_port c) (kw_trace w)
    (co_control c, co_registers c, co_links c).
Definition set_cpu_view (v : PipelineWorld ControlState) (w : CoreWorld) : CoreWorld :=
  let '(control, registers, links) := pw_env v in
  mkCoreWorld (kw_core w <| co_control := control |> <| co_registers := registers |>
                 <| co_links := links |> <| fetch_port := pw_fetch v |> <| data_port := pw_data v |>
                 <| co_cpu := pw_cpu v |>) (kw_network w) (pw_trace v).

(** [CpuPorts::control]. *)
Definition control_port (validate : EventSpec -> result unit) (validate_sync : Z -> result unit)
    (now : Tick) (epoch : Epoch) (operation : ControlOperation) : M (Trace * ControlState) (option Z) :=
  m_zoom (fun s => let '(t, (control, registers, links)) := s in mkControlWorld control registers links t)
         (fun v _ => (cw_trace v, (cw_control v, cw_registers v, cw_links v)))
         (control_execute validate (Some validate_sync) operation now epoch).

Definition cpu_edge (validate : EventSpec -> result unit) (now : Tick) (epoch : Epoch) : M CoreWorld unit :=
  identified
    (do! m_zoom control_view set_control_view (control_receive now epoch) in
     let! w := m_get in
     let validate_sync := sync_validate (core_id (kw_core w)) (kw_network w) in
     m_zoom cpu_view set_cpu_view (pipeline_step (control_port validate validate_sync now epoch) now epoch)).

(** ** [memory_edge] *)
Section Memory.
Context {D : Type}.
Context (device_contains : Z -> bool) (device_access : MemoryRequest -> Tick -> Epoch -> M D (option Z)).

Definition memory_view (s : Core * D) : MemoryWorld D :=
  mkWorld (co_memory (fst s)) (fetch_port (fst s)) (data_port (fst s)) (snd s).
Definition set_memory_view (v : MemoryWorld D) (s : Core * D) : Core * D :=
  (fst s <| co_memory := mw_model v |> <| fetch_port := mw_fetch v |> <| data_port := mw_data v |>,
   mw_device v).

(** It records nothing itself: a device that does has the trace in its own state. *)
Definition memory_edge (now : Tick) (epoch : Epoch) : M (Core * D) unit :=
  m_zoom memory_view set_memory_view (memory_step device_contains device_access now epoch).
End Memory.

(** ** [tcu_edge] *)
Definition sync_view (w : CoreWorld) : SyncWorld := mkSyncWorld (co_sync (kw_core w)) (kw_network w) (kw_trace w).
Definition set_sync_view (v : SyncWorld) (w : CoreWorld) : CoreWorld :=
  mkCoreWorld (kw_core w <| co_sync := sw_pending v |>) (sw_network v) (sw_trace v).
Definition on_sync {A} (m : M SyncWorld A) : M CoreWorld A := m_zoom sync_view set_sync_view m.

(** The TCU's callbacks work on the synchronization unit and the network. *)
Definition SyncState : Type := option Booking * SyncNetwork.
Definition tcu_view (w : CoreWorld) : TcuWorld SyncState :=
  mkTcuWorld (co_tcu (kw_core w)) (kw_trace w) (co_sync (kw_core w), kw_network w).
Definition set_tcu_view (v : TcuWorld SyncState) (w : CoreWorld) : CoreWorld :=
  mkCoreWorld (kw_core w <| co_tcu := tw_tcu v |> <| co_sync := fst (tw_env v) |>) (snd (tw_env v)) (tw_trace v).

(** [sync_.preflight] records nothing, so that it needs no trace. *)
Definition sync_check (core : Z) (now : Tick) (targets : list Z) : M SyncState unit :=
  m_zoom (fun s => mkSyncWorld (fst s) (snd s) trace_new) (fun v _ => (sw_pending v, sw_network v))
         (sync_preflight core targets now).

(** The loop that collects the fast results of the session. *)
Definition take_result (now : Tick) (epoch : Epoch) (e : Envelope Completion)
    : M (CoreWorld * list Completion) unit :=
  if env_epoch e =? epoch then m_modify (fun s => (fst s, snd s ++ [value e]))
  else m_zoom fst (fun w s => (w, snd s)) (core_emit (trace_event now epoch "StaleCompletionDiscarded" 0 0 0)).

Definition take_results (now : Tick) (epoch : Epoch) : M CoreWorld (list Completion) := fun w =>
  let '(r, (w', results)) :=
    take_loop (fun s => fast_results (co_links (kw_core (fst s))))
      (fun b s => (fst s <| kw_core ::= fun c => c <| co_links ::= fun l => l <| fast_results := b |> |> |>, snd s))
      (take_result now epoch) now (w, []) in
  (match r with Ok _ => Ok results | Fault e => Fault e end, w').

(** The admitted request is taken and answered; [accepted] is the message [peek] returned. *)
Definition reply_admitted (now : Tick) (epoch : Epoch) : M CoreWorld unit :=
  let! accepted := on_links (on timing_events (mailbox_take now)) in
  match accepted with
  | Some a => on_links (on replies (mailbox_publish now epoch (mkReply (tp_label (te_point (value a))))))
  | None => m_ret ()
  end.

Definition receive_closure (now : Tick) (epoch : Epoch) : M CoreWorld unit :=
  let! message := on_links (on closure (mailbox_take now)) in
  match message with
  | None => m_ret ()
  | Some message =>
      do! m_lift (require (env_epoch message =? epoch) Protocol) in
      do! m_zoom (fun w => co_tcu (kw_core w)) (fun t w => w <| kw_core ::= fun c => c <| co_tcu := t |> |>)
            (tcu_close (value message)) in
      core_emit (trace_event now epoch "EndOfStreamVisible" 0 (end_last_label (value message)) 0)
  end.

Definition tcu_edge (preflight : TriggeredEvents -> result unit) (now : Tick) (epoch : Epoch)
    : M CoreWorld TcuOutput :=
  identified
    (let! core := m_gets (fun w => core_id (kw_core w)) in
     let! paused := on_sync (sync_step core now epoch) in
     let! request := m_gets (fun w => mailbox_peek (timing_events (co_links (kw_core w))) now) in
     let! results := take_results now epoch in
     let! output := m_zoom tcu_view set_tcu_view
       (tcu_step (fun batch => m_lift (preflight batch)) (Some (sync_check core now))
          now epoch (option_map value request) results paused) in
     do! (if admitted output then reply_admitted now epoch else m_ret ()) in
     do! on_sync (sync_book core (out_synchronizations output) now epoch) in
     do! m_each (fun reference => on_links (on fast_credits (mailbox_publish now epoch reference)))
           (fast_delivered output) in
     do! receive_closure now epoch in
     m_ret output).

(** ** [deliver], [drained] and [reset] *)
Definition core_deliver (now : Tick) (epoch : Epoch) (c : Completion) : M Core unit :=
  let! fast := m_gets (fun k => p_fast_feedback (co_profile k)) in
  do! m_zoom co_links (fun l k => k <| co_links := l |>) (on cpu_results (mailbox_publish now epoch c)) in
  if fast : bool
  then m_zoom co_links (fun l k => k <| co_links := l |>) (on fast_results (mailbox_publish now epoch c))
  else m_ret ().

Definition core_drained (c : Core) : bool :=
  let l := co_links c in
  halted_ (co_cpu c) && tl_closed (co_control c) && negb (control_pending (co_control c)) &&
  tcu_drained (co_tcu c) && sync_drained (co_sync c) && negb (deliveries_pending (co_registers c)) &&
  memory_idle (co_memory c) &&
  mailbox_empty (timing_events l) && mailbox_empty (replies l) && mailbox_empty (closure l) &&
  mailbox_empty (cpu_results l) && mailbox_empty (fast_results l) && mailbox_empty (fast_credits l) &&
  mailbox_empty (requests (fetch_port c)) && mailbox_empty (responses (fetch_port c)) &&
  mailbox_empty (requests (data_port c)) && mailbox_empty (responses (data_port c)).

(** The parts [reset] assigns before the timing control unit's reset, which can fail. *)
Definition core_clear (c : Core) : Core :=
  c <| co_links ::= links_reset |> <| fetch_port ::= port_reset |>
    <| data_port ::= port_reset |> <| co_memory ::= memory_reset |>
    <| co_cpu ::= pipeline_reset (entry (mem_image (co_memory c))) |>
    <| co_control ::= control_reset |> <| co_registers ::= registers_reset |>.

Definition core_reset (now : Tick) : M Core unit :=
  do! m_modify core_clear in
  do! m_zoom co_tcu (fun t c => c <| co_tcu := t |>) (tcu_reset now) in
  m_modify (fun c => c <| co_sync := None |>).
