(* ===== verification/Handshake.v ===== *)
(** * The links between timing control and the timing control unit (src/core.cpp)

    Timing control and the unit never share state: a request, its reply and the end of the stream
    travel through mailboxes.  [agree] is what the two sides know of each other; every process of a
    core maintains it, so that none of the protocol checks at the links can fail. *)

From S2P Require Import Prelude Error Time Event Trace Mailbox Isa ControlCommand Image Memory Feedback.
From S2P Require Import Profile Protocol TimingControl Tcu Sync Pipeline Core.

(** A request on its way to the unit, or its reply on the way back. *)
Definition in_flight_request (epoch : Epoch) (t : TimingControl) (l : ControlLinks) (u : TcuCycleModel)
    (r : TimingEvents) : Prop :=
  (exists e, entries (timing_events l) = [e] /\ value e = r /\ env_epoch e = epoch /\
     entries (replies l) = [] /\ last_label u = tl_last_label t) \/
  (exists e, entries (timing_events l) = [] /\ entries (replies l) = [e] /\
     reply_label (value e) = tp_label (te_point r) /\ env_epoch e = epoch /\
     last_label u = tp_label (te_point r)).

Record agree (epoch : Epoch) (t : TimingControl) (l : ControlLinks) (u : TcuCycleModel) : Prop := {
  ag_config : tl_profile t = tcu_timing (tcu_profile u);
  ag_request :
    match enqueue_request t with
    | None => entries (timing_events l) = [] /\ entries (replies l) = [] /\ last_label u = tl_last_label t
    | Some r =>
        tl_closed t = false /\ tp_label (te_point r) = tl_last_label t + 1 /\ tp_epoch (te_point r) = epoch /\
        validate_timing_events r (tcu_timing (tcu_profile u)) = Ok () /\ in_flight_request epoch t l u r
    end;
  ag_closure :
    if tl_closed t then
      closed u = true /\ entries (closure l) = [] \/
      closed u = false /\ exists e, entries (closure l) = [e] /\ env_epoch e = epoch /\
        end_last_label (value e) = last_label u
    else closed u = false /\ entries (closure l) = [] }.

(** Only these parts matter. *)
Lemma agree_ext epoch t t' l l' u :
  agree epoch t l u -> tl_profile t' = tl_profile t -> enqueue_request t' = enqueue_request t ->
  tl_last_label t' = tl_last_label t -> tl_closed t' = tl_closed t ->
  entries (timing_events l') = entries (timing_events l) -> entries (replies l') = entries (replies l) ->
  entries (closure l') = entries (closure l) -> agree epoch t' l' u.
Proof.
  intros [H1 H2 H3] E1 E2 E3 E4 E5 E6 E7. unfold in_flight_request in *.
  constructor; unfold in_flight_request; by rewrite ?E1, ?E2, ?E3, ?E4, ?E5, ?E6, ?E7.
Qed.

(** ** Mailboxes *)
Lemma publish_entries {T} now epoch (v : T) m u m' :
  mailbox_publish now epoch v m = (Ok u, m') ->
  exists t, m' = m <| entries := entries m ++ [mkEnvelope now t epoch v] |>.
Proof.
  intros H. unfold mailbox_publish in H. apply m_bind_lift_ok in H as (? & _ & H).
  apply m_bind_lift_ok in H as (t & _ & H). apply m_bind_lift_ok in H as (? & _ & H).
  apply m_modify_ok in H as ->. exists t. reflexivity.
Qed.

Lemma take_entries {T} now (m : Mailbox T) o m' :
  mailbox_take now m = (Ok o, m') ->
  match o with None => m' = m | Some e => entries m = e :: entries m' end.
Proof.
  unfold mailbox_take, mailbox_peek. destruct (entries m) as [|e l] eqn:E; [by intros [= <- <-]|].
  destruct (eligible e <=? now); intros [= <- <-]; [by simpl; rewrite E | done].
Qed.

(** ** Timing control's side *)
Section Control.
Context (epoch : Epoch) (u : TcuCycleModel).

Definition agree_w (w : ControlWorld) : Prop := agree epoch (cw_control w) (cw_links w) u.
(** Before the end of the stream. *)
Definition open_w (w : ControlWorld) : Prop := agree_w w /\ tl_closed (cw_control w) = false.

Lemma preserves_emit I e : (forall t w, I w -> I (w <| cw_trace := t |>)) -> preserves I (emit e).
Proof. intros H. apply preserves_keeps, keeps_zoom. intros t w Hw. by apply H. Qed.

Lemma open_emit e : preserves open_w (emit e).
Proof. by apply preserves_emit. Qed.

(** An update of timing control that leaves its side of the handshake alone. *)
Definition inert (f : TimingControl -> TimingControl) : Prop := forall t,
  tl_profile (f t) = tl_profile t /\ enqueue_request (f t) = enqueue_request t /\
  tl_last_label (f t) = tl_last_label t /\ tl_closed (f t) = tl_closed t.

Lemma open_modify f : inert f -> preserves open_w (modify_control f).
Proof.
  intros Hf w a w' [Ha Hc] H. apply m_modify_ok in H as ->. destruct (Hf (cw_control w)) as (E1 & E2 & E3 & E4).
  split; [|by simpl; rewrite E4]. by apply (agree_ext epoch (cw_control w) _ (cw_links w)).
Qed.

Lemma open_registers {A} (m : M MeasurementRegisters A) : preserves open_w (on cw_registers m).
Proof. by apply preserves_keeps, keeps_zoom. Qed.

(** Submitting a request, with what is known when it returns [true]. *)
Lemma enqueue_open now w b w' :
  open_w w -> enqueue now epoch w = (Ok b, w') ->
  open_w w' /\ (b = true -> enqueue_request (cw_control w') = None).
Proof.
  intros Hw H. pose proof Hw as [Ha Hc]. unfold enqueue in H. apply m_bind_ok in H as (t & s & H1 & H).
  apply m_gets_ok in H1 as [-> ->]. destruct (enqueue_request (cw_control w)) as [r|] eqn:Er.
  { apply m_ret_ok in H as [-> ->]. done. }
  destruct (negb (pending_point (cw_control w))).
  { apply m_bind_ok in H as (a & s & H1 & H). apply m_ret_ok in H as [-> ->].
    pose proof (open_modify (fun t => t <| enqueued := negb (allow_same_time t) |>) ltac:(done) _ _ _ Hw H1) as Hw1.
    split; [done|]. intros _. apply m_modify_ok in H1 as ->. exact Er. }
  apply m_bind_lift_ok in H as (r & Hr & H). apply m_bind_lift_ok in H as ([] & Hv & H).
  apply m_bind_ok in H as (l & s & H1 & H). apply m_gets_ok in H1 as [-> ->].
  apply m_bind_lift_ok in H as (? & _ & H). apply m_bind_ok in H as (? & s & H1 & H). apply m_modify_ok in H1 as ->.
  apply m_bind_ok in H as (? & w2 & H2 & H). apply m_bind_ok in H as (? & w3 & H3 & H).
  apply m_ret_ok in H as [-> ->]. split; [|done]. apply (open_emit _ _ _ _) in H3; [done|].
  unfold m_zoom in H2. simpl in H2. destruct (mailbox_publish _ _ _ _) as [r1 mb] eqn:Ep. injection H2 as -> <-.
  apply publish_entries in Ep as (t & ->). destruct Ha as [A1 A2 A3]. rewrite Er in A2. destruct A2 as (B1 & B2 & B3).
  assert (Hlabel : tp_label (te_point r) = tl_last_label (cw_control w) + 1 /\ tp_epoch (te_point r) = epoch).
  { unfold build_request in Hr. apply result_bind_ok in Hr as (label & Hl & Hr). apply checked_add_ok in Hl as [_ ->].
    apply Ok_inj in Hr as <-. done. }
  split; [|exact Hc]. constructor; simpl; [done| |by rewrite Hc in *].
  destruct Hlabel as [L1 L2]. split_and!; try done; [by rewrite <-A1|]. left. eexists. rewrite B1. split_and!; done.
Qed.

Lemma open_enqueue now : preserves open_w (enqueue now epoch).
Proof. intros w b w' Hw H. by apply (enqueue_open now w b w'). Qed.

Lemma open_codeword validate port codeword instruction now :
  preserves open_w (execute_codeword validate port codeword instruction now epoch).
Proof.
  unfold execute_codeword. preserve_steps; [apply open_registers | by apply open_modify | apply open_emit].
Qed.

Lemma open_zero_wait now : preserves open_w (execute_zero_wait now epoch).
Proof.
  unfold execute_zero_wait. preserve_steps; try apply open_enqueue; apply open_modify; [|done].
  intros t. by destruct (negb (pending_wait_for_next t)).
Qed.

Lemma open_advance interval now : preserves open_w (advance_time interval now epoch).
Proof. unfold advance_time. preserve_steps; [apply open_enqueue | by apply open_modify]. Qed.

Lemma open_fetch qubit instruction now : preserves open_w (execute_fetch qubit instruction now epoch).
Proof. unfold execute_fetch. preserve_steps; [apply open_enqueue | apply open_emit..]. Qed.

Lemma open_synchronize validate_sync target : preserves open_w (execute_synchronize validate_sync target).
Proof. unfold execute_synchronize. preserve_steps. by apply open_modify. Qed.

Lemma open_hold operation w a w' : agree_w w -> hold operation w = (Ok a, w') -> open_w w'.
Proof.
  intros Hw H. unfold hold in H. apply m_bind_ok in H as (t & s & H1 & H). apply m_gets_ok in H1 as [-> ->].
  apply m_bind_lift_ok in H as (? & Hc & H). apply require_ok in Hc. apply negb_true_iff in Hc.
  destruct (held (cw_control w)).
  - apply m_lift_ok in H as [_ ->]. done.
  - by apply (open_modify (fun t => t <| held := Some operation |>) ltac:(done) _ _ _ (conj Hw Hc) H).
Qed.

(** The end of the stream is announced when nothing is outstanding. *)
Lemma halt_agree now w a w' : open_w w -> execute_halt now epoch w = (Ok a, w') -> agree_w w'.
Proof.
  intros Hw H. unfold execute_halt in H. apply m_bind_ok in H as (b & w1 & H1 & H).
  destruct (enqueue_open now _ _ _ Hw H1) as [[Ha Hc] Hb]. destruct b; [|by apply m_ret_ok in H as [_ ->]].
  specialize (Hb eq_refl). cbn [negb] in H. apply m_bind_ok in H as (t & s & H2 & H). apply m_gets_ok in H2 as [-> ->].
  apply m_bind_ok in H as (? & w2 & H2 & H). apply m_bind_ok in H as (? & w3 & H3 & H).
  apply m_ret_ok in H as [_ ->]. apply m_modify_ok in H3 as ->.
  unfold m_zoom in H2. simpl in H2. destruct (mailbox_publish _ _ _ _) as [r1 mb] eqn:Ep. injection H2 as -> <-.
  apply publish_entries in Ep as (t & ->). destruct Ha as [A1 A2 A3]. rewrite Hb in A2. rewrite Hc in A3.
  destruct A2 as (B1 & B2 & B3), A3 as [C1 C2].
  constructor; simpl; [done | by rewrite Hb|]. right. split; [done|]. eexists. rewrite C2. by split_and!.
Qed.

Lemma agree_modify f : inert f -> preserves agree_w (modify_control f).
Proof.
  intros Hf w a w' Ha H. apply m_modify_ok in H as ->. destruct (Hf (cw_control w)) as (E1 & E2 & E3 & E4).
  by apply (agree_ext epoch (cw_control w) _ (cw_links w)).
Qed.

Lemma open_agree {A} (m : M ControlWorld A) w a w' :
  preserves open_w m -> open_w w -> m w = (Ok a, w') -> agree_w w'.
Proof. intros Hm Hw H. exact (proj1 (Hm _ _ _ Hw H)). Qed.

Lemma execute_agree validate validate_sync operation now :
  preserves agree_w (control_execute validate validate_sync operation now epoch).
Proof.
  intros w a w' Hw H. unfold control_execute in H. apply m_bind_ok in H as (? & w1 & H1 & H).
  apply (open_hold _ _ _ _ Hw) in H1. apply m_bind_ok in H as (result & w2 & H2 & H).
  assert (Ha : agree_w w2).
  { destruct (command operation) as [cycles|port codeword|qubit| |target].
    - destruct (cycles =? 0);
        [exact (open_agree _ _ _ _ (open_zero_wait now) H1 H2) | exact (open_agree _ _ _ _ (open_advance _ now) H1 H2)].
    - exact (open_agree _ _ _ _ (open_codeword validate _ _ _ now) H1 H2).
    - exact (open_agree _ _ _ _ (open_fetch _ _ now) H1 H2).
    - exact (halt_agree now _ _ _ H1 H2).
    - exact (open_agree _ _ _ _ (open_synchronize _ _) H1 H2). }
  apply m_bind_ok in H as (? & w3 & H3 & H). apply m_ret_ok in H as [_ ->].
  destruct result; [|by apply m_ret_ok in H3 as [_ ->]].
  by apply (agree_modify (fun t => t <| held := None |>) ltac:(done) _ _ _ Ha H3).
Qed.

(** Replies arrive for the request that is outstanding. *)
Lemma receive_reply_agree now : preserves agree_w (receive_reply now epoch).
Proof.
  intros w a w' Ha H. unfold receive_reply in H. apply m_bind_ok in H as (o & w1 & H1 & H).
  unfold m_zoom in H1. simpl in H1. destruct (mailbox_take _ _) as [r1 mb] eqn:Et. injection H1 as -> <-.
  apply take_entries in Et. destruct o as [e|].
  2: { apply m_ret_ok in H as [_ ->]. subst mb. by apply (agree_ext epoch (cw_control w) _ (cw_links w)). }
  destruct Ha as [A1 A2 A3]. destruct (enqueue_request (cw_control w)) as [r|] eqn:Er.
  2: { destruct A2 as (_ & B & _). by rewrite Et in B. }
  destruct A2 as (B1 & B2 & B3 & B4 & [(e' & _ & _ & _ & B & _)|(e' & C1 & C2 & C3 & C4 & C5)]); [by rewrite Et in B|].
  rewrite Et in C2. injection C2 as -> C2. rewrite C4, Z.eqb_refl in H. cbn [negb] in H.
  apply m_bind_ok in H as (t & s & H1 & H). apply m_gets_ok in H1 as [-> ->].
  apply m_bind_lift_ok in H as (? & _ & H). apply m_bind_ok in H as (? & w2 & H1 & H). apply m_modify_ok in H1 as ->.
  apply (preserves_emit agree_w) in H; [done | done|]. constructor; simpl; [done| |].
  - split_and!; [done | done |]. by rewrite C5, C3.
  - rewrite B1 in *. done.
Qed.

Lemma receive_agree now : preserves agree_w (control_receive now epoch).
Proof.
  unfold control_receive. preserve_steps; [apply receive_reply_agree | |]; apply preserves_keeps, keeps_take_loop.
  - intros b w Hw. by apply (agree_ext epoch (cw_control w) _ (cw_links w)).
  - intros e. unfold receive_result. keep_steps;
      first [apply keeps_zoom; intros t w Hw; exact Hw | idtac].
  - intros b w Hw. by apply (agree_ext epoch (cw_control w) _ (cw_links w)).
  - intros e. unfold receive_credit. keep_steps. by apply keeps_zoom.
Qed.
End Control.

(** ** The CPU's process *)
Section Calls.
Context {E : Type} (control : ControlOperation -> M (Trace * E) (option Z)) (J : E -> Prop).
Context (Hcontrol : forall o, preserves (fun s => J (snd s)) (control o)).
#[local] Abbreviation I := (fun w : PipelineWorld E => J (pw_env w)).

Lemma preserves_call o : preserves I (call_control control o).
Proof using Hcontrol. by apply (preserves_focus I (fun s => J (snd s))). Qed.

Lemma preserves_cpu f : preserves I (modify_cpu f).
Proof using Type. by apply preserves_keeps, keeps_modify. Qed.

Lemma preserves_cpu_zoom {T A} (get : PipelineWorld E -> T) set (m : M T A) :
  (forall t w, pw_env (set t w) = pw_env w) -> preserves I (m_zoom get set m).
Proof using Type. intros H. apply preserves_keeps, keeps_zoom. intros t w Hw. by rewrite H. Qed.

Lemma preserves_lanes l : preserves I (issue_lanes control l).
Proof using Hcontrol.
  induction l as [|o l IH]; simpl; preserve_steps; [apply preserves_call | apply preserves_cpu | exact IH].
Qed.

Lemma preserves_frame now epoch frame d : preserves I (execute_frame control now epoch frame d).
Proof using Hcontrol.
  unfold execute_frame, execute_memory, modify_execute. preserve_steps;
    first [apply preserves_call | apply preserves_lanes | apply preserves_cpu | by apply preserves_cpu_zoom].
Qed.

Lemma preserves_sample now epoch : preserves I (sample now epoch).
Proof using Type. unfold sample. cbv zeta. preserve_steps; first [by apply preserves_cpu_zoom | apply preserves_cpu]. Qed.

(** Only the control port reaches the state behind it. *)
Lemma preserves_pipeline now epoch : preserves I (pipeline_step control now epoch).
Proof using Hcontrol.
  unfold pipeline_step, receive_fetch, execute_stage, flush_stage, fetch_stage, retire. cbv zeta. preserve_steps;
    first [apply preserves_frame | apply preserves_sample | apply preserves_cpu | by apply preserves_cpu_zoom].
Qed.
End Calls.

Definition core_agree (epoch : Epoch) (c : Core) : Prop := agree epoch (co_control c) (co_links c) (co_tcu c).
Definition agree_k (epoch : Epoch) (w : CoreWorld) : Prop := core_agree epoch (kw_core w).

Lemma preserves_identified {A} (I : Core -> Prop) (m : M CoreWorld A) :
  preserves (fun w => I (kw_core w)) m -> preserves (fun w => I (kw_core w)) (identified m).
Proof.
  intros Hm w a w' HI H. unfold identified in H. destruct (m _) as [r w1] eqn:Em. injection H as -> <-.
  assert (H1 : I (kw_core w1)) by (eapply Hm; [|exact Em]; exact HI). exact H1.
Qed.

Lemma cpu_edge_agree validate now epoch : preserves (agree_k epoch) (cpu_edge validate now epoch).
Proof.
  apply (preserves_identified (core_agree epoch)). intros w a w' Hw H.
  apply m_bind_ok in H as ([] & w1 & H1 & H). apply m_bind_ok in H as (w2 & s & H2 & H).
  apply (m_gets_ok (fun s => s)) in H2 as [-> ->].
  assert (Hw1 : agree_k epoch w1 /\ co_tcu (kw_core w1) = co_tcu (kw_core w)).
  { unfold m_zoom in H1. destruct (control_receive _ _ _) as [r v] eqn:Er. injection H1 as -> <-. split; [|done].
    exact (receive_agree epoch (co_tcu (kw_core w)) now (control_view w) _ _ Hw Er). }
  destruct Hw1 as [Hw1 _]. unfold m_zoom in H. destruct (pipeline_step _ _ _ _) as [r v] eqn:Ep. injection H as -> <-.
  apply (preserves_pipeline _ (fun s : ControlState => agree epoch (fst (fst s)) (snd s) (co_tcu (kw_core w1)))) in Ep.
  - unfold agree_k, core_agree, set_cpu_view. destruct (pw_env v) as [[t g] l]. exact Ep.
  - intros o [tr [[t g] l]] x [tr' [[t' g'] l']] Hs Hx. unfold control_port, m_zoom in Hx.
    destruct (control_execute _ _ _ _ _ _) as [r' v'] eqn:Ex. injection Hx as -> <- <- <- <-.
    exact (execute_agree epoch (co_tcu (kw_core w1)) _ _ _ _ (mkControlWorld t g l tr) _ _ Hs Ex).
  - exact Hw1.
Qed.

(** ** The unit's process *)
Section Unit.
Context {E : Type} (preflight : TriggeredEvents -> M E unit) (sync_preflight : option (list Z -> M E unit)).

(** What the handshake knows of the unit. *)
Definition unit_at (p : TcuConfig) (c : bool) (n : Id) (w : TcuWorld E) : Prop :=
  tcu_profile (tw_tcu w) = p /\ closed (tw_tcu w) = c /\ last_label (tw_tcu w) = n.

Lemma unit_modify p c n f : (forall t, tcu_profile (f t) = tcu_profile t /\ closed (f t) = closed t /\
    last_label (f t) = last_label t) -> preserves (unit_at p c n) (modify_tcu f).
Proof using Type.
  intros Hf w a w' (H1 & H2 & H3) H. apply m_modify_ok in H as ->. destruct (Hf (tw_tcu w)) as (F1 & F2 & F3).
  unfold unit_at. simpl. by rewrite F1, F2, F3.
Qed.

Lemma unit_zoom {T A} p c n (get : TcuWorld E -> T) set (m : M T A) :
  (forall t w, tw_tcu (set t w) = tw_tcu w) -> preserves (unit_at p c n) (m_zoom get set m).
Proof using Type. intros H. apply preserves_keeps, keeps_zoom. intros t w Hw. unfold unit_at. by rewrite H. Qed.

Ltac unit_steps :=
  preserve_steps; repeat (apply preserves_each; intros ?; preserve_steps);
    first [by apply unit_modify | by apply unit_zoom].

Lemma unit_trigger p c n now epoch cycle trigger : preserves (unit_at p c n) (commit_trigger now epoch cycle trigger).
Proof using Type. unfold commit_trigger. cbv zeta. unit_steps. Qed.

Lemma unit_fast p c n now epoch cycle results flags :
  preserves (unit_at p c n) (commit_fast_results now epoch cycle results flags).
Proof using Type. unfold commit_fast_results. cbv zeta. unit_steps. Qed.

Lemma unit_pause p c n now epoch state ticks : preserves (unit_at p c n) (update_pause_state now epoch state ticks).
Proof using Type. unfold update_pause_state. unit_steps. Qed.

Lemma unit_admission p c n now epoch cycle candidate d w a w' :
  unit_at p c n w -> commit_admission now epoch cycle candidate d w = (Ok a, w') ->
  unit_at p c (tp_label (te_point candidate)) w'.
Proof using Type.
  intros (H1 & H2 & _) H. unfold commit_admission in H. cbv zeta in H. apply m_bind_ok in H as (? & w1 & Hm & H).
  apply m_modify_ok in Hm as ->. revert H. apply (preserves_bind (unit_at p c _)).
  - apply preserves_keeps, keeps_gets.
  - intros t. by apply unit_zoom.
  - by split_and!.
Qed.

(** The requests a step admits carry the next label. *)
Lemma admission_label t now epoch candidate p d :
  prepare_admission t now epoch candidate p = Ok (Some d) ->
  tp_label (te_point candidate) = last_label t + 1.
Proof using Type.
  unfold prepare_admission. intros H. cbv zeta in H. do 3 apply result_bind_ok in H as (? & _ & H).
  apply result_bind_ok in H as (next & Hn & H). apply checked_add_ok in Hn as [_ ->].
  apply result_bind_ok in H as (? & Hl & _). apply require_ok in Hl. by apply Z.eqb_eq in Hl.
Qed.

Lemma tcu_step_unit now epoch candidate results paused w out w' :
  tcu_step preflight sync_preflight now epoch candidate results paused w = (Ok out, w') ->
  let t := tw_tcu w in
  if admitted out then
    exists c, candidate = Some c /\ tp_label (te_point c) = last_label t + 1 /\
      unit_at (tcu_profile t) (closed t) (tp_label (te_point c)) w'
  else unit_at (tcu_profile t) (closed t) (last_label t) w'.
Proof using Type.
  intros H t. unfold tcu_step in H. apply m_bind_ok in H as (t' & s & H1 & H). apply m_gets_ok in H1 as [-> ->].
  apply m_bind_lift_ok in H as (? & _ & H). cbv zeta in H. apply m_bind_ok in H as (trigger & w1 & H1 & H).
  assert (Hw : unit_at (tcu_profile t) (closed t) (last_label t) w) by done.
  apply (unit_zoom (tcu_profile t) (closed t) (last_label t)) in H1; [| done..].
  apply m_bind_lift_ok in H as (d & Hd & H). apply m_bind_lift_ok in H as (flags & _ & H).
  apply m_bind_lift_ok in H as (ticks & _ & H). apply m_bind_ok in H as (? & w2 & H2 & H).
  assert (Hw2 : unit_at (tcu_profile t) (closed t) (last_label t) w2).
  { destruct trigger; [exact (unit_trigger _ _ _ _ _ _ _ _ _ _ H1 H2) | by apply m_ret_ok in H2 as [_ ->]]. }
  apply m_bind_ok in H as (? & w3 & H3 & H). apply m_bind_ok in H as (delivered & w4 & H4 & H).
  apply m_bind_ok in H as (? & w5 & H5 & H). apply m_ret_ok in H as [-> ->].
  assert (Hend : forall n, unit_at (tcu_profile t) (closed t) n w3 -> unit_at (tcu_profile t) (closed t) n w5).
  { intros n Hn. exact (unit_pause _ _ _ _ _ _ _ _ _ _ (unit_fast _ _ _ _ _ _ _ _ _ _ _ Hn H4) H5). }
  simpl. destruct candidate as [cand|]; [destruct d as [d|]|];
    [| apply m_ret_ok in H3 as [_ ->]; by apply Hend..].
  exists cand. split_and!; [done | exact (admission_label _ _ _ _ _ _ Hd)|]. apply Hend.
  exact (unit_admission _ _ _ _ _ _ _ _ _ _ _ Hw2 H3).
Qed.
End Unit.

Lemma agree_zoom {A T} epoch (get : CoreWorld -> T) set (m : M T A) :
  (forall t w, co_control (kw_core (set t w)) = co_control (kw_core w) /\ co_tcu (kw_core (set t w)) = co_tcu (kw_core w) /\
     co_links (kw_core (set t w)) = co_links (kw_core w)) ->
  preserves (agree_k epoch) (m_zoom get set m).
Proof.
  intros H. apply preserves_keeps, keeps_zoom. intros t w Hw. destruct (H t w) as (H1 & H2 & H3).
  unfold agree_k, core_agree. by rewrite H1, H2, H3.
Qed.

(** Results and credits travel through other mailboxes. *)
Lemma agree_links {A T} epoch (get : ControlLinks -> T) set (m : M T A) :
  (forall t l, timing_events (set t l) = timing_events l /\ replies (set t l) = replies l /\ closure (set t l) = closure l) ->
  preserves (agree_k epoch) (on_links (m_zoom get set m)).
Proof.
  intros H w a w' Hw Hm. unfold on_links, m_zoom in Hm. destruct (m _) as [r t]. injection Hm as -> <-.
  destruct (H t (co_links (kw_core w))) as (H1 & H2 & H3).
  apply (agree_ext epoch _ _ _ _ _ Hw); try done; simpl; by rewrite ?H1, ?H2, ?H3.
Qed.

Definition requests_at (epoch : Epoch) (m : Mailbox TimingEvents) (w : CoreWorld) : Prop :=
  agree_k epoch w /\ timing_events (co_links (kw_core w)) = m.

Lemma take_results_requests epoch m now : preserves (requests_at epoch m) (take_results now epoch).
Proof.
  intros w a w' Hw H. unfold take_results in H. destruct (take_loop _ _ _ _ _) as [r [w1 l]] eqn:El.
  assert (w' = w1) as -> by (by destruct r; injection H).
  refine (keeps_take_loop (fun s => requests_at epoch m (fst s)) _ _ _ _ _ _ _ _ _ _ El); [| |exact Hw].
  - intros b [v r'] [Hv Hm]. split; [|exact Hm]. by apply (agree_ext epoch _ _ _ _ _ Hv).
  - intros e. unfold take_result. destruct (_ =? _); [by apply keeps_modify|].
    apply (keeps_focus (requests_at epoch m) fst); [done|]. by apply keeps_zoom.
Qed.

(** The unit has admitted the request that was waiting; its reply is still to be sent. *)
Lemma reply_agree epoch now w w1 a w' e :
  agree_k epoch w -> mailbox_peek (timing_events (co_links (kw_core w))) now = Some e ->
  kw_core w1 = kw_core w <| co_tcu := co_tcu (kw_core w1) |> <| co_sync := co_sync (kw_core w1) |> ->
  tcu_profile (co_tcu (kw_core w1)) = tcu_profile (co_tcu (kw_core w)) ->
  closed (co_tcu (kw_core w1)) = closed (co_tcu (kw_core w)) ->
  last_label (co_tcu (kw_core w1)) = tp_label (te_point (value e)) ->
  reply_admitted now epoch w1 = (Ok a, w') -> agree_k epoch w'.
Proof.
  intros [A1 A2 A3] Hpeek Hcore U1 U2 U3 H. unfold reply_admitted in H.
  assert (Hlinks : co_links (kw_core w1) = co_links (kw_core w)) by (by rewrite Hcore).
  assert (Hcontrol : co_control (kw_core w1) = co_control (kw_core w)) by (by rewrite Hcore).
  unfold mailbox_peek in Hpeek. destruct (entries (timing_events _)) as [|e' rest] eqn:Ee; [done|].
  destruct (eligible e' <=? now) eqn:Hel; [|done]. injection Hpeek as ->.
  destruct (enqueue_request (co_control (kw_core w))) as [r|] eqn:Er; [|by destruct A2 as [? _]].
  destruct A2 as (B1 & B2 & B3 & B4 & [(e1 & C1 & C2 & C3 & C4 & _)|(e1 & C1 & _)]); [|by rewrite Ee in C1].
  rewrite Ee in C1. injection C1 as -> ->. subst r. apply m_bind_ok in H as (o & w2 & H1 & H).
  unfold on_links, m_zoom in H1. rewrite Hlinks in H1. unfold mailbox_take, mailbox_peek in H1. rewrite Ee, Hel in H1.
  injection H1 as <- <-. unfold on_links, m_zoom in H. destruct (mailbox_publish _ _ _ _) as [r mb] eqn:Ep.
  injection H as -> <-. apply publish_entries in Ep as (t & ->).
  constructor; simpl; rewrite ?Hcontrol, ?Hlinks, ?U1, ?U2; [done| |].
  - rewrite Er. split_and!; try done. right. eexists. rewrite C4. split_and!; [by rewrite ?Ee | reflexivity | done..].
  - rewrite B1 in *. by destruct A3.
Qed.

Lemma closure_agree epoch now : preserves (agree_k epoch) (receive_closure now epoch).
Proof.
  intros w a w' [A1 A2 A3] H. unfold receive_closure in H. apply m_bind_ok in H as (o & w1 & H1 & H).
  unfold on_links, m_zoom in H1. destruct (mailbox_take _ _) as [r mb] eqn:Et. injection H1 as -> <-.
  apply take_entries in Et. destruct o as [e|].
  2: { apply m_ret_ok in H as [_ ->]. subst mb. by apply (agree_ext epoch (co_control (kw_core w)) _ (co_links (kw_core w))). }
  apply m_bind_lift_ok in H as (? & _ & H). apply m_bind_ok in H as (? & w2 & H1 & H).
  apply (agree_zoom epoch) in H; [done | done |]. unfold m_zoom in H1. destruct (tcu_close _ _) as [r u] eqn:Ec.
  injection H1 as -> <-. unfold tcu_close in Ec. apply m_bind_lift_ok in Ec as (? & _ & Ec). apply m_modify_ok in Ec as ->.
  destruct (tl_closed (co_control (kw_core w))) eqn:Hc.
  2: { destruct A3 as [_ A3]. by rewrite A3 in Et. }
  destruct A3 as [[_ A3]|(_ & e1 & C1 & C2 & C3)]; [by rewrite A3 in Et|]. rewrite C1 in Et. injection Et as -> Et.
  constructor; simpl; [done | | rewrite Hc; by left].
  destruct (enqueue_request (co_control (kw_core w))); [by destruct A2 as [? _]; congruence | done].
Qed.

Lemma tcu_edge_agree preflight now epoch : preserves (agree_k epoch) (tcu_edge preflight now epoch).
Proof.
  apply (preserves_identified (core_agree epoch)). intros w a w' Hw H.
  apply m_bind_ok in H as (core & s & H1 & H). apply m_gets_ok in H1 as [-> ->].
  apply m_bind_ok in H as (paused & w1 & H1 & H). apply (agree_zoom epoch) in H1; [|done|exact Hw]. rename H1 into Hw1.
  apply m_bind_ok in H as (request & s & H1 & H). apply m_gets_ok in H1 as [-> ->].
  apply m_bind_ok in H as (results & w2 & H1 & H).
  apply (take_results_requests epoch (timing_events (co_links (kw_core w1)))) in H1; [|by split]. destruct H1 as [Hw2 Hm].
  rewrite <-Hm in H. apply m_bind_ok in H as (out & w3 & H1 & H). unfold m_zoom in H1.
  destruct (tcu_step _ _ _ _ _ _ _ _) as [r v] eqn:Et. injection H1 as -> <-. apply tcu_step_unit in Et.
  cbv zeta in Et. apply m_bind_ok in H as (? & w4 & H1 & H).
  assert (Hw4 : agree_k epoch w4).
  { destruct (admitted out).
    - destruct Et as (c & Hc & _ & U1 & U2 & U3). destruct (mailbox_peek _ _) as [e|] eqn:Hp; [|done].
      injection Hc as <-. exact (reply_agree epoch now w2 (set_tcu_view v w2) _ _ e Hw2 Hp eq_refl U1 U2 U3 H1).
    - apply m_ret_ok in H1 as [_ ->]. destruct Et as (U1 & U2 & U3). destruct Hw2 as [A1 A2 A3].
      constructor; unfold in_flight_request; simpl in *; by rewrite ?U1, ?U2, ?U3. }
  clear Et H1 Hw Hw1 Hw2 Hm. apply m_bind_ok in H as (? & w5 & H1 & H).
  apply (agree_zoom epoch) in H1; [|done|exact Hw4].
  apply m_bind_ok in H as (? & w6 & H2 & H).
  apply (preserves_each (agree_k epoch)) in H2; [|intros ?; by apply agree_links | exact H1].
  apply m_bind_ok in H as (? & w7 & H3 & H). apply m_ret_ok in H as [_ ->]. exact (closure_agree _ _ _ _ _ H2 H3).
Qed.

(** ** Every core of a simulation *)
Lemma memory_edge_agree {D} contains access now epoch :
  preserves (fun s : Core * D => core_agree epoch (fst s)) (memory_edge contains access now epoch).
Proof. apply preserves_keeps. by apply keeps_zoom. Qed.

Lemma deliver_agree now epoch c : preserves (core_agree epoch) (core_deliver now epoch c).
Proof.
  assert (Hz : forall T (get : ControlLinks -> T) set (m : M T unit),
    (forall t l, timing_events (set t l) = timing_events l /\ replies (set t l) = replies l /\ closure (set t l) = closure l) ->
    preserves (core_agree epoch) (m_zoom co_links (fun l k => k <| co_links := l |>) (m_zoom get set m))).
  { intros T get set m Hset k a k' Hk H. unfold m_zoom in H. destruct (m _) as [r t]. injection H as -> <-.
    destruct (Hset t (co_links k)) as (H1 & H2 & H3).
    apply (agree_ext epoch _ _ _ _ _ Hk); try done; simpl; by rewrite ?H1, ?H2, ?H3. }
  unfold core_deliver. preserve_steps; by apply Hz.
Qed.

(** A new session starts with nothing in flight. *)
Lemma agree_start epoch t l u :
  tl_profile t = tcu_timing (tcu_profile u) -> enqueue_request t = None -> tl_closed t = false -> tl_last_label t = 0 ->
  entries (timing_events l) = [] -> entries (replies l) = [] -> entries (closure l) = [] ->
  closed u = false -> last_label u = 0 -> agree epoch t l u.
Proof. intros H1 H2 H3 H4 H5 H6 H7 H8 H9. constructor; [done | by rewrite H2, H4 | by rewrite H3]. Qed.

Lemma tcu_reset_eq now : tcu_reset now =
  (do! m_modify tcu_clear in
   let! t := m_get in
   let! proposed := m_lift (checked_add now (tcu_start (tcu_profile t))) in
   let clk := tcu_clk (tcu_profile t) in
   let! start := m_lift (if clock_edge clk proposed then Ok proposed else clock_after clk proposed 1) in
   m_modify (fun t => t <| tcu_origin := start |>)).
Proof. reflexivity. Qed.

Lemma tcu_reset_start now t u t' :
  tcu_reset now t = (Ok u, t') -> tcu_profile t' = tcu_profile t /\ closed t' = false /\ last_label t' = 0.
Proof.
  intros H. rewrite tcu_reset_eq in H. apply m_bind_ok in H as (? & t1 & H1 & H). apply m_modify_ok in H1 as E1.
  assert (P : tcu_profile t1 = tcu_profile t /\ closed t1 = false /\ last_label t1 = 0) by (by rewrite E1).
  clear H1 E1. destruct P as (<- & P2 & P3).
  apply m_bind_ok in H as (t2 & s & H1 & H). apply (m_gets_ok (fun s => s)) in H1 as [_ ->].
  apply m_bind_lift_ok in H as (? & _ & H). cbv zeta in H. apply m_bind_lift_ok in H as (? & _ & H).
  apply m_modify_ok in H as ->. by split_and!.
Qed.

Lemma core_reset_eq now : core_reset now =
  (do! m_modify core_clear in
   do! m_zoom co_tcu (fun t c => c <| co_tcu := t |>) (tcu_reset now) in
   m_modify (fun c => c <| co_sync := None |>)).
Proof. reflexivity. Qed.

Lemma core_reset_parts now c u c' :
  core_reset now c = (Ok u, c') ->
  co_control c' = control_reset (co_control c) /\ co_links c' = links_reset (co_links c) /\
  exists u, tcu_reset now (co_tcu c) = (Ok u, co_tcu c').
Proof.
  intros H. rewrite core_reset_eq in H. apply m_bind_ok in H as (? & c1 & H1 & H). apply m_modify_ok in H1 as E1.
  assert (P1 : co_control c1 = control_reset (co_control c)) by (by rewrite E1).
  assert (P2 : co_links c1 = links_reset (co_links c)) by (by rewrite E1).
  assert (P3 : co_tcu c1 = co_tcu c) by (by rewrite E1). clear H1 E1.
  apply m_bind_ok in H as (u1 & c2 & H1 & H). apply m_modify_ok in H as ->. apply m_zoom_ok in H1 as (t & H1 & ->).
  rewrite P3 in H1. split_and!; [exact P1 | exact P2 | exists u1; exact H1].
Qed.

Lemma reset_agree epoch epoch' now c u c' :
  core_agree epoch c -> core_reset now c = (Ok u, c') -> core_agree epoch' c'.
Proof.
  intros [A1 _ _] H. apply core_reset_parts in H as (H1 & H2 & v & H3). apply tcu_reset_start in H3 as (U1 & U2 & U3).
  unfold core_agree. rewrite H1, H2. apply agree_start; try done. by rewrite U1.
Qed.

Section Reachable.
Context (show_double : double -> string).
(** The cores a simulation may be built from. *)
Context (admissible : CoreConfig -> Prop).

Lemma new_agree epoch config identify c : core_new show_double config identify = Ok c -> core_agree epoch c.
Proof.
  intros H. unfold core_new in H. cbv zeta in H. apply result_bind_ok in H as (timing & Ht & H).
  apply result_bind_ok in H as (links & Hl & H). do 3 apply result_bind_ok in H as (? & _ & H).
  apply result_bind_ok in H as (tc & Hc & H). apply result_bind_ok in H as (tcu & Hu & H).
  apply result_bind_ok in H as (? & _ & H). destruct (make_cpu _ _ _) as [cpu|]; [|done]. apply Ok_inj in H as <-.
  unfold tcu_config in Hc. rewrite Ht in Hc. apply Ok_inj in Hc as <-.
  unfold tcu_new in Hu. apply result_bind_ok in Hu as (? & _ & Hu). apply Ok_inj in Hu as <-.
  assert (E : entries (timing_events links) = [] /\ entries (replies links) = [] /\ entries (closure links) = []).
  { unfold links_new, mailbox_new in Hl. inv_ok Hl. done. }
  destruct E as (E1 & E2 & E3). by constructor.
Qed.

(** The states of a core in a simulation.  The shared network and trace, and the state of the device,
    are whatever the other cores and the device have left; a process that faults ends the
    simulation; a reset begins the session [epoch']. *)
Inductive core_reachable : Epoch -> Core -> Prop :=
| reach_new config identify epoch c :
    admissible config -> core_new show_double config identify = Ok c -> core_reachable epoch c
| reach_cpu epoch c validate now network trace u w :
    core_reachable epoch c -> cpu_edge validate now epoch (mkCoreWorld c network trace) = (Ok u, w) ->
    core_reachable epoch (kw_core w)
| reach_memory epoch c D contains access now (d d' : D) u c' :
    core_reachable epoch c -> memory_edge contains access now epoch (c, d) = (Ok u, (c', d')) ->
    core_reachable epoch c'
| reach_tcu epoch c preflight now network trace out w :
    core_reachable epoch c -> tcu_edge preflight now epoch (mkCoreWorld c network trace) = (Ok out, w) ->
    core_reachable epoch (kw_core w)
| reach_deliver epoch c now completion u c' :
    core_reachable epoch c -> core_deliver now epoch completion c = (Ok u, c') -> core_reachable epoch c'
| reach_reset epoch epoch' c now u c' :
    core_reachable epoch c -> core_reset now c = (Ok u, c') -> core_reachable epoch' c'.

Lemma reachable_agree epoch c : core_reachable epoch c -> core_agree epoch c.
Proof.
  induction 1.
  - by eapply new_agree.
  - by eapply (cpu_edge_agree validate now epoch (mkCoreWorld c network trace)).
  - by eapply (memory_edge_agree contains access now epoch (c, d) u (c', d')).
  - by eapply (tcu_edge_agree preflight now epoch (mkCoreWorld c network trace)).
  - by eapply deliver_agree.
  - by eapply reset_agree.
Qed.

(** C2. The two sides of a core's links never disagree.  In every state of a core that the processes of
    a simulation reach, at most one request or reply and at most one end of stream travel; a request
    the unit reads passes the unit's protocol checks (session, label, open stream, validity), a
    reply timing control reads answers the request it has outstanding, and an end of stream is
    accepted by the unit: none of the protocol errors at the links can occur. *)
Theorem links_agree epoch c now :
  core_reachable epoch c ->
  let l := co_links c in
  (length (entries (timing_events l)) + length (entries (replies l)) <= 1 /\ length (entries (closure l)) <= 1)%nat /\
  (forall m, mailbox_peek (timing_events l) now = Some m ->
     env_epoch m = epoch /\ tp_epoch (te_point (value m)) = epoch /\ closed (co_tcu c) = false /\
     tp_label (te_point (value m)) = last_label (co_tcu c) + 1 /\
     validate_timing_events (value m) (tcu_timing (tcu_profile (co_tcu c))) = Ok ()) /\
  (forall m, mailbox_peek (replies l) now = Some m ->
     env_epoch m = epoch /\
     exists r, enqueue_request (co_control c) = Some r /\ tp_label (te_point r) = reply_label (value m)) /\
  (forall m, mailbox_peek (closure l) now = Some m ->
     env_epoch m = epoch /\
     tcu_close (value m) (co_tcu c) = (Ok (), co_tcu c <| closed := true |>)).
Proof.
  intros H%reachable_agree l. destruct H as [A1 A2 A3]. fold l in A2, A3. unfold mailbox_peek.
  assert (Hclosure : (length (entries (closure l)) <= 1)%nat /\ forall e, entries (closure l) = [e] ->
    env_epoch e = epoch /\ closed (co_tcu c) = false /\ end_last_label (value e) = last_label (co_tcu c)).
  { destruct (tl_closed (co_control c)); [destruct A3 as [[_ ->]|(H1 & e & -> & H2 & H3)] | destruct A3 as [_ ->]];
      (split; [simpl; lia | intros e' [=]]). by subst. }
  destruct Hclosure as [Hlen Hend]. split; [split; [|exact Hlen] | split_and!].
  - destruct (enqueue_request _); [|destruct A2 as (-> & -> & _); simpl; lia].
    destruct A2 as (_ & _ & _ & _ & [(e & -> & _ & _ & -> & _)|(e & -> & -> & _)]); simpl; lia.
  - intros m Hm. destruct (enqueue_request _) as [r|]; [|by destruct A2 as (E & _); rewrite E in Hm].
    destruct A2 as (B1 & B2 & B3 & B4 & [(e & E & C2 & C3 & C4 & C5)|(e & E & _)]); rewrite E in Hm; [|done].
    destruct (eligible e <=? now); [injection Hm as <-|done]. rewrite B1 in A3. subst r. rewrite C5.
    split_and!; try done. by destruct A3.
  - intros m Hm. destruct (enqueue_request _) as [r|]; [|by destruct A2 as (_ & E & _); rewrite E in Hm].
    destruct A2 as (B1 & B2 & B3 & B4 & [(e & _ & _ & _ & E & _)|(e & _ & E & C3 & C4 & _)]); rewrite E in Hm; [done|].
    destruct (eligible e <=? now); [injection Hm as <-|done]. split; [done|]. by exists r.
  - intros m Hm. destruct (entries (closure l)) as [|e [|e2 rest]]; [done| |simpl in Hlen; lia].
    destruct (Hend e eq_refl) as (H1 & H2 & H3). destruct (eligible e <=? now); [injection Hm as <-|done].
    split; [done|]. unfold tcu_close, m_bind, m_lift. by rewrite H2, H3, Z.eqb_refl.
Qed.
End Reachable.

(** ** Example: wait 10; wait 10; addi a7, x0, 93; ecall *)
Definition handshake_image : ProgramImage :=
  mkImage 0x1000 0x1000
    [0x0b; 0x20; 5; 0; 0x0b; 0x20; 5; 0; 0x93; 0x08; 0xd0; 0x05; 0x73; 0; 0; 0]
    [mkSegment 0x1000 16 true false true].

Definition handshake_config : CoreConfig := mkCoreConfig 0 default_unchecked handshake_image None 8.
Definition handshake_start : result Core := core_new (fun _ => "0"%string) handshake_config false.

Definition no_device (r : MemoryRequest) (now : Tick) (epoch : Epoch) : M unit (option Z) := m_fault LoadAccess.

(** The three processes of a tick at the edges of their clocks, each on its own core's trace. *)
Definition handshake_tick (now : Tick) (c : Core) : result Core :=
  let? c := match cpu_edge (fun _ => Ok ()) now 1 (mkCoreWorld c (mkNetwork (mkClock 20 0) ∅) trace_new) with
            | (Ok _, w) => Ok (kw_core w) | (Fault e, _) => Fault e end in
  let? c := match memory_edge (fun _ => false) no_device now 1 (c, ()) with
            | (Ok _, (c, _)) => Ok c | (Fault e, _) => Fault e end in
  if clock_edge (mkClock 20 0) now then
    match tcu_edge (fun _ => Ok ()) now 1 (mkCoreWorld c (mkNetwork (mkClock 20 0) ∅) trace_new) with
    | (Ok _, w) => Ok (kw_core w) | (Fault e, _) => Fault e end
  else Ok c.

Fixpoint handshake_run (n : nat) (now : Tick) (c : Core) : result Core :=
  match n with
  | O => Ok c
  | S n => let? c := handshake_tick now c in handshake_run n (now + 5) c
  end.

Lemma handshake_run_reachable show admissible n now c c' :
  core_reachable show admissible 1 c -> handshake_run n now c = Ok c' -> core_reachable show admissible 1 c'.
Proof.
  revert now c. induction n as [|n IH]; intros now c Hc H; simpl in H; [by apply Ok_inj in H as <-|].
  apply result_bind_ok in H as (c1 & H1 & H). apply (IH _ _) in H; [done|]. clear IH H. unfold handshake_tick in H1.
  apply result_bind_ok in H1 as (c2 & H2 & H1). destruct (cpu_edge _ _ _ _) as [[u|] w] eqn:Ec; [|done].
  apply Ok_inj in H2 as <-. pose proof (reach_cpu show admissible _ _ _ _ _ _ _ _ Hc Ec) as R2. clear Hc Ec.
  apply result_bind_ok in H1 as (c3 & H2 & H1). destruct (memory_edge _ _ _ _ _) as [[u2|] [c4 []]] eqn:Em; [|done].
  apply Ok_inj in H2 as <-. pose proof (reach_memory show admissible _ _ _ _ _ _ _ _ _ _ R2 Em) as R3. clear R2 Em.
  destruct (clock_edge _ _); [|by apply Ok_inj in H1 as <-].
  destruct (tcu_edge _ _ _ _) as [[u3|] w3] eqn:Et; [|done]. apply Ok_inj in H1 as <-.
  exact (reach_tcu show admissible _ _ _ _ _ _ _ _ R3 Et).
Qed.

(** At tick 45 a request is on its way and readable at tick 60; the end of the stream follows. *)
Definition handshake_after (n : nat) : result Core := let? c := handshake_start in handshake_run n 0 c.

Lemma handshake_after_reachable (admissible : CoreConfig -> Prop) n c :
  admissible handshake_config -> handshake_after n = Ok c -> core_reachable (fun _ => "0"%string) admissible 1 c.
Proof.
  intros Hok H. unfold handshake_after in H. apply result_bind_ok in H as (c0 & H0 & H).
  exact (handshake_run_reachable _ _ _ _ _ _ (reach_new _ _ handshake_config false _ _ Hok H0) H).
Qed.

Definition peeked_label (now : Tick) (r : result Core) : option Id :=
  match r with
  | Ok c => (fun m => tp_label (te_point (value m))) <$> mailbox_peek (timing_events (co_links c)) now
  | Fault _ => None
  end.

Lemma links_agree_witness :
  exists c m, handshake_after 10 = Ok c /\ mailbox_peek (timing_events (co_links c)) 60 = Some m /\
    tp_label (te_point (value m)) = 1 /\ last_label (co_tcu c) = 0 /\
    validate_timing_events (value m) (tcu_timing (tcu_profile (co_tcu c))) = Ok ().
Proof.
  assert (Hp : peeked_label 60 (handshake_after 10) = Some 1) by (vm_compute; reflexivity).
  unfold peeked_label in Hp. destruct (handshake_after 10) as [c|e] eqn:E; [|discriminate Hp].
  destruct (mailbox_peek (timing_events (co_links c)) 60) as [m|] eqn:Em; [|discriminate Hp]. injection Hp as Hl.
  exists c, m. pose proof (links_agree (fun _ => "0"%string) (fun _ => True) 1 c 60
    (handshake_after_reachable (fun _ => True) 10 c I E)) as (_ & H & _).
  destruct (H m Em) as (_ & _ & _ & H4 & H5). rewrite Hl in H4. refine (conj eq_refl (conj Em (conj Hl (conj _ H5)))). lia.
Defined.
