(* ===== verification/Ports.v ===== *)
(** * The memory ports of a core (src/core.cpp, src/memory.cpp, src/cpu/pipeline.cpp)

    The pipeline and the memory never share state either: a request and its response travel through
    the two mailboxes of a port, and a slot of the memory holds the request in between.  [serves] is
    what the two sides know of a port; the CPU's and the memory's process maintain it, so that none of
    the protocol checks at the ports can fail, and the memory's process fails only when a tick does not
    fit in 64 bits. *)

From S2P Require Import Prelude Error Time Event Trace Mailbox Isa ControlCommand Image Memory Feedback.
From S2P Require Import Profile Protocol TimingControl Tcu Sync Pipeline Core Handshake.

(** ** Runs with a postcondition for success and one for failure *)
Definition triple {S A} (P : S -> Prop) (m : M S A) (Q : A -> S -> Prop) (F : ErrorCode -> Prop) : Prop :=
  forall s r s', P s -> m s = (r, s') -> match r with Ok a => Q a s' | Fault e => F e end.

Section Triples.
Context {S : Type}.

Lemma triple_ret {A} (a : A) (Q : A -> S -> Prop) F : triple (Q a) (m_ret a) Q F.
Proof. by intros s r s' H [= <- <-]. Qed.

Lemma triple_lift {A} (x : result A) (P : S -> Prop) (Q : A -> S -> Prop) (F : ErrorCode -> Prop) :
  (forall a s, x = Ok a -> P s -> Q a s) -> (forall e, x = Fault e -> F e) -> triple P (m_lift x) Q F.
Proof. intros Ha He s r s' H [= <- <-]. destruct x; auto. Qed.

Lemma triple_modify (f : S -> S) (Q : S -> Prop) F : triple (fun s => Q (f s)) (m_modify f) (fun _ => Q) F.
Proof. by intros s r s' H [= <- <-]. Qed.

Lemma triple_bind {A B} (m : M S A) (k : A -> M S B) P Q R F :
  triple P m Q F -> (forall a, triple (Q a) (k a) R F) -> triple P (m_bind m k) R F.
Proof.
  intros Hm Hk s r s' HP H. unfold m_bind in H. destruct (m s) as [[a|e] s1] eqn:E.
  - exact (Hk a _ _ _ (Hm _ _ _ HP E) H).
  - injection H as <- <-. exact (Hm _ _ _ HP E).
Qed.

Lemma triple_bind_gets {A B} (f : S -> A) (k : A -> M S B) P R F :
  (forall a, triple (fun s => P s /\ f s = a) (k a) R F) -> triple P (m_bind (m_gets f) k) R F.
Proof. intros Hk s r s' HP H. exact (Hk (f s) s r s' (conj HP eq_refl) H). Qed.

Lemma triple_weaken {A} (m : M S A) (P P' : S -> Prop) Q F :
  (forall s, P s -> P' s) -> triple P' m Q F -> triple P m Q F.
Proof. intros HP Hm s r s' H. apply Hm. by apply HP. Qed.

Lemma triple_preserves {A} (I : S -> Prop) (m : M S A) F : triple I m (fun _ => I) F -> preserves I m.
Proof. intros Hm s a s' HI H. exact (Hm s (Ok a) s' HI H). Qed.
End Triples.

(** ** One port *)
Definition overflow (e : ErrorCode) : Prop := e = TimeOverflow.

(** A port's mailboxes hold one message and are clocked by [c]. *)
Definition wired (c : Clock) (p : MemoryPort) : Prop :=
  exists rq rs, p = mkPort (mkMailbox 1 c 1 rq) (mkMailbox 1 c 1 rs).

Definition on_its_way (epoch : Epoch) (r : MemoryRequest) (s : MemorySlot) (p : MemoryPort) : Prop :=
  exists e, entries (requests p) = [e] /\ value e = r /\ env_epoch e = epoch /\ pending s = None /\
    entries (responses p) = [] /\ last_id s < mr_id r.
Definition in_progress (epoch : Epoch) (r : MemoryRequest) (s : MemorySlot) (p : MemoryPort) : Prop :=
  exists t, entries (requests p) = [] /\ pending s = Some (mkPending r t epoch) /\ entries (responses p) = [].
Definition answered (epoch : Epoch) (r : MemoryRequest) (s : MemorySlot) (p : MemoryPort) : Prop :=
  exists e, entries (requests p) = [] /\ pending s = None /\ entries (responses p) = [e] /\
    rs_id (value e) = mr_id r /\ env_epoch e = epoch.

(** The port of index [index] serves the request [o], or nothing. *)
Record serves (c : Clock) (epoch : Epoch) (index : Z) (next : Id) (o : option Id) (s : MemorySlot)
    (p : MemoryPort) : Prop := {
  sv_wired : wired c p;
  sv_next : 0 < next;
  sv_last : last_id s < next;
  sv_flight :
    match o with
    | None => entries (requests p) = [] /\ pending s = None /\ entries (responses p) = []
    | Some id =>
        exists r, mr_id r = id /\ 0 < id < next /\ mr_instruction r = (index =? 0) /\
          mr_instruction r && mr_write r = false /\
          (on_its_way epoch r s p \/ in_progress epoch r s p \/ answered epoch r s p)
    end }.

(** ** Overflow *)
Lemma add_overflow a b e : checked_add a b = Fault e -> overflow e.
Proof. intros H. by apply checked_add_fault in H as [_ ->]. Qed.

Lemma mul_overflow a b e : checked_mul a b = Fault e -> overflow e.
Proof.
  unfold checked_mul. intros H. apply result_bind_fault in H as [H|(? & _ & H)]; [|done].
  by apply require_fault in H as [_ ->].
Qed.

Lemma bind_overflow {A B} (m : result A) (k : A -> result B) e :
  result_bind m k = Fault e -> (forall e, m = Fault e -> overflow e) ->
  (forall a e, k a = Fault e -> overflow e) -> overflow e.
Proof. intros H Hm Hk. apply result_bind_fault in H as [H|(a & _ & H)]; [by apply Hm | by apply (Hk a)]. Qed.

Lemma clock_after_overflow c p l e :
  clock_validate c = Ok () -> 0 < l -> clock_after c p l = Fault e -> overflow e.
Proof.
  intros Hc Hl H. unfold clock_after in H. rewrite Hc in H. unfold require in H.
  rewrite (proj2 (Z.ltb_lt _ _) Hl) in H. simpl in H.
  apply (bind_overflow _ _ _ H); clear H.
  - intros e1 H. destruct (phase c <=? p); [|done]. apply (bind_overflow _ _ _ H); [apply add_overflow|].
    intros n e2 H2. apply (bind_overflow _ _ _ H2); [apply mul_overflow | intros ? ?; apply add_overflow].
  - intros t e1 H. apply (bind_overflow _ _ _ H); [apply mul_overflow | intros ? ?; apply add_overflow].
Qed.

Lemma publish_one c now epoch {X} (v : X) r m :
  clock_validate c = Ok () -> mailbox_publish now epoch v (mkMailbox 1 c 1 []) = (r, m) ->
  match r with
  | Ok _ => exists t, m = mkMailbox 1 c 1 [mkEnvelope now t epoch v]
  | Fault e => overflow e
  end.
Proof.
  intros Hc H. unfold mailbox_publish, m_bind, m_lift, mailbox_full in H. simpl in H.
  destruct (clock_after c now 1) as [t|e] eqn:E; injection H as <- <-; [by exists t|].
  by apply (clock_after_overflow c now 1).
Qed.

(** ** The memory's side *)
Section MemorySide.
Context {D : Type} (contains : Z -> bool) (access : MemoryRequest -> Tick -> Epoch -> M D (option Z)).
Context (c : Clock) (lat : Z) (now : Tick) (epoch : Epoch) (index : Z) (next : Id) (o : option Id).
Context (Hc : clock_validate c = Ok ()).

Definition port_served (v : PortView D) : Prop := serves c epoch index next o (pv_slot v) (pv_port v).

(** A device that fails and an address nothing answers at are responses, not failures. *)
Lemma perform_answers r v x v' :
  perform contains access r now epoch v = (x, v') ->
  pv_slot v' = pv_slot v /\ pv_port v' = pv_port v /\
  exists a, x = Ok a /\ forall response, a = Some response -> rs_id response = mr_id r.
Proof using Type.
  unfold perform. destruct (contains _).
  - destruct (access r now epoch (pv_device v)) as [y d]. destruct y as [[value|]|code]; intros [= <- <-];
      (split_and!; [done | done |]); eexists; (split; [done|]); intros response [=]; by subst.
  - destruct (mr_write r); [destruct (image_write _ _ _ _) | destruct (image_read _ _ _ _)]; intros [= <- <-];
      (split_and!; [done | done |]); eexists; (split; [done|]); intros response [=]; by subst.
Qed.

(** Nothing is left of a request that has been answered or has not been made. *)
Lemma step_rests v :
  pending (pv_slot v) = None -> entries (requests (pv_port v)) = [] ->
  step_port contains access c lat now epoch index v = (Ok (), v).
Proof using Type.
  destruct v as [image [pnd last] [[cap rx l rq] rs] dev]. simpl. intros -> ->.
  unfold step_port, finish_pending, m_bind, m_gets, accept_request, take_request, m_zoom, mailbox_take. simpl.
  destruct (mailbox_full rs); done.
Qed.

Lemma accept_served v r s e id req :
  port_served v -> o = Some id -> value e = req -> mr_id req = id -> 0 < id < next ->
  mr_instruction req = (index =? 0) -> mr_instruction req && mr_write req = false -> env_epoch e = epoch ->
  pv_slot v = mkSlot None (last_id (pv_slot v)) -> last_id (pv_slot v) < mr_id req ->
  pv_port v = mkPort (mkMailbox 1 c 1 [e]) (mkMailbox 1 c 1 []) ->
  step_port contains access c lat now epoch index v = (r, s) ->
  match r with Ok _ => port_served s | Fault code => overflow code end.
Proof using Type.
  destruct v as [image [pnd last] port dev]. intros Hv Ho Hval Hid Hrange Hindex Hkind Hepoch Hslot Hlast Hport H.
  simpl in *. injection Hslot as ->. subst port.
  unfold step_port, finish_pending in H. simpl in H. unfold m_bind, m_ret, m_gets in H. simpl in H.
  unfold accept_request, take_request, m_bind, m_zoom, mailbox_take, mailbox_peek in H. simpl in H.
  destruct (eligible e <=? now); [|injection H as <- <-; exact Hv]. simpl in H.
  rewrite Hepoch, Z.eqb_refl in H. simpl in H. unfold m_lift, m_modify, m_gets, require in H. rewrite Hval in H.
  rewrite (proj2 (Z.ltb_lt _ _) Hlast), (proj2 (Z.eqb_neq (mr_id req) 0)) in H by lia. simpl in H.
  rewrite Hkind, Hindex, Bool.eqb_reflx in H. simpl in H.
  destruct (checked_mul lat (period c)) as [d|e1] eqn:E1; [|injection H as <- _; by eapply mul_overflow].
  destruct (checked_add now d) as [t|e2] eqn:E2; [|injection H as <- _; by eapply add_overflow].
  injection H as <- <-. destruct Hv as [_ N L F]. unfold port_served. rewrite Ho. constructor; simpl; [by eexists _, _ | done | lia|].
  exists req. refine (conj Hid (conj Hrange (conj Hindex (conj Hkind (or_intror (or_introl _)))))). by exists t.
Qed.

Lemma finish_served v r s t id req :
  port_served v -> o = Some id -> mr_id req = id -> 0 < id < next ->
  mr_instruction req = (index =? 0) -> mr_instruction req && mr_write req = false ->
  pending (pv_slot v) = Some (mkPending req t epoch) ->
  pv_port v = mkPort (mkMailbox 1 c 1 []) (mkMailbox 1 c 1 []) ->
  step_port contains access c lat now epoch index v = (r, s) ->
  match r with Ok _ => port_served s | Fault code => overflow code end.
Proof using Hc.
  destruct v as [image [pnd last] port dev]. intros Hv Ho Hid Hrange Hindex Hkind Hslot Hport H.
  simpl in *. subst pnd port.
  destruct (Z.leb_spec t now) as [Hle|Hlt].
  2: { rewrite (step_wait _ _ _ _ _ _ _ _ (mkPending req t epoch)) in H by done. injection H as <- <-. exact Hv. }
  unfold step_port, finish_pending in H. simpl in H. unfold m_bind at 1 in H. simpl in H.
  rewrite (proj2 (Z.leb_le _ _) Hle) in H. simpl in H. rewrite Z.eqb_refl in H.
  unfold m_bind at 1 in H. destruct (perform _ _ req now epoch _) as [x v1] eqn:Ep.
  apply perform_answers in Ep as (Hs & Hp & a & -> & Ha). destruct v1 as [image' slot' port' dev']. simpl in *. subst slot' port'.
  destruct a as [response|]; [|unfold m_bind, m_ret in H; simpl in H; injection H as <- <-; exact Hv]. specialize (Ha response eq_refl).
  unfold publish_response, m_bind, m_zoom in H. simpl in H.
  destruct (mailbox_publish now epoch response (mkMailbox 1 c 1 [])) as [y m] eqn:E. apply publish_one in E; [|done].
  destruct y as [[]|code]; [|by injection H as <- _]. destruct E as (u & ->). simpl in H.
  unfold m_gets, m_ret in H. injection H as <- <-.
  destruct Hv as [_ N L F]. unfold port_served. rewrite Ho. constructor; simpl; [by eexists _, _ | done | done |].
  exists req. refine (conj Hid (conj Hrange (conj Hindex (conj Hkind (or_intror (or_intror _)))))).
  eexists. split_and!; done.
Qed.

Lemma step_served :
  triple port_served (step_port contains access c lat now epoch index) (fun _ => port_served) overflow.
Proof using Hc.
  intros v r s Hv H. pose proof Hv as [(rq & rs & Hport) N L F].
  assert (Hrest : pending (pv_slot v) = None -> rq = [] -> match r with Ok _ => port_served s | Fault code => overflow code end).
  { intros H1 ->. rewrite step_rests in H; [by injection H as <- <- | done | by rewrite Hport]. }
  destruct (pv_slot v) as [pnd last] eqn:Eslot. rewrite Hport in F.
  unfold on_its_way, in_progress, answered in F. destruct o as [id|] eqn:Eo; simpl in F.
  2: { destruct F as (-> & H2 & _). by apply Hrest. }
  destruct F as (req & H1 & H2 & H3 & H4 & [(e & -> & E2 & E3 & E4 & -> & E6) | [(t & -> & E2 & ->) | (e & -> & E2 & _)]]).
  - eapply (accept_served v r s e id req); try done; rewrite ?Eslot; try done. simpl in *. by subst pnd.
  - eapply (finish_served v r s t id req); try done. by rewrite Eslot.
  - by apply Hrest.
Qed.
End MemorySide.

(** ** The pipeline's side *)

(** The request a stage waits for. *)
Definition awaited (o : option Frame) : option Id :=
  match o with Some f => if memory_request f =? 0 then None else Some (memory_request f) | None => None end.

(** Only a load or store that has been evaluated waits for the data port. *)
Record accounted (f : Frame) : Prop := {
  af_effect : effect_ok f (fr_effect f);
  af_memory : memory_request f <> 0 ->
    bundle f = false /\ exists e, fr_effect f = Some e /\ memory e <> MemNone }.

Record cpu_served (c : Clock) (epoch : Epoch) (fetch data : MemorySlot) (p : InOrderPipeline)
    (fetch_port data_port : MemoryPort) : Prop := {
  cs_fetch : serves c epoch 0 (next_fetch p) (ft_id <$> fetch_request p) fetch fetch_port;
  cs_data : serves c epoch 1 (next_data p) (awaited (execute_ p)) data data_port;
  cs_new : forall f, fetched_ p = Some f \/ decode_ p = Some f -> exists id pc w fault, f = frame_new id pc w fault;
  cs_one : forall f, fetched_ p = Some f -> fetch_request p = None;
  cs_execute : forall f, execute_ p = Some f -> accounted f }.

Section OnePort.
Context (c : Clock) (epoch : Epoch) (index : Z) (Hc : clock_validate c = Ok ()).

Lemma serves_take now next o s p e m :
  serves c epoch index next o s p -> mailbox_take now (responses p) = (Ok (Some e), m) ->
  o = Some (rs_id (value e)) /\ env_epoch e = epoch /\
  serves c epoch index next None s (p <| responses := m |>).
Proof using Type.
  intros [(rq & rs & ->) N L F] H. unfold mailbox_take, mailbox_peek in H. simpl in H.
  unfold on_its_way, in_progress, answered in F. simpl in F. destruct o as [id|].
  2: { by destruct F as (_ & _ & ->). }
  destruct F as (r & <- & _ & _ & _ & [(? & _ & _ & _ & _ & -> & _)|[(? & _ & _ & ->)|(e' & -> & E2 & -> & E4 & E5)]]); [done..|].
  destruct (eligible e' <=? now); [|done]. injection H as -> <-. split; [by rewrite E4|]. split; [done|].
  constructor; simpl; [by eexists _, _ | done..].
Qed.

Lemma serves_publish now next s p r u m :
  serves c epoch index next None s p -> mailbox_publish now epoch r (requests p) = (Ok u, m) ->
  mr_id r = next -> mr_instruction r = (index =? 0) -> mr_instruction r && mr_write r = false ->
  serves c epoch index (next + 1) (Some next) s (p <| requests := m |>).
Proof using Hc.
  intros [(rq & rs & ->) N L (F1 & F2 & F3)] H Hid Hi Hk. simpl in *. subst rq rs.
  apply publish_one in H; [|done]. destruct H as (t & ->).
  constructor; simpl; [by eexists _, _ | lia | lia |]. exists r. split_and!; try done; [lia..|].
  left. eexists. split_and!; try done. simpl. lia.
Qed.
End OnePort.

Section PipelineSide.
Context {E : Type} (control : ControlOperation -> M (Trace * E) (option Z)).
Context (c : Clock) (now : Tick) (epoch : Epoch) (fetch data : MemorySlot) (Hc : clock_validate c = Ok ()).
#[local] Abbreviation World := (PipelineWorld E).
#[local] Abbreviation runs P m Q := (triple P m Q (fun _ => True)).

Definition ports_served (w : World) : Prop := cpu_served c epoch fetch data (pw_cpu w) (pw_fetch w) (pw_data w).

(** An update that neither side of a port looks at. *)
Definition indifferent (f : InOrderPipeline -> InOrderPipeline) : Prop := forall p,
  next_fetch (f p) = next_fetch p /\ next_data (f p) = next_data p /\ fetch_request (f p) = fetch_request p /\
  fetched_ (f p) = fetched_ p /\ decode_ (f p) = decode_ p /\ execute_ (f p) = execute_ p.

Lemma served_ext p p' pf pd :
  cpu_served c epoch fetch data p pf pd ->
  next_fetch p' = next_fetch p -> next_data p' = next_data p -> fetch_request p' = fetch_request p ->
  fetched_ p' = fetched_ p -> decode_ p' = decode_ p -> execute_ p' = execute_ p ->
  cpu_served c epoch fetch data p' pf pd.
Proof using Type. intros [H1 H2 H3 H4 H5] E1 E2 E3 E4 E5 E6. constructor; by rewrite ?E1, ?E2, ?E3, ?E4, ?E5, ?E6. Qed.

Lemma served_modify f : indifferent f -> preserves ports_served (modify_cpu f).
Proof using Type.
  intros Hf w a w' Hw H. apply m_modify_ok in H as ->. destruct (Hf (pw_cpu w)) as (E1 & E2 & E3 & E4 & E5 & E6).
  by apply (served_ext (pw_cpu w)).
Qed.

Lemma served_emit e : preserves ports_served (cpu_emit e).
Proof using Type. by apply preserves_keeps, keeps_zoom. Qed.

Lemma served_call o : preserves ports_served (call_control control o).
Proof using Type. by apply preserves_keeps, keeps_zoom. Qed.

Lemma served_sample : preserves ports_served (sample now epoch).
Proof using Type. unfold sample. cbv zeta. preserve_steps; [apply served_emit | by apply served_modify]. Qed.

(** *** Fetch *)
Lemma served_receive : preserves ports_served (receive_fetch now epoch).
Proof using Type.
  intros w a w' Hw H. unfold receive_fetch in H. apply m_bind_ok in H as (o & w1 & H1 & H).
  apply m_zoom_ok in H1 as (m & Ht & ->). destruct o as [e|].
  2: { apply m_ret_ok in H as [_ ->]. apply take_entries in Ht as ->. destruct w as [cpu [rq rs] d t env]. exact Hw. }
  destruct Hw as [F1 F2 F3 F4 F5]. destruct (serves_take _ _ _ _ _ _ _ _ _ _ F1 Ht) as (Hf & He & Hs).
  rewrite He, Z.eqb_refl in H. cbn [negb] in H. apply m_bind_ok in H as (p & s & H1 & H). apply m_gets_ok in H1 as [-> ->].
  simpl in H. destruct (fetch_request (pw_cpu w)) as [f|] eqn:Ef; [|discriminate Hf].
  apply m_bind_lift_ok in H as (? & _ & H). apply m_bind_ok in H as (? & w2 & H1 & H). apply m_modify_ok in H as ->.
  destruct (_ && negb _).
  - apply m_bind_lift_ok in H1 as (? & _ & H1). apply m_modify_ok in H1 as ->.
    constructor; simpl; [done | done | | done | done]. intros g [[= <-]|Hg]; [by eexists _, _, _, _ | by apply F3; right].
  - apply m_ret_ok in H1 as [_ ->]. by constructor.
Qed.

Lemma served_fetch : preserves ports_served (fetch_stage now epoch).
Proof using Hc.
  intros w a w' Hw H. unfold fetch_stage in H. apply m_bind_ok in H as (p & s & H1 & H). apply m_gets_ok in H1 as [-> ->].
  apply m_bind_ok in H as (full & s & H1 & H). apply m_gets_ok in H1 as [-> ->].
  pose proof Hw as [F1 F2 F3 F4 F5].
  destruct (fetch_request (pw_cpu w)) as [f|] eqn:Ef; [by apply m_ret_ok in H as [_ ->]|].
  destruct (fetched_ (pw_cpu w)) as [g|] eqn:Eg; [by apply m_ret_ok in H as [_ ->]|].
  destruct (mailbox_full _); [by apply m_ret_ok in H as [_ ->]|].
  apply m_bind_lift_ok in H as (next & Hn & H). apply checked_add_ok in Hn as [_ ->].
  apply m_bind_ok in H as (? & w1 & H1 & H). apply m_modify_ok in H1 as ->.
  apply m_bind_ok in H as (? & w2 & H1 & H). apply m_zoom_ok in H1 as (m & Hp & ->). apply m_modify_ok in H as ->.
  simpl in Hp. constructor; simpl; try done; [by eapply serves_publish | by rewrite Eg in * | by rewrite Eg].
Qed.
(** *** Execute *)

(** The instruction leaves the execute stage. *)
Definition finish_frame (w : World) : World := w <| pw_cpu ::= fun p => p <| execute_ := None |> |>.
Definition data_idle (w : World) : Prop := ports_served w /\ awaited (execute_ (pw_cpu w)) = None.

Lemma idle_finish w : data_idle w -> ports_served (finish_frame w).
Proof using Type.
  intros [[F1 F2 F3 F4 F5] Hidle]. rewrite Hidle in F2. by constructor.
Qed.

Lemma idle_call o : preserves data_idle (call_control control o).
Proof using Type. by apply preserves_keeps, keeps_zoom. Qed.

Lemma idle_modify f : indifferent f -> preserves data_idle (modify_cpu f).
Proof using Type.
  intros Hf w a w' [Hw Hi] H. split; [by apply (served_modify f Hf _ _ _ Hw H)|]. apply m_modify_ok in H as ->.
  destruct (Hf (pw_cpu w)) as (_ & _ & _ & _ & _ & E6). simpl. by rewrite E6.
Qed.

(** The frame in the execute stage, updated. *)
Lemma served_execute (g : Frame -> Frame) w :
  ports_served w -> (forall f, memory_request (g f) = memory_request f) ->
  (forall f, execute_ (pw_cpu w) = Some f -> accounted (g f)) ->
  ports_served (w <| pw_cpu ::= fun p => p <| execute_ ::= option_map g |> |>).
Proof using Type.
  intros [F1 F2 F3 F4 F5] Hm Ha. constructor; simpl; [done | | done | done |].
  - destruct (execute_ (pw_cpu w)) as [f|]; [|done]. simpl in *. by rewrite Hm.
  - intros f' H. destruct (execute_ (pw_cpu w)) as [f|]; [|done]. injection H as <-. by apply Ha.
Qed.

Lemma idle_lane : preserves data_idle (modify_execute (fun f => f <| completed_lanes ::= fun n => n + 1 |>)).
Proof using Type.
  intros w a w' [Hw Hi] H. apply m_modify_ok in H as ->. split.
  - apply served_execute; [done | done|]. intros f Hf. destruct Hw as [_ _ _ _ F5]. by destruct (F5 f Hf) as [A1 A2].
  - simpl. by destruct (execute_ (pw_cpu w)).
Qed.

Lemma idle_lanes l : preserves data_idle (issue_lanes control l).
Proof using Type.
  induction l as [|o l IH]; simpl; preserve_steps; [apply idle_call | apply idle_lane | exact IH].
Qed.

(** What a step of the execute stage leaves: the instruction completes and nothing waits for the data
    port any more, or it stays. *)
Definition frame_post (r : option (Z * Z * bool)) (w : World) : Prop :=
  match r with Some _ => ports_served (finish_frame w) | None => ports_served w end.

Lemma idle_post r w : data_idle w -> frame_post r w.
Proof using Type. intros Hw. destruct r; [by apply idle_finish | by destruct Hw]. Qed.

(** A load or store in the execute stage, with the effect [e]. *)
Definition accessing (frame : Frame) (e : Effect) (w : World) : Prop :=
  ports_served w /\ exists f, execute_ (pw_cpu w) = Some f /\ memory_request f = memory_request frame /\
    bundle f = false /\ fr_effect f = Some e.

Lemma memory_served frame e w r w' :
  memory e <> MemNone -> accessing frame e w -> execute_memory now epoch frame e w = (Ok r, w') ->
  match r with Some _ => ports_served (finish_frame w') | None => ports_served w' end.
Proof using Hc.
  intros He (Hw & f & Hf & Hm & Hb & Heff) H. pose proof Hw as [F1 F2 F3 F4 F5]. unfold execute_memory in H.
  rewrite Hf in F2. simpl in F2. rewrite Hm in F2. destruct (memory_request frame =? 0).
  - apply m_bind_ok in H as (full & s & H1 & H). apply m_gets_ok in H1 as [-> ->].
    destruct (mailbox_full _); [by apply m_ret_ok in H as [-> ->]|].
    apply m_bind_ok in H as (p & s & H1 & H). apply m_gets_ok in H1 as [-> ->].
    apply m_bind_lift_ok in H as (next & Hn & H). apply checked_add_ok in Hn as [_ ->].
    apply m_bind_ok in H as (? & w1 & H1 & H). apply m_modify_ok in H1 as ->.
    apply m_bind_ok in H as (? & w2 & H1 & H). apply m_zoom_ok in H1 as (m & Hp & ->).
    apply m_bind_ok in H as (? & w3 & H1 & H). apply m_modify_ok in H1 as ->. apply m_ret_ok in H as [-> ->].
    simpl in Hp. pose proof (sv_next _ _ _ _ _ _ _ F2) as Hnext.
    constructor; simpl; [done | | done | done |]; rewrite Hf; simpl.
    + rewrite (proj2 (Z.eqb_neq _ _)) by lia. by eapply serves_publish.
    + intros f' [= <-]. destruct (F5 f Hf) as [A1 A2]. constructor; simpl; [done|]. intros _. split; [done|]. by exists e.
  - apply m_bind_ok in H as (o & w1 & H1 & H). apply m_zoom_ok in H1 as (m & Ht & ->). destruct o as [d|].
    2: { apply m_ret_ok in H as [-> ->]. apply take_entries in Ht as ->. by destruct w as [cpu fp [rq rs] t env]. }
    destruct (serves_take _ _ _ _ _ _ _ _ _ _ F2 Ht) as (_ & _ & Hs).
    apply m_bind_lift_ok in H as (? & _ & H). destruct (rs_fault (value d)); [discriminate H|].
    assert (Hpost : ports_served (finish_frame (w <| pw_data ::= fun p => p <| responses := m |> |>))) by (by constructor).
    destruct (sign_extend_load e).
    + apply m_bind_lift_ok in H as (? & _ & H). by apply m_ret_ok in H as [-> ->].
    + by apply m_ret_ok in H as [-> ->].
Qed.

(** The effect is computed once and kept in the frame. *)
Lemma effect_served frame d (m : M World Effect) :
  bundle frame = false -> fr_decoded frame = Some d ->
  m = match fr_effect frame with
      | Some e => m_ret e
      | None => let! e := m_lift (evaluate d (fr_pc frame) (fr_lhs frame) (fr_rhs frame)) in
                do! modify_execute (fun f => f <| fr_effect := Some e |>) in m_ret e
      end ->
  runs (fun w => ports_served w /\ execute_ (pw_cpu w) = Some frame) m
       (fun e w => accessing frame e w).
Proof using Type.
  intros Hb Hd -> w r w' [Hw Hf] H. destruct (fr_effect frame) as [e|] eqn:Ee.
  - injection H as <- <-. split; [done|]. by exists frame.
  - destruct r as [e|]; [|done]. apply m_bind_lift_ok in H as (e' & He & H).
    apply m_bind_ok in H as (? & w1 & H1 & H). apply m_modify_ok in H1 as ->. apply m_ret_ok in H as [-> ->].
    split.
    + apply served_execute; [done | done|]. intros f Hf'. rewrite Hf in Hf'. injection Hf' as <-.
      destruct Hw as [_ _ _ _ F5]. destruct (F5 frame Hf) as [A1 A2]. constructor; simpl; [by exists d|].
      intros Hm. destruct (A2 Hm) as (_ & e & Ee' & _). by rewrite Ee in Ee'.
    + simpl. rewrite Hf. simpl. eexists. by split_and!.
Qed.
(** An instruction that makes no memory access waits for nothing. *)
Lemma accounted_idle frame d w :
  ports_served w -> execute_ (pw_cpu w) = Some frame -> accounted frame -> fr_decoded frame = Some d ->
  bundle frame = true \/ op d = Quantum \/ op d = Ecall -> data_idle w.
Proof using Type.
  intros Hw Hf [A1 A2] Hd Hop. split; [done|]. rewrite Hf. simpl.
  destruct (Z.eqb_spec (memory_request frame) 0) as [|Hm]; [done|]. destruct (A2 Hm) as (Hb & e & Ee & Hne).
  rewrite Ee in A1. destruct A1 as (d' & Hd' & Hev). rewrite Hd in Hd'. injection Hd' as <-.
  apply evaluate_memory in Hev. destruct Hop as [Hop|[Hop|Hop]]; [by rewrite Hb in Hop | rewrite Hop in Hev; done..].
Qed.

Lemma effect_idle frame e w :
  accessing frame e w -> memory e = MemNone -> data_idle w.
Proof using Type.
  intros (Hw & f & Hf & _ & _ & Ee) He. split; [done|]. rewrite Hf. simpl. destruct Hw as [_ _ _ _ F5].
  destruct (Z.eqb_spec (memory_request f) 0) as [|Hm]; [done|]. destruct (af_memory f (F5 f Hf) Hm) as (_ & e' & Ee' & Hne).
  rewrite Ee in Ee'. by injection Ee' as <-.
Qed.

Lemma rest_served frame d w r w' :
  ports_served w -> execute_ (pw_cpu w) = Some frame -> fr_decoded frame = Some d -> bundle frame = false ->
  (let! e := match fr_effect frame with
             | Some e => m_ret e
             | None => let! e := m_lift (evaluate d (fr_pc frame) (fr_lhs frame) (fr_rhs frame)) in
                       do! modify_execute (fun f => f <| fr_effect := Some e |>) in m_ret e
             end in
   match memory e with
   | MemNone => m_ret (Some (eff_value e, next_pc e, branch_taken e))
   | _ =>
       let! v := execute_memory now epoch frame e in
       m_ret (match v with Some v => Some (v, next_pc e, false) | None => None end)
   end) w = (Ok r, w') -> frame_post r w'.
Proof using Hc.
  intros Hw Hf Hd Hb H. apply m_bind_ok in H as (e & w1 & H1 & H).
  apply (effect_served frame d _ Hb Hd eq_refl _ _ _ (conj Hw Hf)) in H1.
  assert (Hmem : memory e <> MemNone ->
    (let! v := execute_memory now epoch frame e in
     m_ret (match v with Some v => Some (v, next_pc e, false) | None => None end)) w1 = (Ok r, w') -> frame_post r w').
  { intros Hne K. apply m_bind_ok in K as (v & w2 & K1 & K). apply (memory_served frame e) in K1; [|done..].
    apply m_ret_ok in K as [-> ->]. by destruct v. }
  destruct (memory e) eqn:Em; [|by apply Hmem..]. apply m_ret_ok in H as [-> ->].
  apply idle_post. by apply (effect_idle frame e).
Qed.

Lemma frame_served frame d w r w' :
  ports_served w -> execute_ (pw_cpu w) = Some frame -> fr_decoded frame = Some d ->
  execute_frame control now epoch frame d w = (Ok r, w') -> frame_post r w'.
Proof using Hc.
  intros Hw Hf Hd H. pose proof (cs_execute _ _ _ _ _ _ _ Hw frame Hf) as Ha. unfold execute_frame in H. cbv zeta in H.
  destruct (bundle frame) eqn:Hb.
  { apply m_bind_ok in H as (b & w1 & H1 & H). apply m_ret_ok in H as [-> ->]. apply idle_post.
    apply (idle_lanes _ _ _ _ (accounted_idle frame d w Hw Hf Ha Hd (or_introl Hb)) H1). }
  destruct (bool_decide_reflect (op d = Quantum)) as [Hq|Hq].
  { apply m_bind_lift_ok in H as (o & _ & H). apply m_bind_ok in H as (b & w1 & H1 & H).
    apply m_ret_ok in H as [-> ->]. apply idle_post.
    apply (idle_call _ _ _ _ (accounted_idle frame d w Hw Hf Ha Hd (or_intror (or_introl Hq))) H1). }
  apply m_bind_ok in H as (p & s & H1 & H). apply m_gets_ok in H1 as [-> ->].
  destruct (bool_decide_reflect (op d = Ecall)) as [He|He]; [|cbn [andb] in H]; [destruct (_ =? 93)|]; cbn [andb] in H.
  - apply m_bind_ok in H as (b & w1 & H1 & H).
    apply (idle_call _ _ _ _ (accounted_idle frame d w Hw Hf Ha Hd (or_intror (or_intror He)))) in H1.
    destruct b; [|apply m_ret_ok in H as [-> ->]; by apply idle_post].
    apply m_bind_ok in H as (? & w2 & H2 & H). apply m_ret_ok in H as [-> ->]. apply idle_post.
    by apply (idle_modify (fun p => p <| halted_ := true |>) ltac:(done) _ _ _ H1 H2).
  - eapply rest_served; try done.
  - eapply rest_served; try done.
Qed.
Lemma execute_served : preserves ports_served (execute_stage control now epoch).
Proof using Hc.
  intros w a w' Hw H. unfold execute_stage in H. apply m_bind_ok in H as (p & s & H1 & H). apply m_gets_ok in H1 as [-> ->].
  destruct (execute_ (pw_cpu w)) as [frame|] eqn:Hf; [|by apply m_ret_ok in H as [_ ->]].
  destruct (fr_fault frame); [discriminate H|]. destruct (fr_decoded frame) as [d|] eqn:Hd; [|discriminate H].
  apply m_bind_ok in H as (r & w1 & H1 & H). apply (frame_served frame d _ _ _ Hw Hf Hd) in H1.
  destruct r as [[[v next] flush]|]; apply m_bind_ok in H as (? & w2 & H2 & H).
  2: { apply m_ret_ok in H as [_ ->]. by apply served_emit in H2. }
  apply m_bind_ok in H as (? & w3 & H3 & H). apply m_modify_ok in H3 as ->. apply m_ret_ok in H as [_ ->].
  assert (Hret : preserves (fun w => ports_served (finish_frame w)) (retire frame d v next now epoch)).
  { unfold retire. preserve_steps.
    - intros w0 u w0' Hw0 K. apply m_modify_ok in K as ->. by apply (served_ext (pw_cpu (finish_frame w0))).
    - by apply preserves_keeps, keeps_zoom. }
  exact (Hret _ _ _ H1 H2).
Qed.

(** *** The other stages *)
Lemma served_flush : preserves ports_served (flush_stage now epoch).
Proof using Type.
  unfold flush_stage. preserve_steps; [| by apply served_modify | apply served_emit].
  intros w x w' [F1 F2 F3 F4 F5] H. apply m_modify_ok in H as ->. constructor; simpl; try done. by intros f [|].
Qed.

Lemma accounted_enter p f :
  (exists id pc w fault, f = frame_new id pc w fault) ->
  accounted (enter_execute p f) /\ memory_request (enter_execute p f) = 0.
Proof using Type.
  intros (id & pc & w & fault & ->). unfold enter_execute, decode_frame. destruct fault as [code|]; simpl.
  { split; [|done]. by constructor. }
  destruct (_ && _); [destruct (decode_cw_bundle _ _ _) | destruct (decode _)]; simpl; (split; [|done]); by constructor.
Qed.

Lemma served_decode p pf pd :
  cpu_served c epoch fetch data p pf pd -> cpu_served c epoch fetch data (decode_stage p) pf pd.
Proof using Type.
  intros [F1 F2 F3 F4 F5]. unfold decode_stage. destruct (execute_ p) eqn:Ee; [by constructor; rewrite ?Ee|].
  destruct (decode_ p) as [f|] eqn:Ed; [|by constructor; rewrite ?Ee, ?Ed].
  destruct (accounted_enter p f) as [Ha Hm]; [apply F3; by right|].
  constructor; simpl; [done | by rewrite Hm | | done | by intros g [= <-]]. intros g [Hg|Hg]; [|done]. apply F3. by left.
Qed.

Lemma served_advance p pf pd :
  cpu_served c epoch fetch data p pf pd -> cpu_served c epoch fetch data (fetched_stage p) pf pd.
Proof using Type.
  intros [F1 F2 F3 F4 F5]. unfold fetched_stage. destruct (decode_ p) eqn:Ed; [by constructor; rewrite ?Ed|].
  destruct (fetched_ p) as [f|] eqn:Ef; [|by constructor; rewrite ?Ed, ?Ef].
  constructor; simpl; try done. intros g [Hg|Hg]; [done|]. apply F3. by left.
Qed.

Lemma pipeline_served : preserves ports_served (pipeline_step control now epoch).
Proof using Hc.
  unfold pipeline_step. preserve_steps;
    first [apply served_receive | apply served_sample | apply execute_served | apply served_flush | apply served_fetch | idtac].
  intros w x w' Hw H. apply m_modify_ok in H as ->. by apply served_advance, served_decode.
Qed.
End PipelineSide.

(** ** The processes of a core *)

(** The memory's clock is the clock of its ports, and both ports are served. *)
Record core_served (epoch : Epoch) (k : Core) : Prop := {
  ks_valid : clock_validate (mem_clock (co_memory k)) = Ok ();
  ks_clock : mem_clock (co_memory k) = cpu_clock (co_profile k);
  ks_ports : cpu_served (mem_clock (co_memory k)) epoch (fetch_slot (co_memory k)) (data_slot (co_memory k))
    (co_cpu k) (fetch_port k) (data_port k) }.

(** What [core_served] depends on. *)
Definition port_parts (k : Core) : Profile * MemoryModel * InOrderPipeline * MemoryPort * MemoryPort :=
  (co_profile k, co_memory k, co_cpu k, fetch_port k, data_port k).

Lemma core_served_ext epoch k k' : core_served epoch k -> port_parts k' = port_parts k -> core_served epoch k'.
Proof. unfold port_parts. intros [H1 H2 H3] [= E0 E1 E2 E3 E4]. constructor; by rewrite ?E0, ?E1, ?E2, ?E3, ?E4. Qed.

Lemma core_served_zoom epoch {T A} (get : CoreWorld -> T) set (m : M T A) :
  (forall t w, port_parts (kw_core (set t w)) = port_parts (kw_core w)) ->
  preserves (fun w => core_served epoch (kw_core w)) (m_zoom get set m).
Proof.
  intros Hset. apply preserves_keeps, keeps_zoom. intros t w Hw. by apply (core_served_ext epoch (kw_core w)).
Qed.

Lemma cpu_edge_served validate now epoch :
  preserves (fun w => core_served epoch (kw_core w)) (cpu_edge validate now epoch).
Proof.
  unfold cpu_edge. apply preserves_identified. preserve_steps; [by apply core_served_zoom|].
  intros w x w' [Hc Hk Hw] H. apply m_zoom_ok in H as (v & H & ->).
  apply (pipeline_served _ _ now epoch _ _ Hc (cpu_view w) _ _ Hw) in H.
  unfold set_cpu_view. destruct (pw_env v) as [[control registers] links]. by constructor.
Qed.

Lemma links_served epoch {A} (m : M ControlLinks A) : preserves (fun w => core_served epoch (kw_core w)) (on_links m).
Proof. by apply core_served_zoom. Qed.

Lemma results_served now epoch : preserves (fun w => core_served epoch (kw_core w)) (take_results now epoch).
Proof.
  intros w a w' Hw H. unfold take_results in H. destruct (take_loop _ _ _ _ _) as [r [w1 results]] eqn:E.
  injection H as _ <-. revert E.
  apply (keeps_take_loop (fun s : CoreWorld * list Completion => core_served epoch (kw_core (fst s)))); [| | exact Hw].
  - intros b s Hs. by apply (core_served_ext epoch (kw_core (fst s))).
  - intros e. unfold take_result. keep_steps; [by apply keeps_modify|].
    apply (keeps_focus (fun w => core_served epoch (kw_core w)) fst); [done|]. by apply keeps_zoom.
Qed.

(** The unit's process reaches neither the ports nor what is behind them. *)
Lemma tcu_edge_served preflight now epoch :
  preserves (fun w => core_served epoch (kw_core w)) (tcu_edge preflight now epoch).
Proof.
  unfold tcu_edge, reply_admitted, receive_closure, core_emit. cbv zeta. apply preserves_identified.
  preserve_steps;
    first [apply results_served | apply links_served
          | apply preserves_each; intros ?; apply links_served | by apply core_served_zoom].
Qed.

Section MemoryEdge.
Context {D : Type} (contains : Z -> bool) (access : MemoryRequest -> Tick -> Epoch -> M D (option Z)).
Context (now : Tick) (epoch : Epoch).

Lemma memory_edge_served :
  triple (fun s : Core * D => core_served epoch (fst s) /\ clock_edge (cpu_clock (co_profile (fst s))) now = true)
    (memory_edge contains access now epoch) (fun _ s => core_served epoch (fst s)) overflow.
Proof using Type.
  intros [k d] r [k' d'] [[Hv Hk [F1 F2 F3 F4 F5]] Hedge] H. simpl in *. rewrite <-Hk in Hedge.
  unfold memory_edge, memory_step in H. unfold m_zoom at 1, m_bind, m_gets, m_lift in H. simpl in H.
  rewrite Hedge in H. simpl in H. unfold m_zoom at 1 in H.
  destruct (step_port _ _ _ _ _ _ _ _) as [r1 v1] eqn:E1.
  apply (step_served contains access _ _ _ _ _ (next_fetch (co_cpu k)) (ft_id <$> fetch_request (co_cpu k)) Hv) in E1; [|exact F1].
  destruct r1 as [[]|code]; [|by injection H as <- _ _]. unfold m_zoom in H. simpl in H.
  destruct (step_port _ _ _ _ _ _ _ _) as [r2 v2] eqn:E2.
  apply (step_served contains access _ _ _ _ _ (next_data (co_cpu k)) (awaited (execute_ (co_cpu k))) Hv) in E2; [|exact F2].
  injection H as <- <- _. destruct r2 as [[]|code]; [|done]. by constructor.
Qed.

Lemma memory_edge_preserves : preserves (fun s : Core * D => core_served epoch (fst s)) (memory_edge contains access now epoch).
Proof using Type.
  intros s a s' Hs H. assert (Hedge : clock_edge (cpu_clock (co_profile (fst s))) now = true).
  { destruct Hs as [_ <- _]. unfold memory_edge in H. apply m_zoom_ok in H as (v & H & _). unfold memory_step in H.
    apply m_bind_ok in H as (m & w & H1 & H). apply m_gets_ok in H1 as [-> ->].
    apply m_bind_lift_ok in H as (? & H1 & _). by apply require_ok in H1. }
  exact (memory_edge_served s _ _ (conj Hs Hedge) H).
Qed.
End MemoryEdge.

Lemma deliver_served now epoch completion : preserves (core_served epoch) (core_deliver now epoch completion).
Proof.
  unfold core_deliver. preserve_steps; apply preserves_keeps, keeps_zoom; intros l k Hk; by apply (core_served_ext epoch k).
Qed.

(** ** Sessions *)

(** Empty ports and an empty pipeline. *)
Lemma start_served c epoch p :
  next_fetch p = 1 -> next_data p = 1 -> fetch_request p = None -> fetched_ p = None -> decode_ p = None ->
  execute_ p = None ->
  cpu_served c epoch empty_slot empty_slot p (mkPort (mkMailbox 1 c 1 []) (mkMailbox 1 c 1 []))
    (mkPort (mkMailbox 1 c 1 []) (mkMailbox 1 c 1 [])).
Proof.
  assert (Hs : forall index, serves c epoch index 1 None empty_slot (mkPort (mkMailbox 1 c 1 []) (mkMailbox 1 c 1 []))).
  { intros index. constructor; simpl; [by eexists _, _ | lia | lia | done]. }
  intros E1 E2 E3 E4 E5 E6. constructor; rewrite ?E1, ?E2, ?E3, ?E4, ?E5, ?E6; try done. by intros f [|].
Qed.

Lemma reset_served epoch epoch' now c u c' :
  core_served epoch c -> core_reset now c = (Ok u, c') -> core_served epoch' c'.
Proof.
  intros Hs H. rewrite core_reset_eq in H. apply m_bind_ok in H as (? & c1 & H1 & H). apply m_modify_ok in H1 as E1.
  assert (P1 : core_served epoch' c1).
  { subst c1. destruct Hs as [Hv Hk [F1 F2 _ _ _]]. constructor; [exact Hv | exact Hk|]. simpl.
    destruct (sv_wired _ _ _ _ _ _ _ F1) as (rq & rs & ->), (sv_wired _ _ _ _ _ _ _ F2) as (rq' & rs' & ->).
    by apply start_served. }
  apply m_bind_ok in H as (? & c2 & H2 & H). apply m_modify_ok in H as ->. apply m_zoom_ok in H2 as (t & _ & ->).
  by apply (core_served_ext epoch' c1).
Qed.

(** A CPU as the factories of the repository build it. *)
Definition repository_cpu (config : CoreConfig) : Prop := forall clk entry p,
  make_cpu (cc_factory config) clk entry = Some p -> exists issue, p = pipeline_new clk entry issue.

Lemma port_new_ok c p : port_new c = Ok p -> p = mkPort (mkMailbox 1 c 1 []) (mkMailbox 1 c 1 []).
Proof. unfold port_new, mailbox_new. intros H. inv_ok H. done. Qed.

Lemma new_served show epoch config identify c :
  repository_cpu config -> core_new show config identify = Ok c -> core_served epoch c.
Proof.
  intros Hcpu H. unfold core_new in H. cbv zeta in H. apply result_bind_ok in H as (? & _ & H).
  apply result_bind_ok in H as (? & _ & H).
  apply result_bind_ok in H as (fetch & ->%port_new_ok & H). apply result_bind_ok in H as (data & ->%port_new_ok & H).
  apply result_bind_ok in H as (mem & Hm & H). do 3 apply result_bind_ok in H as (? & _ & H).
  destruct (make_cpu _ _ _) as [cpu|] eqn:E; [|done]. apply Ok_inj in H as <-. apply Hcpu in E as (issue & ->).
  unfold memory_new in Hm. apply result_bind_ok in Hm as ([] & Hv & Hm). apply result_bind_ok in Hm as (? & _ & Hm).
  apply Ok_inj in Hm as <-. constructor; simpl; [done | done | by apply start_served].
Qed.

Lemma reachable_served show epoch c : core_reachable show repository_cpu epoch c -> core_served epoch c.
Proof.
  induction 1.
  - by eapply new_served.
  - by eapply (cpu_edge_served validate now epoch (mkCoreWorld c network trace)).
  - by eapply (memory_edge_preserves contains access now epoch (c, d) u (c', d')).
  - by eapply (tcu_edge_served preflight now epoch (mkCoreWorld c network trace)).
  - by eapply deliver_served.
  - by eapply reset_served.
Qed.

(** ** What the two sides find *)

(** The requests and responses at a port: waiting, in the memory's slot, and on the way back. *)
Definition port_load (s : MemorySlot) (p : MemoryPort) : nat :=
  length (entries (requests p)) + match pending s with Some _ => 1 | None => 0 end + length (entries (responses p)).

(** The checks of [step_port] on the message it takes. *)
Definition acceptable (epoch : Epoch) (index : Z) (s : MemorySlot) (m : Envelope MemoryRequest) : Prop :=
  env_epoch m = epoch /\ last_id s < mr_id (value m) /\ mr_id (value m) <> 0 /\
  mr_instruction (value m) = (index =? 0) /\ mr_instruction (value m) && mr_write (value m) = false.

Section Served.
Context (c : Clock) (epoch : Epoch) (index : Z) (next : Id) (o : option Id) (s : MemorySlot) (p : MemoryPort).
Context (H : serves c epoch index next o s p).

Lemma serves_load : (port_load s p <= 1)%nat.
Proof using H.
  destruct H as [_ _ _ F]. unfold port_load, on_its_way, in_progress, answered in *. destruct o as [id|].
  - destruct F as (r & _ & _ & _ & _ & [(? & -> & _ & _ & -> & -> & _)|[(? & -> & -> & ->)|(? & -> & -> & -> & _)]]); simpl; lia.
  - destruct F as (-> & -> & ->). simpl. lia.
Qed.

Lemma serves_acceptable now m : mailbox_peek (requests p) now = Some m -> acceptable epoch index s m.
Proof using H.
  destruct H as [_ _ _ F]. unfold mailbox_peek, on_its_way, in_progress, answered in *. intros Hm. destruct o as [id|].
  - destruct F as (r & <- & F1 & F2 & F3 & [(e & E & <- & E3 & _ & _ & E6)|[(? & E & _)|(? & E & _)]]); rewrite E in Hm; [|done..].
    destruct (eligible e <=? now); [|done]. injection Hm as <-. split_and!; try done. lia.
  - destruct F as (E & _). by rewrite E in Hm.
Qed.

Lemma serves_response now m :
  mailbox_peek (responses p) now = Some m -> o = Some (rs_id (value m)) /\ env_epoch m = epoch.
Proof using H.
  intros Hm. destruct (mailbox_take now (responses p)) as [r m'] eqn:E.
  pose proof E as E'. unfold mailbox_take in E'. rewrite Hm in E'. injection E' as <- _.
  by destruct (serves_take _ _ _ _ _ _ _ _ _ _ H E) as (? & ? & _).
Qed.
End Served.

(** C3. CPU and memory never disagree about a port.  In every state of a core that the processes of a
    simulation reach, each port has at most one request or response; a request the memory takes
    passes its checks (session, fresh identity, instruction or data, no store on the fetch port); a
    response of the fetch port answers the outstanding fetch, with the fetched stage free, and one of
    the data port the instruction in the execute stage; and the memory's process fails at no edge of
    its clock unless a tick does not fit in 64 bits, whatever the device behind it answers. *)
Theorem ports_agree show epoch c now :
  core_reachable show repository_cpu epoch c ->
  let m := co_memory c in let p := co_cpu c in
  (port_load (fetch_slot m) (fetch_port c) <= 1 /\ port_load (data_slot m) (data_port c) <= 1)%nat /\
  (forall e, mailbox_peek (requests (fetch_port c)) now = Some e -> acceptable epoch 0 (fetch_slot m) e) /\
  (forall e, mailbox_peek (requests (data_port c)) now = Some e -> acceptable epoch 1 (data_slot m) e) /\
  (forall e, mailbox_peek (responses (fetch_port c)) now = Some e ->
     env_epoch e = epoch /\ fetched_ p = None /\ exists f, fetch_request p = Some f /\ ft_id f = rs_id (value e)) /\
  (forall e, mailbox_peek (responses (data_port c)) now = Some e ->
     env_epoch e = epoch /\ exists f, execute_ p = Some f /\ memory_request f = rs_id (value e)) /\
  (forall D contains access (d : D) code s, clock_edge (cpu_clock (co_profile c)) now = true ->
     memory_edge contains access now epoch (c, d) = (Fault code, s) -> code = TimeOverflow).
Proof.
  intros Hs%reachable_served. pose proof Hs as [_ _ [F1 F2 F3 F4 F5]]. simpl. split_and!.
  - exact (serves_load _ _ _ _ _ _ _ F1).
  - exact (serves_load _ _ _ _ _ _ _ F2).
  - exact (serves_acceptable _ _ _ _ _ _ _ F1 now).
  - exact (serves_acceptable _ _ _ _ _ _ _ F2 now).
  - intros e He. destruct (serves_response _ _ _ _ _ _ _ F1 now e He) as [Ho Hepoch]. split; [done|].
    destruct (fetch_request (co_cpu c)) as [f|]; [|done]. injection Ho as Ho. split; [|by exists f].
    destruct (fetched_ (co_cpu c)) as [g|]; [|done]. by specialize (F4 g eq_refl).
  - intros e He. destruct (serves_response _ _ _ _ _ _ _ F2 now e He) as [Ho Hepoch]. split; [done|].
    destruct (execute_ (co_cpu c)) as [f|]; [|done]. exists f. split; [done|]. simpl in Ho.
    destruct (memory_request f =? 0); congruence.
  - intros D contains access d code s Hedge H. exact (memory_edge_served contains access now epoch (c, d) _ _ (conj Hs Hedge) H).
Qed.

(** ** Example: the first instruction of Handshake.v's program on its way to the pipeline *)
Definition fetched_word (now : Tick) (r : result Core) : option (Id * Z) :=
  match r with
  | Ok c => (fun m => (rs_id (value m), rs_value (value m))) <$> mailbox_peek (responses (fetch_port c)) now
  | Fault _ => None
  end.

Lemma ports_agree_witness :
  exists c m, handshake_after 3 = Ok c /\ mailbox_peek (responses (fetch_port c)) 15 = Some m /\
    rs_value (value m) = 0x5200b /\ env_epoch m = 1 /\
    exists f, fetch_request (co_cpu c) = Some f /\ ft_id f = 1.
Proof.
  assert (Hp : fetched_word 15 (handshake_after 3) = Some (1, 0x5200b)) by (vm_compute; reflexivity).
  unfold fetched_word in Hp. destruct (handshake_after 3) as [c|e] eqn:E; [|discriminate Hp].
  destruct (mailbox_peek (responses (fetch_port c)) 15) as [m|] eqn:Em; [|discriminate Hp]. injection Hp as Hi Hv.
  exists c, m. assert (Hcpu : repository_cpu handshake_config).
  { intros clk entry p Hp. unfold make_cpu in Hp. simpl in Hp. injection Hp as <-. by exists Scalar. }
  pose proof (ports_agree (fun _ => "0"%string) 1 c 15 (handshake_after_reachable repository_cpu 3 c Hcpu E)) as H.
  cbv zeta in H. destruct H as (_ & _ & _ & H & _). destruct (H m Em) as (He & _ & f & Hf & Hid). rewrite Hi in Hid.
  exact (conj eq_refl (conj Em (conj Hv (conj He (ex_intro _ f (conj Hf Hid)))))).
Defined.
