(* ===== verification/MemoryOrder.v ===== *)
(** * CPU and memory at one edge (src/core.cpp, src/memory.cpp, docs/simulation-model.md)

    The CPU and the memory of a core have the same clock, so that their processes always fall on the
    same ticks and SystemC may run either first.  A port is used by one of them at a time ([serves]): while
    the memory has something to do for it the CPU only waits, and a request the CPU makes is not
    readable yet.  This file proves that the order cannot be observed. *)

From S2P Require Import Prelude Error Time Event Trace Mailbox Isa ControlCommand Image Memory Feedback.
From S2P Require Import Profile Protocol TimingControl Tcu Sync Pipeline Core Handshake Ports Relate.

(** Nothing to receive at a port. *)
Definition silent (now : Tick) (p : MemoryPort) : Prop := mailbox_peek (responses p) now = None.

(** ** The CPU's step

    Two pipelines in the same state whose ports may differ where the CPU waits. *)
Section Pipeline.
Context {E : Type} (now : Tick) (epoch : Epoch) (control : ControlOperation -> M (Trace * E) (option Z)).
#[local] Abbreviation World := (PipelineWorld E).
(** The ports the memory works on, in the two runs. *)
Context (fetch data : option (MemoryPort * MemoryPort)).
Definition quiet_ports (b : option (MemoryPort * MemoryPort)) : Prop :=
  match b with Some (p, q) => silent now p /\ silent now q | None => True end.
Context (Hfetch : quiet_ports fetch) (Hdata : quiet_ports data).

Definition port_in_step (b : option (MemoryPort * MemoryPort)) (p q : MemoryPort) : Prop :=
  match b with
  | Some (p0, q0) => p = p0 /\ q = q0
  | None => p = q /\ unread now (entries (requests q))
  end.

Record in_step (s t : World) : Prop := {
  is_cpu : pw_cpu s = pw_cpu t;
  is_trace : pw_trace s = pw_trace t;
  is_env : pw_env s = pw_env t;
  is_fetch : port_in_step fetch (pw_fetch s) (pw_fetch t);
  is_data : port_in_step data (pw_data s) (pw_data t);
  is_fetching : fetch <> None -> fetch_request (pw_cpu t) <> None;
  is_waiting : data <> None -> exists f, execute_ (pw_cpu t) = Some f /\ accounted f /\ memory_request f <> 0 }.
#[local] Abbreviation P := in_step.

Lemma ps_modify f :
  (fetch <> None -> forall p, fetch_request p <> None -> fetch_request (f p) <> None) ->
  (data <> None -> forall p g, execute_ p = Some g -> execute_ (f p) = Some g) ->
  simulates P (modify_cpu f) (modify_cpu f).
Proof using Type.
  intros Hf Hd. apply sim_modify. intros s t [H1 H2 H3 H4 H5 H6 H7]. constructor; simpl; try done.
  - by rewrite H1.
  - intros Hn. by apply Hf, H6.
  - intros Hn. destruct (H7 Hn) as (g & Hg & Hr). exists g. split; [by apply Hd | done].
Qed.

Lemma ps_emit e : simulates P (cpu_emit e) (cpu_emit e).
Proof using Type. apply sim_zoom_same; [by intros s t [] | intros x s t [H1 H2 H3 H4 H5 H6 H7]; by constructor]. Qed.

Lemma ps_call o : simulates P (call_control control o) (call_control control o).
Proof using Type.
  apply sim_zoom_same; [by intros s t [_ -> -> _ _ _ _] | intros x s t [H1 H2 H3 H4 H5 H6 H7]; by constructor].
Qed.

Ltac ps_side := first [ by intros s t [] | done | by intros _ p; simpl | congruence ].
Ltac ps_steps := sim_steps; first [ apply ps_emit | apply ps_call | apply ps_modify; ps_side | ps_side | idtac ].

Lemma take_silent (b : Mailbox MemoryResponse) : mailbox_peek b now = None -> mailbox_take now b = (Ok None, b).
Proof using Type. unfold mailbox_take. by intros ->. Qed.

(** *** Fetch *)
Lemma ps_take_fetch : simulates P (take_fetch now) (take_fetch now).
Proof using Hfetch.
  unfold take_fetch. intros s t a s' HP H. pose proof HP as [H1 H2 H3 H4 H5 H6 H7]. unfold m_zoom in *.
  destruct s as [cpu [rq rs] pd tr env], t as [cpu' [rq' rs'] pd' tr' env']. simpl in *.
  destruct fetch as [[p0 q0]|] eqn:Ef; simpl in H4; destruct H4 as [E1 E2].
  - destruct Hfetch as [S1 S2]. rewrite <-E1 in S1. rewrite <-E2 in S2. unfold silent in S1, S2. simpl in S1, S2.
    rewrite (take_silent _ S1) in H. injection H as <- <-. rewrite (take_silent _ S2). by eexists.
  - injection E1 as -> ->. destruct (mailbox_take now rs') as [r m]. injection H as -> <-. eexists. split; [reflexivity|].
    by constructor; simpl; rewrite ?Ef.
Qed.

Lemma receive_silent (w : World) : silent now (pw_fetch w) -> receive_fetch now epoch w = (Ok (), w).
Proof using Type.
  destruct w as [cpu [rq rs] pd tr env]. unfold silent, receive_fetch, take_fetch, m_bind, m_zoom. simpl. intros Hs.
  by rewrite (take_silent _ Hs).
Qed.

(** Either of two runs in step waits at a port where one of them does. *)
Lemma busy_fetch s t : P s t -> fetch <> None -> silent now (pw_fetch s) /\ silent now (pw_fetch t).
Proof using Hfetch. intros [_ _ _ H _ _ _] Hn. destruct fetch as [[p q]|]; [|done]. simpl in *. by destruct H as [-> ->]. Qed.

Lemma busy_data s t : P s t -> data <> None -> silent now (pw_data s) /\ silent now (pw_data t).
Proof using Hdata. intros [_ _ _ _ H _ _] Hn. destruct data as [[p q]|]; [|done]. simpl in *. by destruct H as [-> ->]. Qed.

Lemma ps_receive : simulates P (receive_fetch now epoch) (receive_fetch now epoch).
Proof using Hfetch.
  destruct (decide (fetch = None)) as [E1|E1].
  - unfold receive_fetch. ps_steps; try apply ps_take_fetch; apply ps_modify; by first [congruence | done].
  - intros s t a s' HP H. destruct (busy_fetch s t HP E1) as [Hs Ht]. rewrite (receive_silent s Hs) in H.
    injection H as <- <-. exists t. by rewrite (receive_silent t Ht).
Qed.

Lemma ps_request_fetch r : fetch = None -> simulates P (request_fetch now epoch r) (request_fetch now epoch r).
Proof using Type.
  intros En s t a s' HP H. pose proof HP as [H1 H2 H3 H4 H5 H6 H7]. unfold request_fetch in *.
  apply m_zoom_ok in H as (m & H & ->). rewrite En in H4. destruct H4 as [E1 E2]. rewrite E1 in H.
  exists (t <| pw_fetch ::= fun p => p <| requests := m |> |>). split; [unfold m_zoom; by rewrite H|].
  constructor; simpl; try done. rewrite En, E1. split; [done|]. simpl. apply publish_ok in H as (_ & u & Hu & _ & ->).
  apply Forall_app. split; [exact E2|]. apply Forall_singleton. simpl. by eapply clock_after_later.
Qed.

Lemma ps_fetch_stage : simulates P (fetch_stage now epoch) (fetch_stage now epoch).
Proof using Type.
  destruct (decide (fetch = None)) as [E1|E1].
  - unfold fetch_stage. cbv zeta. apply (sim_bind_gets P eq); [by intros s t []|]. intros p p' <-.
    apply (sim_bind_gets P eq); [intros s t [_ _ _ H _ _ _]; rewrite E1 in H; by destruct H as [-> _]|]. intros b b' <-.
    ps_steps; try (by apply ps_request_fetch); apply ps_modify; by first [congruence | done].
  - intros s t a s' HP H. pose proof HP as [H1 _ _ _ _ H6 _]. unfold fetch_stage in *. cbv zeta in *.
    unfold m_bind at 1 2, m_gets at 1 2 in H. unfold m_bind at 1 2, m_gets at 1 2. rewrite H1 in H.
    destruct (fetch_request (pw_cpu t)) as [f|]; [|by destruct (H6 E1)]. injection H as <- <-. by exists t.
Qed.

(** *** Execute *)

(** A load or store that waits for its response waits on. *)
Lemma waiting_frame frame d (w : World) :
  fr_decoded frame = Some d -> accounted frame -> memory_request frame <> 0 -> silent now (pw_data w) ->
  execute_frame control now epoch frame d w = (Ok None, w).
Proof using Type.
  intros Hd [A1 A2] Hm Hs. destruct (A2 Hm) as (Hb & e & Ee & Hne). rewrite Ee in A1.
  destruct A1 as (d' & Hd' & Hev). rewrite Hd in Hd'. injection Hd' as <-. apply evaluate_memory in Hev.
  unfold execute_frame. cbv zeta. rewrite Hb. rewrite bool_decide_eq_false_2 by (intros Hq; by rewrite Hq in Hev).
  unfold m_bind at 1, m_gets at 1. rewrite bool_decide_eq_false_2 by (intros Hq; by rewrite Hq in Hev). cbn [andb].
  rewrite Ee. unfold m_bind at 1, m_ret at 1.
  assert (Hx : execute_memory now epoch frame e w = (Ok None, w)).
  { unfold execute_memory. rewrite (proj2 (Z.eqb_neq _ _) Hm). destruct w as [cpu pf [rq rs] tr env].
    unfold silent in Hs. simpl in Hs. unfold m_bind, take_data, m_zoom. simpl. by rewrite (take_silent _ Hs). }
  destruct (memory e); [done | by unfold m_bind; rewrite Hx..].
Qed.

Lemma ps_take_data : data = None -> simulates P (take_data now) (take_data now).
Proof using Type.
  intros En s t a s' HP H. pose proof HP as [H1 H2 H3 H4 H5 H6 H7]. unfold take_data in *.
  apply m_zoom_ok in H as (m & H & ->). rewrite En in H5. destruct H5 as [E1 E2]. rewrite E1 in H.
  exists (t <| pw_data ::= fun p => p <| responses := m |> |>). split; [unfold m_zoom; by rewrite H|].
  constructor; simpl; try done. rewrite En, E1. by split.
Qed.

Lemma ps_request_data r : data = None -> simulates P (request_data now epoch r) (request_data now epoch r).
Proof using Type.
  intros En s t a s' HP H. pose proof HP as [H1 H2 H3 H4 H5 H6 H7]. unfold request_data in *.
  apply m_zoom_ok in H as (m & H & ->). rewrite En in H5. destruct H5 as [E1 E2]. rewrite E1 in H.
  exists (t <| pw_data ::= fun p => p <| requests := m |> |>). split; [unfold m_zoom; by rewrite H|].
  constructor; simpl; try done. rewrite En, E1. split; [done|]. simpl. apply publish_ok in H as (_ & u & Hu & _ & ->).
  apply Forall_app. split; [exact E2|]. apply Forall_singleton. simpl. by eapply clock_after_later.
Qed.

Section Free.
Context (Hfree : data = None).

Lemma ps_memory frame e : simulates P (execute_memory now epoch frame e) (execute_memory now epoch frame e).
Proof using Hfree.
  unfold execute_memory, modify_execute. destruct (_ =? 0).
  - apply (sim_bind_gets P eq); [intros s t [_ _ _ _ H _ _]; rewrite Hfree in H; by destruct H as [-> _]|]. intros b b' <-.
    ps_steps; try (by apply ps_request_data); apply ps_modify; by first [congruence | done].
  - ps_steps. by apply ps_take_data.
Qed.

Lemma ps_lanes l : simulates P (issue_lanes control l) (issue_lanes control l).
Proof using Hfree.
  induction l as [|o l IH]; simpl; [apply sim_ret|]. unfold modify_execute.
  ps_steps; try apply IH; apply ps_modify; by first [congruence | done].
Qed.

Lemma ps_frame frame d : simulates P (execute_frame control now epoch frame d) (execute_frame control now epoch frame d).
Proof using Hfree.
  unfold execute_frame, modify_execute. cbv zeta.
  ps_steps; first [apply ps_lanes | apply ps_memory | apply ps_modify; by first [congruence | done]].
Qed.

Lemma ps_execute_free : simulates P (execute_stage control now epoch) (execute_stage control now epoch).
Proof using Hfree.
  unfold execute_stage, retire. ps_steps; first [apply ps_frame | apply ps_modify; by first [congruence | done]].
Qed.
End Free.

Lemma ps_execute : simulates P (execute_stage control now epoch) (execute_stage control now epoch).
Proof using Hdata.
  destruct (decide (data = None)) as [En|En]; [by apply ps_execute_free|].
  intros s t a s' HP H. pose proof HP as [H1 _ _ _ _ _ H7]. destruct (H7 En) as (frame & Hf & Ha & Hm).
  destruct (busy_data s t HP En) as [Ss St]. unfold execute_stage in H |- *. unfold m_bind at 1, m_gets at 1 in H.
  unfold m_bind at 1, m_gets at 1. rewrite H1, Hf in H. rewrite Hf. destruct (fr_fault frame); [discriminate H|].
  destruct (fr_decoded frame) as [d|] eqn:Ed; [|discriminate H]. unfold m_bind at 1 in H. unfold m_bind at 1.
  rewrite (waiting_frame frame d s Ed Ha Hm Ss) in H. rewrite (waiting_frame frame d t Ed Ha Hm St).
  refine (sim_bind P _ _ _ _ (ps_emit _) (fun _ => sim_ret P false) s t a s' HP H).
Qed.

(** *** The whole step *)
Lemma ps_flush : simulates P (flush_stage now epoch) (flush_stage now epoch).
Proof using Type. unfold flush_stage. ps_steps. Qed.

Lemma ps_sample : simulates P (sample now epoch) (sample now epoch).
Proof using Type. unfold sample. cbv zeta. ps_steps. Qed.

Lemma ps_advance : simulates P (modify_cpu (fun p => fetched_stage (decode_stage p))) (modify_cpu (fun p => fetched_stage (decode_stage p))).
Proof using Type.
  apply ps_modify.
  - intros _ p Hp. by replace (fetch_request (fetched_stage (decode_stage p))) with (fetch_request p)
      by (unfold fetched_stage, decode_stage; repeat case_match; done).
  - intros _ p g Hg. unfold fetched_stage, decode_stage. rewrite Hg. destruct (decode_ p); simpl; [done|]. by destruct (fetched_ p).
Qed.

Lemma ps_pipeline : simulates P (pipeline_step control now epoch) (pipeline_step control now epoch).
Proof using Hfetch Hdata.
  unfold pipeline_step. ps_steps;
    first [apply ps_receive | apply ps_sample | apply ps_execute | apply ps_flush | apply ps_advance | apply ps_fetch_stage].
Qed.
End Pipeline.

(** ** The memory's step *)
Section Memory.
Context {D : Type} (contains : Z -> bool) (access : MemoryRequest -> Tick -> Epoch -> M D (option Z)).
Context (now : Tick) (epoch : Epoch).

(** Nothing is done for a port with nothing in the slot and nothing to read. *)
Lemma peek_unread {X} (b : Mailbox X) : unread now (entries b) -> mailbox_peek b now = None.
Proof using Type.
  unfold mailbox_peek. destruct (entries b) as [|e l]; [done|]. intros [He _]%Forall_cons. by rewrite (proj2 (Z.leb_gt _ _) He).
Qed.

Lemma step_unread c lat index (v : PortView D) :
  pending (pv_slot v) = None -> unread now (entries (requests (pv_port v))) ->
  step_port contains access c lat now epoch index v = (Ok (), v).
Proof using Type.
  intros Hs Hu%peek_unread.
  assert (Ha : accept_request c lat now epoch index v = (Ok (), v)).
  { unfold accept_request, take_request, m_bind, m_zoom, mailbox_take. rewrite Hu. by destruct v as [image slot [rq rs] dev]. }
  unfold step_port, finish_pending. unfold m_bind, m_gets. rewrite Hs. simpl. by destruct (mailbox_full _).
Qed.

(** Responses cannot be read at the tick of the step. *)
Definition responses_unread (v : PortView D) : Prop := unread now (entries (responses (pv_port v))).

Lemma slot_responses f : preserves responses_unread (m_modify (fun v : PortView D => v <| pv_slot ::= f |>)).
Proof using Type. apply preserves_keeps. by apply keeps_modify. Qed.

Lemma finish_responses : preserves responses_unread (finish_pending contains access now epoch).
Proof using Type.
  intros v a v' Hv H. unfold finish_pending in H. destruct (pending _) as [p|]; [|by injection H as <- <-].
  destruct (_ && _); [|by injection H as <- <-]. destruct (_ =? _); [|by injection H as <- <-].
  apply m_bind_ok in H as (r & v1 & H1 & H). apply perform_answers in H1 as (_ & Hp & _).
  assert (Hv1 : responses_unread v1) by (unfold responses_unread; by rewrite Hp).
  destruct r as [response|]; [|by apply m_ret_ok in H as [_ ->]].
  apply m_bind_ok in H as (? & v2 & H2 & H). apply m_bind_ok in H as (? & v3 & H3 & H). apply m_ret_ok in H as [_ ->].
  apply m_modify_ok in H3 as ->. apply m_zoom_ok in H2 as (m & H2 & ->). apply publish_ok in H2 as (_ & u & Hu & _ & ->).
  apply Forall_app. split; [exact Hv1|]. apply Forall_singleton. simpl. by eapply clock_after_later.
Qed.

Lemma accept_responses c lat index : preserves responses_unread (accept_request (D := D) c lat now epoch index).
Proof using Type.
  unfold accept_request, take_request, set_pending. cbv zeta.
  preserve_steps; first [apply slot_responses | apply preserves_keeps; by apply keeps_zoom].
Qed.

Lemma step_responses c lat index : preserves responses_unread (step_port contains access c lat now epoch index).
Proof using Type.
  intros v a v' Hv H. unfold step_port in H. apply m_bind_ok in H as (continue & v1 & H1 & H).
  apply finish_responses in H1; [|exact Hv]. destruct (negb continue); [by apply m_ret_ok in H as [_ ->]|].
  apply m_bind_ok in H as (full & s & H2 & H). apply m_gets_ok in H2 as [-> ->].
  destruct (_ && _); [exact (accept_responses _ _ _ _ _ _ H1 H) | by apply m_ret_ok in H as [_ ->]].
Qed.

(** Two memories in the same state whose ports may differ where nothing is to be done: [fetch] and [data]
    are those ports. *)
Context (fetch data : option (MemoryPort * MemoryPort)).

Definition same_port (b : option (MemoryPort * MemoryPort)) (s : MemorySlot) (p q : MemoryPort) : Prop :=
  match b with
  | Some (p0, q0) => p = p0 /\ q = q0 /\ pending s = None /\
      unread now (entries (requests p)) /\ unread now (entries (requests q))
  | None => p = q
  end.

Record same_memory (s t : MemoryWorld D) : Prop := {
  sm_model : mw_model s = mw_model t;
  sm_device : mw_device s = mw_device t;
  sm_fetch : same_port fetch (fetch_slot (mw_model t)) (mw_fetch s) (mw_fetch t);
  sm_data : same_port data (data_slot (mw_model t)) (mw_data s) (mw_data t) }.

Lemma same_step_fetch c lat :
  simulates same_memory (m_zoom fetch_view set_fetch_view (step_port contains access c lat now epoch 0))
    (m_zoom fetch_view set_fetch_view (step_port contains access c lat now epoch 0)).
Proof using Type.
  intros [m pf pd dev] [m' pf' pd' dev'] a s' [H1 H2 H3 H4] H. simpl in *. subst m' dev'. unfold m_zoom in *.
  unfold fetch_view in *. simpl in *. destruct fetch as [[p q]|] eqn:Ef; simpl in H3.
  - destruct H3 as (<- & <- & Hs & U1 & U2). rewrite step_unread in H by done. rewrite step_unread by done.
    injection H as <- <-. eexists. split; [reflexivity|]. constructor; simpl; rewrite ?Ef; simpl; try done; by destruct data as [[]|].
  - subst pf'. destruct (step_port _ _ _ _ _ _ _ _) as [r v]. injection H as -> <-. eexists. split; [reflexivity|].
    constructor; simpl; rewrite ?Ef; by destruct data as [[]|].
Qed.

Lemma same_step_data c lat :
  simulates same_memory (m_zoom data_view set_data_view (step_port contains access c lat now epoch 1))
    (m_zoom data_view set_data_view (step_port contains access c lat now epoch 1)).
Proof using Type.
  intros [m pf pd dev] [m' pf' pd' dev'] a s' [H1 H2 H3 H4] H. simpl in *. subst m' dev'. unfold m_zoom in *.
  unfold data_view in *. simpl in *. destruct data as [[p q]|] eqn:Ed; simpl in H4.
  - destruct H4 as (<- & <- & Hs & U1 & U2). rewrite step_unread in H by done. rewrite step_unread by done.
    injection H as <- <-. eexists. split; [reflexivity|]. constructor; simpl; rewrite ?Ed; simpl; try done; by destruct fetch as [[]|].
  - subst pd'. destruct (step_port _ _ _ _ _ _ _ _) as [r v]. injection H as -> <-. eexists. split; [reflexivity|].
    constructor; simpl; rewrite ?Ed; by destruct fetch as [[]|].
Qed.

Lemma same_memory_step :
  simulates same_memory (memory_step contains access now epoch) (memory_step contains access now epoch).
Proof using Type.
  unfold memory_step. apply (sim_bind_gets same_memory eq); [by intros s t []|]. intros m m' <-.
  sim_steps; [apply same_step_fetch | apply same_step_data].
Qed.
End Memory.

(** ** The CPU's process *)
Section CpuEdge.
Context (now : Tick) (epoch : Epoch) (fetch data : option (MemoryPort * MemoryPort)).
Context (Hfetch : quiet_ports now fetch) (Hdata : quiet_ports now data).
Context (m m' : MemoryModel).

(** Two cores that differ in their memories and in the ports where the CPU waits. *)
Record cpu_in_step (s t : CoreWorld) : Prop := {
  ci_core : kw_core s = kw_core t <| co_memory := m |> <| fetch_port := fetch_port (kw_core s) |>
                          <| data_port := data_port (kw_core s) |>;
  ci_memory : co_memory (kw_core t) = m';
  ci_network : kw_network s = kw_network t;
  ci_trace : kw_trace s = kw_trace t;
  ci_pipe : in_step now fetch data (cpu_view s) (cpu_view t) }.
#[local] Abbreviation C := cpu_in_step.

(** The parts of a core other than the memory and its ports. *)
Definition other_parts (k : Core) :=
  (core_id k, co_profile k, co_identity k, co_sync k, co_registers k, co_control k, co_links k, co_cpu k, co_tcu k).

Lemma ci_parts s t : C s t -> other_parts (kw_core s) = other_parts (kw_core t).
Proof using Type. intros [H _ _ _ _]. rewrite H. by destruct (kw_core t). Qed.

Lemma ci_trace_update f s t : C s t -> C (s <| kw_trace := f (kw_trace s) |>) (t <| kw_trace := f (kw_trace t) |>).
Proof using Type.
  intros [H1 H2 H3 H4 H5]. constructor; simpl; [done | done | done | by rewrite H4|].
  destruct H5 as [P1 P2 P3 P4 P5 P6 P7]. constructor; simpl in *; try done. by rewrite H4.
Qed.

Lemma ci_identified {A} (n : M CoreWorld A) : simulates C n n -> simulates C (identified n) (identified n).
Proof using Type.
  intros Hn s t a s' HC H. unfold identified in *. pose proof (ci_parts _ _ HC) as [= _ _ Hid _ _ _ _ _ _].
  destruct (n (s <| kw_trace ::= _ |>)) as [r s1] eqn:E. injection H as -> <-.
  destruct (Hn _ (t <| kw_trace := trace_for (co_identity (kw_core s)) (kw_trace t) |>) a s1
    (ci_trace_update (trace_for (co_identity (kw_core s))) s t HC) E) as (t1 & K & HC1).
  rewrite Hid in K. change (t <| kw_trace := trace_for (co_identity (kw_core t)) (kw_trace t) |>)
    with (t <| kw_trace ::= trace_for (co_identity (kw_core t)) |>) in K. rewrite K. eexists. split; [reflexivity|]. exact (ci_trace_update trace_root s1 t1 HC1).
Qed.

Lemma ci_receive : simulates C (m_zoom control_view set_control_view (control_receive now epoch))
  (m_zoom control_view set_control_view (control_receive now epoch)).
Proof using Type.
  apply sim_zoom_same.
  - intros s t HC. pose proof (ci_parts _ _ HC) as [= _ _ _ _ E1 E2 E3 _ _]. unfold control_view.
    by rewrite E1, E2, E3, (ci_trace _ _ HC).
  - intros v s t [H1 H2 H3 H4 [P1 P2 P3 P4 P5 P6 P7]]. constructor; simpl; [by rewrite H1 | done | done | done|].
    constructor; simpl in *; done.
Qed.

Lemma ci_pipeline control :
  simulates C (m_zoom cpu_view set_cpu_view (pipeline_step control now epoch))
    (m_zoom cpu_view set_cpu_view (pipeline_step control now epoch)).
Proof using Hfetch Hdata.
  apply (sim_zoom _ (in_step now fetch data)); [by intros s t [] | | by apply ps_pipeline].
  intros x y s t [H1 H2 H3 H4 _] HP. pose proof HP as [P1 P2 P3 P4 P5 P6 P7]. unfold set_cpu_view.
  rewrite P3. destruct (pw_env y) as [[k r] l] eqn:Ey. constructor; simpl.
  - rewrite H1, P1. by destruct (kw_core t).
  - exact H2.
  - exact H3.
  - exact P2.
  - constructor; simpl in *; try done.
Qed.

Lemma cpu_edge_in_step validate : simulates C (cpu_edge validate now epoch) (cpu_edge validate now epoch).
Proof using Hfetch Hdata.
  unfold cpu_edge. apply ci_identified. apply sim_bind; [apply ci_receive|]. intros _. cbv zeta.
  apply (sim_bind_gets C (fun w w' => core_id (kw_core w) = core_id (kw_core w') /\ kw_network w = kw_network w') (fun w => w) (fun w => w)).
  - intros s t HC. pose proof (ci_parts _ _ HC) as [= Hid _ _ _ _ _ _ _ _]. exact (conj Hid (ci_network _ _ HC)).
  - intros w w' [-> ->]. apply ci_pipeline.
Qed.
End CpuEdge.

Definition swap_pair (b : option (MemoryPort * MemoryPort)) := option_map (fun x => (snd x, fst x)) b.

Lemma quiet_swap now b : quiet_ports now b -> quiet_ports now (swap_pair b).
Proof. destruct b as [[p q]|]; [|done]. by intros [? ?]. Qed.

Lemma port_in_step_sym now b p q : port_in_step now b p q -> port_in_step now (swap_pair b) q p.
Proof. destruct b as [[p0 q0]|]; simpl; [tauto|]. by intros [-> ?]. Qed.

Lemma cpu_in_step_sym now f d m m' s t : co_memory (kw_core s) = m ->
  cpu_in_step now f d m m' s t -> cpu_in_step now (swap_pair f) (swap_pair d) m' m t s.
Proof.
  intros Hm [C1 C2 C3 C4 [P1 P2 P3 P4 P5 P6 P7]]. constructor; [|done..|].
  - rewrite C1. subst m'. by destruct (kw_core t).
  - constructor; try done; try by apply port_in_step_sym.
    + intros Hn. rewrite P1. apply P6. by destruct f.
    + intros Hn. rewrite P1. apply P7. by destruct d.
Qed.

(** ** Both processes *)

(** The memory has something to do for a port. *)
Definition busy (s : MemorySlot) (p : MemoryPort) : bool :=
  match pending s, entries (requests p) with None, [] => false | _, _ => true end.

Lemma serves_busy c epoch index next o s p now :
  serves c epoch index next o s p ->
  if busy s p then o <> None /\ entries (responses p) = []
  else pending s = None /\ unread now (entries (requests p)).
Proof.
  intros [_ _ _ F]. unfold busy, on_its_way, in_progress, answered in *. destruct o as [id|].
  - destruct F as (r & _ & _ & _ & _ & [(e & -> & _ & _ & -> & -> & _)|[(t & -> & -> & ->)|(e & -> & -> & _)]]); by repeat constructor.
  - destruct F as (-> & -> & _). by repeat constructor.
Qed.

Section Orders.
Context {D : Type} (contains : Z -> bool) (access : MemoryRequest -> Tick -> Epoch -> M D (option Z)).
Context (validate : EventSpec -> result unit) (now : Tick) (epoch : Epoch).

Definition memory_then_cpu (w : CoreWorld) (d : D) : option (CoreWorld * D) :=
  match memory_edge contains access now epoch (kw_core w, d) with
  | (Ok _, (c, d)) =>
      match cpu_edge validate now epoch (w <| kw_core := c |>) with (Ok _, w) => Some (w, d) | _ => None end
  | _ => None
  end.

Definition cpu_then_memory (w : CoreWorld) (d : D) : option (CoreWorld * D) :=
  match cpu_edge validate now epoch w with
  | (Ok _, w) =>
      match memory_edge contains access now epoch (kw_core w, d) with
      | (Ok _, (c, d)) => Some (w <| kw_core := c |>, d)
      | _ => None
      end
  | _ => None
  end.

(** *** What each process leaves to the other *)
Section Start.
Context (w : CoreWorld) (Hs : core_served epoch (kw_core w)).
#[local] Abbreviation k := (kw_core w).
Definition fetch_busy : bool := busy (fetch_slot (co_memory k)) (fetch_port k).
Definition data_busy : bool := busy (data_slot (co_memory k)) (data_port k).

(** A core after its memory's step. *)
Definition stepped (m : MemoryModel) (pf pd : MemoryPort) : Core :=
  k <| co_memory := m |> <| fetch_port := pf |> <| data_port := pd |>.

(** A port the memory has touched. *)
Definition port_moved (moved : bool) (p p' : MemoryPort) : Prop :=
  if moved then unread now (entries (responses p')) else p' = p.
Definition moved_pair (moved : bool) (p p' : MemoryPort) : option (MemoryPort * MemoryPort) :=
  if moved then Some (p', p) else None.

Lemma fetch_waits : fetch_busy = true -> fetch_request (co_cpu k) <> None /\ entries (responses (fetch_port k)) = [].
Proof using Hs.
  intros Hb. pose proof (serves_busy _ _ _ _ _ _ _ 0 (cs_fetch _ _ _ _ _ _ _ (ks_ports _ _ Hs))) as H.
  unfold fetch_busy in Hb. rewrite Hb in H. destruct H as [H1 H2]. split; [|exact H2]. intros E. by rewrite E in H1.
Qed.

Lemma data_waits : data_busy = true ->
  (exists f, execute_ (co_cpu k) = Some f /\ accounted f /\ memory_request f <> 0) /\ entries (responses (data_port k)) = [].
Proof using Hs.
  intros Hb. pose proof (serves_busy _ _ _ _ _ _ _ 0 (cs_data _ _ _ _ _ _ _ (ks_ports _ _ Hs))) as H.
  unfold data_busy in Hb. rewrite Hb in H. destruct H as [H1 H2]. split; [|exact H2]. unfold awaited in H1.
  destruct (execute_ (co_cpu k)) as [f|] eqn:Ef; [|done]. exists f. split; [done|].
  split; [exact (cs_execute _ _ _ _ _ _ _ (ks_ports _ _ Hs) f Ef)|]. intros E. by rewrite E in H1.
Qed.

Lemma quiet_moved moved p p' :
  port_moved moved p p' -> (moved = true -> entries (responses p) = []) -> quiet_ports now (moved_pair moved p p').
Proof using Type.
  unfold port_moved, moved_pair. destruct moved; simpl; [|done]. intros Hp He. split.
  - by apply peek_unread.
  - apply peek_unread. rewrite He by done. constructor.
Qed.

Lemma start_in_step m pf pd :
  port_moved fetch_busy (fetch_port k) pf -> port_moved data_busy (data_port k) pd ->
  cpu_in_step now (moved_pair fetch_busy (fetch_port k) pf) (moved_pair data_busy (data_port k) pd) m (co_memory k)
    (w <| kw_core := stepped m pf pd |>) w.
Proof using Hs.
  clear contains access validate. intros Hf Hd. constructor; simpl; try done. unfold port_moved, moved_pair in *.
  pose proof (serves_busy _ _ _ _ _ _ _ now (cs_fetch _ _ _ _ _ _ _ (ks_ports _ _ Hs))) as F.
  pose proof (serves_busy _ _ _ _ _ _ _ now (cs_data _ _ _ _ _ _ _ (ks_ports _ _ Hs))) as G.
  pose proof fetch_waits as Wf. pose proof data_waits as Wd. unfold fetch_busy, data_busy in *.
  destruct (busy (fetch_slot _) _), (busy (data_slot _) _); subst; constructor; simpl; naive_solver.
Qed.
End Start.

(** *** The memory's process *)
Lemma memory_responses_fetch : preserves (fun v : MemoryWorld D => unread now (entries (responses (mw_fetch v))))
  (memory_step contains access now epoch).
Proof using Type.
  unfold memory_step. preserve_steps.
  - intros v1 u1 v2 Hv H. apply m_zoom_ok in H as (x & H & ->). 
    exact (step_responses contains access now epoch _ _ _ (fetch_view v1) u1 x Hv H).
  - apply preserves_keeps. by apply keeps_zoom.
Qed.

Lemma memory_responses_data : preserves (fun v : MemoryWorld D => unread now (entries (responses (mw_data v))))
  (memory_step contains access now epoch).
Proof using Type.
  unfold memory_step. preserve_steps.
  - apply preserves_keeps. by apply keeps_zoom.
  - intros v1 u1 v2 Hv H. apply m_zoom_ok in H as (x & H & ->). 
    exact (step_responses contains access now epoch _ _ _ (data_view v1) u1 x Hv H).
Qed.

(** What the memory leaves alone. *)
Definition rest_pair (moved : bool) (p q : MemoryPort) : option (MemoryPort * MemoryPort) :=
  if moved then None else Some (p, q).

Lemma memory_moves w d u k1 d1 :
  core_served epoch (kw_core w) -> memory_edge contains access now epoch (kw_core w, d) = (Ok u, (k1, d1)) ->
  exists v, memory_step contains access now epoch (memory_view (kw_core w, d)) = (Ok u, v) /\
    k1 = stepped w (mw_model v) (mw_fetch v) (mw_data v) /\ d1 = mw_device v /\
    port_moved (fetch_busy w) (fetch_port (kw_core w)) (mw_fetch v) /\
    port_moved (data_busy w) (data_port (kw_core w)) (mw_data v).
Proof using Type.
  intros Hs H. unfold memory_edge in H. apply m_zoom_ok in H as (v & H & E). injection E as -> ->.
  exists v. refine (conj H (conj eq_refl (conj eq_refl _))).
  pose proof (serves_busy _ _ _ _ _ _ _ now (cs_fetch _ _ _ _ _ _ _ (ks_ports _ _ Hs))) as F.
  pose proof (serves_busy _ _ _ _ _ _ _ now (cs_data _ _ _ _ _ _ _ (ks_ports _ _ Hs))) as G.
  set (x := memory_view (kw_core w, d)) in H.
  assert (Hx : same_memory now (rest_pair (fetch_busy w) (fetch_port (kw_core w)) (fetch_port (kw_core w)))
    (rest_pair (data_busy w) (data_port (kw_core w)) (data_port (kw_core w))) x x).
  { unfold fetch_busy, data_busy, rest_pair in *. constructor; simpl; [done | done | |];
      [destruct (busy (fetch_slot _) _) | destruct (busy (data_slot _) _)]; simpl; naive_solver. }
  destruct (same_memory_step contains access now epoch _ _ x x u v Hx H) as (v' & K & [_ _ K1 K2]).
  rewrite H in K. injection K as <-. unfold port_moved, rest_pair in *.
  pose proof (fetch_waits w Hs) as Wf. pose proof (data_waits w Hs) as Wd. split.
  - destruct (fetch_busy w); [|by destruct K1]. apply (memory_responses_fetch x u v); [|exact H]. simpl.
    rewrite (proj2 (Wf eq_refl)). constructor.
  - destruct (data_busy w); [|by destruct K2]. apply (memory_responses_data x u v); [|exact H]. simpl.
    rewrite (proj2 (Wd eq_refl)). constructor.
Qed.

(** The CPU's process leaves the memory, and the ports it waits at, as they are. *)
Lemma cpu_moves w u w2 :
  core_served epoch (kw_core w) -> cpu_edge validate now epoch w = (Ok u, w2) ->
  co_memory (kw_core w2) = co_memory (kw_core w) /\
  (if fetch_busy w then fetch_port (kw_core w2) = fetch_port (kw_core w)
   else unread now (entries (requests (fetch_port (kw_core w2))))) /\
  (if data_busy w then data_port (kw_core w2) = data_port (kw_core w)
   else unread now (entries (requests (data_port (kw_core w2))))).
Proof using Type.
  clear contains access. intros Hs H. pose proof (fetch_waits w Hs) as Wf. pose proof (data_waits w Hs) as Wd.
  assert (Hf : port_moved (fetch_busy w) (fetch_port (kw_core w)) (fetch_port (kw_core w))).
  { unfold port_moved. destruct (fetch_busy w); [rewrite (proj2 (Wf eq_refl)); constructor | done]. }
  assert (Hd : port_moved (data_busy w) (data_port (kw_core w)) (data_port (kw_core w))).
  { unfold port_moved. destruct (data_busy w); [rewrite (proj2 (Wd eq_refl)); constructor | done]. }
  pose proof (start_in_step w Hs (co_memory (kw_core w)) _ _ Hf Hd) as HC.
  assert (Hw : w <| kw_core := stepped w (co_memory (kw_core w)) (fetch_port (kw_core w)) (data_port (kw_core w)) |> = w)
    by (by destruct w as [[] n t]). rewrite Hw in HC.
  destruct (cpu_edge_in_step now epoch _ _ (quiet_moved _ _ _ Hf (fun E => proj2 (Wf E))) (quiet_moved _ _ _ Hd (fun E => proj2 (Wd E)))
    _ _ validate w w u w2 HC H) as (w2' & K & [_ E1 _ _ [_ _ _ E4 E5 _ _]]).
  rewrite H in K. injection K as <-. split; [exact E1|]. unfold moved_pair in *.
  destruct (fetch_busy w), (data_busy w); simpl in *; naive_solver.
Qed.
(** Two cores whose memories differ where the memory has nothing to do. *)
Lemma memory_in_step w (k' : Core) (d : D) :
  core_served epoch (kw_core w) -> co_memory k' = co_memory (kw_core w) ->
  (if fetch_busy w then fetch_port k' = fetch_port (kw_core w) else unread now (entries (requests (fetch_port k')))) ->
  (if data_busy w then data_port k' = data_port (kw_core w) else unread now (entries (requests (data_port k')))) ->
  same_memory now (rest_pair (fetch_busy w) (fetch_port (kw_core w)) (fetch_port k'))
    (rest_pair (data_busy w) (data_port (kw_core w)) (data_port k')) (memory_view (kw_core w, d)) (memory_view (k', d)) /\
  same_memory now (rest_pair (fetch_busy w) (fetch_port k') (fetch_port (kw_core w)))
    (rest_pair (data_busy w) (data_port k') (data_port (kw_core w))) (memory_view (k', d)) (memory_view (kw_core w, d)).
Proof using Type.
  clear contains access validate. intros Hs Hm Hf Hd.
  pose proof (serves_busy _ _ _ _ _ _ _ now (cs_fetch _ _ _ _ _ _ _ (ks_ports _ _ Hs))) as F.
  pose proof (serves_busy _ _ _ _ _ _ _ now (cs_data _ _ _ _ _ _ _ (ks_ports _ _ Hs))) as G.
  unfold fetch_busy, data_busy, rest_pair in *.
  destruct (busy (fetch_slot _) _), (busy (data_slot _) _); split; constructor; simpl; rewrite ?Hm; naive_solver.
Qed.

(** The memory first: the CPU does the same before it. *)
Lemma memory_first w d u k1 d1 a w2 :
  core_served epoch (kw_core w) -> memory_edge contains access now epoch (kw_core w, d) = (Ok u, (k1, d1)) ->
  cpu_edge validate now epoch (w <| kw_core := k1 |>) = (Ok a, w2) ->
  exists w1, cpu_edge validate now epoch w = (Ok a, w1) /\
    memory_edge contains access now epoch (kw_core w1, d) = (Ok u, (kw_core w2, d1)) /\ w1 <| kw_core := kw_core w2 |> = w2.
Proof using Type.
  intros Hs Hm Hc. destruct (memory_moves w d u k1 d1 Hs Hm) as (v & Hv & -> & -> & Hf & Hd).
  pose proof (start_in_step w Hs (mw_model v) _ _ Hf Hd) as HC.
  destruct (cpu_edge_in_step now epoch _ _ (quiet_moved _ _ _ Hf (fun E => proj2 (fetch_waits w Hs E)))
    (quiet_moved _ _ _ Hd (fun E => proj2 (data_waits w Hs E))) _ _ validate _ w a w2 HC Hc) as (w1 & Hw1 & HC1).
  exists w1. split; [exact Hw1|]. destruct (cpu_moves w a w1 Hs Hw1) as (M1 & M2 & M3).
  destruct (memory_in_step w (kw_core w1) d Hs M1 M2 M3) as [HS _].
  destruct (same_memory_step contains access now epoch _ _ _ _ u v HS Hv) as (v' & Hv' & [S1 S2 S3 S4]).
  destruct HC1 as [C1 C2 C3 C4 [P1 P2 P3 P4 P5 _ _]]. simpl in P4, P5. split.
  - unfold memory_edge, m_zoom. rewrite Hv'. f_equal. unfold set_memory_view. simpl. rewrite <-S1, S2. f_equal.
    unfold moved_pair, rest_pair in *.
    assert (E1 : mw_fetch v' = fetch_port (kw_core w2)).
    { destruct (fetch_busy w); simpl in *; [destruct P4 as [-> _]; by rewrite S3 | destruct P4 as [-> _]; by destruct S3 as (_ & -> & _)]. }
    assert (E2 : mw_data v' = data_port (kw_core w2)).
    { destruct (data_busy w); simpl in *; [destruct P5 as [-> _]; by rewrite S4 | destruct P5 as [-> _]; by destruct S4 as (_ & -> & _)]. }
    rewrite E1, E2. by symmetry.
  - destruct w1 as [c1 n1 t1], w2 as [c2 n2 t2]. simpl in *. by subst.
Qed.

(** The CPU first: neither process fails in the other order. *)
Lemma cpu_before w d u k2 d2 a w1 :
  core_served epoch (kw_core w) -> cpu_edge validate now epoch w = (Ok a, w1) ->
  memory_edge contains access now epoch (kw_core w1, d) = (Ok u, (k2, d2)) ->
  exists k1 d1 w2, memory_edge contains access now epoch (kw_core w, d) = (Ok u, (k1, d1)) /\
    cpu_edge validate now epoch (w <| kw_core := k1 |>) = (Ok a, w2).
Proof using Type.
  intros Hs Hc Hm. destruct (cpu_moves w a w1 Hs Hc) as (M1 & M2 & M3).
  destruct (memory_in_step w (kw_core w1) d Hs M1 M2 M3) as [_ HS].
  apply m_zoom_ok in Hm as (v1 & Hv1 & _).
  destruct (same_memory_step contains access now epoch _ _ _ _ u v1 HS Hv1) as (v & Hv & _).
  assert (Hm : memory_edge contains access now epoch (kw_core w, d) =
    (Ok u, set_memory_view v (kw_core w, d))) by (unfold memory_edge, m_zoom; by rewrite Hv).
  unfold set_memory_view in Hm. simpl in Hm. eexists _, _. pose proof Hm as Hm0.
  apply memory_moves in Hm as (v' & Hv' & E & _ & Hf & Hd); [|exact Hs]. rewrite Hv in Hv'. injection Hv' as <-.
  rewrite E in Hm0. pose proof (start_in_step w Hs (mw_model v) _ _ Hf Hd) as HC. apply cpu_in_step_sym in HC; [|done].
  destruct (cpu_edge_in_step now epoch _ _ (quiet_swap _ _ (quiet_moved _ _ _ Hf (fun E => proj2 (fetch_waits w Hs E))))
    (quiet_swap _ _ (quiet_moved _ _ _ Hd (fun E => proj2 (data_waits w Hs E)))) _ _ validate w _ a w1 HC Hc) as (w2 & Hw2 & _).
  exists w2. split; [exact Hm0 | exact Hw2].
Qed.

Lemma reordered w d : core_served epoch (kw_core w) -> memory_then_cpu w d = cpu_then_memory w d.
Proof using Type.
  intros Hs. unfold memory_then_cpu, cpu_then_memory.
  destruct (memory_edge contains access now epoch (kw_core w, d)) as [[u|e] [k1 d1]] eqn:Em;
    [destruct (cpu_edge validate now epoch (w <| kw_core := k1 |>)) as [[a|e] w2] eqn:Ec|].
  - destruct (memory_first w d u k1 d1 a w2 Hs Em Ec) as (w1 & -> & -> & ->). done.
  - destruct (cpu_edge validate now epoch w) as [[b|?] w1] eqn:Ec1; [|done].
    destruct (memory_edge contains access now epoch (kw_core w1, d)) as [[x|?] [k2 d2]] eqn:Em1; [|done].
    destruct (cpu_before w d x k2 d2 b w1 Hs Ec1 Em1) as (? & ? & ? & K1 & K2). rewrite Em in K1.
    injection K1 as <- <- <-. by rewrite Ec in K2.
  - destruct (cpu_edge validate now epoch w) as [[b|?] w1] eqn:Ec1; [|done].
    destruct (memory_edge contains access now epoch (kw_core w1, d)) as [[x|?] [k2 d2]] eqn:Em1; [|done].
    destruct (cpu_before w d x k2 d2 b w1 Hs Ec1 Em1) as (? & ? & ? & K1 & K2). by rewrite Em in K1.
Qed.

(** The order of the two processes of a core at one edge cannot be observed: in every reachable state, for
    any device and any backend's validation, running the memory and then the CPU succeeds exactly when
    running the CPU and then the memory does, and leaves the same core, network, trace and device. *)
Theorem memory_and_cpu_commute (show : double -> string) (w : CoreWorld) (d : D) :
  core_reachable show repository_cpu epoch (kw_core w) -> memory_then_cpu w d = cpu_then_memory w d.
Proof using Type. intros H. exact (reordered w d (reachable_served show epoch _ H)). Qed.
End Orders.

(** ** Example: the program of Handshake.v

    A fetch is in progress while an instruction retires, and the memory is idle while the pipeline moves. *)
Definition example_order (run : CoreWorld -> unit -> option (CoreWorld * unit)) (c : result Core) : option (bool * list string) :=
  match c with
  | Ok c =>
      let w := mkCoreWorld c (mkNetwork (mkClock 20 0) ∅) trace_new in
      match run w () with
      | Some (w', _) => Some (fetch_busy w, map te_kind (tr_events (kw_trace w')))
      | None => None
      end
  | Fault _ => None
  end.

Example orders_of_the_example :
  let memory_first := memory_then_cpu (fun _ => false) (fun _ _ _ => m_ret None) (fun _ => Ok ()) in
  let cpu_first := cpu_then_memory (fun _ => false) (fun _ _ _ => m_ret None) (fun _ => Ok ()) in
  example_order (memory_first 25 1) (handshake_after 5) = Some (true, ["InstructionRetired"; "CpuPipelineUpdated"]%string) /\
  example_order (cpu_first 25 1) (handshake_after 5) = Some (true, ["InstructionRetired"; "CpuPipelineUpdated"]%string) /\
  example_order (memory_first 60 1) (handshake_after 12) = Some (false, ["CpuStalled"; "CpuPipelineUpdated"]%string) /\
  example_order (cpu_first 60 1) (handshake_after 12) = Some (false, ["CpuStalled"; "CpuPipelineUpdated"]%string).
Proof. split_and!; vm_compute; reflexivity. Qed.
