(* ===== verification/Interleave.v ===== *)
(** * The order of a core's processes (src/core.cpp, docs/simulation-model.md)

    When a CPU edge and an edge of the timing control unit fall on one tick, SystemC may run the two
    processes in either order.  The two communicate through mailboxes only, and nothing published at a
    tick is readable at that tick; this file proves that the order cannot be observed. *)

From S2P Require Import Prelude Error Time Event Trace Mailbox Isa ControlCommand Image Memory Feedback.
From S2P Require Import Profile Protocol TimingControl Tcu Sync Pipeline Core Handshake Relate.

(** ** The pipeline

    Two pipelines in the same state, over control ports that answer alike, make the same step. *)
Section Pipeline.
Context {E : Type} (now : Tick) (epoch : Epoch).
Context (R : Trace * E -> Trace * E -> Prop).
Context (control control' : ControlOperation -> M (Trace * E) (option Z)).
Context (Hcontrol : forall o, simulates R (control o) (control' o)).

Definition emit_fst (e : TraceEvent) : M (Trace * E) unit :=
  m_zoom fst (fun t s => (t, snd s)) (trace_emit e).
Context (Hemit : forall e, te_tick e = now -> simulates R (emit_fst e) (emit_fst e)).

Record same_pipeline (s t : PipelineWorld E) : Prop := {
  sp_cpu : pw_cpu s = pw_cpu t;
  sp_fetch : pw_fetch s = pw_fetch t;
  sp_data : pw_data s = pw_data t;
  sp_rest : R (pw_trace s, pw_env s) (pw_trace t, pw_env t) }.
#[local] Abbreviation P := same_pipeline.

Lemma sp_modify f : simulates P (modify_cpu f) (modify_cpu f).
Proof using Type. apply sim_modify. intros s t [H1 H2 H3 H4]. constructor; simpl; by rewrite ?H1. Qed.

Lemma sp_emit e : te_tick e = now -> simulates P (cpu_emit e) (cpu_emit e).
Proof using Hemit.
  intros He s t a s' [H1 H2 H3 H4] H. apply m_zoom_ok in H as (tr & H & ->).
  destruct (Hemit e He _ _ a (tr, pw_env s) H4) as ([tr' env'] & K & HR).
  { unfold emit_fst, m_zoom. simpl. by rewrite H. }
  apply m_zoom_ok in K as (tr'' & K & Heq). injection Heq as -> ->. simpl in *.
  exists (t <| pw_trace := tr'' |>). split; [unfold cpu_emit, m_zoom; by rewrite K | by constructor].
Qed.

Lemma sp_call o : simulates P (call_control control o) (call_control control' o).
Proof using Hcontrol.
  apply (sim_zoom _ R); [by intros s t [] | | apply Hcontrol].
  intros [x e] [y e'] s t [H1 H2 H3 H4] H. by constructor.
Qed.

Lemma sp_port {X A} (get : PipelineWorld E -> X) set (m : M X A) :
  (forall s t, P s t -> get s = get t) -> (forall x s t, P s t -> P (set x s) (set x t)) ->
  simulates P (m_zoom get set m) (m_zoom get set m).
Proof using Type. apply sim_zoom_same. Qed.

Ltac pipe_side :=
  first [ by intros s t [-> -> -> _] | by intros s t [-> _ _ _] | by intros s t [_ -> _ _] | by intros s t [_ _ -> _]
        | by intros x s t [H1 H2 H3 H4]; constructor; simpl; rewrite ?H1, ?H2, ?H3 ].
Ltac pipe_steps :=
  sim_steps;
  first [ apply sp_modify | by apply sp_emit | apply sp_call | by apply sp_port; pipe_side | pipe_side | idtac ].

Lemma sp_receive : simulates P (receive_fetch now epoch) (receive_fetch now epoch).
Proof using Type. unfold receive_fetch, take_fetch. pipe_steps. Qed.

Lemma sp_lanes l : simulates P (issue_lanes control l) (issue_lanes control' l).
Proof using Hcontrol. induction l as [|o l IH]; simpl; [apply sim_ret|]. unfold modify_execute. pipe_steps. apply IH. Qed.

Lemma sp_memory frame e : simulates P (execute_memory now epoch frame e) (execute_memory now epoch frame e).
Proof using Type. unfold execute_memory, request_data, take_data, modify_execute. pipe_steps. Qed.

Lemma sp_frame frame d : simulates P (execute_frame control now epoch frame d) (execute_frame control' now epoch frame d).
Proof using Hcontrol.
  unfold execute_frame, modify_execute. cbv zeta. pipe_steps; first [apply sp_lanes | apply sp_memory].
Qed.

Lemma sp_execute : simulates P (execute_stage control now epoch) (execute_stage control' now epoch).
Proof using Hcontrol Hemit. unfold execute_stage, retire. pipe_steps. apply sp_frame. Qed.

Lemma sp_flush : simulates P (flush_stage now epoch) (flush_stage now epoch).
Proof using Hemit. unfold flush_stage. pipe_steps. Qed.

Lemma sp_fetch_stage : simulates P (fetch_stage now epoch) (fetch_stage now epoch).
Proof using Type. unfold fetch_stage, request_fetch. cbv zeta. pipe_steps. Qed.

Lemma sp_sample : simulates P (sample now epoch) (sample now epoch).
Proof using Hemit. unfold sample. cbv zeta. pipe_steps. Qed.

Lemma sim_pipeline : simulates P (pipeline_step control now epoch) (pipeline_step control' now epoch).
Proof using Hcontrol Hemit.
  unfold pipeline_step. cbv zeta. pipe_steps;
    first [apply sp_receive | apply sp_sample | apply sp_execute | apply sp_flush | apply sp_fetch_stage].
Qed.
End Pipeline.

(** ** Timing control

    The run on the right is the CPU's at a tick at which the unit has not run; on the left the unit has:
    it has taken messages timing control sent ([taken], [ended]) and sent messages of its own
    ([answers], [credits]), which are not readable yet. *)
Record UnitSteps := mkUnitSteps {
  us_taken : list (Envelope TimingEvents); us_ended : list (Envelope EndOfStream);
  us_answers : list (Envelope EnqueueReply); us_credits : list (Envelope MeasurementReference) }.

Section Control.
Context (now : Tick) (epoch : Epoch) (d : UnitSteps) (fast0 : Mailbox Completion) (l0 : ControlLinks).
Context (stalls : bool) (past past' : list TraceEvent).
Context (Hpast : past = past' \/ not_after now past').
Context (Hanswers : unread now (us_answers d)) (Hcredits : unread now (us_credits d)).

(** The mailboxes of the two runs, and how those of the right one came from [l0]. *)
Record links_before (l l' : ControlLinks) : Prop := {
  lb_requests : timing_events l' = preceded (us_taken d) (timing_events l);
  lb_replies : replies l = extended (us_answers d) (replies l');
  lb_closure : closure l' = preceded (us_ended d) (closure l);
  lb_results : cpu_results l = cpu_results l';
  lb_fast : fast_results l = fast0 /\ fast_results l' = fast_results l0;
  lb_credits : fast_credits l = extended (us_credits d) (fast_credits l');
  lb_waiting : us_taken d = [] \/ entries (replies l') = [];
  lb_moved : grown now (timing_events l0) (timing_events l') /\ shrunk (replies l0) (replies l') /\
             grown now (closure l0) (closure l') /\ shrunk (cpu_results l0) (cpu_results l') /\
             shrunk (fast_credits l0) (fast_credits l');
  lb_sound : sound (timing_events l') /\ sound (closure l') }.

(** A request the unit has taken is outstanding, and a stream it has seen end is closed. *)
Definition control_waits (k : TimingControl) : Prop :=
  (us_taken d = [] \/ enqueue_request k <> None) /\ (us_ended d = [] \/ tl_closed k = true).

Record control_before (s t : ControlWorld) : Prop := {
  cb_control : cw_control s = cw_control t;
  cb_registers : cw_registers s = cw_registers t;
  cb_links : links_before (cw_links s) (cw_links t);
  cb_trace : alike now stalls past past' (cw_trace s) (cw_trace t);
  cb_waits : control_waits (cw_control t) }.
#[local] Abbreviation C := control_before.

Lemma cb_modify f :
  (forall k, control_waits k -> control_waits (f k)) -> simulates C (modify_control f) (modify_control f).
Proof using Type.
  intros Hf. apply sim_modify. intros s t [H1 H2 H3 H4 H5]. constructor; simpl; rewrite ?H1; auto.
Qed.

(** Steps that keep what is outstanding. *)
Lemma cb_modify_same f :
  (forall k, enqueue_request (f k) = enqueue_request k /\ tl_closed (f k) = tl_closed k) ->
  simulates C (modify_control f) (modify_control f).
Proof using Type. intros Hf. apply cb_modify. intros k. unfold control_waits. by destruct (Hf k) as [-> ->]. Qed.

Lemma cb_emit e : te_tick e = now -> simulates C (emit e) (emit e).
Proof using Hpast.
  intros He. apply (sim_zoom _ (alike now stalls past past')); [by intros s t [] | | by apply sim_emit].
  intros x y s t [H1 H2 H3 H4 H5] H. by constructor.
Qed.

Lemma cb_registers_zoom {A} (m : M MeasurementRegisters A) : simulates C (on cw_registers m) (on cw_registers m).
Proof using Type.
  apply sim_zoom_same; [by intros s t [] | intros x s t [H1 H2 H3 H4 H5]; by constructor].
Qed.

Lemma cb_take_reply :
  simulates C (on cw_links (on replies (mailbox_take now))) (on cw_links (on replies (mailbox_take now))).
Proof using Hanswers.
  apply (sim_zoom _ links_before); [by intros s t [] | intros x y s t [H1 H2 H3 H4 H5] H; by constructor|].
  intros l l' a l1 HL H. destruct HL as [K1 K2 K3 K4 K5 K6 K7 K8 K9]. apply m_zoom_ok in H as (b & H & ->).
  rewrite K2, take_extended in H by done. destruct (mailbox_take now (replies l')) as [r b'] eqn:E.
  injection H as -> <-. exists (l' <| replies := b' |>). split; [unfold m_zoom; by rewrite E|].
  apply take_shrunk in E as Hs. constructor; simpl; try done.
  - destruct K7 as [?|Hnil]; [by left|]. right. destruct Hs as (ds & Hs). rewrite Hs in Hnil. simpl in Hnil.
    by apply app_eq_nil in Hnil as [_ ?].
  - destruct K8 as (M1 & M2 & M3 & M4 & M5). split_and!; by first [done | eapply shrunk_trans].
Qed.

(** While the unit holds a request there is no reply to receive. *)
Lemma cb_receive_reply : simulates C (receive_reply now epoch) (receive_reply now epoch).
Proof using Hanswers Hpast.
  destruct (decide (us_taken d = [])) as [Hnil|Htaken].
  - unfold receive_reply. cbv zeta. sim_steps; first [apply cb_take_reply | by apply cb_emit | by intros s t [] | idtac].
    apply cb_modify. intros k [_ Hend]. split; [by left | exact Hend].
  - intros s t a s' HC H. pose proof HC as [H1 H2 H3 H4 H5]. destruct H3 as [K1 K2 K3 K4 K5 K6 K7 K8 K9].
    destruct K7 as [?|Hnil]; [done|].
    assert (Hw : forall w : ControlWorld, mailbox_peek (replies (cw_links w)) now = None ->
                   receive_reply now epoch w = (Ok (), w)).
    { intros [k g [b1 b2 b3 b4 b5 b6] tr] Hp. unfold receive_reply, m_bind, m_zoom, mailbox_take. simpl in *. by rewrite Hp. }
    assert (Hp : mailbox_peek (replies (cw_links t)) now = None) by (unfold mailbox_peek; by rewrite Hnil).
    rewrite Hw in H by (by rewrite K2, peek_extended). injection H as <- <-. exists t. split; [by apply Hw | done].
Qed.

Lemma cb_receive : simulates C (control_receive now epoch) (control_receive now epoch).
Proof using Hanswers Hcredits Hpast.
  unfold control_receive. apply sim_bind; [apply cb_receive_reply | intros _]. apply sim_bind; [|intros _].
  - apply (sim_take_loop C []); [| | constructor | | done |].
    + intros s t [H1 H2 [] H4 H5]. by rewrite extended_nil.
    + intros b s t [H1 H2 [] H4 H5] Hs. rewrite extended_nil. constructor; try done. constructor; simpl; try done.
      destruct lb_moved0 as (M1 & M2 & M3 & M4 & M5). split_and!; by first [done | eapply shrunk_trans].
    + intros e. unfold receive_result. sim_steps; first [apply cb_registers_zoom | by apply cb_emit].
    + intros e l. unfold receive_result. keep_steps; by apply keeps_zoom.
  - apply (sim_take_loop C (us_credits d)); [| | done | | done |].
    + by intros s t [H1 H2 [] H4 H5].
    + intros b s t [H1 H2 [] H4 H5] Hs. constructor; try done. constructor; simpl; try done.
      destruct lb_moved0 as (M1 & M2 & M3 & M4 & M5). split_and!; by first [done | eapply shrunk_trans].
    + intros e. unfold receive_credit. sim_steps. apply cb_registers_zoom.
    + intros e l. unfold receive_credit. keep_steps; by apply keeps_zoom.
Qed.

Ltac control_steps :=
  sim_steps;
  first [ by apply cb_emit | apply cb_registers_zoom | by intros s t [] | by apply cb_modify_same | idtac ].

Lemma cb_publish_request request :
  us_taken d = [] ->
  simulates C (on cw_links (on timing_events (mailbox_publish now epoch request)))
    (on cw_links (on timing_events (mailbox_publish now epoch request))).
Proof using Type.
  intros Hnil. apply (sim_zoom _ links_before); [by intros s t [] | intros x y s t [H1 H2 H3 H4 H5] H; by constructor|].
  intros l l' a l1 HL H. destruct HL as [K1 K2 K3 K4 K5 K6 K7 K8 K9]. apply m_zoom_ok in H as (b & H & ->).
  rewrite Hnil, preceded_nil in K1. rewrite <-K1 in H. exists (l' <| timing_events := b |>).
  split; [unfold m_zoom; by rewrite H|]. destruct K9 as [K9 K10]. apply publish_grown in H as [Hg Hs]; [|done].
  constructor; simpl; try done; [by rewrite Hnil, preceded_nil|].
  destruct K8 as (M1 & M2). split; [by eapply grown_trans | done].
Qed.

Lemma cb_publish_closure message :
  us_ended d = [] ->
  simulates C (on cw_links (on closure (mailbox_publish now epoch message)))
    (on cw_links (on closure (mailbox_publish now epoch message))).
Proof using Type.
  intros Hnil. apply (sim_zoom _ links_before); [by intros s t [] | intros x y s t [H1 H2 H3 H4 H5] H; by constructor|].
  intros l l' a l1 HL H. destruct HL as [K1 K2 K3 K4 K5 K6 K7 K8 K9]. apply m_zoom_ok in H as (b & H & ->).
  rewrite Hnil, preceded_nil in K3. rewrite <-K3 in H. exists (l' <| closure := b |>).
  split; [unfold m_zoom; by rewrite H|]. destruct K9 as [K9 K10]. apply publish_grown in H as [Hg Hs]; [|done].
  constructor; simpl; try done; [by rewrite Hnil, preceded_nil|].
  destruct K8 as (M1 & M2 & M3 & M4 & M5). split_and!; by first [done | eapply grown_trans].
Qed.

(** A request is only submitted when none is outstanding. *)
Lemma cb_enqueue : simulates C (enqueue now epoch) (enqueue now epoch).
Proof using Hpast.
  destruct (decide (us_taken d = [])) as [Hnil|Htaken].
  - unfold enqueue. apply sim_bind; [apply sim_gets; by intros s t [] | intros k].
    destruct (enqueue_request k); [apply sim_ret|]. destruct (negb (pending_point k)).
    { control_steps. }
    apply sim_bind; [apply sim_lift | intros request]. apply sim_bind; [apply sim_lift | intros _].
    apply (sim_bind_gets C (fun l l' => timing_events l = timing_events l')).
    { intros s t [_ _ [K1 _ _ _ _ _ _ _ _] _ _]. by rewrite K1, Hnil, preceded_nil. }
    intros l l' ->. control_steps; [|by apply cb_publish_request].
    apply cb_modify. intros k' [_ Hend]. split; [by left | exact Hend].
  - intros s t a s' HC H. pose proof HC as [H1 H2 H3 H4 [[?|Hsome] _]]; [done|].
    assert (Hw : forall w : ControlWorld, enqueue_request (cw_control w) <> None -> enqueue now epoch w = (Ok false, w)).
    { intros w Hw. unfold enqueue, m_bind, m_gets. by destruct (enqueue_request (cw_control w)). }
    rewrite Hw in H by (by rewrite H1). injection H as <- <-. exists t. split; [by apply Hw | done].
Qed.

Context (validate : EventSpec -> result unit) (check check' : Z -> result unit).
Context (Hcheck : forall target, check target = check' target).

Lemma cb_hold operation : simulates C (hold operation) (hold operation).
Proof using Type. unfold hold. control_steps. Qed.

Lemma cb_codeword port codeword i :
  simulates C (execute_codeword validate port codeword i now epoch) (execute_codeword validate port codeword i now epoch).
Proof using Hpast. unfold execute_codeword. control_steps. Qed.

Lemma cb_zero_wait : simulates C (execute_zero_wait now epoch) (execute_zero_wait now epoch).
Proof using Hpast.
  unfold execute_zero_wait. control_steps; [|apply cb_enqueue].
  apply cb_modify_same. intros k. by destruct (negb (pending_wait_for_next k)).
Qed.

Lemma cb_advance interval : simulates C (advance_time interval now epoch) (advance_time interval now epoch).
Proof using Hpast. unfold advance_time. control_steps. apply cb_enqueue. Qed.

Lemma cb_fetch qubit i : simulates C (execute_fetch qubit i now epoch) (execute_fetch qubit i now epoch).
Proof using Hpast. unfold execute_fetch. cbv zeta. control_steps. apply cb_enqueue. Qed.

Lemma cb_halt : us_ended d = [] -> simulates C (execute_halt now epoch) (execute_halt now epoch).
Proof using Hpast.
  intros Hnil. unfold execute_halt. control_steps; [apply cb_enqueue | by apply cb_publish_closure|].
  apply cb_modify. intros k [Hreq _]. split; [exact Hreq | by left].
Qed.

Lemma cb_synchronize target :
  simulates C (execute_synchronize (Some check) target) (execute_synchronize (Some check') target).
Proof using Hcheck. unfold execute_synchronize. rewrite Hcheck. control_steps. Qed.

(** A closed stream accepts no command, so that the end of a stream is sent once. *)
Lemma cb_execute operation :
  simulates C (control_execute validate (Some check) operation now epoch)
    (control_execute validate (Some check') operation now epoch).
Proof using Hpast Hcheck.
  destruct (decide (us_ended d = [])) as [Hnil|Hended].
  - unfold control_execute. apply sim_bind; [apply cb_hold | intros _]. apply sim_bind; [|intros r].
    + destruct (command operation) as [cycles| | | |];
        [destruct (cycles =? 0)| | | |];
        first [apply cb_zero_wait | apply cb_advance | apply cb_codeword | apply cb_fetch | by apply cb_halt | apply cb_synchronize].
    + control_steps.
  - intros s t a s' HC H. pose proof HC as [H1 H2 H3 H4 [_ [?|Hclosed]]]; [done|]. exfalso.
    unfold control_execute, hold in H. apply m_bind_ok in H as ([] & s1 & H & _).
    apply m_bind_ok in H as (k & s2 & Hk & H). apply m_gets_ok in Hk as [-> ->].
    apply m_bind_lift_ok in H as ([] & H & _). apply require_ok in H. by rewrite H1, Hclosed in H.
Qed.
End Control.

(** ** The CPU's edge *)

(** [c] with the parts the CPU's process owns as they are in [k], and the links [l]. *)
Definition cpu_parts (k : Core) (l : ControlLinks) (c : Core) : Core :=
  c <| co_control := co_control k |> <| co_registers := co_registers k |> <| co_links := l |>
    <| fetch_port := fetch_port k |> <| data_port := data_port k |> <| co_cpu := co_cpu k |>.

Section CpuEdge.
Context (now : Tick) (epoch : Epoch) (d : UnitSteps) (fast0 : Mailbox Completion) (l0 : ControlLinks).
Context (stalls : bool) (past past' : list TraceEvent).
Context (Hpast : past = past' \/ not_after now past').
Context (Hanswers : unread now (us_answers d)) (Hcredits : unread now (us_credits d)).
Context (s0 t0 : CoreWorld).
Context (Hid : core_id (kw_core s0) = core_id (kw_core t0)).
Context (Hidentity : co_identity (kw_core s0) = co_identity (kw_core t0)).
Context (Hdelays : forall a b, network_delay (kw_network s0) a b = network_delay (kw_network t0) a b).

(** Both runs have changed what belongs to the CPU, alike, and nothing else. *)
Record cpu_before (s t : CoreWorld) : Prop := {
  pb_left : kw_core s = cpu_parts (kw_core t) (co_links (kw_core s)) (kw_core s0);
  pb_right : kw_core t = cpu_parts (kw_core t) (co_links (kw_core t)) (kw_core t0);
  pb_networks : kw_network s = kw_network s0 /\ kw_network t = kw_network t0;
  pb_control : control_before now d fast0 l0 stalls past past' (control_view s) (control_view t) }.
#[local] Abbreviation P := cpu_before.

Lemma alike_for c s t : alike now stalls past past' s t -> alike now stalls past past' (trace_for c s) (trace_for c t).
Proof using Type. intros (added & [H1 H2 H3 H4 H5]). exists added. by constructor. Qed.
Lemma alike_root s t : alike now stalls past past' s t -> alike now stalls past past' (trace_root s) (trace_root t).
Proof using Type. intros (added & [H1 H2 H3 H4 H5]). exists added. by constructor. Qed.

Lemma pb_trace (f : Trace -> Trace) s t :
  (forall x y, alike now stalls past past' x y -> alike now stalls past past' (f x) (f y)) -> P s t ->
  P (s <| kw_trace ::= f |>) (t <| kw_trace ::= f |>).
Proof using Type.
  intros Hf [H1 H2 H3 [K1 K2 K3 K4 K5]]. constructor; [exact H1 | exact H2 | exact H3|]. constructor; try done.
  by apply Hf.
Qed.

Lemma pb_identified {A} (m n : M CoreWorld A) : simulates P m n -> simulates P (identified m) (identified n).
Proof using Hidentity.
  intros Hm s t a s' HP H. unfold identified in *. destruct (m _) as [r s1] eqn:Em. injection H as -> <-.
  assert (Hc : co_identity (kw_core s) = co_identity (kw_core t)).
  { destruct HP as [H1 H2 _ _]. transitivity (co_identity (kw_core s0)); [by rewrite H1 | by rewrite H2]. }
  rewrite Hc in Em. apply (pb_trace (trace_for (co_identity (kw_core t)))) in HP; [|apply alike_for].
  destruct (Hm _ _ _ _ HP Em) as (t1 & K & HR). exists (t1 <| kw_trace ::= trace_root |>). rewrite K. split; [done|]. apply pb_trace; [apply alike_root | done].
Qed.

Lemma pb_receive :
  simulates P (m_zoom control_view set_control_view (control_receive now epoch))
    (m_zoom control_view set_control_view (control_receive now epoch)).
Proof using Hanswers Hcredits Hpast.
  apply (sim_zoom _ (control_before now d fast0 l0 stalls past past')); [by intros s t [] | | by apply cb_receive].
  intros [k1 g1 l1 tr1] [k2 g2 l2 tr2] s t [H1 H2 H3 H4] H. constructor; [| | exact H3 | exact H].
  - destruct H as [Hk Hg _ _ _]. simpl in Hk, Hg. subst k2 g2. simpl. by rewrite H1.
  - simpl. by rewrite H2.
Qed.

(** The state behind the control port. *)
Definition port_before (x y : Trace * ControlState) : Prop :=
  control_before now d fast0 l0 stalls past past'
    (mkControlWorld (fst (fst (snd x))) (snd (fst (snd x))) (snd (snd x)) (fst x))
    (mkControlWorld (fst (fst (snd y))) (snd (fst (snd y))) (snd (snd y)) (fst y)).

Lemma pb_port validate check check' o :
  (forall target, check target = check' target) ->
  simulates port_before (control_port validate check now epoch o) (control_port validate check' now epoch o).
Proof using Hpast.
  intros Hcheck. apply (sim_zoom _ (control_before now d fast0 l0 stalls past past')); [| | by apply cb_execute].
  - by intros [tr [[k g] l]] [tr' [[k' g'] l']] H.
  - by intros [k g l tr] [k' g' l' tr'] s t _ H.
Qed.

Lemma pb_pipeline validate check check' :
  (forall target, check target = check' target) ->
  simulates P
    (m_zoom cpu_view set_cpu_view (pipeline_step (control_port validate check now epoch) now epoch))
    (m_zoom cpu_view set_cpu_view (pipeline_step (control_port validate check' now epoch) now epoch)).
Proof using Hpast.
  intros Hcheck. apply (sim_zoom _ (same_pipeline port_before)).
  - intros s t [H1 H2 H3 H4]. constructor; simpl; [by rewrite H1.. | exact H4].
  - intros [c1 f1 b1 tr1 [[k1 g1] l1]] [c2 f2 b2 tr2 [[k2 g2] l2]] s t [H1 H2 H3 H4] [E1 E2 E3 H].
    simpl in E1, E2, E3. subst c2 f2 b2. unfold port_before in H. simpl in H.
    constructor; [| | exact H3 | exact H].
    + destruct H as [Hk Hg _ _ _]. simpl in Hk, Hg. subst k2 g2. simpl. by rewrite H1.
    + simpl. by rewrite H2.
  - apply sim_pipeline; [by intros o; apply pb_port|]. intros e He.
    apply (sim_zoom _ (alike now stalls past past')); [by intros s t [] | | by apply sim_emit].
    intros x y s t [H1 H2 H3 H4 H5] H. by constructor.
Qed.

Lemma cpu_edge_before validate : simulates P (cpu_edge validate now epoch) (cpu_edge validate now epoch).
Proof using Hpast Hanswers Hcredits Hid Hidentity Hdelays.
  unfold cpu_edge. apply pb_identified. apply sim_bind; [apply pb_receive | intros _].
  apply (sim_bind_gets P P (fun w => w) (fun w => w)); [done|]. intros s t [H1 H2 [-> ->] H4]. cbv zeta.
  apply pb_pipeline. intros target. unfold sync_validate.
  replace (core_id (kw_core s)) with (core_id (kw_core t)); [by rewrite Hdelays|]. rewrite H1, H2. by symmetry.
Qed.
End CpuEdge.

(** ** The unit's edge *)

(** The delays between controllers never change. *)
Definition delays_of (n0 n : SyncNetwork) : Prop := forall a b, network_delay n a b = network_delay n0 a b.

Lemma delays_modify n0 a b f n : delays_of n0 n -> delays_of n0 (modify_link a b f n).
Proof.
  intros H a' b'. rewrite <-H. unfold network_delay, modify_link. simpl.
  destruct (decide ((a, b) = (a', b'))) as [->|Hne]; [|by rewrite lookup_alter_ne].
  rewrite lookup_alter_eq. by destruct (links_ n !! (a', b')).
Qed.

Lemma delays_preflight n0 a b now : keeps (delays_of n0) (network_preflight a b now).
Proof. unfold network_preflight. keep_steps. apply keeps_modify. intros n. apply delays_modify. Qed.

Lemma delays_send n0 a b now : keeps (delays_of n0) (network_send a b now).
Proof.
  unfold network_send. keep_steps; [apply delays_preflight|]. apply keeps_modify. intros n. apply delays_modify.
Qed.

Lemma delays_receive n0 a b now : keeps (delays_of n0) (network_receive a b now).
Proof.
  unfold network_receive. keep_steps. apply keeps_modify. intros n. apply delays_modify.
Qed.

Lemma delays_check n0 core now targets_ : keeps (fun s : SyncState => delays_of n0 (snd s)) (sync_check core now targets_).
Proof.
  assert (Hk : keeps (fun w => delays_of n0 (sw_network w)) (sync_preflight core targets_ now)).
  { unfold sync_preflight. keep_steps. apply keeps_each. intros x.
    apply (keeps_focus (delays_of n0) sw_network); [done | apply delays_preflight]. }
  intros [p n] r s' Hn H. unfold sync_check, m_zoom in H.
  destruct (sync_preflight _ _ _ _) as [r' w'] eqn:E. injection H as <- <-. simpl in Hn, E. exact (Hk _ _ _ (Hn : delays_of n0 (sw_network (mkSyncWorld p n trace_new))) E).
Qed.

Section UnitStep.
Context (now : Tick) (epoch : Epoch) (stalls : bool) (past past' : list TraceEvent).
Context (Hpast : past = past' \/ not_after now past').

Section Unit.
Context {E : Type} (preflight : TriggeredEvents -> M E unit) (sync_preflight : option (list Z -> M E unit)).
Context (J : E -> Prop).
Context (Hprepare : forall t state, keeps J (prepare_trigger preflight sync_preflight t now epoch state)).

Record same_unit (s t : TcuWorld E) : Prop := {
  su_unit : tw_tcu s = tw_tcu t;
  su_rest : tw_env s = tw_env t;
  su_kept : J (tw_env s);
  su_trace : alike now stalls past past' (tw_trace s) (tw_trace t) }.
#[local] Abbreviation U := same_unit.

Lemma su_modify f : simulates U (modify_tcu f) (modify_tcu f).
Proof using Type. apply sim_modify. intros s t [H1 H2 H3 H4]. constructor; simpl; by rewrite ?H1. Qed.

Lemma su_emit e : te_tick e = now -> simulates U (tcu_emit e) (tcu_emit e).
Proof using Hpast.
  intros He. apply (sim_zoom _ (alike now stalls past past')); [by intros s t [] | | by apply sim_emit].
  intros x y s t [H1 H2 H3 H4] H. by constructor.
Qed.

Lemma su_env {A} (m : M E A) : keeps J m -> simulates U (on tw_env m) (on tw_env m).
Proof using Type.
  intros Hm. apply (sim_zoom _ (fun x y => x = y /\ J x)); [by intros s t [] | by intros x y s t [H1 H2 H3 H4] [<- HJ]; constructor|].
  intros x y a x' [<- HJ] H. exists x'. split_and!; try done. by apply (Hm _ _ _ HJ H).
Qed.

Ltac unit_steps :=
  sim_steps; repeat (apply sim_each; intros ?; sim_steps);
  first [ apply su_modify | by apply su_emit | by apply su_env | by intros s t [] | idtac ].

Lemma su_trigger cycle trigger : simulates U (commit_trigger now epoch cycle trigger) (commit_trigger now epoch cycle trigger).
Proof using Hpast. unfold commit_trigger. cbv zeta. unit_steps. Qed.
Lemma su_admission cycle c due : simulates U (commit_admission now epoch cycle c due) (commit_admission now epoch cycle c due).
Proof using Hpast. unfold commit_admission. cbv zeta. unit_steps. Qed.
Lemma su_results cycle rs flags : simulates U (commit_fast_results now epoch cycle rs flags) (commit_fast_results now epoch cycle rs flags).
Proof using Hpast. unfold commit_fast_results. cbv zeta. unit_steps. Qed.
Lemma su_pause state ticks : simulates U (update_pause_state now epoch state ticks) (update_pause_state now epoch state ticks).
Proof using Hpast. unfold update_pause_state. unit_steps. Qed.

Lemma sim_tcu_step candidate results paused :
  simulates U (tcu_step preflight sync_preflight now epoch candidate results paused)
    (tcu_step preflight sync_preflight now epoch candidate results paused).
Proof using Hpast Hprepare.
  unfold tcu_step. cbv zeta. unit_steps; first [apply su_trigger | apply su_admission | apply su_results | apply su_pause].
Qed.
End Unit.

Context (n0 : SyncNetwork).

Record same_sync (s t : SyncWorld) : Prop := {
  sy_pending : sw_pending s = sw_pending t;
  sy_network : sw_network s = sw_network t;
  sy_kept : delays_of n0 (sw_network s);
  sy_trace : alike now stalls past past' (sw_trace s) (sw_trace t) }.
#[local] Abbreviation Y := same_sync.

Lemma sy_emit e : te_tick e = now -> simulates Y (on sw_trace (trace_emit e)) (on sw_trace (trace_emit e)).
Proof using Hpast.
  intros He. apply (sim_zoom _ (alike now stalls past past')); [by intros s t [] | | by apply sim_emit].
  intros x y s t [H1 H2 H3 H4] H. by constructor.
Qed.
Lemma sy_on_network {A} (m : M SyncNetwork A) : keeps (delays_of n0) m -> simulates Y (on sw_network m) (on sw_network m).
Proof using Type.
  intros Hm. apply (sim_zoom _ (fun x y => x = y /\ delays_of n0 x));
    [by intros s t [] | by intros x y s t [H1 H2 H3 H4] [<- HJ]; constructor|].
  intros x y a x' [<- HJ] H. exists x'. split_and!; try done. by apply (Hm _ _ _ HJ H).
Qed.
Lemma sy_book_it b : simulates Y (m_modify (fun w => w <| sw_pending := b |>)) (m_modify (fun w => w <| sw_pending := b |>)).
Proof using Type. apply sim_modify. intros s t [H1 H2 H3 H4]. by constructor. Qed.

Ltac sync_steps :=
  sim_steps; repeat (apply sim_each; intros ?; sim_steps);
  first [ apply sy_book_it | by apply sy_emit
        | apply sy_on_network; first [apply delays_preflight | apply delays_send | apply delays_receive] | by intros s t [] | idtac ].

Lemma sim_sync_step core : simulates Y (sync_step core now epoch) (sync_step core now epoch).
Proof using Hpast. unfold sync_step, sync_receive. cbv zeta. sync_steps. Qed.

Lemma sim_sync_preflight core targets_ : simulates Y (sync_preflight core targets_ now) (sync_preflight core targets_ now).
Proof using Type.
  unfold sync_preflight. apply (sim_bind_gets Y Y (fun w => w) (fun w => w)); [done|].
  intros s t [H1 H2 H3 H4]. rewrite H1. sync_steps.
Qed.

Lemma sim_sync_book core targets_ : simulates Y (sync_book core targets_ now epoch) (sync_book core targets_ now epoch).
Proof using Hpast. unfold sync_book. sync_steps. apply sim_sync_preflight. Qed.
End UnitStep.

(** What the CPU has done at the tick when the unit runs after it: the run on the left is the unit's
    without it. *)
Record CpuSteps := mkCpuSteps {
  cs_submitted : list (Envelope TimingEvents); cs_closed : list (Envelope EndOfStream);
  cs_received : list (Envelope EnqueueReply); cs_acknowledged : list (Envelope MeasurementReference) }.

(** [c] with the parts the unit's process owns as they are in [k], and the links [l]. *)
Definition unit_parts (k : Core) (l : ControlLinks) (c : Core) : Core :=
  c <| co_tcu := co_tcu k |> <| co_sync := co_sync k |> <| co_links := l |>.

Section UnitEdge.
Context (now : Tick) (epoch : Epoch) (d : CpuSteps) (stalls : bool) (past past' : list TraceEvent).
Context (Hpast : past = past' \/ not_after now past').
Context (Hsubmitted : unread now (cs_submitted d)) (Hclosed : unread now (cs_closed d)).
Context (s0 t0 : CoreWorld).
Context (Hid : core_id (kw_core s0) = core_id (kw_core t0)).
Context (Hidentity : co_identity (kw_core s0) = co_identity (kw_core t0)).
#[local] Abbreviation l0 := (co_links (kw_core s0)).

Record links_after (l l' : ControlLinks) : Prop := {
  la_requests : timing_events l' = extended (cs_submitted d) (timing_events l);
  la_replies : replies l = preceded (cs_received d) (replies l');
  la_closure : closure l' = extended (cs_closed d) (closure l);
  la_results : cpu_results l = cpu_results l0 /\ cpu_results l' = cpu_results (co_links (kw_core t0));
  la_fast : fast_results l = fast_results l';
  la_credits : fast_credits l = preceded (cs_acknowledged d) (fast_credits l');
  la_moved : shrunk (timing_events l0) (timing_events l) /\ grown now (replies l0) (replies l) /\
             shrunk (closure l0) (closure l) /\ shrunk (fast_results l0) (fast_results l) /\
             grown now (fast_credits l0) (fast_credits l);
  la_sound : sound (replies l) /\ sound (fast_credits l) }.

Record unit_after (s t : CoreWorld) : Prop := {
  pa_left : kw_core s = unit_parts (kw_core s) (co_links (kw_core s)) (kw_core s0);
  pa_right : kw_core t = unit_parts (kw_core s) (co_links (kw_core t)) (kw_core t0);
  pa_network : kw_network s = kw_network t;
  pa_delays : delays_of (kw_network s0) (kw_network s);
  pa_links : links_after (co_links (kw_core s)) (co_links (kw_core t));
  pa_trace : alike now stalls past past' (kw_trace s) (kw_trace t) }.
#[local] Abbreviation P := unit_after.

Lemma pa_core s t : P s t ->
  core_id (kw_core s) = core_id (kw_core t) /\ co_identity (kw_core s) = co_identity (kw_core t) /\
  co_tcu (kw_core s) = co_tcu (kw_core t) /\ co_sync (kw_core s) = co_sync (kw_core t).
Proof using Hid Hidentity.
  intros [H1 H2 _ _ _ _]. rewrite H2. simpl. split_and!; try done; by rewrite H1.
Qed.

Lemma pa_set_trace (f : Trace -> Trace) s t :
  (forall x y, alike now stalls past past' x y -> alike now stalls past past' (f x) (f y)) -> P s t ->
  P (s <| kw_trace ::= f |>) (t <| kw_trace ::= f |>).
Proof using Type. intros Hf [H1 H2 H3 H4 H5 H6]. constructor; try done. by apply Hf. Qed.

Lemma pa_identified {A} (m n : M CoreWorld A) : simulates P m n -> simulates P (identified m) (identified n).
Proof using Hid Hidentity.
  intros Hm s t a s' HP H. unfold identified in *. destruct (m _) as [r s1] eqn:Em. injection H as -> <-.
  destruct (pa_core s t HP) as (_ & Hc & _). rewrite Hc in Em.
  apply (pa_set_trace (trace_for (co_identity (kw_core t)))) in HP; [|apply alike_for].
  destruct (Hm _ _ _ _ HP Em) as (t1 & K & HR).
  exists (t1 <| kw_trace ::= trace_root |>). rewrite K. split; [done|]. apply pa_set_trace; [apply alike_root | done].
Qed.

Lemma pa_emit e : te_tick e = now -> simulates P (core_emit e) (core_emit e).
Proof using Hpast.
  intros He. apply (sim_zoom _ (alike now stalls past past')); [by intros s t [] | | by apply sim_emit].
  intros x y s t [H1 H2 H3 H4 H5 H6] H. by constructor.
Qed.

Lemma pa_links_zoom {A} (m n : M ControlLinks A) : simulates links_after m n -> simulates P (on_links m) (on_links n).
Proof using Type.
  apply sim_zoom; [by intros s t []|]. intros x y s t [H1 H2 H3 H4 H5 H6] H.
  constructor; try done; simpl; [by rewrite H1 | by rewrite H2].
Qed.

Lemma pa_sync {A} (m : M SyncWorld A) :
  simulates (same_sync now stalls past past' (kw_network s0)) m m -> simulates P (on_sync m) (on_sync m).
Proof using Hid Hidentity.
  apply sim_zoom.
  - intros s t HP. destruct (pa_core s t HP) as (_ & _ & _ & Hs). destruct HP as [H1 H2 H3 H4 H5 H6]. by constructor.
  - intros [p1 n1 tr1] [p2 n2 tr2] s t [H1 H2 H3 H4 H5 H6] [K1 K2 K3 K4]. simpl in K1, K2. subst p2 n2.
    constructor; try done; simpl; [by rewrite H1 | by rewrite H2].
Qed.

(** The fast results are the same messages in both runs. *)
#[local] Abbreviation results_loop :=
  (take_loop (fun s : CoreWorld * list Completion => fast_results (co_links (kw_core (fst s))))
    (fun b s => (fst s <| kw_core ::= fun c => c <| co_links ::= fun l => l <| fast_results := b |> |> |>, snd s))
    (take_result now epoch) now).
Definition with_results (x y : CoreWorld * list Completion) : Prop := P (fst x) (fst y) /\ snd x = snd y.

Lemma pa_results_loop : simulates with_results results_loop results_loop.
Proof using Hpast.
  apply (sim_take_loop with_results []); [| | constructor | | done |].
  - intros x y [[_ _ _ _ [] _] _]. by rewrite extended_nil.
  - intros b x y [[H1 H2 H3 H4 [K1 K2 K3 K4 K5 K6 K7 K8] H6] Hr] Hs. rewrite extended_nil. split; [|exact Hr].
    constructor; try done; simpl; [by rewrite H1 | by rewrite H2|]. constructor; try done. simpl.
    destruct K7 as (M1 & M2 & M3 & M4 & M5). rewrite <-K5 in Hs. split_and!; by first [done | eapply shrunk_trans].
  - intros e. unfold take_result. destruct (_ =? _).
    + apply sim_modify. intros x y [HQ Hr]. split; [exact HQ|]. simpl. by rewrite Hr.
    + apply (sim_zoom _ P); [by intros x y [] | by intros w w' x y [_ Hr] Hw | by apply pa_emit].
  - intros e l. unfold take_result. destruct (_ =? _); [by apply keeps_modify|].
    apply (keeps_focus (fun w => entries (fast_results (co_links (kw_core w))) = l) fst); [done|].
    by apply keeps_zoom.
Qed.

Lemma pa_results : simulates P (take_results now epoch) (take_results now epoch).
Proof using Hpast.
  intros s t a s' HP H. unfold take_results in *. destruct (take_loop _ _ _ _ (s, [])) as [r [s1 rs]] eqn:El.
  destruct r as [[]|]; [|discriminate H]. injection H as <- <-.
  destruct (pa_results_loop (s, []) (t, []) _ _ (conj HP eq_refl) El) as ([t1 rs'] & K & [HQ Hr]).
  simpl in HQ, Hr. subst rs'. exists t1. split; [|exact HQ]. by rewrite K.
Qed.

Lemma pa_take_request :
  simulates P (on_links (on timing_events (mailbox_take now))) (on_links (on timing_events (mailbox_take now))).
Proof using Hsubmitted.
  apply pa_links_zoom. intros l l' a l1 [K1 K2 K3 K4 K5 K6 K7 K8] H. apply m_zoom_ok in H as (b & H & ->).
  exists (l' <| timing_events := extended (cs_submitted d) b |>). split.
  - unfold m_zoom. rewrite K1, take_extended by done. by rewrite H.
  - apply take_shrunk in H. constructor; try done. simpl.
    destruct K7 as (M1 & M2 & M3 & M4 & M5). split_and!; by first [done | eapply shrunk_trans].
Qed.

Lemma pa_take_closure :
  simulates P (on_links (on closure (mailbox_take now))) (on_links (on closure (mailbox_take now))).
Proof using Hclosed.
  apply pa_links_zoom. intros l l' a l1 [K1 K2 K3 K4 K5 K6 K7 K8] H. apply m_zoom_ok in H as (b & H & ->).
  exists (l' <| closure := extended (cs_closed d) b |>). split.
  - unfold m_zoom. rewrite K3, take_extended by done. by rewrite H.
  - apply take_shrunk in H. constructor; try done. simpl.
    destruct K7 as (M1 & M2 & M3 & M4 & M5). split_and!; by first [done | eapply shrunk_trans].
Qed.

Lemma pa_reply v :
  simulates P (on_links (on replies (mailbox_publish now epoch v))) (on_links (on replies (mailbox_publish now epoch v))).
Proof using Type.
  apply pa_links_zoom. intros l l' a l1 [K1 K2 K3 K4 K5 K6 K7 [K8 K9]] H. apply m_zoom_ok in H as (b & H & ->).
  apply publish_grown in H as Hg; [|done]. destruct Hg as [Hg Hs].
  rewrite K2 in H, K8. apply publish_preceded in H as (b' & H & ->); [|done].
  exists (l' <| replies := b' |>). split; [unfold m_zoom; by rewrite H|].
  constructor; try done. simpl. destruct K7 as (M1 & M2 & M3 & M4 & M5).
  split_and!; by first [done | eapply grown_trans].
Qed.

Lemma pa_credit v :
  simulates P (on_links (on fast_credits (mailbox_publish now epoch v))) (on_links (on fast_credits (mailbox_publish now epoch v))).
Proof using Type.
  apply pa_links_zoom. intros l l' a l1 [K1 K2 K3 K4 K5 K6 K7 [K8 K9]] H. apply m_zoom_ok in H as (b & H & ->).
  apply publish_grown in H as Hg; [|done]. destruct Hg as [Hg Hs].
  rewrite K6 in H, K9. apply publish_preceded in H as (b' & H & ->); [|done].
  exists (l' <| fast_credits := b' |>). split; [unfold m_zoom; by rewrite H|].
  constructor; try done. simpl. destruct K7 as (M1 & M2 & M3 & M4 & M5).
  split_and!; by first [done | eapply grown_trans].
Qed.

Lemma pa_admitted : simulates P (reply_admitted now epoch) (reply_admitted now epoch).
Proof using Hsubmitted. unfold reply_admitted. sim_steps; [apply pa_take_request | apply pa_reply]. Qed.

Lemma pa_set_tcu s t u : P s t ->
  P (s <| kw_core ::= fun c => c <| co_tcu := u |> |>) (t <| kw_core ::= fun c => c <| co_tcu := u |> |>).
Proof using Type. intros [H1 H2 H3 H4 H5 H6]. constructor; try done; simpl; [by rewrite H1 | by rewrite H2]. Qed.

Lemma pa_closure : simulates P (receive_closure now epoch) (receive_closure now epoch).
Proof using Hclosed Hpast Hid Hidentity.
  unfold receive_closure. sim_steps; [apply pa_take_closure | | by apply pa_emit].
  apply sim_zoom_same; [by intros s t HP; apply pa_core | intros u s t; apply pa_set_tcu].
Qed.

Lemma pa_step preflight core candidate results paused :
  simulates P
    (m_zoom tcu_view set_tcu_view (tcu_step (fun batch => m_lift (preflight batch)) (Some (sync_check core now))
       now epoch candidate results paused))
    (m_zoom tcu_view set_tcu_view (tcu_step (fun batch => m_lift (preflight batch)) (Some (sync_check core now))
       now epoch candidate results paused)).
Proof using Hpast Hid Hidentity.
  apply (sim_zoom _ (same_unit now stalls past past' (fun e : SyncState => delays_of (kw_network s0) (snd e)))).
  - intros s t HP. destruct (pa_core s t HP) as (_ & _ & Hu & Hs). destruct HP as [H1 H2 H3 H4 H5 H6].
    constructor; simpl; [done | by rewrite Hs, H3 | done..].
  - intros [u1 tr1 [y1 n1]] [u2 tr2 [y2 n2]] s t [H1 H2 H3 H4 H5 H6] [K1 K2 K3 K4]. simpl in K1, K2. subst u2.
    injection K2 as <- <-. constructor; try done; simpl; [by rewrite H1 | by rewrite H2].
  - apply sim_tcu_step; [done|]. intros t state. unfold prepare_trigger. keep_steps. apply delays_check.
Qed.

Lemma tcu_edge_after preflight : simulates P (tcu_edge preflight now epoch) (tcu_edge preflight now epoch).
Proof using Hpast Hsubmitted Hclosed Hid Hidentity.
  unfold tcu_edge. apply pa_identified.
  apply sim_bind; [apply sim_gets; intros s t HP; by apply pa_core | intros core].
  apply sim_bind; [by apply pa_sync, sim_sync_step | intros paused].
  apply sim_bind; [apply sim_gets; intros s t [_ _ _ _ [-> _ _ _ _ _ _ _] _]; by rewrite peek_extended | intros request].
  apply sim_bind; [apply pa_results | intros results].
  apply sim_bind; [apply pa_step | intros output].
  apply sim_bind; [destruct (admitted output); [apply pa_admitted | apply sim_ret] | intros _].
  apply sim_bind; [by apply pa_sync, sim_sync_book | intros _].
  apply sim_bind; [apply sim_each; intros v; apply pa_credit | intros _].
  apply sim_bind; [apply pa_closure | intros _; apply sim_ret].
Qed.
End UnitEdge.

(** ** Both edges at one tick *)
Definition links_sound (l : ControlLinks) : Prop :=
  sound (timing_events l) /\ sound (replies l) /\ sound (closure l) /\ sound (cpu_results l) /\
  sound (fast_results l) /\ sound (fast_credits l).

Lemma links_eq (l l' : ControlLinks) :
  timing_events l = timing_events l' -> replies l = replies l' -> closure l = closure l' ->
  cpu_results l = cpu_results l' -> fast_results l = fast_results l' -> fast_credits l = fast_credits l' -> l = l'.
Proof. destruct l, l'. simpl. by intros -> -> -> -> -> ->. Qed.

Lemma alike_start now t past : tr_events t = past -> alike now (tr_include_stalls t) past past t t.
Proof. intros <-. exists []. constructor; [by rewrite app_nil_r.. | constructor | done | done]. Qed.

(** What the unit's edge does by itself: the run related to itself. *)
Lemma tcu_edge_effect preflight now epoch w out w2 :
  links_sound (co_links (kw_core w)) -> tcu_edge preflight now epoch w = (Ok out, w2) ->
  unit_after now (mkCpuSteps [] [] [] []) (tr_include_stalls (kw_trace w)) (tr_events (kw_trace w))
    (tr_events (kw_trace w)) w w w2 w2.
Proof.
  intros (S1 & S2 & S3 & S4 & S5 & S6) H.
  destruct (tcu_edge_after now epoch (mkCpuSteps [] [] [] []) (tr_include_stalls (kw_trace w))
    (tr_events (kw_trace w)) (tr_events (kw_trace w)) ltac:(by left) ltac:(constructor) ltac:(constructor)
    w w eq_refl eq_refl preflight w w out w2) as (t & K & HR); [|done|].
  - constructor; try done; [by destruct (kw_core w) .. | | by apply alike_start].
    constructor; simpl; rewrite ?extended_nil, ?preceded_nil; try done.
    split_and!; first [apply shrunk_refl | apply grown_refl].
  - rewrite H in K. by injection K as <-.
Qed.

(** And the CPU's. *)
Lemma cpu_edge_effect validate now epoch w u w1 :
  links_sound (co_links (kw_core w)) -> cpu_edge validate now epoch w = (Ok u, w1) ->
  cpu_before now (mkUnitSteps [] [] [] []) (fast_results (co_links (kw_core w))) (co_links (kw_core w))
    (tr_include_stalls (kw_trace w)) (tr_events (kw_trace w)) (tr_events (kw_trace w)) w w w1 w1.
Proof.
  intros (S1 & S2 & S3 & S4 & S5 & S6) H.
  destruct (cpu_edge_before now epoch (mkUnitSteps [] [] [] []) (fast_results (co_links (kw_core w)))
    (co_links (kw_core w)) (tr_include_stalls (kw_trace w)) (tr_events (kw_trace w)) (tr_events (kw_trace w))
    ltac:(by left) ltac:(constructor) ltac:(constructor) w w eq_refl eq_refl ltac:(done) validate w w u w1)
    as (t & K & HR); [|done|].
  - constructor; try done; [by destruct (kw_core w) .. |].
    constructor; try done; [| by apply alike_start | by split; left].
    constructor; simpl; rewrite ?extended_nil, ?preceded_nil; try done; [by left|].
    split_and!; first [apply shrunk_refl | apply grown_refl].
  - rewrite H in K. by injection K as <-.
Qed.

Section Reachable.
Context (show_double : double -> string) (admissible : CoreConfig -> Prop).

Lemma new_sound {X} cap rx lat (b : Mailbox X) : mailbox_new cap rx lat = Ok b -> sound b.
Proof. unfold mailbox_new. intros H. inv_ok H. reflect. unfold sound. simpl. rewrite size_of_nil. lia. Qed.

Lemma reset_sound {X} (b : Mailbox X) : sound b -> sound (mailbox_reset b).
Proof. unfold sound. pose proof (size_of_nonneg (entries b)). change (entries (mailbox_reset b)) with (@nil (Envelope X)). rewrite size_of_nil. simpl. lia. Qed.

Lemma deliver_sound now epoch completion : preserves (fun c => links_sound (co_links c)) (core_deliver now epoch completion).
Proof.
  assert (Hpub : forall v, preserves sound (mailbox_publish (T := Completion) now epoch v)).
  { intros v b u b' Hs H. by apply publish_grown in H as [_ ?]. }
  unfold core_deliver. preserve_steps; apply (preserves_focus _ links_sound); try done.
  - apply (preserves_focus _ sound); [| by intros l (_ & _ & _ & ? & _) | apply Hpub].
    by intros b l (S1 & S2 & S3 & S4 & S5 & S6) Hb.
  - apply (preserves_focus _ sound); [| by intros l (_ & _ & _ & _ & ? & _) | apply Hpub].
    by intros b l (S1 & S2 & S3 & S4 & S5 & S6) Hb.
Qed.

Lemma reachable_sound epoch c : core_reachable show_double admissible epoch c -> links_sound (co_links c).
Proof.
  induction 1 as [config identify epoch c _ H | epoch c validate now network trace u w _ IH H
                 | epoch c D contains access now d d' u c' _ IH H | epoch c preflight now network trace out w _ IH H
                 | epoch c now completion u c' _ IH H | epoch epoch' c now u c' _ IH H].
  - unfold core_new in H. cbv zeta in H. apply result_bind_ok in H as (? & _ & H).
    apply result_bind_ok in H as (links & Hl & H). do 6 apply result_bind_ok in H as (? & _ & H).
    destruct (make_cpu _ _ _) as [cpu|]; [|done]. apply Ok_inj in H as <-. simpl.
    unfold links_new in Hl. do 6 (apply result_bind_ok in Hl as (? & ?%new_sound & Hl)). apply Ok_inj in Hl as <-.
    done.
  - apply cpu_edge_effect in H; [|exact IH]. destruct H as [_ _ _ [_ _ [_ _ _ _ [_ F] _ _ (_ & M2 & _ & M4 & M5) [T1 T2]] _ _]].
    destruct IH as (S1 & S2 & S3 & S4 & S5 & S6). simpl in *. unfold links_sound. rewrite F.
    split_and!; first [done | by eapply shrunk_sound].
  - unfold memory_edge in H. apply m_zoom_ok in H as (v & _ & H). injection H as -> _. exact IH.
  - apply tcu_edge_effect in H; [|exact IH]. destruct H as [_ _ _ _ [_ _ _ [F _] _ _ (M1 & _ & M3 & M4 & _) [T1 T2]] _].
    destruct IH as (S1 & S2 & S3 & S4 & S5 & S6). simpl in *. unfold links_sound. rewrite F.
    split_and!; first [done | by eapply shrunk_sound].
  - by apply (deliver_sound now epoch completion _ _ _ IH H).
  - apply core_reset_parts in H as (_ & -> & _). destruct IH as (S1 & S2 & S3 & S4 & S5 & S6).
    split_and!; by apply reset_sound.
Qed.
End Reachable.

(** Mailboxes that one side appends to and the other empties. *)
Lemma cross {X} ds es (a b c w : Mailbox X) :
  a = preceded ds b -> a = extended es w -> w = preceded ds c -> b = extended es c.
Proof. intros -> Hw ->. rewrite <-preceded_extended in Hw. by apply preceded_inj in Hw. Qed.

(** A process works on the view of its core whatever view it is given, and returns the simulator's. *)
Lemma identified_view {A} (m : M CoreWorld A) w : identified m (w <| kw_trace ::= trace_root |>) = identified m w.
Proof. by destruct w as [c n [e s v]]. Qed.
Lemma identified_root {A} (m : M CoreWorld A) w r w' : identified m w = (r, w') -> tr_destination (kw_trace w') = None.
Proof. unfold identified. destruct (m _) as [r1 w1]. by intros [= _ <-]. Qed.

Section Swap.
Context (now : Tick) (epoch : Epoch) (w : CoreWorld).
#[local] Abbreviation trace0 := (tr_events (kw_trace w)).
#[local] Abbreviation stalls := (tr_include_stalls (kw_trace w)).
#[local] Abbreviation alone := (mkCpuSteps [] [] [] []).
Context (Hagree : core_agree epoch (kw_core w)) (Hsound : links_sound (co_links (kw_core w))).

(** After the unit's edge the CPU finds what it would have found before it. *)
Lemma unit_first w2 :
  tr_destination (kw_trace w2) = tr_destination (kw_trace w) ->
  unit_after now alone stalls trace0 trace0 w w w2 w2 ->
  exists d events, unread now (us_answers d) /\ unread now (us_credits d) /\
    cpu_before now d (fast_results (co_links (kw_core w2))) (co_links (kw_core w)) stalls
      (trace0 ++ events) trace0 w2 w w2 w.
Proof using Hagree Hsound.
  intros Hdest [P1 _ _ _ [_ _ _ [L4 _] _ _ (M1 & M2 & M3 & _ & M5) _] (events & [T1 _ T3 [T4 _] _])].
  destruct M1 as (taken & M1), M2 as (answers & M2 & U2), M3 as (ended & M3), M5 as (credits & M5 & U5).
  destruct Hsound as (S1 & S2 & S3 & S4 & S5 & S6), Hagree as [A1 A2 A3].
  exists (mkUnitSteps taken ended answers credits), events. split_and!; [done..|].
  constructor; [by rewrite P1 | by destruct (kw_core w) | done|].
  constructor; [simpl; by rewrite P1 | simpl; by rewrite P1 | | |].
  - constructor; try done; simpl.
    + destruct taken as [|e taken]; [by left|]. right. unfold in_flight_request in A2. rewrite M1 in A2. simpl in A2.
      destruct (enqueue_request _); [|by destruct A2 as [? _]].
      by destruct A2 as (_ & _ & _ & _ & [(? & _ & _ & _ & ? & _)|(? & ? & _)]).
    + split_and!; first [apply grown_refl | apply shrunk_refl].
  - exists []. by constructor; simpl; rewrite ?app_nil_r.
  - split; simpl.
    + destruct taken as [|e taken]; [by left|]. right. rewrite M1 in A2. simpl in A2.
      destruct (enqueue_request _); [done | by destruct A2 as [? _]].
    + destruct ended as [|e ended]; [by left|]. right. rewrite M3 in A3. simpl in A3.
      destruct (tl_closed _); [done | by destruct A3 as [_ ?]].
Qed.

(** After the CPU's edge the unit finds what it would have found before it. *)
Lemma cpu_first d fast0 past w21 w1 w2 :
  tr_destination (kw_trace w1) = tr_destination (kw_trace w) ->
  cpu_before now d fast0 (co_links (kw_core w)) stalls past trace0 w2 w w21 w1 ->
  exists d' events, unread now (cs_submitted d') /\ unread now (cs_closed d') /\
    tr_events (kw_trace w1) = trace0 ++ events /\ tr_events (kw_trace w21) = past ++ events /\
    Forall (fun e => te_tick e = now) events /\
    unit_after now d' stalls trace0 (trace0 ++ events) w w1 w w1.
Proof using Hagree Hsound.
  intros Hdest [_ P2 [_ P3] [_ _ [_ _ _ _ [_ L5] _ _ (M1 & M2 & M3 & M4 & M5) _] (events & [T1 T2 T3 [_ T4] T5]) _]].
  destruct M1 as (submitted & M1 & U1), M2 as (received & M2), M3 as (closed_ & M3 & U3), M5 as (acknowledged & M5).
  destruct Hsound as (S1 & S2 & S3 & S4 & S5 & S6).
  exists (mkCpuSteps submitted closed_ received acknowledged), events. split_and!; [done..|].
  constructor; [by destruct (kw_core w) | by rewrite P2 | done | done | |].
  - constructor; try done; simpl. split_and!; first [apply grown_refl | apply shrunk_refl].
  - exists []. by constructor; simpl; rewrite ?app_nil_r.
Qed.
End Swap.

Definition rooted (w : CoreWorld) : CoreWorld := w <| kw_trace ::= trace_root |>.

(** The order of the two edges does not show in the links. *)
Lemma links_commute now d fast0 stalls past trace0 trace1 d' w w1 w2 w12 w21 :
  cpu_before now d fast0 (co_links (kw_core w)) stalls past trace0 w2 w w2 w ->
  cpu_before now d fast0 (co_links (kw_core w)) stalls past trace0 w2 w w21 w1 ->
  unit_after now d' stalls trace0 trace1 w w1 w w1 ->
  unit_after now d' stalls trace0 trace1 w w1 w2 w12 ->
  co_links (kw_core w12) = co_links (kw_core w21).
Proof.
  intros [_ _ _ [_ _ [A1 A2 A3 A4 [A5 _] A6 _ _ _] _ _]] [_ _ _ [_ _ [B1 B2 B3 B4 [B5 _] B6 _ _ _] _ _]].
  intros [_ _ _ _ [C1 C2 C3 C4 C5 C6 _ _] _] [_ _ _ _ [D1 D2 D3 [_ D4] D5 D6 _ _] _]. simpl in *.
  apply links_eq.
  - rewrite D1. symmetry. by eapply cross.
  - rewrite B2. symmetry.
    rewrite D2 in A2. rewrite C2, <-preceded_extended in A2. by apply preceded_inj in A2.
  - rewrite D3. symmetry. by eapply cross.
  - by rewrite D4.
  - by rewrite B5, <-A5.
  - rewrite B6. symmetry.
    rewrite D6 in A6. rewrite C6, <-preceded_extended in A6. by apply preceded_inj in A6.
Qed.

Lemma parts_commute k1 k2 l1 l2 l c :
  unit_parts k2 l (cpu_parts k1 l1 c) = cpu_parts k1 l (unit_parts k2 l2 c).
Proof. done. Qed.

Lemma cores_commute now d fast0 stalls past past' trace0 d' past1 past1' w w1 w2 w12 w21 :
  cpu_before now d fast0 (co_links (kw_core w)) stalls past trace0 w2 w w21 w1 ->
  unit_after now d' stalls trace0 past' w w1 w2 w12 ->
  unit_after now (mkCpuSteps [] [] [] []) stalls past1 past1' w w w2 w2 ->
  co_links (kw_core w12) = co_links (kw_core w21) ->
  kw_core w12 = kw_core w21 /\ kw_network w12 = kw_network w21.
Proof.
  intros [P1 P2 [P3 _] _] [_ Q2 Q3 _ _ _] [R1 _ _ _ _ _] Hl. split; [|by rewrite P3].
  rewrite Q2, P1, Hl. rewrite P2 at 1. rewrite R1 at 2. apply parts_commute.
Qed.

Lemma trace_recorded t t0 l :
  tr_events t = tr_events t0 ++ l -> tr_include_stalls t = tr_include_stalls t0 -> tr_destination t = None ->
  t = trace_root (t0 <| tr_events ::= fun past => past ++ l |>).
Proof. destruct t as [e s v], t0 as [e0 s0 v0]. simpl. by intros -> -> ->. Qed.

Section Commute.
Context (show_double : double -> string) (admissible : CoreConfig -> Prop).

(** C4. When a CPU edge and an edge of the timing control unit fall on one tick, their order cannot be
    observed.  Take a core in any state a simulation reaches, with no event of a later tick recorded,
    and let the unit's process run before the CPU's.  Then the CPU's process also succeeds when it
    runs first, and the unit's after it; the unit returns the same output (admission, launched batch,
    synchronizations), and core, mailboxes and synchronization network end in the same state, so that
    both consume and publish the same messages.  Only the two blocks of events of that tick are
    recorded in the other order. *)
Theorem edges_commute validate preflight now epoch w out w2 w21 :
  core_reachable show_double admissible epoch (kw_core w) -> trace_ready now (kw_trace w) ->
  tcu_edge preflight now epoch w = (Ok out, w2) -> cpu_edge validate now epoch w2 = (Ok (), w21) ->
  exists w1 w12, cpu_edge validate now epoch w = (Ok (), w1) /\ tcu_edge preflight now epoch w1 = (Ok out, w12) /\
    kw_core w12 = kw_core w21 /\ kw_network w12 = kw_network w21 /\
    exists cpu_events unit_events,
      Forall (fun e => te_tick e = now) (cpu_events ++ unit_events) /\
      kw_trace w21 = trace_root (kw_trace w <| tr_events ::= fun l => l ++ unit_events ++ cpu_events |>) /\
      kw_trace w12 = trace_root (kw_trace w <| tr_events ::= fun l => l ++ cpu_events ++ unit_events |>).
Proof.
  intros Hreach Hready Htcu Hcpu.
  pose proof (reachable_agree _ _ _ _ Hreach) as Hagree. pose proof (reachable_sound _ _ _ _ Hreach) as Hsound.
  set (v := rooted w).
  assert (Hv : tcu_edge preflight now epoch v = (Ok out, w2)) by (rewrite <-Htcu; apply identified_view).
  pose proof (identified_root _ _ _ _ Htcu) as Hd2.
  pose proof (tcu_edge_effect preflight now epoch v out w2 Hsound Hv) as Hunit.
  destruct (unit_first now epoch v Hagree Hsound w2 Hd2 Hunit) as (d & events & Ud & Ud' & Hstart).
  pose proof Hunit as [P1 _ _ P4 _ _].
  destruct (cpu_edge_before now epoch d _ _ _ _ _ (or_intror Hready) Ud Ud' w2 v ltac:(by rewrite P1) ltac:(by rewrite P1)
    P4 validate w2 v () w21 Hstart Hcpu) as (w1 & Hcpu1 & Hcpu2).
  pose proof (identified_root _ _ _ _ Hcpu1) as Hd1.
  destruct (cpu_first now epoch v Hagree Hsound _ _ _ _ _ _ Hd1 Hcpu2) as (d' & cpu_events & Us & Uc & E1 & E21 & En & Hstart').
  assert (Hlast : not_after now (tr_events (kw_trace v) ++ cpu_events)).
  { unfold not_after. rewrite last_app. destruct (last cpu_events) as [e|] eqn:El; [|exact Hready].
    apply last_Some_elem_of in El. rewrite Forall_forall in En. by rewrite (En e El). }
  pose proof Hcpu2 as [_ Q2 _ _].
  destruct (tcu_edge_after now epoch d' _ _ _ (or_intror Hlast) Us Uc v w1 ltac:(by rewrite Q2) ltac:(by rewrite Q2)
    preflight v w1 out w2 Hstart' Hv) as (w12 & Htcu1 & Htcu2).
  pose proof (links_commute _ _ _ _ _ _ _ _ _ _ _ _ _ Hstart Hcpu2 Hstart' Htcu2) as Hlinks.
  destruct (cores_commute _ _ _ _ _ _ _ _ _ _ _ _ _ _ _ Hcpu2 Htcu2 Hunit Hlinks) as [Hcore Hnet].
  pose proof (identified_root _ _ _ _ Htcu1) as Hd12. pose proof (identified_root _ _ _ _ Hcpu) as Hd21.
  destruct Hcpu2 as [_ _ _ [_ _ _ (? & [_ _ _ [S21 _] _]) _]], Htcu2 as [_ _ _ _ _ (unit_events & [T2 T12 Tn [_ S12] _])].
  destruct Hstart as [_ _ _ [_ _ _ (none & [E2 E0 _ _ _]) _]].
  assert (events = unit_events) as ->.
  { assert (none = []) as ->.
    { apply (app_inv_head (tr_events (kw_trace v))). rewrite app_nil_r. by symmetry. }
    rewrite app_nil_r in E2. simpl in E2. rewrite E2 in T2. by apply app_inv_head in T2. }
  exists w1, w12. split_and!; [| exact Htcu1 | exact Hcore | exact Hnet |].
  - rewrite <-Hcpu1. symmetry. apply identified_view.
  - exists cpu_events, unit_events. split_and!; [by apply Forall_app | |]; apply trace_recorded; try done.
    + by rewrite E21, <-app_assoc.
    + by rewrite T12, <-app_assoc.
Qed.
End Commute.

(** ** Example: the program of Handshake.v at the tick at which its first request is admitted *)
Definition example_network : SyncNetwork := mkNetwork (mkClock 20 0) ∅.

(** The unit's edge and the CPU's, as the two worlds they leave. *)
Definition unit_then_cpu (now : Tick) (w : CoreWorld) : option (TcuOutput * CoreWorld * CoreWorld) :=
  match tcu_edge (fun _ => Ok ()) now 1 w with
  | (Ok out, w2) =>
      match cpu_edge (fun _ => Ok ()) now 1 w2 with (Ok _, w21) => Some (out, w2, w21) | _ => None end
  | _ => None
  end.

Definition recorded_kinds (n : nat) (now : Tick) : option (bool * list string) :=
  match handshake_after n with
  | Ok c =>
      match unit_then_cpu now (mkCoreWorld c example_network trace_new) with
      | Some (out, _, w21) => Some (admitted out, map te_kind (tr_events (kw_trace w21)))
      | None => None
      end
  | Fault _ => None
  end.

Lemma edges_commute_witness :
  exists w w1 w12 w21 out, admitted out = true /\
    (exists w2, tcu_edge (fun _ => Ok ()) 60 1 w = (Ok out, w2) /\ cpu_edge (fun _ => Ok ()) 60 1 w2 = (Ok (), w21)) /\
    cpu_edge (fun _ => Ok ()) 60 1 w = (Ok (), w1) /\ tcu_edge (fun _ => Ok ()) 60 1 w1 = (Ok out, w12) /\
    map te_kind (tr_events (kw_trace w21)) = ["TimingPointEnqueued"; "CpuStalled"; "CpuPipelineUpdated"]%string /\
    kw_core w12 = kw_core w21.
Proof.
  assert (Hk : recorded_kinds 12 60 = Some (true, ["TimingPointEnqueued"; "CpuStalled"; "CpuPipelineUpdated"]%string))
    by (vm_compute; reflexivity).
  unfold recorded_kinds in Hk. destruct (handshake_after 12) as [c|] eqn:Ec; [|discriminate Hk].
  unfold unit_then_cpu in Hk. set (w := mkCoreWorld c example_network trace_new) in *.
  destruct (tcu_edge (fun _ => Ok ()) 60 1 w) as [[out|] w2] eqn:Ht; [|discriminate Hk].
  destruct (cpu_edge (fun _ => Ok ()) 60 1 w2) as [[[]|] w21] eqn:Hc; [|discriminate Hk]. injection Hk as Ha Hkinds.
  destruct (edges_commute (fun _ => "0"%string) (fun _ => True) (fun _ => Ok ()) (fun _ => Ok ()) 60 1 w out w2 w21
    (handshake_after_reachable (fun _ => True) 12 c I Ec) I Ht Hc) as (w1 & w12 & H1 & H2 & H3 & _ & _).
  exists w, w1, w12, w21, out.
  exact (conj Ha (conj (ex_intro _ w2 (conj Ht Hc)) (conj H1 (conj H2 (conj Hkinds H3))))).
Defined.
