(* ===== verification/Simulator.v ===== *)
(** * The simulator (src/simulator.cpp, include/qsbit/simulator.hpp)

    The simulator owns the cores, the network, the decoders and the device and is made of five
    processes: the CPU, memory and TCU edges of all cores, a wake-up and a barrier that runs the
    device after every clocked process of the tick.  The SystemC kernel is the relation
    [kernel_step]: at a tick every process that is due runs once, in any order; a notified barrier
    runs before time advances; then time advances to the next tick at which a process is due. *)

From S2P Require Import Prelude Error Time Event Trace Mailbox Isa ControlCommand Image Memory Mmio Decoder.
From S2P Require Import Feedback Profile Protocol TimingControl Tcu Sync Backend Resources Gates Readouts Electronics Pipeline Core.

Record Simulator (B : Type) := mkSimulator {
  sm_profile : Profile; sm_trace : Trace; decoders_ : DecoderSystem; network_ : SyncNetwork;
  cores_ : list Core; port_offsets_ : list Z; device_ : ControlElectronics B;
  wake_ : option Tick; barrier_ : bool; cpu_done_ : option Tick; memory_done_ : option Tick;
  tcu_done_ : option Tick; last_reset_ : option Tick; resets_ : list Tick; epoch_ : Epoch;
  reverse_ : bool; stopped_ : bool; success_ : bool; fault_ : option ErrorCode }.
Arguments mkSimulator {B}.
Arguments sm_profile {B}.
Arguments sm_trace {B}.
Arguments decoders_ {B}.
Arguments network_ {B}.
Arguments cores_ {B}.
Arguments port_offsets_ {B}.
Arguments device_ {B}.
Arguments wake_ {B}.
Arguments barrier_ {B}.
Arguments cpu_done_ {B}.
Arguments memory_done_ {B}.
Arguments tcu_done_ {B}.
Arguments last_reset_ {B}.
Arguments resets_ {B}.
Arguments epoch_ {B}.
Arguments reverse_ {B}.
Arguments stopped_ {B}.
Arguments success_ {B}.
Arguments fault_ {B}.
#[global] Instance eta_Simulator {B} : Eta (Simulator B) := fun s =>
  mkSimulator (sm_profile s) (sm_trace s) (decoders_ s) (network_ s) (cores_ s) (port_offsets_ s)
    (device_ s) (wake_ s) (barrier_ s) (cpu_done_ s) (memory_done_ s) (tcu_done_ s) (last_reset_ s)
    (resets_ s) (epoch_ s) (reverse_ s) (stopped_ s) (success_ s) (fault_ s).

(** ** The checks of the configuration *)

(** One core against the first: unique addresses, shared TCU clock, qubits, seed, watchdog and gates. *)
Definition check_core (first : Profile) (seen : gset Z * Z) (c : CoreConfig) : result (gset Z * Z) :=
  let p := cc_profile c in
  do? profile_validate p in
  do? require (cc_id c <=? 131071) InvalidProfile in
  let? ids := insert_new (fst seen) (cc_id c) in
  do? require ((period (tcu_clock p) =? period (tcu_clock first)) && (phase (tcu_clock p) =? phase (tcu_clock first)) &&
               (qubits p =? qubits first) && (seed p =? seed first) && (watchdog p =? watchdog first) &&
               bool_decide (two_qubit_gates p = two_qubit_gates first)) InvalidProfile in
  let? total := checked_add (snd seen) (ports p) in
  Ok (ids, total).

Definition check_link (ids : gset Z) (link : SyncConnection) : result unit :=
  require (bool_decide (first link ∈ ids) && bool_decide (second link ∈ ids)) InvalidProfile.

(** A gate's input is the only action of a mapping of its core. *)
Definition check_gate_input (cores : list CoreConfig) (g : TwoQubitGate) (input : GateInput) : result unit :=
  match List.find (fun c => cc_id c =? in_core input) cores with
  | None => Fault InvalidProfile
  | Some core =>
      match List.find (fun m => (map_port m =? in_port input) && (map_codeword m =? in_codeword input))
                      (mappings (cc_profile core)) with
      | None => Fault InvalidProfile
      | Some m => require (match map_actions m with
                           | [a] => bool_decide (output_name a = Some (tq_name g))
                           | _ => false
                           end) InvalidProfile
      end
  end.

(** A gate output of a core is an input of its gate. *)
Definition check_output (first : Profile) (c : CoreConfig) (m : Mapping) (a : EventSpec) : result unit :=
  match output_name a with
  | None => Ok ()
  | Some name =>
      let? g := profile_gate first name in
      require (bool_decide (mkInput (cc_id c) (map_port m) (map_codeword m) ∈ tq_inputs g)) InvalidProfile
  end.

(** [resolution]: SystemC's time resolution is one nanosecond. *)
Definition validated (resolution : bool) (cores : list CoreConfig) (links : list SyncConnection)
    : result Profile :=
  do? require resolution InvalidProfile in
  match cores with
  | [] => Fault InvalidProfile
  | front :: _ =>
      let first := cc_profile front in
      let? seen := result_fold (check_core first) cores (∅, 0) in
      do? require (snd seen <=? max32) InvalidProfile in
      do? result_each (check_link (fst seen)) links in
      do? result_each (fun g => result_each (check_gate_input cores g) (tq_inputs g)) (two_qubit_gates first) in
      do? result_each (fun c => result_each (fun m => result_each (check_output first c m) (map_actions m))
                                  (mappings (cc_profile c))) cores in
      Ok first
  end.

Fixpoint strictly_increasing (l : list Tick) : bool :=
  match l with
  | x :: (y :: _) as rest => (x <? y) && strictly_increasing rest
  | _ => true
  end.

Section Simulator.
Context {B : Type} `{HQ : QuantumBackend B}.
Abbreviation Sim := (Simulator B).

(** ** Views of the components *)
Definition core_count (s : Sim) : Z := size_of (cores_ s).
Definition core_indices (s : Sim) : list nat := seq 0 (length (cores_ s)).
Definition offset_of (s : Sim) (i : nat) : Z := nth i (port_offsets_ s) 0.

Definition on_core {A} (i : nat) (m : M CoreWorld A) : M Sim A := fun s =>
  match cores_ s !! i with
  | None => (Fault Protocol, s)
  | Some c =>
      let '(r, w) := m (mkCoreWorld c (network_ s) (sm_trace s)) in
      (r, s <| cores_ ::= <[i := kw_core w]> |> <| network_ := kw_network w |> <| sm_trace := kw_trace w |>)
  end.

(** A core's memory, with the decoders' registers behind it. *)
Definition on_memory {A} (i : nat) (m : M (Core * DecoderWorld) A) : M Sim A := fun s =>
  match cores_ s !! i with
  | None => (Fault Protocol, s)
  | Some c =>
      let '(r, (c', d)) := m (c, mkDecoderWorld (decoders_ s) (sm_trace s)) in
      (r, s <| cores_ ::= <[i := c']> |> <| decoders_ := xw_system d |> <| sm_trace := xw_trace d |>)
  end.

Definition on_decoders {A} (m : M DecoderWorld A) : M Sim A :=
  m_zoom (fun s => mkDecoderWorld (decoders_ s) (sm_trace s))
         (fun d s => s <| decoders_ := xw_system d |> <| sm_trace := xw_trace d |>) m.

(** The device delivers to the cores. *)
Definition on_device {A} (m : M (DeviceWorld B (list Core)) A) : M Sim A :=
  m_zoom (fun s => mkDeviceWorld (device_ s) (sm_trace s) (cores_ s))
         (fun w s => s <| device_ := dw_device w |> <| sm_trace := dw_trace w |> <| cores_ := dw_env w |>) m.

Definition sim_emit (e : TraceEvent) : M Sim unit := on sm_trace (trace_emit e).

(** ** Identities

    With several cores the device sees the identities of all cores interleaved. *)
Definition global_id (cores index : Z) (id : Id) : result Id :=
  do? require (0 <? id) Protocol in
  let? n := checked_mul (id - 1) cores in
  checked_add n (index + 1).

Definition device_event (s : Sim) (index : nat) (core : Z) (e : OperationEvent) : result OperationEvent :=
  let? id := global_id (core_count s) (Z.of_nat index) (oe_id e) in
  let? reference :=
    match oe_reference e with
    | None => Ok None
    | Some r =>
        let? m := global_id (core_count s) (Z.of_nat index) (ref_measurement r) in
        Ok (Some (mkReference (ref_epoch r) m (ref_target r)))
    end in
  Ok (e <| oe_id := id |> <| oe_core := Some core |>
        <| oe_action ::= fun a => a <| ev_port ::= fun p => wrap32 (p + offset_of s index) |> |>
        <| oe_reference := reference |>).

Definition device_events (s : Sim) (batch : TriggeredEvents) (index : nat) : result TriggeredEvents :=
  match cores_ s with
  | [c] => Ok (if core_id c =? 0 then batch
               else batch <| tg_events ::= map (fun e => e <| oe_core := Some (core_id c) |>) |>)
  | _ =>
      match cores_ s !! index with
      | None => Fault Protocol
      | Some c =>
          let? events := result_fold (fun done e => let? e := device_event s index (core_id c) e in Ok (done ++ [e]))
                           (tg_events batch) [] in
          Ok (batch <| tg_events := events |>)
      end
  end.

(** The inverse: the core and its own identity for a completion of the device. *)
Definition local_result (cores : Z) (c : Completion) : result (Z * Completion) :=
  let r := comp_reference c in
  do? require (0 <? ref_measurement r) Protocol in
  Ok ((ref_measurement r - 1) mod cores,
      mkCompletion (mkReference (ref_epoch r) ((ref_measurement r - 1) / cores + 1) (ref_target r)) (comp_value c)).

Definition deliver_to (now : Tick) (epoch : Epoch) (index : Z) (c : Completion) : M (list Core) unit := fun cores =>
  match cores !! Z.to_nat index with
  | None => (Fault BackendFailure, cores)
  | Some core => let '(r, core') := core_deliver now epoch c core in (r, <[Z.to_nat index := core']> cores)
  end.

Definition deliver_result (now : Tick) (epoch : Epoch) (c : Completion) : M (list Core) unit :=
  let! n := m_gets size_of in
  let! p := m_lift (local_result n c) in
  deliver_to now epoch (fst p) (snd p).

(** ** Processes *)
Definition reset_cores (now : Tick) : M Sim unit :=
  let! s := m_get in
  m_each (fun i => on_core i (m_zoom kw_core (fun c w => w <| kw_core := c |>) (core_reset now))) (core_indices s).

(** [resets_] is sorted, so that the binary search is a membership test. *)
Definition reset_at (now : Tick) : M Sim bool :=
  let! s := m_get in
  if negb (bool_decide (now ∈ resets_ s)) then m_ret false else
  if bool_decide (last_reset_ s = Some now) then m_ret true else
  let! next := m_lift (checked_add (epoch_ s) 1) in
  do! m_modify (fun s => s <| epoch_ := next |> <| network_ ::= network_reset |> <| decoders_ ::= decoder_reset |>) in
  do! reset_cores now in
  do! on_device (device_reset now next) in
  do! m_modify (fun s => s <| last_reset_ := Some now |>) in
  do! sim_emit (trace_event now next "SessionReset" 0 0 0) in
  m_ret true.

Definition fail (now : Tick) (code : ErrorCode) : M Sim unit :=
  let! s := m_get in
  if stopped_ s then m_ret () else
  do! m_modify (fun s => s <| fault_ := Some code |> <| stopped_ := true |>) in
  sim_emit (trace_event now (epoch_ s) "Fault" 0 0 0 <| te_operation := error_name code |>).

(** A process that is not run once stopped and whose faults stop the simulation. *)
Definition process (now : Tick) (body : M Sim unit) : M Sim unit := fun s =>
  if stopped_ s then (Ok (), s) else
  match body s with
  | (Ok _, s') => (Ok (), s')
  | (Fault code, s') => fail now code s'
  end.

Definition notify_barrier : M Sim unit := m_modify (fun s => s <| barrier_ := true |>).

(** The cores whose CPU clock has an edge. *)
Definition at_cpu_edge (now : Tick) (s : Sim) (i : nat) : bool :=
  match cores_ s !! i with Some c => clock_edge (cpu_clock (co_profile c)) now | None => false end.

(** The check of an action that a core's instruction queues. *)
Definition validate_for_core (s : Sim) (i : nat) (e : EventSpec) : result unit :=
  device_validate (device_ s) (e <| ev_port ::= fun p => wrap32 (p + offset_of s i) |>).

Definition core_cpu_edge (now : Tick) (i : nat) : M Sim unit :=
  let! s := m_get in
  if at_cpu_edge now s i then on_core i (cpu_edge (validate_for_core s i) now (epoch_ s)) else m_ret ().

Definition core_memory_edge (now : Tick) (i : nat) : M Sim unit :=
  let! s := m_get in
  match cores_ s !! i with
  | Some c =>
      if at_cpu_edge now s i
      then on_memory i (memory_edge (mmio_contains (ds_mmio (decoders_ s))) (decoder_access (core_id c)) now (epoch_ s))
      else m_ret ()
  | None => m_ret ()
  end.

Definition sim_cpu_edge (now : Tick) : M Sim unit :=
  process now
    (let! r := reset_at now in
     let! s := m_get in
     do! (if r : bool then m_ret () else m_each (core_cpu_edge now) (core_indices s)) in
     do! m_modify (fun s => s <| cpu_done_ := Some now |>) in
     notify_barrier).

Definition sim_memory_edge (now : Tick) : M Sim unit :=
  process now
    (let! r := reset_at now in
     let! s := m_get in
     do! (if r : bool then m_ret () else m_each (core_memory_edge now) (core_indices s)) in
     do! m_modify (fun s => s <| memory_done_ := Some now |>) in
     notify_barrier).

(** One core's TCU edge: the device checks a launch before the TCU commits to it. *)
Definition core_tcu_edge (now : Tick) (i : nat) : M Sim unit :=
  let! s := m_get in
  let preflight batch := let? b := device_events s batch i in device_preflight (device_ s) b in
  let! output := on_core i (tcu_edge preflight now (epoch_ s)) in
  match launch output with
  | None => m_ret ()
  | Some batch =>
      let! s := m_get in
      let! b := m_lift (device_events s batch i) in
      on_device (device_accept b)
  end.

Definition sim_tcu_edge (now : Tick) : M Sim unit :=
  process now
    (let! r := reset_at now in
     let! s := m_get in
     do! (if r : bool then m_ret ()
          else m_each (core_tcu_edge now) (if reverse_ s then rev (core_indices s) else core_indices s)) in
     do! m_modify (fun s => s <| tcu_done_ := Some now |>) in
     notify_barrier).

Definition wakeup (now : Tick) : M Sim unit :=
  process now (let! _ := reset_at now in notify_barrier).

(** ** The barrier *)
Definition earlier (t : Tick) (o : option Tick) : Tick := match o with Some u => Z.min t u | None => t end.

(** [std::upper_bound] on the sorted reset ticks. *)
Definition next_reset (s : Sim) (now : Tick) : option Tick := List.find (fun t => now <? t) (resets_ s).

Definition schedule_wakeup (now : Tick) : M Sim unit :=
  let! s := m_get in
  let next := earlier (earlier (earlier (watchdog (sm_profile s)) (decoder_next_boundary (decoders_ s) now))
                         (next_boundary (device_ s))) (next_reset s now) in
  do! m_lift (require (now <? next) Protocol) in
  m_modify (fun s => s <| wake_ := Some next |>).

(** Whether every clocked process due at [now] has run. *)
Definition cpu_edge_now (s : Sim) (now : Tick) : bool :=
  existsb (fun c => clock_edge (cpu_clock (co_profile c)) now) (cores_ s).
Definition barrier_ready (s : Sim) (now : Tick) : bool :=
  negb (cpu_edge_now s now && (bool_decide (cpu_done_ s <> Some now) || bool_decide (memory_done_ s <> Some now))) &&
  negb (clock_edge (tcu_clock (sm_profile s)) now && bool_decide (tcu_done_ s <> Some now)).

Definition sim_drained (s : Sim) : bool :=
  device_drained (device_ s) && network_empty (network_ s) && decoder_idle (decoders_ s) &&
  forallb core_drained (cores_ s).

Definition step_device (now : Tick) : M Sim unit :=
  let! s := m_get in
  do! (if bool_decide (last_reset_ s = Some now) then m_ret () else on_decoders (decoder_step now (epoch_ s))) in
  let! r := reset_at now in
  let! s := m_get in
  if negb r && bool_decide (next_boundary (device_ s) = Some now)
  then on_device (device_process (deliver_result now (epoch_ s)) now (epoch_ s))
  else m_ret ().

Definition finish_or_wait (now : Tick) : M Sim unit :=
  let! s := m_get in
  if sim_drained s then
    do! on_device (device_finalize now) in
    do! m_modify (fun s => s <| success_ := true |> <| stopped_ := true |>) in
    sim_emit (trace_event now (epoch_ s) "SimulationCompleted" 0 0 0)
  else
    do! m_lift (require (now <? watchdog (sm_profile s)) Watchdog) in
    schedule_wakeup now.

Definition barrier (now : Tick) : M Sim unit := fun s =>
  if stopped_ s then (Ok (), s) else
  if barrier_ready s now then process now (do! step_device now in finish_or_wait now) s
  else (Ok (), s).

(** ** Construction *)
Definition check_resets (watchdog : Tick) (resets : list Tick) : result unit :=
  do? require (strictly_increasing resets) InvalidProfile in
  result_each (fun t => require ((0 <? t) && (t <? watchdog)) InvalidProfile) resets.

(** The cores with their port offsets, in configuration order. *)
Definition add_core (show_double : double -> string) (decoders : DecoderSystem) (identify : bool)
    (built : list Core * list Z * Z) (config : CoreConfig) : result (list Core * list Z * Z) :=
  let '(cores, offsets, offset) := built in
  do? validate_memory (ds_mmio decoders) (cc_image config) in
  let? c := core_new show_double config identify in
  Ok (cores ++ [c], offsets ++ [offset], wrap32 (offset + ports (cc_profile config))).

(** Built at tick 0, before the simulation starts. *)
Definition simulator_new (show_double : double -> string) (resolution : bool) (configs : list CoreConfig)
    (connections : list SyncConnection) (backend : option B) (resets : list Tick) (reverse : bool)
    (max_batch : Z) (decoding : DecoderSystemConfig) : result Sim :=
  let? p := validated resolution configs connections in
  let? decoders := decoders_new decoding in
  match backend with
  | None => Fault InvalidProfile
  | Some backend =>
      let? network := network_new (tcu_clock p) connections in
      let? dp := device_profile p in
      let? device := electronics_new dp backend max_batch in
      do? check_resets (watchdog p) resets in
      let? built := result_fold (add_core show_double decoders (1 <? size_of configs)) configs ([], [], 0) in
      let '(cores, offsets, _) := built in
      let s := mkSimulator p trace_new decoders network cores offsets device None false None None None None
                 resets 1 reverse false false None in
      match (do! sim_emit (trace_event 0 1 "SessionStarted" 0 0 0 <| te_detail := fingerprint show_double p |>) in
             schedule_wakeup 0) s with
      | (Ok _, s') => Ok s'
      | (Fault code, _) => Fault code
      end
  end.

(** ** The kernel *)
Inductive Process := CpuEdge | MemoryEdge | TcuEdge | Wakeup.

Definition run_process (p : Process) (now : Tick) : M Sim unit :=
  match p with
  | CpuEdge => sim_cpu_edge now
  | MemoryEdge => sim_memory_edge now
  | TcuEdge => sim_tcu_edge now
  | Wakeup => wakeup now
  end.

(** The processes whose events occur at a tick. *)
Definition due_at (s : Sim) (t : Tick) : list Process :=
  (if cpu_edge_now s t then [CpuEdge; MemoryEdge] else []) ++
  (if clock_edge (tcu_clock (sm_profile s)) t then [TcuEdge] else []) ++
  (if bool_decide (wake_ s = Some t) then [Wakeup] else []).

(** The wake-up event, if it occurs now, is spent. *)
Definition take_wakeup (now : Tick) (s : Sim) : Sim :=
  if bool_decide (wake_ s = Some now) then s <| wake_ := None |> else s.

Record Kernel := mkKernel { kn_now : Tick; kn_due : list Process; kn_sim : Sim }.

Definition kernel_at (t : Tick) (s : Sim) : Kernel := mkKernel t (due_at s t) (take_wakeup t s).
Definition kernel_start (s : Sim) : Kernel := kernel_at 0 s.

(** [sc_start] until [sc_stop]. *)
Inductive kernel_step : relation Kernel :=
| kernel_run now before p after s :
    stopped_ s = false ->
    kernel_step (mkKernel now (before ++ p :: after) s)
                (mkKernel now (before ++ after) (snd (run_process p now s)))
| kernel_barrier now due s :
    stopped_ s = false -> barrier_ s = true ->
    kernel_step (mkKernel now due s) (mkKernel now due (snd (barrier now (s <| barrier_ := false |>))))
| kernel_advance now t s :
    stopped_ s = false -> barrier_ s = false -> now < t -> due_at s t <> [] ->
    (forall u, now < u < t -> due_at s u = []) ->
    kernel_step (mkKernel now [] s) (kernel_at t s).
End Simulator.
Arguments Kernel : clear implicits.
