(* ===== verification/Schedule.v ===== *)
(** * Scheduling (src/simulator.cpp)

    What the simulator guarantees in whatever order the kernel runs the processes of a tick: the
    simulation ends by its watchdog, every configured reset happens exactly once, and identities
    survive the way to the device and back. *)

From S2P Require Import Prelude Error Time Event Trace Mailbox Isa ControlCommand Image Memory Mmio Decoder.
From S2P Require Import Feedback Profile Protocol TimingControl Tcu Sync Backend Resources Gates Readouts Electronics Pipeline Core.
From S2P Require Import Simulator.

(** ** What the components leave alone

    [Status] is the part of the simulator that only its own processes change. *)
Record Status := mkStatus {
  su_profile : Profile; su_profiles : list Profile; su_resets : list Tick; su_wake : option Tick;
  su_barrier : bool; su_cpu : option Tick; su_memory : option Tick; su_tcu : option Tick;
  su_reset : option Tick; su_epoch : Epoch; su_stopped : bool; su_success : bool;
  su_fault : option ErrorCode }.
#[global] Instance eta_Status : Eta Status := fun s =>
  mkStatus (su_profile s) (su_profiles s) (su_resets s) (su_wake s) (su_barrier s) (su_cpu s)
    (su_memory s) (su_tcu s) (su_reset s) (su_epoch s) (su_stopped s) (su_success s) (su_fault s).

Definition status {B} (s : Simulator B) : Status :=
  mkStatus (sm_profile s) (map co_profile (cores_ s)) (resets_ s) (wake_ s) (barrier_ s) (cpu_done_ s)
    (memory_done_ s) (tcu_done_ s) (last_reset_ s) (epoch_ s) (stopped_ s) (success_ s) (fault_ s).

Section CoreProfile.
Context (p : Profile).
Definition of_profile (w : CoreWorld) : Prop := co_profile (kw_core w) = p.

Lemma keeps_identified {A} (m : M CoreWorld A) : keeps of_profile m -> keeps of_profile (identified m).
Proof.
  intros Hm w r w' Hw H. unfold identified in H. destruct (m _) as [r1 w1] eqn:E. injection H as <- <-.
  assert (H1 : of_profile w1) by (eapply Hm; [|exact E]; done). exact H1.
Qed.

Lemma keeps_core_zoom {A T} (get : CoreWorld -> T) set (m : M T A) :
  (forall t w, co_profile (kw_core (set t w)) = co_profile (kw_core w)) -> keeps of_profile (m_zoom get set m).
Proof. intros H. apply keeps_zoom. intros t w Hw. unfold of_profile. by rewrite H. Qed.

Lemma set_cpu_view_profile v w : co_profile (kw_core (set_cpu_view v w)) = co_profile (kw_core w).
Proof. unfold set_cpu_view. by destruct (pw_env v) as [[] ]. Qed.

Lemma keeps_take_results now epoch : keeps of_profile (take_results now epoch).
Proof.
  intros w r w' Hw H. unfold take_results in H. destruct (take_loop _ _ _ _ _) as [r1 [w1 l]] eqn:E.
  injection H as <- <-. refine (keeps_take_loop (fun s => of_profile (fst s)) _ _ _ _ _ _ _ _ _ _ E); [done| |exact Hw].
  intros e. unfold take_result. destruct (_ =? _); [by apply keeps_modify|].
  apply (keeps_focus of_profile fst); [done|]. by apply keeps_core_zoom.
Qed.

Lemma keeps_cpu_edge validate now epoch : keeps of_profile (cpu_edge validate now epoch).
Proof.
  apply keeps_identified. keep_steps; apply keeps_core_zoom; [done | apply set_cpu_view_profile].
Qed.

Lemma keeps_tcu_edge preflight now epoch : keeps of_profile (tcu_edge preflight now epoch).
Proof.
  apply keeps_identified. unfold reply_admitted, receive_closure. keep_steps;
    first [apply keeps_take_results | apply keeps_each; intros | idtac]; by apply keeps_core_zoom.
Qed.

Lemma keeps_reset_core now :
  keeps of_profile (m_zoom kw_core (fun c w => w <| kw_core := c |>) (core_reset now)).
Proof.
  apply (keeps_focus (fun c => co_profile c = p)); [done|].
  unfold core_reset. keep_steps; first [by apply keeps_modify | by apply keeps_zoom].
Qed.

Lemma keeps_core_deliver now epoch c : keeps (fun k => co_profile k = p) (core_deliver now epoch c).
Proof. unfold core_deliver. keep_steps; by apply keeps_zoom. Qed.

Lemma keeps_memory_edge {D} contains access now epoch :
  keeps (fun s : Core * D => co_profile (fst s) = p) (memory_edge contains access now epoch).
Proof. by apply keeps_zoom. Qed.
End CoreProfile.

Section Device.
Context {B F : Type} `{HQ : QuantumBackend B}.
Context (J : F -> Prop).

Definition env_ok (w : DeviceWorld B F) : Prop := J (dw_env w).

Lemma keeps_env_zoom {A T} (get : DeviceWorld B F -> T) set (m : M T A) :
  (forall t w, dw_env (set t w) = dw_env w) -> keeps env_ok (m_zoom get set m).
Proof. intros H. apply keeps_zoom. intros t w Hw. unfold env_ok. by rewrite H. Qed.

Lemma keeps_env_modify (f : ControlElectronics B -> ControlElectronics B) : keeps env_ok (modify_device f).
Proof. by apply keeps_modify. Qed.

(** Steps of the device that do not deliver. *)
Ltac device_steps :=
  repeat (keep_steps; first
    [ apply keeps_env_modify | by apply keeps_env_zoom | apply keeps_each; intros ]).

Lemma keeps_env_accept batch : keeps env_ok (device_accept batch).
Proof.
  unfold device_accept. keep_steps; try (by apply keeps_env_zoom); apply keeps_each; intros;
    unfold accept_action; device_steps.
Qed.

Lemma keeps_env_reset now epoch : keeps env_ok (device_reset now epoch).
Proof. unfold device_reset. device_steps. Qed.

Lemma keeps_env_finalize now : keeps env_ok (device_finalize now).
Proof. unfold device_finalize. device_steps. Qed.

Lemma keeps_env_process (deliver : Completion -> M F unit) now epoch :
  (forall c, keeps J (deliver c)) -> keeps env_ok (device_process deliver now epoch).
Proof.
  intros Hd. unfold device_process, process_boundary. keep_steps;
    try (by apply keeps_env_zoom); try apply keeps_env_modify; apply keeps_each; intros x.
  - unfold commit_sample. device_steps.
  - unfold commit_end. device_steps.
  - unfold commit_gate. device_steps.
  - unfold commit_start. device_steps.
  - unfold commit_ready. keep_steps; [by apply (keeps_focus J) | device_steps | device_steps].
Qed.
End Device.

Section Frame.
Context {B : Type} `{HQ : QuantumBackend B}.
Abbreviation Sim := (Simulator B).

(** A computation that changes components only. *)
Definition framed {A} (m : M Sim A) : Prop := forall st, keeps (fun s => status s = st) m.

Lemma framed_keeps {A} (P : Status -> Prop) (m : M Sim A) : framed m -> keeps (fun s => P (status s)) m.
Proof. intros Hm s r s' HP H. by rewrite (Hm (status s) s r s' eq_refl H). Qed.

Lemma framed_zoom {A T} (get : Sim -> T) set (m : M T A) :
  (forall t s, status (set t s) = status s) -> framed (m_zoom get set m).
Proof. intros H st. apply keeps_zoom. intros t s <-. apply H. Qed.

(** Replacing a core by one with the same profile. *)
Lemma profiles_insert (cs : list Core) i c c' :
  cs !! i = Some c -> co_profile c' = co_profile c -> map co_profile (<[i := c']> cs) = map co_profile cs.
Proof.
  intros Hi Hp. change (map co_profile) with (fmap (M:=list) co_profile). rewrite list_fmap_insert, Hp.
  apply list_insert_id. by rewrite list_lookup_fmap, Hi.
Qed.

Lemma framed_on_core {A} i (m : M CoreWorld A) : (forall p, keeps (of_profile p) m) -> framed (on_core i m).
Proof.
  intros Hm st s r s' <- H. unfold on_core in H. destruct (cores_ s !! i) as [c|] eqn:E; [|by injection H as <- <-].
  destruct (m _) as [r1 w] eqn:Em. injection H as <- <-.
  assert (Hp : co_profile (kw_core w) = co_profile c) by (eapply (Hm _); [|exact Em]; done).
  unfold status. simpl. by rewrite (profiles_insert _ _ c).
Qed.

Lemma framed_on_memory {A} i (m : M (Core * DecoderWorld) A) :
  (forall p, keeps (fun s => co_profile (fst s) = p) m) -> framed (on_memory i m).
Proof.
  intros Hm st s r s' <- H. unfold on_memory in H. destruct (cores_ s !! i) as [c|] eqn:E; [|by injection H as <- <-].
  destruct (m _) as [r1 [c' d]] eqn:Em. injection H as <- <-.
  assert (Hp : co_profile c' = co_profile c) by exact (Hm (co_profile c) (c, _) _ (c', d) eq_refl Em).
  unfold status. simpl. by rewrite (profiles_insert _ _ c).
Qed.

Lemma framed_on_device {A} (m : M (DeviceWorld B (list Core)) A) :
  (forall ps, keeps (env_ok (fun cs => map co_profile cs = ps)) m) -> framed (on_device m).
Proof.
  intros Hm st s r s' <- H. unfold on_device, m_zoom in H. destruct (m _) as [r1 w] eqn:Em. injection H as <- <-.
  assert (Hp : map co_profile (dw_env w) = map co_profile (cores_ s)) by (eapply (Hm _); [|exact Em]; done).
  unfold status. simpl. by rewrite Hp.
Qed.

Lemma framed_emit e : framed (sim_emit e).
Proof. by apply framed_zoom. Qed.

Lemma framed_ret {A} (a : A) : framed (m_ret a).
Proof. intros st. apply keeps_ret. Qed.

Lemma framed_bind {A C} (m : M Sim A) (k : A -> M Sim C) :
  framed m -> (forall a, framed (k a)) -> framed (m_bind m k).
Proof. intros H1 H2 st. apply keeps_bind; [apply H1 | intros a; apply H2]. Qed.

Lemma framed_get : framed m_get.
Proof. intros st. apply keeps_get. Qed.

Lemma framed_lift {A} (x : result A) : framed (m_lift x).
Proof. intros st. apply keeps_lift. Qed.

Lemma framed_each {X} (f : X -> M Sim unit) l : (forall x, framed (f x)) -> framed (m_each f l).
Proof. intros H st. apply keeps_each. intros x. apply H. Qed.

Lemma framed_deliver now epoch c ps : keeps (fun cs => map co_profile cs = ps) (deliver_result now epoch c).
Proof.
  unfold deliver_result. keep_steps. intros cs r cs' Hps H. unfold deliver_to in H.
  destruct (cs !! _) as [k|] eqn:E; [|by injection H as <- <-].
  destruct (core_deliver _ _ _ k) as [r1 k'] eqn:Ed. injection H as <- <-. rewrite <-Hps.
  apply (profiles_insert _ _ k); [done|]. exact (keeps_core_deliver (co_profile k) _ _ _ k _ _ eq_refl Ed).
Qed.

Lemma framed_reset_cores now : framed (reset_cores now).
Proof.
  apply framed_bind; [apply framed_get|]. intros s. apply framed_each. intros i.
  apply framed_on_core. intros p. apply keeps_reset_core.
Qed.

Lemma framed_cpu_edge now i : framed (core_cpu_edge now i).
Proof.
  apply framed_bind; [apply framed_get|]. intros s. destruct (at_cpu_edge _ _ _); [|apply framed_ret].
  apply framed_on_core. intros p. apply keeps_cpu_edge.
Qed.

Lemma framed_memory_edge now i : framed (core_memory_edge now i).
Proof.
  apply framed_bind; [apply framed_get|]. intros s. destruct (cores_ s !! i); [|apply framed_ret].
  destruct (at_cpu_edge _ _ _); [|apply framed_ret]. apply framed_on_memory. intros p. apply keeps_memory_edge.
Qed.

Lemma framed_tcu_edge now i : framed (core_tcu_edge now i).
Proof.
  apply framed_bind; [apply framed_get|]. intros s. apply framed_bind.
  { apply framed_on_core. intros p. apply keeps_tcu_edge. }
  intros o. destruct (launch o); [|apply framed_ret].
  apply framed_bind; [apply framed_get|]. intros s2. apply framed_bind; [apply framed_lift|]. intros b.
  apply framed_on_device. intros ps. apply keeps_env_accept.
Qed.

Lemma framed_on_decoders {A} (m : M DecoderWorld A) : framed (on_decoders m).
Proof. by apply framed_zoom. Qed.

Lemma framed_process now epoch : framed (on_device (device_process (deliver_result now epoch) now epoch)).
Proof. apply framed_on_device. intros ps. apply keeps_env_process. intros c. apply framed_deliver. Qed.
End Frame.

(** ** What the processes do to the status *)
Definition calm (st : Status) : Prop := su_stopped st = false /\ su_success st = false /\ su_fault st = None.

(** The simulation is over, with success or with a fault. *)
Definition ended (st : Status) : Prop :=
  su_stopped st = true /\
  (su_success st = true /\ su_fault st = None \/ su_success st = false /\ exists code, su_fault st = Some code).

Definition resets_now (now : Tick) (st : Status) : bool :=
  bool_decide (now ∈ su_resets st) && bool_decide (su_reset st <> Some now).
Definition after_reset (now : Tick) (st : Status) : Status :=
  if resets_now now st then st <| su_epoch ::= fun e => e + 1 |> <| su_reset := Some now |> else st.

(** What a process that is due leaves, unless the simulation ends. *)
Definition after_process (p : Process) (now : Tick) (st : Status) : Status :=
  let st := after_reset now st <| su_barrier := true |> in
  match p with
  | CpuEdge => st <| su_cpu := Some now |>
  | MemoryEdge => st <| su_memory := Some now |>
  | TcuEdge => st <| su_tcu := Some now |>
  | Wakeup => st
  end.

Section Processes.
Context {B : Type} `{HQ : QuantumBackend B}.
Abbreviation Sim := (Simulator B).

Lemma reset_at_ok now (s : Sim) b s' :
  reset_at now s = (Ok b, s') ->
  b = bool_decide (now ∈ su_resets (status s)) /\ status s' = after_reset now (status s).
Proof.
  intros H. unfold reset_at in H. unfold m_bind at 1, m_get in H.
  change (resets_ s) with (su_resets (status s)) in H. change (last_reset_ s) with (su_reset (status s)) in H.
  unfold after_reset, resets_now. destruct (bool_decide (now ∈ su_resets (status s))) eqn:E1; cbn [negb andb] in *.
  2: { apply m_ret_ok in H as [-> ->]. done. }
  rewrite bool_decide_not. destruct (bool_decide (su_reset (status s) = Some now)) eqn:E2; cbn [negb].
  { apply m_ret_ok in H as [-> ->]. done. }
  apply m_bind_lift_ok in H as (next & Hn & H). apply checked_add_ok in Hn as [_ ->].
  apply m_bind_ok in H as (u & s1 & H1 & H). apply m_modify_ok in H1 as ->.
  apply m_bind_ok in H as (u1 & s2 & H2 & H). apply m_bind_ok in H as (u2 & s3 & H3 & H).
  apply m_bind_ok in H as (u3 & s4 & H4 & H). apply m_modify_ok in H4 as ->.
  apply m_bind_ok in H as (u4 & s5 & H5 & H). apply m_ret_ok in H as [-> ->]. split; [done|].
  rewrite (framed_emit _ _ _ _ _ eq_refl H5).
  assert (F3 : status s3 = status s2)
    by exact (framed_on_device (device_reset now _) (fun ps => keeps_env_reset _ _ _) _ _ _ _ eq_refl H3).
  rewrite (framed_reset_cores now _ _ _ _ eq_refl H2) in F3.
  change (status (s3 <| last_reset_ := Some now |>)) with (status s3 <| su_reset := Some now |>). by rewrite F3.
Qed.

Lemma keeps_calm_reset now : keeps (fun s : Sim => calm (status s)) (reset_at now).
Proof.
  unfold reset_at. keep_steps; try (by apply keeps_modify); apply framed_keeps.
  - apply framed_reset_cores.
  - apply framed_on_device. intros ps. apply keeps_env_reset.
  - apply framed_emit.
Qed.

Lemma fail_ended now code (s : Sim) : calm (status s) -> ended (status (snd (fail now code s))).
Proof.
  intros (H1 & H2 & H3). unfold fail, m_bind, m_get, m_modify. change (stopped_ s) with (su_stopped (status s)).
  rewrite H1. destruct (sim_emit _ _) as [r s'] eqn:E. simpl.
  rewrite (framed_emit _ _ _ _ _ eq_refl E). split; [done|]. right. split; [done|]. by exists code.
Qed.

Lemma process_cases now (body : M Sim unit) (s : Sim) :
  calm (status s) -> calm (status (snd (body s))) \/ ended (status (snd (body s))) ->
  (exists u, body s = (Ok u, snd (process now body s))) \/ ended (status (snd (process now body s))).
Proof.
  intros Hc Hk. unfold process. pose proof Hc as (Hs & _). change (stopped_ s) with (su_stopped (status s)).
  rewrite Hs. destruct (body s) as [[u|code] s1]; [by left; exists u|]. right. simpl in Hk.
  destruct Hk as [H|H]; [by apply fail_ended|].
  unfold fail, m_bind, m_get. change (stopped_ s1) with (su_stopped (status s1)). by rewrite (proj1 H).
Qed.

Lemma keeps_snd {S A} (I : S -> Prop) (m : M S A) s : keeps I m -> I s -> I (snd (m s)).
Proof. intros Hk Hs. destruct (m s) as [r s'] eqn:E. exact (Hk _ _ _ Hs E). Qed.

Lemma keeps_or {S A} (I J : S -> Prop) (m : M S A) : keeps I m -> keeps J m -> keeps (fun s => I s \/ J s) m.
Proof. intros HI HJ s r s' [H|H] E; [left; eauto | right; eauto]. Qed.

Lemma keeps_ended_reset now : keeps (fun s : Sim => ended (status s)) (reset_at now).
Proof.
  unfold reset_at. keep_steps; try (by apply keeps_modify); apply framed_keeps.
  - apply framed_reset_cores.
  - apply framed_on_device. intros ps. apply keeps_env_reset.
  - apply framed_emit.
Qed.

Definition settled (s : Sim) : Prop := calm (status s) \/ ended (status s).

Lemma settled_reset now : keeps settled (reset_at now).
Proof. apply keeps_or; [apply keeps_calm_reset | apply keeps_ended_reset]. Qed.

(** A clocked process: [work] on the cores, then its mark. *)
Lemma edge_cases now (work : list nat -> M Sim unit) (indices : Sim -> list nat) (mark : Sim -> Sim) (st : Status -> Status)
    (s : Sim) :
  (forall l, framed (work l)) -> (forall s, status (mark s) = st (status s)) ->
  (forall u, calm u -> calm (st u)) -> (forall u, ended u -> ended (st u)) ->
  (forall u, st (u <| su_barrier := true |>) = st u <| su_barrier := true |>) -> calm (status s) ->
  let s' := snd (process now
    (let! r := reset_at now in let! s := m_get in
     do! (if r : bool then m_ret () else work (indices s)) in do! m_modify mark in notify_barrier) s) in
  status s' = st (after_reset now (status s) <| su_barrier := true |>) \/ ended (status s').
Proof.
  intros Hw Hm Hcalm Hend Hb Hc s'.
  destruct (process_cases now _ s Hc : _ -> _ \/ ended (status s')) as [[u H]|H]; [| |by right].
  - apply (keeps_snd settled); [|by left]. apply keeps_bind; [apply settled_reset|]. intros r. apply keeps_bind; [apply keeps_get|]. intros s1.
    apply keeps_bind; [destruct r; [apply keeps_ret | apply (framed_keeps (fun st => calm st \/ ended st)), Hw]|].
    intros _. apply keeps_bind; [|intros _; by apply keeps_modify].
    apply keeps_modify. intros s2 [H|H]; unfold settled; rewrite Hm; auto.
  - left. fold s' in H. apply m_bind_ok in H as (r & s1 & H1 & H). apply reset_at_ok in H1 as [-> E1].
    apply m_bind_ok in H as (s1' & s1'' & Hg & H). apply (m_gets_ok (fun s => s)) in Hg as [-> ->].
    apply m_bind_ok in H as (u1 & s2 & H2 & H). apply m_bind_ok in H as (u2 & s3 & H3 & H).
    apply m_modify_ok in H3 as ->. apply m_modify_ok in H as ->.
    assert (E2 : status s2 = status s1).
    { destruct (bool_decide _); [by apply m_ret_ok in H2 as [_ ->] | exact (Hw _ _ _ _ _ eq_refl H2)]. }
    change (status (mark s2 <| barrier_ := true |>)) with (status (mark s2) <| su_barrier := true |>).
    by rewrite Hm, E2, E1, Hb.
Qed.

Lemma run_process_cases p now (s : Sim) :
  calm (status s) ->
  status (snd (run_process p now s)) = after_process p now (status s) \/
  ended (status (snd (run_process p now s))).
Proof.
  intros Hc. destruct p; cbn [run_process after_process]; unfold sim_cpu_edge, sim_memory_edge, sim_tcu_edge, wakeup.
  - apply (edge_cases now (m_each (core_cpu_edge now)) core_indices _ (fun u => u <| su_cpu := Some now |>));
      try done. intros l. apply framed_each. intros i. apply framed_cpu_edge.
  - apply (edge_cases now (m_each (core_memory_edge now)) core_indices _ (fun u => u <| su_memory := Some now |>));
      try done. intros l. apply framed_each. intros i. apply framed_memory_edge.
  - apply (edge_cases now (m_each (core_tcu_edge now))
             (fun s => if reverse_ s then rev (core_indices s) else core_indices s) _
             (fun u => u <| su_tcu := Some now |>)); try done.
    intros l. apply framed_each. intros i. apply framed_tcu_edge.
  - destruct (process_cases now (let! _ := reset_at now in notify_barrier) s Hc) as [[u H]|H]; [| |by right].
    + apply (keeps_snd settled); [|by left]. apply keeps_bind; [apply settled_reset|]. intros _. by apply keeps_modify.
    + left. apply m_bind_ok in H as (r & s1 & H1 & H). apply reset_at_ok in H1 as [_ H1].
      apply m_modify_ok in H. rewrite H.
      change (status (s1 <| barrier_ := true |>)) with (status s1 <| su_barrier := true |>). by rewrite H1.
Qed.

Lemma step_device_ok now (s s' : Sim) u :
  step_device now s = (Ok u, s') -> status s' = after_reset now (status s).
Proof.
  intros H. apply m_bind_ok in H as (s0 & s00 & H0 & H). apply (m_gets_ok (fun s => s)) in H0 as [-> ->].
  apply m_bind_ok in H as (u1 & s1 & H1 & H).
  assert (E1 : status s1 = status s).
  { destruct (bool_decide _); [by apply m_ret_ok in H1 as [_ ->] | exact (framed_on_decoders _ _ _ _ _ eq_refl H1)]. }
  apply m_bind_ok in H as (r & s2 & H2 & H). apply reset_at_ok in H2 as [_ E2]. rewrite <-E1, <-E2.
  apply m_bind_ok in H as (s0 & s00 & H0 & H). apply (m_gets_ok (fun s => s)) in H0 as [-> ->].
  destruct (_ && _); [exact (framed_process _ _ _ _ _ _ eq_refl H) | by apply m_ret_ok in H as [_ ->]].
Qed.

Lemma keeps_step_device now : keeps (fun s : Sim => calm (status s)) (step_device now).
Proof.
  unfold step_device. keep_steps;
    first [apply keeps_calm_reset | apply framed_keeps; first [apply framed_on_decoders | apply framed_process]].
Qed.

(** The successful end, up to its trace event. *)
Lemma finish_success now (s s2 : Sim) u :
  calm (status s) -> on_device (device_finalize now) s = (Ok u, s2) ->
  ended (status (s2 <| success_ := true |> <| stopped_ := true |>)).
Proof.
  intros Hc H.
  assert (E : status s2 = status s) by exact (framed_on_device _ (fun ps => keeps_env_finalize _ now) _ _ _ _ eq_refl H).
  change (ended (status s2 <| su_success := true |> <| su_stopped := true |>)). rewrite E.
  split; [done|]. left. split; [done | apply Hc].
Qed.

Lemma finish_settled now (s s' : Sim) r :
  calm (status s) -> finish_or_wait now s = (r, s') -> calm (status s') \/ ended (status s').
Proof.
  intros Hc H. unfold finish_or_wait in H. unfold m_bind at 1, m_get at 1 in H. destruct (sim_drained s).
  - destruct (on_device (device_finalize now) s) as [[u|e] s1] eqn:E1; unfold m_bind at 1 in H; rewrite E1 in H.
    + right. unfold m_bind, m_modify in H. rewrite (framed_emit _ _ _ _ _ eq_refl H). exact (finish_success _ _ _ _ Hc E1).
    + left. injection H as <- <-.
      by rewrite (framed_on_device _ (fun ps => keeps_env_finalize _ now) _ _ _ _ eq_refl E1).
  - left. assert (K : keeps (fun s : Sim => calm (status s))
        (do! m_lift (require (now <? watchdog (sm_profile s)) Watchdog) in schedule_wakeup now)).
    { unfold schedule_wakeup. keep_steps. by apply keeps_modify. }
    exact (K _ _ _ Hc H).
Qed.

Lemma strictly_increasing_tail x l :
  strictly_increasing (x :: l) = true -> strictly_increasing l = true /\ forall y, y ∈ l -> x < y.
Proof.
  revert x. induction l as [|y l IH]; intros x Hs; [by split; [|intros y ?%elem_of_nil]|].
  change ((x <? y) && strictly_increasing (y :: l) = true) in Hs. reflect.
  destruct (IH y) as [H1 H2]; [done|]. split; [done|].
  intros z Hz. apply elem_of_cons in Hz as [->|Hz]; [done|]. specialize (H2 z Hz). lia.
Qed.

Lemma next_reset_least (s : Sim) now t :
  strictly_increasing (resets_ s) = true -> t ∈ resets_ s -> now < t ->
  exists u, next_reset s now = Some u /\ u <= t.
Proof.
  unfold next_reset. induction (resets_ s) as [|x l IH]; intros Hs Hin Ht; [by apply elem_of_nil in Hin|].
  pose proof (strictly_increasing_tail x l Hs) as Hl.
  simpl. destruct (Z.ltb_spec now x).
  - exists x. split; [done|]. apply elem_of_cons in Hin as [->|Hin]; [lia|]. destruct Hl as [_ Hl]. specialize (Hl t Hin). lia.
  - apply elem_of_cons in Hin as [->|Hin]; [lia|]. apply IH; [apply Hl | done..].
Qed.

(** The tick a barrier schedules. *)
Definition wake_ok (now : Tick) (st : Status) (next : Tick) : Prop :=
  now < next <= watchdog (su_profile st) /\ forall t, t ∈ su_resets st -> now < t -> next <= t.

Lemma schedule_wakeup_ok now (s s' : Sim) u :
  strictly_increasing (resets_ s) = true -> schedule_wakeup now s = (Ok u, s') ->
  exists next, status s' = status s <| su_wake := Some next |> /\ wake_ok now (status s) next.
Proof.
  intros Hs H. apply m_bind_ok in H as (s0 & s00 & H0 & H). apply (m_gets_ok (fun s => s)) in H0 as [-> ->].
  apply m_bind_lift_ok in H as (u1 & H1 & H). apply require_ok in H1. reflect. apply m_modify_ok in H as ->.
  set (next := earlier _ _) in *. exists next. split; [reflexivity|].
  assert (Hle : forall t o, earlier t o <= t) by (intros t [v|]; simpl; lia).
  split.
  - split; [done|]. unfold next. etransitivity; [apply Hle|]. etransitivity; [apply Hle|]. apply Hle.
  - intros t Hin Ht. destruct (next_reset_least s now t Hs Hin Ht) as (v & Hv & Hvt).
    unfold next. rewrite Hv. simpl. lia.
Qed.

Lemma after_reset_fields now st :
  su_profile (after_reset now st) = su_profile st /\ su_profiles (after_reset now st) = su_profiles st /\
  su_resets (after_reset now st) = su_resets st /\ su_wake (after_reset now st) = su_wake st /\
  su_barrier (after_reset now st) = su_barrier st /\ su_cpu (after_reset now st) = su_cpu st /\
  su_memory (after_reset now st) = su_memory st /\ su_tcu (after_reset now st) = su_tcu st /\
  (calm st -> calm (after_reset now st)).
Proof. unfold after_reset. destruct (resets_now now st); split_and!; try done; intros (?&?&?); done. Qed.

Lemma barrier_cases now (s : Sim) :
  calm (status s) -> strictly_increasing (resets_ s) = true ->
  let s' := snd (barrier now s) in
  (barrier_ready s now = false /\ s' = s) \/ ended (status s') \/
  (barrier_ready s now = true /\ exists next,
     status s' = after_reset now (status s) <| su_wake := Some next |> /\ wake_ok now (status s) next).
Proof.
  intros Hc Hinc s'. assert (Eb : s' = snd (if barrier_ready s now
      then process now (do! step_device now in finish_or_wait now) s else (Ok (), s))).
  { unfold s', barrier. change (stopped_ s) with (su_stopped (status s)). by rewrite (proj1 Hc). }
  clearbody s'. subst s'. destruct (barrier_ready s now) eqn:Hr; [right | by left].
  destruct (process_cases now (do! step_device now in finish_or_wait now) s Hc) as [[u H]|H]; [| |by left].
  - unfold m_bind. destruct (step_device now s) as [[u|e] s1] eqn:E1.
    + eapply finish_settled; [exact (keeps_step_device now _ _ _ Hc E1) | apply surjective_pairing].
    + left. exact (keeps_step_device now _ _ _ Hc E1).
  - apply m_bind_ok in H as (u1 & s1 & H1 & H). apply step_device_ok in H1.
    destruct (after_reset_fields now (status s)) as (F1 & _ & F3 & _).
    apply m_bind_ok in H as (s0 & s00 & H0 & H). apply (m_gets_ok (fun s => s)) in H0 as [-> ->].
    destruct (sim_drained s1) eqn:Ed.
    + left. apply m_bind_ok in H as (u2 & s2 & H2 & H). apply m_bind_ok in H as (u3 & s3 & H3 & H).
      apply m_modify_ok in H3 as ->. rewrite (framed_emit _ _ _ _ _ eq_refl H).
      eapply finish_success; [|exact H2]. rewrite H1. by apply after_reset_fields.
    + right. split; [done|]. apply m_bind_lift_ok in H as (u2 & _ & H).
      apply schedule_wakeup_ok in H as (next & E & Hw).
      * exists next. rewrite E, H1. split; [done|]. unfold wake_ok in *. by rewrite H1, F1, F3 in Hw.
      * change (strictly_increasing (su_resets (status s1)) = true). by rewrite H1, F3.
Qed.
End Processes.

(** ** The invariant of the kernel's runs *)
Definition cpu_due (st : Status) (t : Tick) : bool := existsb (fun p => clock_edge (cpu_clock p) t) (su_profiles st).
Definition tcu_due (st : Status) (t : Tick) : bool := clock_edge (tcu_clock (su_profile st)) t.

(** The clocked processes that no longer wait have run. *)
Record marks (now : Tick) (due : list Process) (st : Status) : Prop := {
  mk_cpu : cpu_due st now = true -> CpuEdge ∉ due -> su_cpu st = Some now;
  mk_memory : cpu_due st now = true -> MemoryEdge ∉ due -> su_memory st = Some now;
  mk_tcu : tcu_due st now = true -> TcuEdge ∉ due -> su_tcu st = Some now }.

(** The resets up to [now], and those that have been performed. *)
Definition resets_until (now : Tick) (resets : list Tick) : Z := count_if (fun t => t <=? now) resets.

Record standing (now : Tick) (due : list Process) (st : Status) : Prop := {
  rn_calm : calm st;
  rn_time : 0 <= now <= watchdog (su_profile st);
  rn_marks : marks now due st;
  rn_epoch : su_epoch st + (if resets_now now st then 1 else 0) = 1 + resets_until now (su_resets st);
  rn_last : forall t, su_reset st = Some t -> t <= now }.

(** A tick is over only when its barrier has scheduled the next. *)
Definition running (now : Tick) (due : list Process) (st : Status) : Prop :=
  standing now due st /\
  (su_barrier st = false -> due = [] ->
   resets_now now st = false /\ exists next, su_wake st = Some next /\ wake_ok now st next).

Lemma resets_now_after now st : resets_now now (after_reset now st) = false.
Proof.
  unfold after_reset. destruct (resets_now now st) eqn:E; [|done]. unfold resets_now. simpl.
  rewrite (bool_decide_eq_false_2 (Some now <> Some now)) by (intros H; by apply H). apply andb_false_r.
Qed.

Lemma after_reset_epoch now st :
  su_epoch (after_reset now st) = su_epoch st + (if resets_now now st then 1 else 0).
Proof. unfold after_reset. destruct (resets_now now st); simpl; lia. Qed.

Lemma after_reset_last now st t : su_reset (after_reset now st) = Some t -> t = now \/ su_reset st = Some t.
Proof. unfold after_reset. destruct (resets_now now st); [intros [= <-]; by left | by right]. Qed.

Lemma after_process_reset p now st :
  resets_now now (after_process p now st) = false /\ su_barrier (after_process p now st) = true /\
  su_epoch (after_process p now st) = su_epoch (after_reset now st) /\
  su_reset (after_process p now st) = su_reset (after_reset now st) /\
  su_profile (after_process p now st) = su_profile st /\ su_profiles (after_process p now st) = su_profiles st /\
  su_resets (after_process p now st) = su_resets st /\ (calm st -> calm (after_process p now st)).
Proof.
  pose proof (resets_now_after now st) as Hr. destruct (after_reset_fields now st) as (F1 & F2 & F3 & _ & _ & _ & _ & _ & F9).
  unfold resets_now in *. destruct p; cbn [after_process su_resets su_reset su_barrier su_epoch su_profile su_profiles];
    split_and!; try done; intros Hc; specialize (F9 Hc); done.
Qed.

Lemma running_process p now before after st :
  standing now (before ++ p :: after) st -> running now (before ++ after) (after_process p now st).
Proof.
  intros [Hc Ht [M1 M2 M3] He Hl]. destruct (after_process_reset p now st) as (A1 & A2 & A3 & A4 & A5 & A6 & A7 & A8).
  destruct (after_reset_fields now st) as (_ & _ & _ & _ & _ & C1 & C2 & C3 & _).
  split; [|by rewrite A2]. constructor; rewrite ?A5, ?A7, ?A1; [by apply A8 | done | | |].
  - unfold cpu_due, tcu_due in *. constructor; unfold cpu_due, tcu_due; rewrite ?A5, ?A6; intros Hd Hn; destruct p;
      simpl; try done; rewrite ?C1, ?C2, ?C3;
      (apply M1 || apply M2 || apply M3); try done; rewrite elem_of_app, elem_of_cons in *; naive_solver.
  - rewrite A3, after_reset_epoch. lia.
  - intros t. rewrite A4. intros [->|H]%after_reset_last; [lia | by apply Hl].
Qed.

Lemma running_barrier now due st next :
  standing now due st -> wake_ok now st next ->
  running now due (after_reset now st <| su_wake := Some next |>).
Proof.
  intros [Hc Ht [M1 M2 M3] He Hl] Hw. pose proof (resets_now_after now st) as Hr.
  destruct (after_reset_fields now st) as (F1 & F2 & F3 & _ & _ & C1 & C2 & C3 & F9).
  split; [constructor; simpl|].
  - by apply F9.
  - by rewrite F1.
  - unfold cpu_due, tcu_due in *. constructor; unfold cpu_due, tcu_due; simpl;
      rewrite ?F1, ?F2, ?C1, ?C2, ?C3; done.
  - match goal with |- context [resets_now now ?x] => change (resets_now now x) with (resets_now now (after_reset now st)) end.
    rewrite Hr, after_reset_epoch, F3. lia.
  - intros t [->|H]%after_reset_last; [lia | by apply Hl].
  - intros _ _. split; [exact Hr|]. exists next. split; [done|]. unfold wake_ok in *. simpl. by rewrite F1, F3.
Qed.

Section Kernel.
Context {B : Type} `{HQ : QuantumBackend B}.
Abbreviation Sim := (Simulator B).

Lemma cpu_edge_now_status (s : Sim) t : cpu_edge_now s t = cpu_due (status s) t.
Proof. unfold cpu_edge_now, cpu_due. simpl. induction (cores_ s) as [|c l IH]; simpl; [done|]. by rewrite IH. Qed.

(** A barrier that waits leaves a process to run. *)
Lemma barrier_not_ready now due (s : Sim) :
  marks now due (status s) -> barrier_ready s now = false -> due <> [].
Proof.
  intros [M1 M2 M3] H ->. unfold barrier_ready in H. rewrite cpu_edge_now_status in H.
  change (clock_edge (tcu_clock (sm_profile s)) now) with (tcu_due (status s) now) in H.
  change (cpu_done_ s) with (su_cpu (status s)) in H. change (memory_done_ s) with (su_memory (status s)) in H.
  change (tcu_done_ s) with (su_tcu (status s)) in H.
  destruct (cpu_due (status s) now) eqn:Ec; destruct (tcu_due (status s) now) eqn:Et; cbn [andb negb] in H; try done.
  all: try (rewrite (M1 eq_refl (not_elem_of_nil _)), (M2 eq_refl (not_elem_of_nil _)) in H).
  all: try (rewrite (M3 eq_refl (not_elem_of_nil _)) in H).
  all: rewrite ?bool_decide_eq_false_2 in H by (intros K; by apply K); done.
Qed.

(** Along a run of a simulation with watchdog [w] and resets [rs]. *)
Definition kernel_inv (w : Tick) (rs : list Tick) (k : Kernel B) : Prop :=
  kn_now k <= w /\
  (ended (status (kn_sim k)) \/
   running (kn_now k) (kn_due k) (status (kn_sim k)) /\
   watchdog (su_profile (status (kn_sim k))) = w /\ su_resets (status (kn_sim k)) = rs).

Lemma due_at_wake (s : Sim) t : wake_ s = Some t -> due_at s t <> [].
Proof.
  intros H. unfold due_at. rewrite (bool_decide_eq_true_2 (wake_ s = Some t)) by done.
  intros (_ & (_ & K)%app_nil)%app_nil. done.
Qed.

Lemma due_at_process (s : Sim) t p :
  p ∉ due_at s t ->
  match p with
  | CpuEdge | MemoryEdge => cpu_due (status s) t = false
  | TcuEdge => tcu_due (status s) t = false
  | Wakeup => wake_ s <> Some t
  end.
Proof.
  unfold due_at. rewrite cpu_edge_now_status. rewrite !not_elem_of_app. intros (H1 & H2 & H3). destruct p.
  - destruct (cpu_due _ _); [|done]. exfalso. apply H1. left.
  - destruct (cpu_due _ _); [|done]. exfalso. apply H1. right. left.
  - change (clock_edge _ t) with (tcu_due (status s) t) in H2. destruct (tcu_due _ _); [|done]. exfalso. apply H2. left.
  - intros K. apply H3. rewrite (bool_decide_eq_true_2 (wake_ s = Some t)) by done. left.
Qed.

Lemma status_take_wakeup t (s : Sim) :
  status (take_wakeup t s) = if bool_decide (wake_ s = Some t) then status s <| su_wake := None |> else status s.
Proof. unfold take_wakeup. by destruct (bool_decide _). Qed.

(** The state in which a tick begins. *)
Lemma running_at t (s : Sim) :
  calm (status s) -> 0 <= t <= watchdog (sm_profile s) -> due_at s t <> [] \/ wake_ s <> Some t ->
  su_epoch (status s) + (if resets_now t (status s) then 1 else 0) = 1 + resets_until t (resets_ s) ->
  (forall u, last_reset_ s = Some u -> u <= t) ->
  (due_at s t = [] -> resets_now t (status s) = false /\ exists next, wake_ s = Some next /\ wake_ok t (status s) next) ->
  running t (due_at s t) (status (take_wakeup t s)).
Proof.
  intros Hc Ht _ He Hl Hw. rewrite status_take_wakeup. split; [constructor|].
  - by destruct (bool_decide _).
  - by destruct (bool_decide _).
  - constructor; intros Hd Hn; apply due_at_process in Hn; exfalso; revert Hd Hn;
      unfold cpu_due, tcu_due; destruct (bool_decide _); simpl; congruence.
  - by destruct (bool_decide _).
  - by destruct (bool_decide _).
  - intros _ Hnil. destruct (Hw Hnil) as (Hr & next & E & Hok).
    rewrite bool_decide_eq_false_2; [by split; [|exists next]|]. intros K. by apply (due_at_wake s t).
Qed.

Lemma resets_until_next now t rs :
  strictly_increasing rs = true -> now < t -> (forall u, u ∈ rs -> now < u -> t <= u) ->
  resets_until t rs = resets_until now rs + (if bool_decide (t ∈ rs) then 1 else 0).
Proof.
  intros Hs Ht Hall. unfold resets_until. induction rs as [|x l IH]; [done|].
  assert (Hl : strictly_increasing l = true /\ forall y, y ∈ l -> x < y) by by apply strictly_increasing_tail.
  rewrite !count_if_cons, IH; [|apply Hl | intros u Hu; apply Hall; by right].
  assert (Hx : now < x -> t <= x) by (apply Hall; left).
  destruct (Z.leb_spec x t), (Z.leb_spec x now); try lia.
  - destruct (Z.eq_dec x t) as [->|Hne]; [lia|].
    rewrite (bool_decide_ext (t ∈ x :: l) (t ∈ l)) by (rewrite elem_of_cons; naive_solver). lia.
  - assert (x = t) as -> by lia. rewrite (bool_decide_eq_true_2 (t ∈ t :: l)) by left.
    rewrite (bool_decide_eq_false_2 (t ∈ l)); [lia|]. intros K. apply Hl in K. lia.
  - rewrite (bool_decide_ext (t ∈ x :: l) (t ∈ l)); [lia|]. rewrite elem_of_cons.
    split; [intros [->|K]; [lia | done] | by right].
Qed.

Lemma calm_not_ended st : calm st -> ended st -> False.
Proof. intros (H & _) (K & _). congruence. Qed.

Lemma standing_barrier now due st b : standing now due st -> standing now due (st <| su_barrier := b |>).
Proof. intros [H1 H2 [M1 M2 M3] H4 H5]. by constructor. Qed.

(** The tick after a quiet one. *)
Lemma running_next now t (s : Sim) :
  strictly_increasing (resets_ s) = true -> barrier_ s = false -> running now [] (status s) ->
  now < t -> due_at s t <> [] -> (forall u, now < u < t -> due_at s u = []) ->
  t <= watchdog (sm_profile s) /\ running t (due_at s t) (status (take_wakeup t s)).
Proof.
  intros Hs Hb [[Hc Ht _ He Hl] Hw] Hlt Hd Hquiet. destruct (Hw Hb eq_refl) as (Hr & next & E & Hok & Hres).
  assert (Htn : t <= next).
  { destruct (Z.le_gt_cases t next); [done|]. exfalso. apply (due_at_wake s next E), Hquiet. lia. }
  split; [simpl in *; lia|]. apply running_at; try done.
  - simpl in *. lia.
  - by left.
  - rewrite (resets_until_next now t) by (done || (intros u Hu Hlt'; specialize (Hres u Hu Hlt'); lia)).
    rewrite Hr in He. unfold resets_now.
    rewrite (bool_decide_eq_true_2 (su_reset (status s) <> Some t)) by (intros K; apply Hl in K; lia).
    rewrite andb_true_r. simpl in *. lia.
  - intros u Hu. specialize (Hl u Hu). lia.
Qed.

Lemma kernel_inv_step w rs k k' :
  strictly_increasing rs = true -> kernel_inv w rs k -> kernel_step k k' -> kernel_inv w rs k'.
Proof.
  intros Hs [Ht Hk] Hstep. destruct Hstep as [now before p after s Hns|now due s Hns Hb|now t s Hns Hb Hlt Hd Hq];
    unfold kernel_inv, kernel_at; cbn [kn_now kn_due kn_sim] in *;
    (destruct Hk as [[K _]|(Hrun & Hw & Hr)]; [simpl in K; congruence|]).
  - split; [done|]. destruct (run_process_cases p now s (rn_calm _ _ _ (proj1 Hrun))) as [E|E]; [right|by left].
    rewrite E. destruct (after_process_reset p now (status s)) as (_ & _ & _ & _ & A5 & _ & A7 & _). rewrite A5, A7.
    split; [by apply running_process, Hrun | done].
  - split; [done|]. set (s1 := s <| barrier_ := false |>).
    assert (Hst : standing now due (status s1)) 
      by exact (standing_barrier now due (status s) false (proj1 Hrun)).
    destruct (barrier_cases now s1 (rn_calm _ _ _ Hst)) as [[Hnr ->]|[E|(Hre & next & E & Hok)]]; [exact (eq_trans (f_equal _ Hr) Hs)| | |].
    + right. split_and!; [|done..]. split; [done|]. intros _ K. exfalso.
      by apply (barrier_not_ready now due s1 (rn_marks _ _ _ Hst) Hnr).
    + by left.
    + right. rewrite E. destruct (after_reset_fields now (status s1)) as (F1 & _ & F3 & _).
      split; [by apply running_barrier|].
      split; [exact (eq_trans (f_equal watchdog F1) Hw) | exact (eq_trans F3 Hr)].
  - destruct (running_next now t s) as [Hle Hrun']; try done; [exact (eq_trans (f_equal _ Hr) Hs)|].
    split; [simpl in *; lia|].
    right. split; [done|]. rewrite status_take_wakeup. by destruct (bool_decide _).
Qed.

(** ** Runs are finite *)
Definition kernel_measure (w : Tick) (k : Kernel B) : nat :=
  Z.to_nat (10 * (w - kn_now k)) + 2 * length (kn_due k) + (if barrier_ (kn_sim k) then 1 else 0).

Lemma due_at_length (s : Sim) t : (length (due_at s t) <= 4)%nat.
Proof.
  unfold due_at. rewrite !length_app.
  destruct (cpu_edge_now s t), (clock_edge _ t), (bool_decide _); simpl; lia.
Qed.

Lemma kernel_step_measure w rs k k' :
  strictly_increasing rs = true -> kernel_inv w rs k -> kernel_step k k' -> ~ ended (status (kn_sim k')) ->
  (kernel_measure w k' < kernel_measure w k)%nat.
Proof.
  intros Hs Hk Hstep Hne. pose proof (kernel_inv_step _ _ _ _ Hs Hk Hstep) as [Ht' _].
  destruct Hk as [Ht Hk]. unfold kernel_measure.
  destruct Hstep as [now before p after s Hns|now due s Hns Hb|now t s Hns Hb Hlt Hd Hq];
    unfold kernel_at in *; cbn [kn_now kn_due kn_sim] in *;
    (destruct Hk as [[K _]|(Hrun & Hw & Hr)]; [simpl in K; congruence|]).
  - rewrite !length_app. simpl. destruct (barrier_ _), (barrier_ s); lia.
  - rewrite Hb. set (s1 := s <| barrier_ := false |>) in *. assert (Hs' : barrier_ (snd (barrier now s1)) = false); [|rewrite Hs'; lia].
    destruct (barrier_cases now s1) as [[_ ->]|[E|(_ & next & E & _)]]; [exact (rn_calm _ _ _ (proj1 Hrun)) | | done..|].
    + exact (eq_trans (f_equal _ Hr) Hs).
    + change (su_barrier (status (snd (barrier now s1))) = false). rewrite E.
      exact (proj1 (proj2 (proj2 (proj2 (proj2 (after_reset_fields now (status s1))))))).
  - pose proof (due_at_length s t). rewrite Hb. destruct (barrier_ (take_wakeup t s)); cbn [length]; lia.
Qed.

Lemma kernel_acc w rs k :
  strictly_increasing rs = true -> kernel_inv w rs k -> Acc (flip kernel_step) k.
Proof.
  intros Hs. remember (kernel_measure w k) as n eqn:En. revert k En.
  induction (lt_wf n) as [n _ IH]. intros k -> Hk. constructor. intros k' Hstep. unfold flip in Hstep.
  pose proof (kernel_inv_step _ _ _ _ Hs Hk Hstep) as Hk'. pose proof Hk' as [_ [He|(Hrun & _)]].
  - constructor. intros k'' Hs''. unfold flip in Hs''. destruct He as [He _]. simpl in He.
    destruct Hs''; cbn [kn_sim] in He; congruence.
  - eapply IH; [|reflexivity | done]. apply (kernel_step_measure w rs); try done.
    intros He. exact (calm_not_ended _ (rn_calm _ _ _ (proj1 Hrun)) He).
Qed.

Lemma first_due (s : Sim) now n :
  due_at s (now + Z.of_nat (S n)) <> [] ->
  exists t, now < t /\ due_at s t <> [] /\ forall u, now < u < t -> due_at s u = [].
Proof.
  revert now. induction n as [|n IH]; intros now H.
  - exists (now + 1). split_and!; [lia | done | intros u ?; lia].
  - destruct (due_at s (now + 1)) as [|p l] eqn:E.
    + destruct (IH (now + 1)) as (t & H1 & H2 & H3); [by replace (now + 1 + Z.of_nat (S n)) with (now + Z.of_nat (S (S n))) by lia|].
      exists t. split_and!; [lia | done|]. intros u Hu. destruct (Z.eq_dec u (now + 1)) as [->|]; [done | apply H3; lia].
    + exists (now + 1). split_and!; [lia | by rewrite E | intros u ?; lia].
Qed.

Lemma kernel_progress w rs k :
  kernel_inv w rs k -> ended (status (kn_sim k)) \/ exists k', kernel_step k k'.
Proof.
  intros [_ [He|([Hst Hw] & _)]]; [by left | right]. destruct k as [now due s]. cbn [kn_now kn_due kn_sim] in *.
  destruct (rn_calm _ _ _ Hst) as (Hns & _). change (stopped_ s = false) in Hns.
  destruct due as [|p due]; [|by eexists; apply (kernel_run now [] p due s)].
  destruct (barrier_ s) eqn:Hb; [by eexists; apply kernel_barrier|].
  destruct (Hw Hb eq_refl) as (_ & next & E & Hok & _).
  destruct (first_due s now (Z.to_nat (next - now - 1))) as (t & H1 & H2 & H3).
  - replace (now + Z.of_nat (S (Z.to_nat (next - now - 1)))) with next by lia. by apply due_at_wake.
  - eexists. by apply (kernel_advance now t).
Qed.

(** ** The initial state *)
Lemma check_resets_ok w rs u :
  check_resets w rs = Ok u -> strictly_increasing rs = true /\ forall t, t ∈ rs -> 0 < t < w.
Proof.
  unfold check_resets. intros H. apply result_bind_ok in H as (u1 & H1 & H2). apply require_ok in H1.
  split; [done|]. intros t Ht. destruct u. rewrite result_each_ok in H2. rewrite Forall_forall in H2.
  specialize (H2 t Ht). apply require_ok in H2. reflect. lia.
Qed.

Lemma resets_until_zero rs : (forall t, t ∈ rs -> 0 < t) -> resets_until 0 rs = 0.
Proof.
  intros H. unfold resets_until. destruct (count_if_exists (fun t => t <=? 0) rs) as [|(t & Ht & Hl)]; [done|].
  specialize (H t Ht). lia.
Qed.

(** A simulation that has stopped, with its verdict. *)
Definition concluded (s : Sim) : Prop :=
  stopped_ s = true /\
  (success_ s = true /\ fault_ s = None \/ success_ s = false /\ exists code, fault_ s = Some code).

Section Start.
Context (show_double : double -> string) (resolution : bool) (configs : list CoreConfig).
Context (connections : list SyncConnection) (backend : option B) (resets : list Tick) (reverse : bool).
Context (max_batch : Z) (decoding : DecoderSystemConfig).

Abbreviation built := (simulator_new show_double resolution configs connections backend resets reverse max_batch decoding).

Lemma simulator_new_status (s : Sim) :
  built = Ok s ->
  exists p cores, status s = mkStatus p (map co_profile cores) resets (wake_ s) false None None None None 1 false false None /\
    check_resets (watchdog p) resets = Ok () /\ exists next, wake_ s = Some next /\ wake_ok 0 (status s) next.
Proof.
  intros H. unfold simulator_new in H. apply result_bind_ok in H as (p & _ & H).
  apply result_bind_ok in H as (decoders & _ & H). destruct backend as [b|]; [|done].
  apply result_bind_ok in H as (network & _ & H). apply result_bind_ok in H as (dp & _ & H).
  apply result_bind_ok in H as (device & _ & H). apply result_bind_ok in H as ([] & Hr & H).
  apply result_bind_ok in H as ([[cores offsets] o] & _ & H). exists p, cores.
  set (s0 := mkSimulator _ _ _ _ _ _ _ _ _ _ _ _ _ _ _ _ _ _ _) in H.
  destruct ((do! _ in schedule_wakeup 0) s0) as [[u|e] s2] eqn:E; [|done]. apply Ok_inj in H as <-.
  apply m_bind_ok in E as (u1 & s1 & E1 & E2). pose proof (framed_emit _ _ _ _ _ eq_refl E1) as F.
  apply schedule_wakeup_ok in E2 as (next & E2 & Hw).
  - assert (Hwake : wake_ s2 = Some next) by (change (su_wake (status s2) = Some next); by rewrite E2).
    rewrite Hwake, E2, F. rewrite F in Hw. split; [reflexivity|]. split; [done|]. by exists next.
  - change (strictly_increasing (su_resets (status s1)) = true). rewrite F. by destruct (check_resets_ok _ _ _ Hr).
Qed.

Lemma kernel_inv_start (s : Sim) :
  built = Ok s ->
  resets_ s = resets /\ strictly_increasing resets = true /\ (forall t, t ∈ resets -> 0 < t < watchdog (sm_profile s)) /\
  kernel_inv (watchdog (sm_profile s)) resets (kernel_start s).
Proof.
  intros H. destruct (simulator_new_status s H) as (p & cores & E & Hr & next & Hn & Hw).
  assert (Ep : sm_profile s = p) by (change (su_profile (status s) = p); by rewrite E).
  assert (Er : resets_ s = resets) by (change (su_resets (status s) = resets); by rewrite E).
  destruct (check_resets_ok _ _ _ Hr) as [Hs Hpos]. split; [done|]. split; [done|]. rewrite Ep. split; [done|].
  assert (H0 : 0 <= watchdog p) by (unfold wake_ok in Hw; rewrite E in Hw; simpl in Hw; lia).
  assert (Hnow : resets_now 0 (status s) = false).
  { unfold resets_now. rewrite E. simpl. rewrite bool_decide_eq_false_2; [done|]. intros K. apply Hpos in K. lia. }
  split; [done|]. right. unfold kernel_start, kernel_at. cbn [kn_now kn_due kn_sim]. split.
  - apply running_at.
    + by rewrite E.
    + by rewrite Ep.
    + right. rewrite Hn. intros [= ->]. unfold wake_ok in Hw. lia.
    + rewrite Hnow, Er, resets_until_zero by (intros t Ht; apply Hpos in Ht; lia). by rewrite E.
    + intros u K. change (su_reset (status s) = Some u) in K. by rewrite E in K.
    + intros _. split; [done|]. by exists next.
  - rewrite status_take_wakeup. destruct (bool_decide _); by rewrite E.
Qed.

Lemma kernel_inv_run (s : Sim) k :
  built = Ok s -> rtc kernel_step (kernel_start s) k -> kernel_inv (watchdog (sm_profile s)) resets k.
Proof.
  intros H Hrun. destruct (kernel_inv_start s H) as (_ & Hs & _ & Hinv). revert Hinv.
  induction Hrun as [k|k k1 k2 Hstep _ IH]; [done|]. intros Hinv. apply IH. by apply (kernel_inv_step _ _ k).
Qed.

(** C9. A simulation ends.  Whatever program, configuration and backend it is built from, and in
    whatever order the kernel runs the processes of a tick: a run makes finitely many steps, never
    passes the watchdog's tick, is never stuck, and when it has stopped it has either succeeded or
    recorded a fault. *)
Theorem simulation_terminates (s : Sim) :
  built = Ok s ->
  Acc (flip kernel_step) (kernel_start s) /\
  forall k, rtc kernel_step (kernel_start s) k ->
    kn_now k <= watchdog (sm_profile s) /\
    ((exists k', kernel_step k k') \/ concluded (kn_sim k)).
Proof.
  intros H. destruct (kernel_inv_start s H) as (_ & Hs & _ & Hinv). split; [by apply (kernel_acc _ _ _ Hs Hinv)|].
  intros k Hrun. pose proof (kernel_inv_run s k H Hrun) as Hk. split; [apply Hk|].
  destruct (kernel_progress _ _ _ Hk) as [He|Hstep]; [by right | by left].
Qed.

(** C10. Every reset happens exactly once.  Whenever the simulator is done with a tick, in whatever order
    the kernel ran its processes, its epoch is one more than the number of configured resets up to
    that tick, and a reset configured at that tick is the last one performed; at every other moment
    the epoch counts the same resets, but for one of the current tick that no process has reached. *)
Theorem resets_exactly_once (s : Sim) (k : Kernel B) :
  built = Ok s -> rtc kernel_step (kernel_start s) k -> stopped_ (kn_sim k) = false ->
  let performed := epoch_ (kn_sim k) - 1 in
  resets_until (kn_now k) resets - 1 <= performed <= resets_until (kn_now k) resets /\
  (kn_due k = [] -> barrier_ (kn_sim k) = false ->
   performed = resets_until (kn_now k) resets /\
   (kn_now k ∈ resets -> last_reset_ (kn_sim k) = Some (kn_now k))).
Proof.
  intros H Hrun Hns performed. destruct (kernel_inv_run s k H Hrun) as [_ [[K _]|([Hst Hw] & _ & Hr)]].
  { change (stopped_ (kn_sim k) = true) in K. congruence. }
  pose proof (rn_epoch _ _ _ Hst) as He. rewrite Hr in He. change (su_epoch (status (kn_sim k))) with (epoch_ (kn_sim k)) in He.
  split; [unfold performed; destruct (resets_now _ _); lia|]. intros Hd Hb. destruct (Hw Hb Hd) as [Hnow _].
  rewrite Hnow in He. split; [unfold performed; lia|]. intros Hin. unfold resets_now in Hnow.
  rewrite Hr, (bool_decide_eq_true_2 (_ ∈ _)) in Hnow by done. cbn [andb] in Hnow.
  apply bool_decide_eq_false in Hnow. by apply dec_stable in Hnow.
Qed.
End Start.
End Kernel.

(** ** Identities *)
Section Identities.
Context {B : Type} `{HQ : QuantumBackend B}.
Abbreviation Sim := (Simulator B).

Lemma global_id_ok n i id g : global_id n i id = Ok g -> 0 < id /\ g = (id - 1) * n + i + 1.
Proof.
  unfold global_id. intros H. apply result_bind_ok in H as (u & H1 & H). apply require_ok in H1. reflect.
  apply result_bind_ok in H as (m & H2 & H). apply checked_mul_ok in H2 as [_ ->]; [|try lia..].
  apply checked_add_ok in H as [_ ->]. lia.
Qed.

Lemma local_of_global n i id : 0 <= i < n -> ((id - 1) * n + i + 1 - 1) mod n = i /\ ((id - 1) * n + i + 1 - 1) / n + 1 = id.
Proof.
  intros Hi. replace ((id - 1) * n + i + 1 - 1) with (i + (id - 1) * n) by lia.
  rewrite Z.mod_add, Z.div_add, Z.mod_small, Z.div_small by lia. lia.
Qed.

(** What the device sees of an event, and what comes back of its measurement. *)
Definition round_trip (s : Sim) (index : nat) (e e' : OperationEvent) : Prop :=
  (oe_id e' - 1) mod core_count s = (if core_count s =? 1 then 0 else Z.of_nat index) /\
  match oe_reference e with
  | None => oe_reference e' = None
  | Some r => exists r', oe_reference e' = Some r' /\ forall v now epoch cores, size_of cores = core_count s ->
      deliver_result now epoch (mkCompletion r' v) cores =
      deliver_to now epoch (Z.of_nat index) (mkCompletion r v) cores
  end.

Lemma deliver_local (s : Sim) index r v now epoch cores m' :
  local_result (core_count s) (mkCompletion (mkReference (ref_epoch r) m' (ref_target r)) v) =
    Ok (Z.of_nat index, mkCompletion r v) ->
  size_of cores = core_count s ->
  deliver_result now epoch (mkCompletion (mkReference (ref_epoch r) m' (ref_target r)) v) cores =
    deliver_to now epoch (Z.of_nat index) (mkCompletion r v) cores.
Proof. intros H Hn. unfold deliver_result, m_bind, m_gets, m_lift. by rewrite Hn, H. Qed.

Lemma device_event_round_trip (s : Sim) index core e e' :
  Z.of_nat index < core_count s -> core_count s <> 1 -> device_event s index core e = Ok e' -> round_trip s index e e'.
Proof.
  intros Hi Hn H. unfold device_event in H. apply result_bind_ok in H as (id & H1 & H).
  apply global_id_ok in H1 as [_ ->]. apply result_bind_ok in H as (reference & H2 & H). apply Ok_inj in H as <-.
  unfold round_trip. destruct (Z.eqb_spec (core_count s) 1); [done|]. simpl.
  split; [by apply local_of_global; lia|]. destruct (oe_reference e) as [r|]; [|by apply Ok_inj in H2 as <-].
  apply result_bind_ok in H2 as (m & H2 & H). apply Ok_inj in H as <-. apply global_id_ok in H2 as [Hm ->].
  eexists. split; [done|]. intros v now epoch cores Hc. apply (deliver_local s); [|done].
  destruct (local_of_global (core_count s) (Z.of_nat index) (ref_measurement r)) as [E1 E2]; [lia|].
  unfold local_result. simpl. rewrite E1, E2. destruct r as [ep me ta]. simpl in *.
  by rewrite (proj2 (Z.ltb_lt _ _)) by nia.
Qed.

Lemma single_round_trip (s : Sim) e e' :
  core_count s = 1 -> oe_reference e' = oe_reference e ->
  (forall r, oe_reference e = Some r -> 0 < ref_measurement r) -> round_trip s 0 e e'.
Proof.
  intros Hn Hr Hpos. unfold round_trip. rewrite Hn, Z.mod_1_r. split; [done|]. rewrite Hr.
  destruct (oe_reference e) as [r|] eqn:E; [|done]. specialize (Hpos r eq_refl). exists r. split; [done|].
  intros v now epoch cores Hc. destruct r as [ep m ta].
  apply (deliver_local s 0 (mkReference ep m ta)); [|by rewrite Hn].
  unfold local_result. simpl in *. rewrite Hn, Z.mod_1_r, Z.div_1_r, (proj2 (Z.ltb_lt _ _)) by done.
  by replace (m - 1 + 1) with m by lia.
Qed.

Lemma fold_device_events (f : OperationEvent -> result OperationEvent) (R : OperationEvent -> OperationEvent -> Prop)
    es done es' :
  (forall e e', f e = Ok e' -> R e e') ->
  result_fold (fun done e => let? e := f e in Ok (done ++ [e])) es done = Ok es' ->
  exists l, es' = done ++ l /\ Forall2 R es l.
Proof.
  intros Hf. revert done. induction es as [|e es IH]; intros done H; simpl in H.
  - apply Ok_inj in H as <-. exists []. by rewrite app_nil_r.
  - apply result_bind_ok in H as (d & H1 & H). apply result_bind_ok in H1 as (e' & He & H1). apply Ok_inj in H1 as <-.
    apply IH in H as (l & -> & Hl). exists (e' :: l). rewrite <-app_assoc. split; [done|]. constructor; auto.
Qed.

(** C12. Identities survive the way to the device and back.  For every launch of every core of a
    simulation, with one core or several: the device's view of its events keeps their order; the
    identities of different cores never coincide; and when the device delivers the result of one of
    the measurements, it reaches the core that launched it, under the identity that core gave it. *)
Theorem identities_round_trip (s : Sim) (batch batch' : TriggeredEvents) (index : nat) :
  (index < length (cores_ s))%nat -> device_events s batch index = Ok batch' ->
  (forall e r, e ∈ tg_events batch -> oe_reference e = Some r -> 0 < ref_measurement r) ->
  Forall2 (round_trip s index) (tg_events batch) (tg_events batch').
Proof.
  intros Hi H Hpos. unfold device_events in H. destruct (cores_ s) as [|c [|c2 cs]] eqn:Ec; [simpl in Hi; lia| |].
  - assert (Hn : core_count s = 1) by (unfold core_count; by rewrite Ec). assert (index = 0%nat) as -> by (simpl in Hi; lia).
    apply Ok_inj in H as <-. destruct (core_id c =? 0); simpl.
    + apply Forall_Forall2_diag, Forall_forall. intros e He. apply single_round_trip; eauto.
    + rewrite <-(list_fmap_id (tg_events batch)) at 1. apply Forall2_fmap, Forall_Forall2_diag, Forall_forall.
      intros e He. apply single_round_trip; eauto.
  - rewrite <-Ec in *. destruct (cores_ s !! index) as [k|]; [|done].
    apply result_bind_ok in H as (es & H & Hb). apply Ok_inj in Hb as <-. simpl.
    apply (fold_device_events _ (round_trip s index)) in H as (l & -> & Hl); [done|].
    intros e e'. apply device_event_round_trip; unfold core_count, size_of; [lia|]. rewrite Ec. simpl. lia.
Qed.
End Identities.

(** ** Example: one core on the mock backend, reset at tick 500 *)
Definition example_decoding : DecoderSystemConfig := mkDecoderSystemConfig 0x40000000 2 2 1 1 16 [].
Definition example_simulator : result (Simulator MockBackend) :=
  simulator_new (fun _ => "0"%string) true [mkCoreConfig 0 default_unchecked example_image None 8] []
    (Some (mock_new ∅)) [500] false 1024 example_decoding.

Example example_simulator_built : is_ok example_simulator = true.
Proof. vm_compute. reflexivity. Qed.

Lemma simulation_terminates_witness :
  exists s, example_simulator = Ok s /\ Acc (flip kernel_step) (kernel_start s).
Proof.
  pose proof example_simulator_built as Hb. destruct example_simulator as [s|code] eqn:E; [|discriminate Hb].
  exists s. split; [reflexivity|]. unfold example_simulator in E. exact (proj1 (simulation_terminates _ _ _ _ _ _ _ _ _ s E)).
Defined.

Lemma resets_exactly_once_witness :
  exists s, example_simulator = Ok s /\ 0 <= epoch_ (kn_sim (kernel_start s)) <= 1.
Proof.
  pose proof example_simulator_built as Hb. destruct example_simulator as [s|code] eqn:E; [|discriminate Hb].
  exists s. split; [reflexivity|]. unfold example_simulator in E.
  assert (Hns : stopped_ (kn_sim (kernel_start s)) = false).
  { destruct (simulator_new_status _ _ _ _ _ _ _ _ _ s E) as (p & cores & Es & _).
    unfold kernel_start, kernel_at, take_wakeup. cbn [kn_sim].
    assert (Hs : su_stopped (status s) = false) by (rewrite Es; reflexivity). destruct (bool_decide _); exact Hs. }
  pose proof (resets_exactly_once _ _ _ _ _ _ _ _ _ s (kernel_start s) E (rtc_refl _ _) Hns) as [H _].
  change (resets_until (kn_now (kernel_start s)) [500]) with 0 in H. lia.
Defined.

(** The second of three cores launches a measurement of its qubit 1. *)
Definition example_three : Simulator MockBackend :=
  mkSimulator default_unchecked trace_new (mkDecoderSystem example_decoding example_mmio ∅ ∅ [] None [] 0 0 1)
    (mkNetwork (mkClock 20 0) ∅)
    (map (fun i => mkCore i default_unchecked (Some i) None (cw_registers example_world) (cw_control example_world)
       (cw_links example_world) example_port example_port (mkMemory example_image (mkClock 5 0) 1 empty_slot empty_slot)
       (cpu_cycle_model (mkClock 5 0) 0) (mkTcu (mkTcuConfig example_timing (mkClock 20 0) 1000 32) [] [] [] 0 0 0 8 0 0
          false Strict Strict (mkPause false false))) [7; 8; 9])
    [0; 2; 4] example_device None false None None None None [] 1 false false false None.

Lemma identities_round_trip_witness :
  exists batch', device_events example_three example_launch 1 = Ok batch' /\
    map oe_id (tg_events batch') = [2; 5] /\
    Forall2 (round_trip example_three 1) (tg_events example_launch) (tg_events batch').
Proof.
  assert (E : exists b, device_events example_three example_launch 1 = Ok b /\ map oe_id (tg_events b) = [2; 5])
    by (eexists; split; vm_compute; reflexivity).
  destruct E as (b & E & Hids). exists b. split; [exact E|]. split; [exact Hids|].
  apply (identities_round_trip example_three example_launch b 1); [simpl; lia | exact E|].
  intros e r He Hr. cbn [tg_events example_launch] in He.
  repeat (apply elem_of_cons in He as [->|He]; [vm_compute in Hr; first [injection Hr as <-; reflexivity | discriminate Hr]|]).
  by apply elem_of_nil in He.
Defined.
