(* ===== verification/ProfileJson.v ===== *)
(** * Profiles as JSON (src/config_json.cpp, src/config_json.hpp)

    [apply_profile] reads a profile, or a part of one, from a JSON value; [profile_json] writes one.
    The JSON library is a parameter, [JsonLib], with the documented behaviour the code relies on as
    the laws of [LawfulJson]; [Json] is an instance. *)

From Stdlib Require Import SpecFloat.
From S2P Require Import Prelude Error Time Event Profile.
#[local] Open Scope string_scope.
#[local] Open Scope list_scope.
#[local] Open Scope Z_scope.

#[global] Instance eta_Profile : Eta Profile := fun p =>
  mkProfile (cpu_clock p) (tcu_clock p) (start p) (watchdog p) (memory_latency p) (command_latency p)
    (reply_latency p) (cpu_result_latency p) (fast_result_latency p) (timing_capacity p) (event_capacity p)
    (staging_capacity p) (p_result_capacity p) (ports p) (qubits p) (firing_width p) (seed p)
    (p_fast_feedback p) (mappings p) (two_qubit_gates p).

(** The operations on [nlohmann::json] that the code uses.  Those that can throw return a [result]. *)
Class JsonLib (J : Type) := {
  is_object : J -> bool;
  is_array : J -> bool;
  is_string : J -> bool;
  is_boolean : J -> bool;
  is_number_integer : J -> bool;
  is_number_unsigned : J -> bool;
  get_i64 : J -> Z;
  get_u64 : J -> Z;
  get_bool : J -> result bool;
  get_string : J -> result string;
  get_double : J -> result double;
  equals_int : J -> Z -> bool;
  contains : J -> string -> bool;
  at_key : J -> string -> result J;
  items : J -> list (string * J);
  elements : J -> list J;
  json_unsigned : Z -> J;
  json_bool : bool -> J;
  json_string : string -> J;
  json_double : double -> J;
  json_array : list J -> J;
  json_object : list (string * J) -> J }.

(** The member of an object written as a list of pairs. *)
Fixpoint assoc {A} (key : string) (l : list (string * A)) : option A :=
  match l with
  | [] => None
  | (k, v) :: l => if String.eqb k key then Some v else assoc key l
  end.

Class LawfulJson (J : Type) `{JsonLib J} := {
  law_object l : is_object (json_object l) = true;
  law_array l : is_array (json_array l) = true;
  law_elements l : elements (json_array l) = l;
  law_integer n : u64 n -> is_number_integer (json_unsigned n) = true;
  law_unsigned n : u64 n -> is_number_unsigned (json_unsigned n) = true;
  law_u64 n : u64 n -> get_u64 (json_unsigned n) = n;
  law_equals n m : u64 n -> equals_int (json_unsigned n) m = (n =? m);
  law_bool b : get_bool (json_bool b) = Ok b;
  law_string s : get_string (json_string s) = Ok s;
  law_double d : get_double (json_double d) = Ok d;
  law_contains l k : NoDup (map fst l) ->
    contains (json_object l) k = match assoc k l with Some _ => true | None => false end;
  law_at l k v : NoDup (map fst l) -> assoc k l = Some v -> at_key (json_object l) k = Ok v;
  law_items l : NoDup (map fst l) -> items (json_object l) ≡ₚ l }.

Section ProfileJson.
Context {J : Type} `{HJ : JsonLib J}.

(** ** Helpers *)
Definition keys (object : J) (allowed : list string) : result unit :=
  do? require (is_object object) InvalidProfile in
  result_each (fun item => require (bool_decide (fst item ∈ allowed)) InvalidProfile) (items object).

(** [integer<T>], where [max] is [std::numeric_limits<T>::max()]. *)
Definition json_integer (max : Z) (object : J) (key : string) (destination : Z) : result Z :=
  if negb (contains object key) then Ok destination else
  let? v := at_key object key in
  do? require (is_number_integer v && (is_number_unsigned v || (0 <=? get_i64 v))) InvalidProfile in
  do? require (get_u64 v <=? max) InvalidProfile in
  Ok (get_u64 v).

(** [object.value(key, fallback)]. *)
Definition json_value {A} (get : J -> result A) (object : J) (key : string) (fallback : A) : result A :=
  if is_object object && negb (contains object key) then Ok fallback
  else let? v := at_key object key in get v.

(** A loop that appends what it reads of each element. *)
Definition result_map {A C} (f : A -> result C) (l : list A) : result (list C) :=
  result_fold (fun done x => let? y := f x in Ok (done ++ [y])) l [].

Definition kind_name (k : ActionKind) : string :=
  match k with
  | IdealGate => "gate"
  | Pulse => "pulse"
  | Acquire => "acquire"
  | DiscriminatorArm => "arm"
  | GateOutput => "gate_output"
  end.

Definition kind_value (name : string) : result ActionKind :=
  if String.eqb name "gate" then Ok IdealGate
  else if String.eqb name "pulse" then Ok Pulse
  else if String.eqb name "acquire" then Ok Acquire
  else if String.eqb name "arm" then Ok DiscriminatorArm
  else if String.eqb name "gate_output" then Ok GateOutput
  else Fault InvalidProfile.

Definition flag_name (f : ExecutionFlag) : string :=
  match f with Always => "always" | LastOne => "last_one" | LastZero => "last_zero" | Equal => "equal" end.

Definition flag_value (name : string) : result ExecutionFlag :=
  match List.find (fun f => String.eqb (flag_name f) name) [Always; LastOne; LastZero; Equal] with
  | Some f => Ok f
  | None => Fault InvalidProfile
  end.

(** ** [apply_profile] *)

(** [integer(Json{{"target", value}}, "target", target)] with [target = 0]. *)
Definition read_target (v : J) : result Z := json_integer max32 (json_object [("target", v)]) "target" 0.

Definition read_resource (v : J) : result ResourceUse :=
  do? keys v ["id"; "exclusive"] in
  do? require (contains v "id") InvalidProfile in
  let? id := json_integer max32 v "id" 0 in
  let? exclusive := json_value get_bool v "exclusive" true in
  Ok (mkResource id exclusive).

(** The resources of a gate or of an action; none where the key is missing. *)
Definition read_resources (spec : J) : result (list ResourceUse) :=
  if contains spec "resources" then
    let? rs := at_key spec "resources" in
    do? require (is_array rs) InvalidProfile in
    result_map read_resource (elements rs)
  else Ok [].

Definition read_input (v : J) : result GateInput :=
  do? keys v ["core"; "port"; "codeword"] in
  do? require (contains v "core" && contains v "port" && contains v "codeword") InvalidProfile in
  let? core := json_integer max32 v "core" 0 in
  let? port := json_integer max32 v "port" 0 in
  let? codeword := json_integer max32 v "codeword" 0 in
  Ok (mkInput core port codeword).

(** An array under a key that must be there. *)
Definition array_at (spec : J) (key : string) : result (list J) :=
  do? require (contains spec key) InvalidProfile in
  let? v := at_key spec key in
  do? require (is_array v) InvalidProfile in
  Ok (elements v).

Definition string_at (spec : J) (key : string) : result string := let? v := at_key spec key in get_string v.

Definition read_gate (spec : J) : result TwoQubitGate :=
  do? keys spec ["name"; "operation"; "targets"; "inputs"; "resources"; "duration"] in
  do? require (contains spec "name" && contains spec "operation") InvalidProfile in
  let? ts := array_at spec "targets" in
  let? ins := array_at spec "inputs" in
  do? require (contains spec "duration") InvalidProfile in
  let? name := string_at spec "name" in
  let? operation := string_at spec "operation" in
  let? duration := json_integer max64 spec "duration" 20 in
  let? targets := result_map read_target ts in
  let? inputs := result_map read_input ins in
  let? resources := read_resources spec in
  Ok (mkTwoQubit name operation targets inputs resources duration).

Definition action_keys (k : ActionKind) : list string :=
  match k with
  | IdealGate => ["kind"; "port"; "delay"; "duration"; "operation"; "targets"; "resources"; "amplitude"; "execution_flag"]
  | Pulse => ["kind"; "port"; "delay"; "duration"; "operation"; "targets"; "resources"; "amplitude"; "axis"; "execution_flag"]
  | Acquire => ["kind"; "port"; "delay"; "duration"; "operation"; "targets"; "resources"; "discriminator_delay"; "separate_arm"]
  | DiscriminatorArm => ["kind"; "port"; "delay"; "duration"; "operation"; "targets"; "resources"]
  | GateOutput => ["kind"; "port"; "delay"; "duration"; "gate"]
  end.

Definition read_operands (spec : J) : result (string * QuantumOperands) :=
  let? operation := json_value get_string spec "operation" "x" in
  let? ts := array_at spec "targets" in
  let? targets := result_map read_target ts in
  let? resources := read_resources spec in
  Ok (operation, mkOperands targets resources).

Definition read_flag (spec : J) : result ExecutionFlag :=
  let? name := json_value get_string spec "execution_flag" "always" in flag_value name.

(** The visitor of [action.spec]. *)
Definition read_spec (k : ActionKind) (spec : J) : result Spec :=
  match k with
  | IdealGate =>
      let? o := read_operands spec in
      let? amplitude := json_value get_double spec "amplitude" (S754_zero false) in
      let? flag := read_flag spec in
      Ok (SpecGate (mkGate (fst o) (snd o) amplitude flag))
  | Pulse =>
      let? o := read_operands spec in
      let? amplitude := json_value get_double spec "amplitude" (S754_zero false) in
      let? axis := json_value get_string spec "axis" "x" in
      let? flag := read_flag spec in
      Ok (SpecPulse (mkPulse (fst o) (snd o) amplitude axis flag))
  | Acquire =>
      let? o := read_operands spec in
      let? delay := json_integer max64 spec "discriminator_delay" (discriminator_delay default_acquire) in
      let? arm := json_value get_bool spec "separate_arm" false in
      Ok (SpecAcquire (mkAcquire (fst o) (snd o) delay arm))
  | DiscriminatorArm => let? o := read_operands spec in Ok (SpecArm (mkArm (fst o) (snd o)))
  | GateOutput => let? gate := json_value get_string spec "gate" "" in Ok (SpecGateOutput (mkGateOutput gate))
  end.

(** A gate output lasts as long as its gate unless the specification says otherwise. *)
Definition default_duration (p : Profile) (k : ActionKind) (spec : J) : result Tick :=
  match k with
  | GateOutput =>
      let? name := json_value get_string spec "gate" "" in
      let? g := profile_gate p name in
      Ok (tq_duration g)
  | _ => Ok (ev_duration default_event)
  end.

Definition read_action (p : Profile) (port : Z) (spec : J) : result EventSpec :=
  do? require (is_object spec) InvalidProfile in
  let? name := json_value get_string spec "kind" "gate" in
  let? k := kind_value name in
  do? keys spec (action_keys k) in
  let? duration := default_duration p k spec in
  let? port := json_integer max32 spec "port" port in
  let? delay := json_integer max64 spec "delay" (ev_delay default_event) in
  let? duration := json_integer max64 spec "duration" duration in
  let? s := read_spec k spec in
  Ok (mkEvent port delay duration s).

Definition read_mapping (p : Profile) (mapping : J) : result Mapping :=
  do? keys mapping ["port"; "codeword"; "actions"] in
  do? require (contains mapping "port" && contains mapping "codeword" && contains mapping "actions") InvalidProfile in
  let? port := json_integer max32 mapping "port" 0 in
  let? codeword := json_integer max32 mapping "codeword" 0 in
  let? specs := array_at mapping "actions" in
  let? actions := result_map (read_action p port) specs in
  Ok (mkMapping port codeword actions).

Definition read_clock (input : J) (key : string) (c : Clock) : result Clock :=
  if contains input key then
    let? v := at_key input key in
    do? keys v ["period"; "phase"] in
    let? period := json_integer max64 v "period" (period c) in
    let? phase := json_integer max64 v "phase" (phase c) in
    Ok (mkClock period phase)
  else Ok c.

(** [QS_FIELD]. *)
Definition read_field (max : Z) (input : J) (key : string) (get : Profile -> Z) (set : Z -> Profile -> Profile)
    : M Profile unit :=
  let! p := m_get in
  let! v := m_lift (json_integer max input key (get p)) in
  m_modify (set v).

Definition read_fields (input : J) : M Profile unit :=
  do! read_field max64 input "start" start (fun v p => p <| start := v |>) in
  do! read_field max64 input "watchdog" watchdog (fun v p => p <| watchdog := v |>) in
  do! read_field max32 input "memory_latency" memory_latency (fun v p => p <| memory_latency := v |>) in
  do! read_field max32 input "command_latency" command_latency (fun v p => p <| command_latency := v |>) in
  do! read_field max32 input "reply_latency" reply_latency (fun v p => p <| reply_latency := v |>) in
  do! read_field max32 input "cpu_result_latency" cpu_result_latency (fun v p => p <| cpu_result_latency := v |>) in
  do! read_field max32 input "fast_result_latency" fast_result_latency (fun v p => p <| fast_result_latency := v |>) in
  do! read_field max32 input "timing_capacity" timing_capacity (fun v p => p <| timing_capacity := v |>) in
  do! read_field max32 input "event_capacity" event_capacity (fun v p => p <| event_capacity := v |>) in
  do! read_field max32 input "staging_capacity" staging_capacity (fun v p => p <| staging_capacity := v |>) in
  do! read_field max32 input "result_capacity" p_result_capacity (fun v p => p <| p_result_capacity := v |>) in
  do! read_field max32 input "ports" ports (fun v p => p <| ports := v |>) in
  do! read_field max32 input "qubits" qubits (fun v p => p <| qubits := v |>) in
  do! read_field max32 input "firing_width" firing_width (fun v p => p <| firing_width := v |>) in
  read_field max32 input "seed" seed (fun v p => p <| seed := v |>).

Definition profile_keys : list string :=
  ["schema"; "cpu"; "tcu"; "start"; "watchdog"; "memory_latency"; "command_latency"; "reply_latency";
   "cpu_result_latency"; "fast_result_latency"; "timing_capacity"; "event_capacity"; "staging_capacity";
   "result_capacity"; "ports"; "qubits"; "firing_width"; "seed"; "fast_feedback"; "mappings"; "two_qubit_gates"].

Definition read_gates (input : J) : M Profile unit :=
  if contains input "two_qubit_gates" then
    let! specs := m_lift (array_at input "two_qubit_gates") in
    do! m_modify (fun p => p <| two_qubit_gates := [] |>) in
    m_each (fun spec =>
      let! g := m_lift (read_gate spec) in
      m_modify (fun p => p <| two_qubit_gates ::= fun l => l ++ [g] |>)) specs
  else m_ret ().

Definition read_mappings (input : J) : M Profile unit :=
  if contains input "mappings" then
    let! specs := m_lift (array_at input "mappings") in
    do! m_modify (fun p => p <| mappings := [] |>) in
    m_each (fun spec =>
      let! p := m_get in
      let! m := m_lift (read_mapping p spec) in
      m_modify (fun p => p <| mappings ::= fun l => l ++ [m] |>)) specs
  else m_ret ().

Definition apply_profile (input : J) : M Profile unit :=
  do! m_lift (keys input profile_keys) in
  do! m_lift (if contains input "schema"
              then let? v := at_key input "schema" in require (equals_int v 1) InvalidProfile
              else Ok ()) in
  let! p := m_get in
  let! cpu := m_lift (read_clock input "cpu" (cpu_clock p)) in
  do! m_modify (fun p => p <| cpu_clock := cpu |>) in
  let! tcu := m_lift (read_clock input "tcu" (tcu_clock p)) in
  do! m_modify (fun p => p <| tcu_clock := tcu |>) in
  do! read_fields input in
  do! (if contains input "fast_feedback" then
         let! b := m_lift (let? v := at_key input "fast_feedback" in get_bool v) in
         m_modify (fun p => p <| p_fast_feedback := b |>)
       else m_ret ()) in
  do! read_gates input in
  do! read_mappings input in
  let! p := m_get in
  m_lift (profile_validate p).

(** ** [profile_json] *)
Definition resource_json (r : ResourceUse) : J :=
  json_object [("id", json_unsigned (res_id r)); ("exclusive", json_bool (res_exclusive r))].

Definition targets_json (l : list Z) : J := json_array (map json_unsigned l).

Definition input_json (i : GateInput) : J :=
  json_object [("core", json_unsigned (in_core i)); ("port", json_unsigned (in_port i));
               ("codeword", json_unsigned (in_codeword i))].

Definition gate_json (g : TwoQubitGate) : J :=
  json_object [("name", json_string (tq_name g)); ("operation", json_string (tq_operation g));
               ("targets", targets_json (tq_targets g)); ("duration", json_unsigned (tq_duration g));
               ("inputs", json_array (map input_json (tq_inputs g)));
               ("resources", json_array (map resource_json (tq_resources g)))].

Definition operands_json (operation : string) (o : QuantumOperands) : list (string * J) :=
  [("operation", json_string operation); ("targets", targets_json (op_targets o));
   ("resources", json_array (map resource_json (op_resources o)))].

(** The members the visitor of [action.spec] adds. *)
Definition spec_members (s : Spec) : list (string * J) :=
  match s with
  | SpecGate g => operands_json (gate_operation g) (gate_operands g) ++
      [("amplitude", json_double (gate_amplitude g)); ("execution_flag", json_string (flag_name (gate_flag g)))]
  | SpecPulse p => operands_json (pulse_operation p) (pulse_operands p) ++
      [("amplitude", json_double (pulse_amplitude p)); ("axis", json_string (pulse_axis p));
       ("execution_flag", json_string (flag_name (pulse_flag p)))]
  | SpecAcquire a => operands_json (acquire_operation a) (acquire_operands a) ++
      [("discriminator_delay", json_unsigned (discriminator_delay a)); ("separate_arm", json_bool (separate_arm a))]
  | SpecArm d => operands_json (arm_operation d) (arm_operands d)
  | SpecGateOutput o => [("gate", json_string (output_gate o))]
  end.

Definition action_json (a : EventSpec) : J :=
  json_object ([("kind", json_string (kind_name (kind a))); ("port", json_unsigned (ev_port a));
                ("delay", json_unsigned (ev_delay a)); ("duration", json_unsigned (ev_duration a))] ++
               spec_members (ev_spec a)).

Definition mapping_json (m : Mapping) : J :=
  json_object [("port", json_unsigned (map_port m)); ("codeword", json_unsigned (map_codeword m));
               ("actions", json_array (map action_json (map_actions m)))].

Definition clock_json (c : Clock) : J :=
  json_object [("period", json_unsigned (period c)); ("phase", json_unsigned (phase c))].

Definition profile_json (p : Profile) : J :=
  json_object
    [("schema", json_unsigned 1); ("cpu", clock_json (cpu_clock p)); ("tcu", clock_json (tcu_clock p));
     ("start", json_unsigned (start p)); ("watchdog", json_unsigned (watchdog p));
     ("memory_latency", json_unsigned (memory_latency p)); ("command_latency", json_unsigned (command_latency p));
     ("reply_latency", json_unsigned (reply_latency p)); ("cpu_result_latency", json_unsigned (cpu_result_latency p));
     ("fast_result_latency", json_unsigned (fast_result_latency p));
     ("timing_capacity", json_unsigned (timing_capacity p)); ("event_capacity", json_unsigned (event_capacity p));
     ("staging_capacity", json_unsigned (staging_capacity p));
     ("result_capacity", json_unsigned (p_result_capacity p)); ("ports", json_unsigned (ports p));
     ("qubits", json_unsigned (qubits p)); ("firing_width", json_unsigned (firing_width p));
     ("seed", json_unsigned (seed p)); ("fast_feedback", json_bool (p_fast_feedback p));
     ("mappings", json_array (map mapping_json (mappings p)));
     ("two_qubit_gates", json_array (map gate_json (two_qubit_gates p)))].
End ProfileJson.

(** ** Values within their C++ types *)
Definition action_typed (a : EventSpec) : Prop :=
  u32 (ev_port a) /\ u64 (ev_delay a) /\ u64 (ev_duration a) /\ Forall u32 (targets a) /\
  Forall (fun r => u32 (res_id r)) (resources a) /\
  match ev_spec a with SpecAcquire s => u64 (discriminator_delay s) | _ => True end.
Definition mapping_typed (m : Mapping) : Prop :=
  u32 (map_port m) /\ u32 (map_codeword m) /\ Forall action_typed (map_actions m).
Definition gate_typed (g : TwoQubitGate) : Prop :=
  Forall u32 (tq_targets g) /\ u64 (tq_duration g) /\ Forall (fun r => u32 (res_id r)) (tq_resources g) /\
  Forall (fun i => u32 (in_core i) /\ u32 (in_port i) /\ u32 (in_codeword i)) (tq_inputs g).

Record profile_typed (p : Profile) : Prop := {
  pt_cpu : u64 (period (cpu_clock p)) /\ u64 (phase (cpu_clock p));
  pt_tcu : u64 (period (tcu_clock p)) /\ u64 (phase (tcu_clock p));
  pt_ticks : u64 (start p) /\ u64 (watchdog p);
  pt_words : Forall u32
    [memory_latency p; command_latency p; reply_latency p; cpu_result_latency p; fast_result_latency p;
     timing_capacity p; event_capacity p; staging_capacity p; p_result_capacity p; ports p; qubits p;
     firing_width p; seed p];
  pt_mappings : Forall mapping_typed (mappings p);
  pt_gates : Forall gate_typed (two_qubit_gates p) }.

(** ** Reading back what was written *)

(** Decide a closed fact about the literal keys of an object. *)
Ltac literal_keys := first [apply (bool_decide_unpack _); vm_compute; exact I | vm_compute; reflexivity].

Section RoundTrip.
Context {J : Type} {Lib : JsonLib J} {Laws : LawfulJson J}.

Lemma keys_of_object l allowed :
  NoDup (map fst l) -> forallb (fun k => bool_decide (k ∈ allowed)) (map fst l) = true ->
  keys (json_object l) allowed = Ok ().
Proof.
  intros Hn Ha. unfold keys. rewrite law_object. cbn [require result_bind]. apply result_each_ok.
  rewrite (law_items l Hn). rewrite forallb_forall in Ha. apply Forall_forall. intros [k v] Hin. cbn [fst].
  rewrite (Ha k); [done|]. apply in_map_iff. exists (k, v). by rewrite <-list_elem_of_In.
Qed.

Lemma contains_object l k v : NoDup (map fst l) -> assoc k l = Some v -> contains (json_object l) k = true.
Proof. intros Hn Ha. by rewrite law_contains, Ha. Qed.

Lemma integer_object max l k n d :
  NoDup (map fst l) -> assoc k l = Some (json_unsigned n) -> 0 <= n <= max -> max <= max64 ->
  json_integer max (json_object l) k d = Ok n.
Proof.
  intros Hn Ha Hb Hm. assert (Hu : u64 n) by (unfold u64; lia). unfold json_integer.
  rewrite (contains_object _ _ _ Hn Ha), (law_at _ _ _ Hn Ha). cbn [negb result_bind].
  rewrite law_integer, law_unsigned, law_u64 by done. cbn [andb orb require result_bind].
  by rewrite (proj2 (Z.leb_le _ _)) by lia.
Qed.

Lemma value_object {A} (get : J -> result A) l k j v d :
  NoDup (map fst l) -> assoc k l = Some j -> get j = Ok v -> json_value get (json_object l) k d = Ok v.
Proof.
  intros Hn Ha Hg. unfold json_value. rewrite law_object, (contains_object _ _ _ Hn Ha), (law_at _ _ _ Hn Ha). done.
Qed.

Lemma array_object l k vs :
  NoDup (map fst l) -> assoc k l = Some (json_array vs) -> array_at (json_object l) k = Ok vs.
Proof.
  intros Hn Ha. unfold array_at. rewrite (contains_object _ _ _ Hn Ha), (law_at _ _ _ Hn Ha).
  cbn [require result_bind]. by rewrite law_array, law_elements.
Qed.

Lemma result_map_json {A} (f : J -> result A) (g : A -> J) (l : list A) :
  Forall (fun x => f (g x) = Ok x) l -> result_map f (map g l) = Ok l.
Proof.
  intros H. assert (K : forall done, result_fold (fun done x => let? y := f x in Ok (done ++ [y])) (map g l) done =
    Ok (done ++ l)); [|exact (K [])].
  induction H as [|x l Hx Hl IH]; intros done; simpl; [by rewrite app_nil_r|].
  rewrite Hx. cbn [result_bind]. by rewrite IH, <-app_assoc.
Qed.

Lemma max32_64 : max32 <= max64.
Proof. unfold max32, max64. lia. Qed.

Lemma read_target_json n : u32 n -> read_target (json_unsigned n) = Ok n.
Proof. intros Hn. apply integer_object; [literal_keys | done | done | apply max32_64]. Qed.

Lemma read_targets_json l : Forall u32 l -> result_map read_target (map json_unsigned l) = Ok l.
Proof. intros H. apply result_map_json. eapply Forall_impl; [exact H|]. apply read_target_json. Qed.

Lemma read_resource_json r : u32 (res_id r) -> read_resource (resource_json r) = Ok r.
Proof.
  intros Hr. unfold read_resource, resource_json. set (l := [_; _]).
  assert (Hn : NoDup (map fst l)) by literal_keys.
  rewrite (keys_of_object l), (contains_object l "id" _ Hn eq_refl) by (done || literal_keys).
  cbn [require result_bind].
  rewrite (integer_object _ l "id" (res_id r)) by (done || apply max32_64). cbn [result_bind].
  rewrite (value_object _ l "exclusive" _ (res_exclusive r) _ Hn eq_refl) by apply law_bool. by destruct r.
Qed.

Lemma read_resources_json l rs :
  NoDup (map fst l) -> assoc "resources" l = Some (json_array (map resource_json rs)) ->
  Forall (fun r => u32 (res_id r)) rs -> read_resources (json_object l) = Ok rs.
Proof.
  intros Hn Ha Hrs. unfold read_resources. rewrite (contains_object _ _ _ Hn Ha), (law_at _ _ _ Hn Ha).
  cbn [result_bind]. rewrite law_array, law_elements. cbn [require result_bind].
  apply result_map_json. eapply Forall_impl; [exact Hrs|]. apply read_resource_json.
Qed.

Lemma read_input_json i :
  u32 (in_core i) -> u32 (in_port i) -> u32 (in_codeword i) -> read_input (input_json i) = Ok i.
Proof.
  intros H1 H2 H3. unfold read_input, input_json. set (l := [_; _; _]).
  assert (Hn : NoDup (map fst l)) by literal_keys.
  rewrite (keys_of_object l) by (done || literal_keys). cbn [result_bind].
  rewrite (contains_object l "core" _ Hn eq_refl), (contains_object l "port" _ Hn eq_refl),
    (contains_object l "codeword" _ Hn eq_refl). cbn [andb require result_bind].
  rewrite (integer_object _ l "core" (in_core i)), (integer_object _ l "port" (in_port i)),
    (integer_object _ l "codeword" (in_codeword i)) by (done || apply max32_64). by destruct i.
Qed.

Lemma string_object l k s : NoDup (map fst l) -> assoc k l = Some (json_string s) -> string_at (json_object l) k = Ok s.
Proof. intros Hn Ha. unfold string_at. rewrite (law_at _ _ _ Hn Ha). apply law_string. Qed.

Lemma u64_max n : u64 n -> 0 <= n <= max64.
Proof. done. Qed.

Lemma read_gate_json g : gate_typed g -> read_gate (gate_json g) = Ok g.
Proof.
  intros (H1 & H2 & H3 & H4). unfold read_gate, gate_json. set (l := [_; _; _; _; _; _]).
  assert (Hn : NoDup (map fst l)) by literal_keys.
  rewrite (keys_of_object l) by (done || literal_keys). cbn [result_bind].
  rewrite (contains_object l "name" _ Hn eq_refl), (contains_object l "operation" _ Hn eq_refl),
    (contains_object l "duration" _ Hn eq_refl). cbn [andb require result_bind].
  rewrite (array_object l "targets" _ Hn eq_refl), (array_object l "inputs" _ Hn eq_refl). cbn [result_bind].
  rewrite (string_object l "name" _ Hn eq_refl), (string_object l "operation" _ Hn eq_refl). cbn [result_bind].
  rewrite (integer_object _ l "duration" (tq_duration g) _ Hn eq_refl H2) by done. cbn [result_bind].
  rewrite read_targets_json by done. cbn [result_bind].
  rewrite (result_map_json read_input) by (eapply Forall_impl; [exact H4|]; intros i (?&?&?); by apply read_input_json).
  cbn [result_bind]. rewrite (read_resources_json l _ Hn eq_refl) by done. by destruct g.
Qed.

Lemma kind_value_name k : kind_value (kind_name k) = Ok k.
Proof. by destruct k. Qed.

Lemma flag_value_name f : flag_value (flag_name f) = Ok f.
Proof. by destruct f. Qed.

Lemma read_operands_json l operation o :
  NoDup (map fst l) -> assoc "operation" l = Some (json_string operation) ->
  assoc "targets" l = Some (targets_json (op_targets o)) ->
  assoc "resources" l = Some (json_array (map resource_json (op_resources o))) ->
  Forall u32 (op_targets o) -> Forall (fun r => u32 (res_id r)) (op_resources o) ->
  read_operands (json_object l) = Ok (operation, o).
Proof.
  intros Hn H1 H2 H3 Ht Hr. unfold read_operands.
  rewrite (value_object _ _ _ _ _ _ Hn H1 (law_string _)). cbn [result_bind].
  rewrite (array_object _ _ _ Hn H2). cbn [result_bind]. rewrite read_targets_json by done. cbn [result_bind].
  rewrite (read_resources_json l _ Hn H3 Hr). by destruct o.
Qed.

Lemma read_flag_json l f :
  NoDup (map fst l) -> assoc "execution_flag" l = Some (json_string (flag_name f)) -> read_flag (json_object l) = Ok f.
Proof.
  intros Hn H. unfold read_flag. rewrite (value_object _ _ _ _ _ _ Hn H (law_string _)). apply flag_value_name.
Qed.

(** The members of an action, whatever its kind. *)
Definition action_members (a : EventSpec) : list (string * J) :=
  [("kind", json_string (kind_name (kind a))); ("port", json_unsigned (ev_port a));
   ("delay", json_unsigned (ev_delay a)); ("duration", json_unsigned (ev_duration a))] ++ spec_members (ev_spec a).

Lemma action_keys_nodup a : NoDup (map fst (action_members a)).
Proof. unfold action_members. destruct (ev_spec a); literal_keys. Qed.

Lemma action_keys_allowed a : keys (json_object (action_members a)) (action_keys (kind a)) = Ok ().
Proof.
  apply keys_of_object; [apply action_keys_nodup|]. unfold action_members, kind. destruct (ev_spec a); literal_keys.
Qed.

Lemma read_spec_json a : action_typed a -> read_spec (kind a) (json_object (action_members a)) = Ok (ev_spec a).
Proof.
  intros (_ & _ & _ & Ht & Hr & Hs). pose proof (action_keys_nodup a) as Hn. revert Hn Ht Hr.
  unfold action_members, targets, resources, operands, kind.
  destruct (ev_spec a) as [g|g|g|g|g]; cbn [spec_members operands_json app read_spec from_option];
    set (l := _ :: _); intros Hn Ht Hr.
  1-4: rewrite (read_operands_json l _ _ Hn eq_refl eq_refl eq_refl Ht Hr); cbn [result_bind fst snd].
  - rewrite (value_object _ l "amplitude" _ _ _ Hn eq_refl (law_double _)), (read_flag_json l _ Hn eq_refl). by destruct g.
  - rewrite (value_object _ l "amplitude" _ _ _ Hn eq_refl (law_double _)),
      (value_object _ l "axis" _ _ _ Hn eq_refl (law_string _)), (read_flag_json l _ Hn eq_refl). by destruct g.
  - rewrite (integer_object _ l "discriminator_delay" _ _ Hn eq_refl Hs) by done.
    rewrite (value_object _ l "separate_arm" _ _ _ Hn eq_refl (law_bool _)). by destruct g.
  - by destruct g.
  - rewrite (value_object _ l "gate" _ _ _ Hn eq_refl (law_string _)). by destruct g.
Qed.

(** What the profile read so far must provide: the gates that outputs name. *)
Definition gate_known (p : Profile) (a : EventSpec) : Prop :=
  match ev_spec a with SpecGateOutput o => is_ok (profile_gate p (output_gate o)) = true | _ => True end.

Lemma default_duration_json p a :
  gate_known p a -> exists d, default_duration p (kind a) (json_object (action_members a)) = Ok d.
Proof.
  intros Hg. pose proof (action_keys_nodup a) as Hn. revert Hn. unfold gate_known, action_members, kind in *.
  destruct (ev_spec a) as [g|g|g|g|o]; cbn [default_duration]; try (by eexists). intros Hn.
  rewrite (value_object _ _ "gate" _ _ _ Hn eq_refl (law_string _)). cbn [result_bind].
  destruct (profile_gate p (output_gate o)) as [g|]; [by eexists | done].
Qed.

Lemma read_action_json p port a : action_typed a -> gate_known p a -> read_action p port (action_json a) = Ok a.
Proof.
  intros Ha Hg. pose proof (action_keys_nodup a) as Hn. pose proof Ha as (H1 & H2 & H3 & _).
  unfold read_action. change (action_json a) with (json_object (action_members a)). rewrite law_object.
  cbn [require result_bind].
  rewrite (value_object _ _ "kind" _ _ _ Hn eq_refl (law_string _)). cbn [result_bind].
  rewrite kind_value_name. cbn [result_bind]. rewrite action_keys_allowed. cbn [result_bind].
  destruct (default_duration_json p a Hg) as (d & ->). cbn [result_bind].
  rewrite (integer_object _ _ "port" (ev_port a) _ Hn eq_refl H1 max32_64). cbn [result_bind].
  rewrite (integer_object _ _ "delay" (ev_delay a) _ Hn eq_refl H2) by done. cbn [result_bind].
  rewrite (integer_object _ _ "duration" (ev_duration a) _ Hn eq_refl H3) by done. cbn [result_bind].
  rewrite read_spec_json by done. by destruct a.
Qed.

Lemma read_mapping_json p m :
  mapping_typed m -> Forall (gate_known p) (map_actions m) -> read_mapping p (mapping_json m) = Ok m.
Proof.
  intros (H1 & H2 & H3) Hg. unfold read_mapping, mapping_json. set (l := [_; _; _]).
  assert (Hn : NoDup (map fst l)) by literal_keys.
  rewrite (keys_of_object l) by (done || literal_keys). cbn [result_bind].
  rewrite (contains_object l "port" _ Hn eq_refl), (contains_object l "codeword" _ Hn eq_refl),
    (contains_object l "actions" _ Hn eq_refl). cbn [andb require result_bind].
  rewrite (integer_object _ l "port" (map_port m) _ Hn eq_refl H1 max32_64). cbn [result_bind].
  rewrite (integer_object _ l "codeword" (map_codeword m) _ Hn eq_refl H2 max32_64). cbn [result_bind].
  rewrite (array_object l "actions" _ Hn eq_refl). cbn [result_bind].
  rewrite result_map_json; [by destruct m|]. rewrite Forall_forall in *. intros a Ha. apply read_action_json; auto.
Qed.

Lemma read_clock_json l k c d :
  NoDup (map fst l) -> assoc k l = Some (clock_json c) -> u64 (period c) -> u64 (phase c) ->
  read_clock (json_object l) k d = Ok c.
Proof.
  intros Hn Ha H1 H2. unfold read_clock. rewrite (contains_object _ _ _ Hn Ha), (law_at _ _ _ Hn Ha).
  cbn [result_bind]. unfold clock_json. set (m := [_; _]). assert (Hm : NoDup (map fst m)) by literal_keys.
  rewrite (keys_of_object m) by (done || literal_keys). cbn [result_bind].
  rewrite (integer_object _ m "period" (period c) _ Hm eq_refl H1) by done. cbn [result_bind].
  rewrite (integer_object _ m "phase" (phase c) _ Hm eq_refl H2) by done. by destruct c.
Qed.

Lemma read_field_json l k n max get set p :
  NoDup (map fst l) -> assoc k l = Some (json_unsigned n) -> 0 <= n <= max -> max <= max64 ->
  read_field max (json_object l) k get set p = (Ok (), set n p).
Proof.
  intros Hn Ha Hb Hm. unfold read_field, m_bind, m_get, m_lift, m_modify.
  by rewrite (integer_object max l k n _ Hn Ha Hb Hm).
Qed.

Lemma gates_loop gs p :
  Forall gate_typed gs ->
  m_each (fun spec => let! g := m_lift (read_gate spec) in m_modify (fun p => p <| two_qubit_gates ::= fun l => l ++ [g] |>))
    (map gate_json gs) p = (Ok (), p <| two_qubit_gates ::= fun l => l ++ gs |>).
Proof.
  intros H. revert p. induction H as [|g gs Hg _ IH]; intros p; cbn [map m_each].
  - unfold m_ret. destruct p. simpl. by rewrite app_nil_r.
  - erewrite m_bind_step; [|unfold m_bind, m_lift, m_modify; rewrite read_gate_json by done; reflexivity].
    rewrite IH. destruct p. simpl. by rewrite <-app_assoc.
Qed.

Lemma read_gates_json l gs p :
  NoDup (map fst l) -> assoc "two_qubit_gates" l = Some (json_array (map gate_json gs)) -> Forall gate_typed gs ->
  read_gates (json_object l) p = (Ok (), p <| two_qubit_gates := gs |>).
Proof.
  intros Hn Ha Hg. unfold read_gates. rewrite (contains_object _ _ _ Hn Ha), (array_object _ _ _ Hn Ha).
  erewrite m_bind_step by reflexivity. erewrite m_bind_step by reflexivity. by rewrite gates_loop.
Qed.

Lemma gate_known_gates p q a : two_qubit_gates q = two_qubit_gates p -> gate_known p a -> gate_known q a.
Proof. unfold gate_known, profile_gate. destruct (ev_spec a); try done. by intros ->. Qed.

Lemma mappings_loop ms p :
  Forall mapping_typed ms -> Forall (fun m => Forall (gate_known p) (map_actions m)) ms ->
  m_each (fun spec => let! p := m_get in let! m := m_lift (read_mapping p spec) in
                      m_modify (fun p => p <| mappings ::= fun l => l ++ [m] |>))
    (map mapping_json ms) p = (Ok (), p <| mappings ::= fun l => l ++ ms |>).
Proof.
  intros H. revert p. induction H as [|m ms Hm _ IH]; intros p Hg; cbn [map m_each].
  - unfold m_ret. destruct p. simpl. by rewrite app_nil_r.
  - inversion Hg as [|? ? Hg1 Hg2]; subst.
    erewrite m_bind_step; [|unfold m_bind, m_get, m_lift, m_modify; rewrite read_mapping_json by done; reflexivity].
    rewrite IH; [destruct p; simpl; by rewrite <-app_assoc|].
    eapply Forall_impl; [exact Hg2|]. intros m' Hm'. eapply Forall_impl; [exact Hm'|]. intros a. by apply gate_known_gates.
Qed.

Lemma read_mappings_json l ms p :
  NoDup (map fst l) -> assoc "mappings" l = Some (json_array (map mapping_json ms)) -> Forall mapping_typed ms ->
  Forall (fun m => Forall (gate_known p) (map_actions m)) ms ->
  read_mappings (json_object l) p = (Ok (), p <| mappings := ms |>).
Proof.
  intros Hn Ha Ht Hg. unfold read_mappings. rewrite (contains_object _ _ _ Hn Ha), (array_object _ _ _ Hn Ha).
  erewrite m_bind_step by reflexivity. erewrite m_bind_step by reflexivity. by rewrite mappings_loop.
Qed.

(** A validated profile defines the gates its outputs drive. *)
Lemma fold_steps {A C} (f : C -> A -> result C) l s s' :
  result_fold f l s = Ok s' -> Forall (fun x => exists a b, f a x = Ok b) l.
Proof.
  revert s. induction l as [|x l IH]; intros s H; simpl in H; [constructor|].
  apply result_bind_ok in H as (s1 & H1 & H). constructor; [by exists s, s1 | by apply (IH s1)].
Qed.

Lemma validate_gate_known p :
  profile_validate p = Ok () -> Forall (fun m => Forall (gate_known p) (map_actions m)) (mappings p).
Proof.
  intros H. unfold profile_validate in H. do 5 (apply result_bind_ok in H as (? & _ & H)).
  apply result_bind_ok in H as (? & _ & H). apply result_bind_ok in H as (? & H & _).
  apply fold_steps in H. eapply Forall_impl; [exact H|]. intros m (ks & ks' & Hm). unfold validate_mapping in Hm.
  do 3 (apply result_bind_ok in Hm as (? & _ & Hm)). apply result_bind_ok in Hm as (? & Hm & _).
  apply fold_steps in Hm. eapply Forall_impl; [exact Hm|]. intros a (s & s' & Ha). unfold validate_action in Ha.
  apply result_bind_ok in Ha as (? & _ & Ha). apply result_bind_ok in Ha as (? & Ha & _).
  unfold gate_known. destruct (ev_spec a); try done. apply result_bind_ok in Ha as (? & _ & Ha).
  apply result_bind_ok in Ha as (? & Ha & _). by rewrite Ha.
Qed.

(** The numbers of a profile. *)
Definition with_fields (p q : Profile) : Profile :=
  mkProfile (cpu_clock q) (tcu_clock q) (start p) (watchdog p) (memory_latency p) (command_latency p)
    (reply_latency p) (cpu_result_latency p) (fast_result_latency p) (timing_capacity p) (event_capacity p)
    (staging_capacity p) (p_result_capacity p) (ports p) (qubits p) (firing_width p) (seed p)
    (p_fast_feedback q) (mappings q) (two_qubit_gates q).

Lemma read_fields_json p q : profile_typed p -> read_fields (profile_json p) q = (Ok (), with_fields p q).
Proof.
  intros [_ _ [Hs Hw] H32 _ _]. unfold profile_json. set (l := ("schema", _) :: _).
  assert (Hn : NoDup (map fst l)) by literal_keys. rewrite !Forall_cons in H32.
  assert (R64 : forall k n get set q, assoc k l = Some (json_unsigned n) -> u64 n ->
    read_field max64 (json_object l) k get set q = (Ok (), set n q)).
  { intros k n get put q' Ha Hu. by apply (read_field_json l k n max64). }
  assert (R32 : forall k n get set q, assoc k l = Some (json_unsigned n) -> u32 n ->
    read_field max32 (json_object l) k get set q = (Ok (), set n q)).
  { intros k n get put q' Ha Hu. by apply (read_field_json l k n max32 _ _ _ Hn Ha Hu max32_64). }
  unfold read_fields.
  rewrite (m_bind_step _ _ _ _ _ (R64 "start" (start p) _ _ _ eq_refl Hs)).
  rewrite (m_bind_step _ _ _ _ _ (R64 "watchdog" (watchdog p) _ _ _ eq_refl Hw)).
  do 12 (erewrite m_bind_step by (eapply R32; [reflexivity | tauto])).
  erewrite R32 by (reflexivity || tauto). by destruct q.
Qed.

(** C30. Writing a profile and reading it back gives the same profile.  Whatever profile [q] the reader
    starts from, it accepts the JSON of any valid profile whose numbers are within their C++ types,
    and ends with exactly that profile; in particular every key that is written is read. *)
Theorem profile_round_trip (p q : Profile) :
  profile_typed p -> profile_validate p = Ok () -> apply_profile (profile_json p) q = (Ok (), p).
Proof.
  intros Ht Hv. pose proof Ht as [[Hc1 Hc2] [Ht1 Ht2] _ _ Hm Hg]. pose proof (validate_gate_known p Hv) as Hk.
  pose proof (read_fields_json p) as Hfields. unfold apply_profile, profile_json in *.
  set (l := ("schema", _) :: _) in *. assert (Hn : NoDup (map fst l)) by literal_keys.
  assert (Hone : u64 1) by (unfold u64, max64; lia).
  rewrite (keys_of_object l) by (done || literal_keys). erewrite m_bind_step by reflexivity.
  rewrite (contains_object l "schema" _ Hn eq_refl), (law_at l "schema" _ Hn eq_refl). cbn [result_bind].
  rewrite law_equals by done. erewrite m_bind_step by reflexivity. erewrite m_bind_step by reflexivity.
  rewrite (read_clock_json l "cpu" (cpu_clock p)) by done. do 2 (erewrite m_bind_step by reflexivity).
  rewrite (read_clock_json l "tcu" (tcu_clock p)) by done. do 2 (erewrite m_bind_step by reflexivity).
  erewrite m_bind_step by by apply Hfields. clear Hfields.
  rewrite (contains_object l "fast_feedback" _ Hn eq_refl), (law_at l "fast_feedback" _ Hn eq_refl). cbn [result_bind].
  rewrite law_bool. erewrite m_bind_step by reflexivity.
  rewrite (m_bind_step _ _ _ _ _ (read_gates_json l _ _ Hn eq_refl Hg)).
  erewrite m_bind_step; [|apply (read_mappings_json l _ _ Hn eq_refl Hm); eapply Forall_impl; [exact Hk|];
    intros m Hm'; eapply Forall_impl; [exact Hm'|]; intros a; by apply gate_known_gates].
  erewrite m_bind_step by reflexivity. unfold m_lift, with_fields. destruct p, q. simpl in *. by rewrite Hv.
Qed.
End RoundTrip.

(** ** An instance: JSON values *)
Inductive Json :=
| JNull
| JBool (b : bool)
| JInteger (n : Z)
| JUnsigned (n : Z)
| JDouble (d : double)
| JString (s : string)
| JArray (l : list Json)
| JObject (l : list (string * Json)).

Definition json_get {A} (f : Json -> option A) (j : Json) : result A :=
  match f j with Some a => Ok a | None => Fault InvalidProfile end.

#[global] Instance json_lib : JsonLib Json := {|
  is_object j := match j with JObject _ => true | _ => false end;
  is_array j := match j with JArray _ => true | _ => false end;
  is_string j := match j with JString _ => true | _ => false end;
  is_boolean j := match j with JBool _ => true | _ => false end;
  is_number_integer j := match j with JInteger _ | JUnsigned _ => true | _ => false end;
  is_number_unsigned j := match j with JUnsigned _ => true | _ => false end;
  get_i64 j := match j with JInteger n | JUnsigned n => n | _ => 0 end;
  get_u64 j := match j with JInteger n | JUnsigned n => wrap64 n | _ => 0 end;
  get_bool := json_get (fun j => match j with JBool b => Some b | _ => None end);
  get_string := json_get (fun j => match j with JString s => Some s | _ => None end);
  get_double := json_get (fun j => match j with JDouble d => Some d | _ => None end);
  equals_int j m := match j with JInteger n | JUnsigned n => n =? m | _ => false end;
  contains j k := match j with JObject l => match assoc k l with Some _ => true | None => false end | _ => false end;
  at_key j k := json_get (fun j => match j with JObject l => assoc k l | _ => None end) j;
  items j := match j with JObject l => l | _ => [] end;
  elements j := match j with JArray l => l | _ => [] end;
  json_unsigned := JUnsigned;
  json_bool := JBool;
  json_string := JString;
  json_double := JDouble;
  json_array := JArray;
  json_object := JObject |}.

#[global] Instance json_lawful : LawfulJson Json.
Proof.
  constructor; try done.
  - intros n Hn. by apply wrap64_small.
  - intros l k v _ Ha. cbn. unfold json_get. by rewrite Ha.
Qed.

#[global] Instance u32_dec n : Decision (u32 n).
Proof. unfold u32. apply _. Defined.
#[global] Instance u64_dec n : Decision (u64 n).
Proof. unfold u64. apply _. Defined.
#[global] Instance action_typed_dec a : Decision (action_typed a).
Proof. unfold action_typed. destruct (ev_spec a); apply _. Defined.
#[global] Instance mapping_typed_dec m : Decision (mapping_typed m).
Proof. unfold mapping_typed. apply _. Defined.
#[global] Instance gate_typed_dec g : Decision (gate_typed g).
Proof. unfold gate_typed. apply _. Defined.

Lemma default_profile_typed : profile_typed default_unchecked.
Proof. constructor; apply (bool_decide_unpack _); vm_compute; exact I. Qed.

(** Every profile the tool starts from is read back from what [profile_json] writes. *)
Lemma profile_round_trip_witness :
  exists j : Json, profile_json default_unchecked = j /\ is_ok (profile_validate default_unchecked) = true /\
    apply_profile j (default_unchecked <| mappings := [] |> <| seed := 7 |>) = (Ok (), default_unchecked).
Proof.
  eexists. split; [reflexivity|]. split; [vm_compute; reflexivity|].
  apply profile_round_trip; [apply default_profile_typed | vm_compute; reflexivity].
Defined.
