(* ===== verification/Runtime.v ===== *)
(** * The installation (src/runtime.cpp, include/qsbit/runtime.hpp)

    Where the simulator finds its web files and, when it is built with Python, the interpreter to use.
    The constants of the build, the environment, the file system and the path operations of
    [std::filesystem] are parameters. *)

From Stdlib Require Import Ascii.
From S2P Require Import Prelude Error Time Profile TraceJson ProfileJson Arguments.
#[local] Arguments String.append : simpl nomatch.
#[local] Open Scope string_scope.
#[local] Open Scope list_scope.
#[local] Open Scope Z_scope.

Definition PythonBackendApiVersion : Z := 4.

Record RuntimeLayout := mkLayout {
  installed : bool; python_enabled : bool; web_root : string; python : string; python_backend : string;
  rt_version : string; rt_revision : string }.
#[global] Instance eta_RuntimeLayout : Eta RuntimeLayout := fun l =>
  mkLayout (installed l) (python_enabled l) (web_root l) (python l) (python_backend l) (rt_version l) (rt_revision l).

(** What the build defines: QSBIT_RUNTIME_VERSION and its siblings. *)
Record Build := mkBuild {
  runtime_version : string; runtime_revision : string; build_web : string; runtime_python : bool;
  build_python : string; python_command : string }.

(** [paths.find(':')]: what is before the colon, and what is after it. *)
Fixpoint cut_colon (s : string) : string * option string :=
  match s with
  | EmptyString => ("", None)
  | String c s =>
      if code_of c =? 58 then ("", Some s)
      else let '(directory, rest) := cut_colon s in (String c directory, rest)
  end.

Section Runtime.
Context {J : Type} `{HJ : JsonLib J}.
Context (build : Build) (executable : outcome string).
Context (getenv : string -> option string) (is_regular_file : string -> bool).
Context (read_file : string -> option string) (parse_json : string -> outcome J).
Context (absolute filename parent_path : string -> string) (join : string -> string -> string).

(** An exception of the JSON library. *)
Definition library {A} (r : result A) : outcome A :=
  match r with Ok a => Done a | Fault _ => StdException end.

Definition text_at (v : J) (key : string) : outcome string :=
  library (let? x := at_key v key in get_string x).

Definition candidate (directory : string) : string :=
  join (if String.eqb directory "" then "." else directory) (python_command build).

(** The loop over PATH: [fuel] bounds the entries still to visit. *)
Fixpoint search_path (fuel : nat) (paths : string) : string :=
  match fuel with
  | O => ""
  | S fuel =>
      let '(directory, rest) := cut_colon paths in
      if is_regular_file (candidate directory) then absolute (candidate directory)
      else match rest with None => "" | Some rest => search_path fuel rest end
  end.

(** An environment variable that is set and not empty. *)
Definition environment (name : string) : option string :=
  match getenv name with
  | Some v => if String.eqb v "" then None else Some v
  | None => None
  end.

Definition find_python (installed : bool) : string :=
  match environment "QSBIT_PYTHON" with
  | Some selected => absolute selected
  | None =>
      match environment "VIRTUAL_ENV" with
      | Some venv => absolute (join venv "bin/python")
      | None =>
          if negb installed then build_python build else
          match getenv "PATH" with
          | Some paths => search_path (S (String.length paths)) paths
          | None => ""
          end
      end
  end.

Definition installed_layout (executable : string) : outcome RuntimeLayout :=
  let root := parent_path executable in
  match read_file (join root "runtime.json") with
  | None => StdException
  | Some text =>
      let~ metadata := parse_json text in
      let~ schema := library (at_key metadata "schema") in
      if negb (equals_int schema 1) then StdException else
      let~ version := text_at metadata "version" in
      let~ revision := text_at metadata "revision" in
      let~ enabled := library (let? x := at_key metadata "python_enabled" in get_bool x) in
      Done (mkLayout true enabled (join root "web") "" "" version revision)
  end.

Definition built_layout : RuntimeLayout :=
  mkLayout false (runtime_python build) (build_web build) "" "" (runtime_version build) (runtime_revision build).

Definition runtime_layout : outcome RuntimeLayout :=
  let~ executable := executable in
  let~ layout :=
    (if String.eqb (filename executable) "qsbit-sim-native" then installed_layout executable else Done built_layout) in
  if negb (python_enabled layout) then Done layout else
  let layout := layout <| python := find_python (installed layout) |> in
  if is_regular_file (python layout) then Done layout else StdException.

(** [json_null] is [nlohmann::json(nullptr)]. *)
Definition installation_json (json_null : J) (layout : RuntimeLayout) : J :=
  let enabled v := if python_enabled layout then v else json_null in
  json_object
    [("schema", json_unsigned 1); ("version", json_string (rt_version layout)); ("revision", json_string (rt_revision layout));
     ("installed", json_bool (installed layout)); ("player_api", json_unsigned 1);
     ("web_root", json_string (web_root layout)); ("python_enabled", json_bool (python_enabled layout));
     ("python", enabled (json_string (python layout))); ("backend", enabled (json_string (python_backend layout)));
     ("backend_api", enabled (json_unsigned PythonBackendApiVersion))].

(** ** The search order *)

(** The entries of a search path: the texts between its colons. *)
Fixpoint path_entries (s : string) : list string :=
  match s with
  | EmptyString => [""]
  | String c s =>
      if code_of c =? 58 then "" :: path_entries s
      else match path_entries s with
           | directory :: rest => String c directory :: rest
           | [] => []
           end
  end.

Lemma cut_entries s :
  path_entries s = fst (cut_colon s) :: match snd (cut_colon s) with Some rest => path_entries rest | None => [] end /\
  match snd (cut_colon s) with Some rest => (String.length rest < String.length s)%nat | None => True end.
Proof using Type.
  induction s as [|c s [IH1 IH2]]; [done|]. simpl. destruct (code_of c =? 58); simpl; [split; [done | lia]|].
  destruct (cut_colon s) as [directory [rest|]]; simpl in *; rewrite IH1; (split; [done|]); simpl; lia || done.
Qed.

Lemma entries_joined s : String.concat ":" (path_entries s) = s.
Proof using Type.
  induction s as [|c s IH]; [done|]. simpl. destruct (Z.eqb_spec (code_of c) 58) as [E|E].
  - assert (c = ":"%char) as ->.
    { rewrite <-(ascii_N_embedding c). unfold code_of in E. replace (N_of_ascii c) with 58%N by lia. done. }
    destruct (path_entries s) as [|d rest] eqn:Ep; [|change (String ":" (String.concat ":" (d :: rest)) = String ":" s); by rewrite IH].
    destruct (cut_entries s) as [Hc _]. by rewrite Ep in Hc.
  - destruct (path_entries s) as [|d rest] eqn:Ep; [destruct (cut_entries s) as [Hc _]; by rewrite Ep in Hc|].
    transitivity (String c (String.concat ":" (d :: rest))); [by destruct rest | by rewrite IH].
Qed.

Lemma find_first {A} (f : A -> bool) l x :
  List.find f l = Some x -> exists before after, l = before ++ x :: after /\ Forall (fun y => f y = false) before /\ f x = true.
Proof using Type.
  induction l as [|y l IH]; simpl; [done|]. destruct (f y) eqn:E; [intros [= ->]; by exists [], l|].
  intros (before & after & -> & H & Hx)%IH. exists (y :: before), after. split_and!; [done | by constructor | done].
Qed.

(** The loop takes the first entry with a regular file. *)
Lemma search_path_first fuel paths :
  (String.length paths < fuel)%nat ->
  search_path fuel paths =
  match List.find (fun d => is_regular_file (candidate d)) (path_entries paths) with
  | Some d => absolute (candidate d)
  | None => ""
  end.
Proof using Type.
  revert paths. induction fuel as [|fuel IH]; intros paths Hf; [lia|]. simpl.
  destruct (cut_entries paths) as [-> Hlen]. destruct (cut_colon paths) as [directory rest]. simpl in *.
  destruct (is_regular_file (candidate directory)); [done|]. destruct rest as [rest|]; [|done]. apply IH. lia.
Qed.

Lemma layout_python e layout :
  (if String.eqb (filename e) "qsbit-sim-native" then installed_layout e else Done built_layout) = Done layout ->
  python layout = "".
Proof using Type.
  destruct (String.eqb _ _); [|by intros <-%Done_inj]. unfold installed_layout. destruct (read_file _); [|done].
  intros H. apply outcome_bind_done in H as (metadata & _ & H). apply outcome_bind_done in H as (schema & _ & H).
  destruct (negb _); [done|]. do 3 (apply outcome_bind_done in H as (? & _ & H)). by apply Done_inj in H as <-.
Qed.

(** The interpreter is chosen in the documented order.  A layout with Python names an interpreter that
    exists: the one QSBIT_PYTHON selects, else the one of the virtual environment, else the build's own
    or, for an installation, the first on PATH: every entry before it has none.  Empty variables count
    as unset, an empty entry of PATH as the working directory, and the search always ends.  A layout
    without Python names none. *)
Theorem python_search_order layout :
  is_regular_file "" = false -> runtime_layout = Done layout ->
  if python_enabled layout then
    is_regular_file (python layout) = true /\
    match environment "QSBIT_PYTHON", environment "VIRTUAL_ENV" with
    | Some selected, _ => python layout = absolute selected
    | None, Some venv => python layout = absolute (join venv "bin/python")
    | None, None =>
        if installed layout then
          exists paths before d after, getenv "PATH" = Some paths /\ path_entries paths = before ++ d :: after /\
            Forall (fun e => is_regular_file (candidate e) = false) before /\
            is_regular_file (candidate d) = true /\ python layout = absolute (candidate d)
        else python layout = build_python build
    end
  else python layout = "".
Proof using Type.
  intros Hempty H. unfold runtime_layout in H. apply outcome_bind_done in H as (e & _ & H).
  apply outcome_bind_done in H as (l & Hl & H). apply layout_python in Hl.
  destruct (python_enabled l) eqn:En; simpl in H; [|apply Done_inj in H as <-; by rewrite En].
  destruct (is_regular_file (find_python (installed l))) eqn:Er; [|done]. apply Done_inj in H as <-. cbn [python_enabled python installed update]. rewrite En.
  split; [done|]. unfold find_python in *. destruct (environment "QSBIT_PYTHON"); [done|].
  destruct (environment "VIRTUAL_ENV"); [done|]. destruct (installed l); cbn [negb] in *; [|done].
  destruct (getenv "PATH") as [paths|]; [|by rewrite Hempty in Er].
  rewrite search_path_first in Er by lia. rewrite search_path_first by lia. destruct (List.find _ _) as [d|] eqn:Ef; [|by rewrite Hempty in Er].
  apply find_first in Ef as (before & after & E1 & E2 & E3). by exists paths, before, d, after.
Qed.
End Runtime.

(** ** Example: an installation that finds its interpreter in the second entry *)
Definition example_build : Build := mkBuild "1.0" "unknown" "/src/web" true "/build/python" "python3.12".

Definition example_layout : outcome RuntimeLayout :=
  runtime_layout example_build (Done "/opt/lib/qsbit-sim-native")
    (fun name => if String.eqb name "PATH" then Some ":/usr/bin:/bin"
                 else if String.eqb name "QSBIT_PYTHON" then Some "" else None)
    (fun path => String.eqb path "/usr/bin/python3.12")
    (fun _ => Some "") (fun _ => Done (json_object (J := Json) [("schema", json_unsigned 1); ("version", json_string "1.0");
       ("revision", json_string "r"); ("python_enabled", json_bool true)]))
    (fun p => p) (fun _ => "qsbit-sim-native") (fun _ => "/opt/lib") (fun a b => a +:+ "/" +:+ b).

Lemma python_search_order_witness :
  exists layout, example_layout = Done layout /\ python layout = "/usr/bin/python3.12".
Proof.
  destruct example_layout as [layout| |] eqn:E; [|vm_compute in E; discriminate E..].
  exists layout. split; [done|].
  pose proof E as H. unfold example_layout in H. apply python_search_order in H; [|reflexivity].
  assert (Hp : (match example_layout with Done l => (python_enabled l, installed l) | _ => (false, false) end) = (true, true))
    by (vm_compute; reflexivity).
  rewrite E in Hp. injection Hp as Hp Hi. rewrite Hp, Hi in H. destruct H as [Hr _]. cbv beta in Hr.
  by apply String.eqb_eq in Hr.
Defined.
