(* ===== verification/PythonBackend.v ===== *)
(** * The Python adapters (src/python_backend.cpp, include/qsbit/python_backend.hpp)

    [PythonBackend] implements [IQuantumBackend] by calling an object of an embedded Python
    interpreter.  The interpreter and pybind11 are the class [Python]: an operation works on the
    interpreter's state and gives a value or one of the exceptions of pybind11.  The values that cross
    the border are [Py]: a dictionary keeps the order in which its keys were first assigned.

    The file shows that what [execute] hands to Python are the records of the backend API
    (src/python/qsbit_backend/protocol.py), from which a backend reads back every operation. *)

From Stdlib Require Import Floats.SpecFloat.
From S2P Require Import Prelude Error Time Event Backend Decoder Runtime.

Inductive Py :=
| PyBool (b : bool)
| PyInt (n : Z)
| PyFloat (d : double)
| PyStr (s : string)
| PyList (l : list Py)
| PyDict (l : list (string * Py))
| PyObject (handle : Z).

(** What a piece of C++ ends with: a value, [py::error_already_set], [py::cast_error] or a fault. *)
Inductive reply (A : Type) : Type :=
| Value (a : A)
| PythonError
| CastError
| CppFault (code : ErrorCode).
Arguments Value {A} _.
Arguments PythonError {A}.
Arguments CastError {A}.
Arguments CppFault {A} _.

Definition Run (P A : Type) : Type := P -> reply A * P.
Definition run_ret {P A} (a : A) : Run P A := fun p => (Value a, p).
Definition run_throw {P A} (x : reply A) : Run P A := fun p => (x, p).
Definition run_bind {P A B} (m : Run P A) (k : A -> Run P B) : Run P B := fun p =>
  match m p with
  | (Value a, p') => k a p'
  | (PythonError, p') => (PythonError, p')
  | (CastError, p') => (CastError, p')
  | (CppFault code, p') => (CppFault code, p')
  end.
Notation "'let^' x ':=' c 'in' k" := (run_bind c (fun x => k))
  (at level 10, x name, c at level 99, k at level 200) : qsbit_scope.

(** [catch (const py::error_already_set &)]: only Python's own exceptions become a fault. *)
Definition catch_python {P A} (code : ErrorCode) (m : Run P A) : Run P A := fun p =>
  match m p with
  | (PythonError, p') => (CppFault code, p')
  | other => other
  end.

Definition run_require {P} (b : bool) (code : ErrorCode) : Run P unit :=
  if b then run_ret () else run_throw (CppFault code).

(** The parts of CPython and pybind11 the adapters call. *)
Class Python (P : Type) := {
  import_module : string -> Run P Py;
  attr : Py -> string -> Run P Py;
  hasattr : Py -> string -> Run P bool;
  PyCallable_Check : Py -> bool;
  item : Py -> Py -> Run P Py;
  call : Py -> list Py -> Run P Py;
  iterate : Py -> Run P (list Py);
  cast_unsigned : Z -> Py -> option Z;
  cast_string : Py -> option string;
  cast_bools : Py -> option (list bool);
  cast_amplitudes : Py -> option (list (double * double));
  cast_matrix : Py -> option (list (list (double * double))) }.

(** ** What Python is given *)

(** [out[key] = value]. *)
Fixpoint dict_set (key : string) (v : Py) (l : list (string * Py)) : list (string * Py) :=
  match l with
  | [] => [(key, v)]
  | (k, w) :: l => if String.eqb k key then (k, v) :: l else (k, w) :: dict_set key v l
  end.

Definition descriptor_kind (k : ActionKind) : string :=
  match k with
  | Pulse => "pulse"
  | Acquire => "acquire"
  | DiscriminatorArm => "arm"
  | IdealGate | GateOutput => "gate"
  end.

(** The members [std::visit] finds: [amplitude] of gates and pulses, [axis] of pulses. *)
Definition descriptor (a : EventSpec) : list (string * Py) :=
  let out := dict_set "kind" (PyStr (descriptor_kind (kind a))) [] in
  let out := dict_set "operation" (PyStr (operation a)) out in
  let out := dict_set "targets" (PyList (map PyInt (targets a))) out in
  let out := match amplitude a with Some d => dict_set "amplitude" (PyFloat d) out | None => out end in
  match ev_spec a with
  | SpecPulse p => dict_set "port" (PyInt (ev_port a)) (dict_set "axis" (PyStr (pulse_axis p)) out)
  | _ => out
  end.

Definition descriptors (actions : list EventSpec) : Py := PyList (map (fun a => PyDict (descriptor a)) actions).

Definition activity (x : BackendActivity) : Py :=
  let out := descriptor (ba_action x) in
  let out := dict_set "id" (PyInt (ba_id x)) out in
  let out := dict_set "start" (PyInt (ba_start x)) out in
  let out := dict_set "end" (PyInt (ba_end x)) out in
  let out := dict_set "port" (PyInt (ev_port (ba_action x))) out in
  PyDict (match ba_reference x with
          | Some r => dict_set "measurement" (PyInt (ref_measurement r)) out
          | None => out
          end).

Definition activity_entries (active : list BackendActivity) : Py := PyList (map activity active).

Definition reference_entry (r : MeasurementReference) : Py :=
  PyDict (dict_set "target" (PyInt (ref_target r))
    (dict_set "measurement" (PyInt (ref_measurement r)) (dict_set "epoch" (PyInt (ref_epoch r)) []))).

(** The body of the loop of [execute]. *)
Definition operation_entry (o : BackendOperation) : Py :=
  let entry := dict_set "tick" (PyInt (operation_tick o)) [] in
  PyDict
    (match o with
     | BackendEvolution start _ drives acquisitions =>
         dict_set "acquisitions" (activity_entries acquisitions)
           (dict_set "drives" (activity_entries drives)
             (dict_set "start" (PyInt start) (dict_set "kind" (PyStr "evolve") entry)))
     | BackendGates _ gates => dict_set "gates" (descriptors gates) (dict_set "kind" (PyStr "apply") entry)
     | BackendMeasurement _ references =>
         dict_set "references" (PyList (map reference_entry references)) (dict_set "kind" (PyStr "measure") entry)
     end).

Definition batch_entries (operations : list BackendOperation) : Py := PyList (map operation_entry operations).

(** ** The adapters *)
Record PythonBackend := mkPythonBackend { pb_backend : Py; pb_options : string }.

Section Adapters.
Context {P : Type} `{HP : Python P}.

Definition cast {A} (f : Py -> option A) (v : Py) : Run P A :=
  match f v with Some a => run_ret a | None => run_throw CastError end.

(** [object.attr(name)(arguments)]: the attribute is looked up when it is called. *)
Definition method (object : Py) (name : string) (arguments : list Py) : Run P Py :=
  let^ f := attr object name in call f arguments.

(** [PythonSession]: [python] is the interpreter of the layout, [start] configures and starts it. *)
Definition session_open (start : string -> Run P bool) (python directory : string) : Run P unit :=
  let^ started := start python in
  let^ _ := run_require started BackendFailure in
  let^ _ :=
    (if String.eqb directory "" then run_ret (PyBool true)
     else let^ sys := import_module "sys" in
          let^ path := attr sys "path" in
          method path "insert" [PyInt 0; PyStr directory]) in
  catch_python BackendFailure
    (let^ _ := import_module "qsbit_backend" in
     let^ protocol := import_module "qsbit_backend.protocol" in
     let^ version := attr protocol "API_VERSION" in
     let^ n := cast (cast_unsigned 32) version in
     run_require (n =? PythonBackendApiVersion) BackendFailure).

Definition backend_directory (parent_path : string -> string) : Run P string :=
  let^ package := import_module "qsbit_backend" in
  let^ file := attr package "__file__" in
  let^ path := cast cast_string file in
  run_ret (parent_path path).

Fixpoint check_methods (backend : Py) (names : list string) : Run P unit :=
  match names with
  | [] => run_ret ()
  | name :: names =>
      let^ present := hasattr backend name in
      let^ ok :=
        (if present : bool then let^ f := attr backend name in run_ret (PyCallable_Check f) else run_ret false) in
      let^ _ := run_require ok BackendFailure in
      check_methods backend names
  end.

Definition python_backend_new (name options : string) : Run P PythonBackend :=
  catch_python BackendFailure
    (let^ json := import_module "json" in
     let^ registry := import_module "qsbit_backend.registry" in
     let^ parsed := method json "loads" [PyStr options] in
     let^ created := method registry "create" [PyStr name; parsed] in
     let^ backend := item created (PyInt 0) in
     let^ validated := item created (PyInt 1) in
     let^ text := method json "dumps" [validated] in
     let^ options := cast cast_string text in
     let^ _ := check_methods backend ["validate"; "reset"; "execute"]%string in
     run_ret (mkPythonBackend backend options)).

Definition inspect_backend (name command : string) : Run P string :=
  catch_python BackendFailure
    (let^ registry := import_module "qsbit_backend.registry" in
     let^ answer := method registry "inspect_backend" [PyStr name; PyStr command] in
     cast cast_string answer).

Definition run_simulation (config executable : string) (check_only : bool) : Run P unit :=
  catch_python BackendFailure
    (let^ simulation := import_module "qsbit_backend.simulation" in
     let^ _ := method simulation "run_config" [PyStr config; PyStr executable; PyBool check_only] in
     run_ret ()).

Definition python_validate (b : PythonBackend) (action : EventSpec) : Run P unit :=
  catch_python UnsupportedCapability
    (let^ _ := method (pb_backend b) "validate" [PyDict (descriptor action)] in run_ret ()).

Definition python_reset (b : PythonBackend) (qubits seed : Z) : Run P unit :=
  catch_python BackendFailure
    (let^ _ := method (pb_backend b) "reset" [PyInt qubits; PyInt seed] in run_ret ()).

Definition python_execute (b : PythonBackend) (epoch : Epoch) (operations : list BackendOperation)
    : Run P (list bool) :=
  catch_python BackendFailure
    (let^ results := method (pb_backend b) "execute" [PyInt epoch; batch_entries operations] in
     cast cast_bools results).

Definition python_state (b : PythonBackend) : Run P (list (double * double)) :=
  catch_python BackendFailure
    (let^ present := hasattr (pb_backend b) "state" in
     if present : bool
     then let^ v := method (pb_backend b) "state" [] in cast cast_amplitudes v
     else run_ret []).

Definition python_density_matrix (b : PythonBackend) : Run P (list (list (double * double))) :=
  catch_python BackendFailure
    (let^ present := hasattr (pb_backend b) "density_matrix" in
     if present : bool
     then let^ v := method (pb_backend b) "density_matrix" [] in cast cast_matrix v
     else run_ret []).

(** [settings[key].cast<T>()] of a [bits]-wide unsigned integer. *)
Definition unsigned_at (bits : Z) (settings : Py) (key : string) : Run P Z :=
  let^ v := item settings (PyStr key) in cast (cast_unsigned bits) v.

(** Decoders are called with the bits of one window at a time and keep no state (docs/decoding.md):
    [decide callback bits] is what the call answers. *)
Definition python_decoder (decide : Py -> list Z -> result (list bool)) (module d : Py) : Run P DecoderConfig :=
  let^ callback := method module "create" [d] in
  let^ id := unsigned_at 32 d "id" in
  let^ measurements := unsigned_at 32 d "measurements" in
  let^ outputs := unsigned_at 32 d "outputs" in
  let^ latency := unsigned_at 64 d "latency" in
  let^ interval := unsigned_at 64 d "initiation_interval" in
  run_ret (mkDecoderConfig id measurements outputs latency interval (Some (decide callback))).

Fixpoint python_each {A} (f : Py -> Run P A) (l : list Py) : Run P (list A) :=
  match l with
  | [] => run_ret []
  | v :: l => let^ a := f v in let^ rest := python_each f l in run_ret (a :: rest)
  end.

Definition python_decoders (decide : Py -> list Z -> result (list bool)) (config : string)
    : Run P DecoderSystemConfig :=
  let^ module := import_module "qsbit_backend.decoding" in
  let^ json := import_module "json" in
  let^ parsed := method json "loads" [PyStr config] in
  let^ settings := method module "validate" [parsed] in
  let^ base := unsigned_at 32 settings "mmio_base" in
  let^ requests := unsigned_at 32 settings "request_capacity" in
  let^ results := unsigned_at 32 settings "result_capacity" in
  let^ latency := unsigned_at 64 settings "link_latency" in
  let^ bandwidth := unsigned_at 32 settings "bytes_per_tick" in
  let^ overhead := unsigned_at 32 settings "packet_overhead" in
  let^ list := item settings (PyStr "decoders") in
  let^ entries := iterate list in
  let^ decoders := python_each (python_decoder decide module) entries in
  run_ret (mkDecoderSystemConfig base requests results latency bandwidth overhead decoders).

(** ** A backend of the simulator

    Its state is the adapter and the interpreter.  [validate] is [const] and changes no state of the
    backend (docs/backends.md).  A [py::cast_error] is no fault; [BackendExecution::execute], which
    calls [execute], reports every exception as [BackendFailure]. *)
Definition as_result {A} (x : reply A) : result A :=
  match x with
  | Value a => Ok a
  | CppFault code => Fault code
  | PythonError | CastError => Fault BackendFailure
  end.

#[global] Instance python_quantum_backend : QuantumBackend (PythonBackend * P) := {|
  backend_validate b action := as_result (fst (python_validate (fst b) action (snd b)));
  backend_reset qubits seed b :=
    let '(r, p) := python_reset (fst b) qubits seed (snd b) in (as_result r, (fst b, p));
  backend_execute epoch operations b :=
    let '(r, p) := python_execute (fst b) epoch operations (snd b) in (as_result r, (fst b, p)) |}.
End Adapters.

(** ** The records of the backend API (src/python/qsbit_backend/protocol.py) *)
Record ApiGate := mkApiGate { ag_operation : string; ag_targets : list Z; ag_amplitude : double }.
Record ApiDrive := mkApiDrive {
  ad_operation : string; ad_targets : list Z; ad_port : Z; ad_amplitude : double; ad_axis : string;
  ad_id : Id; ad_start : Tick; ad_end : Tick }.
Record ApiAcquisition := mkApiAcquisition {
  aq_operation : string; aq_targets : list Z; aq_port : Z; aq_id : Id; aq_start : Tick; aq_end : Tick;
  aq_measurement : Id }.

Inductive ApiOperation :=
| ApiEvolution (start tick : Tick) (drives : list ApiDrive) (acquisitions : list ApiAcquisition)
| ApiApplication (tick : Tick) (gates : list ApiGate)
| ApiMeasurement (tick : Tick) (references : list MeasurementReference).

(** Reading a record back: all of its keys are there, and no others. *)
Definition keys_are (keys : list string) (l : list (string * Py)) : bool :=
  (length l =? length keys)%nat && forallb (fun k => existsb (fun p => String.eqb (fst p) k) l) keys.

Fixpoint dict_get (key : string) (l : list (string * Py)) : option Py :=
  match l with
  | [] => None
  | (k, v) :: l => if String.eqb k key then Some v else dict_get key l
  end.

Definition int_at (key : string) (l : list (string * Py)) : option Z :=
  match dict_get key l with Some (PyInt n) => Some n | _ => None end.
Definition str_at (key : string) (l : list (string * Py)) : option string :=
  match dict_get key l with Some (PyStr s) => Some s | _ => None end.
Definition float_at (key : string) (l : list (string * Py)) : option double :=
  match dict_get key l with Some (PyFloat d) => Some d | _ => None end.
Definition list_at {A} (read : Py -> option A) (key : string) (l : list (string * Py)) : option (list A) :=
  match dict_get key l with Some (PyList vs) => mapM read vs | _ => None end.
Definition read_int (v : Py) : option Z := match v with PyInt n => Some n | _ => None end.

Definition read_dict {A} (kind : string) (keys : list string) (read : list (string * Py) -> option A) (v : Py)
    : option A :=
  match v with
  | PyDict l =>
      if keys_are ("kind"%string :: keys) l && bool_decide (str_at "kind" l = Some kind) then read l else None
  | _ => None
  end.

Definition read_api_gate : Py -> option ApiGate :=
  read_dict "gate" ["operation"; "targets"; "amplitude"]%string (fun l =>
    operation ← str_at "operation" l; targets ← list_at read_int "targets" l;
    amplitude ← float_at "amplitude" l; Some (mkApiGate operation targets amplitude)).

Definition read_drive : Py -> option ApiDrive :=
  read_dict "pulse" ["operation"; "targets"; "port"; "amplitude"; "axis"; "id"; "start"; "end"]%string (fun l =>
    operation ← str_at "operation" l; targets ← list_at read_int "targets" l; port ← int_at "port" l;
    amplitude ← float_at "amplitude" l; axis ← str_at "axis" l; id ← int_at "id" l;
    start ← int_at "start" l; stop ← int_at "end" l;
    Some (mkApiDrive operation targets port amplitude axis id start stop)).

Definition read_acquisition : Py -> option ApiAcquisition :=
  read_dict "acquire" ["operation"; "targets"; "port"; "id"; "start"; "end"; "measurement"]%string (fun l =>
    operation ← str_at "operation" l; targets ← list_at read_int "targets" l; port ← int_at "port" l;
    id ← int_at "id" l; start ← int_at "start" l; stop ← int_at "end" l; measurement ← int_at "measurement" l;
    Some (mkApiAcquisition operation targets port id start stop measurement)).

(** A reference has no kind. *)
Definition read_reference (v : Py) : option MeasurementReference :=
  match v with
  | PyDict l =>
      if keys_are ["epoch"; "measurement"; "target"]%string l then
        epoch ← int_at "epoch" l; measurement ← int_at "measurement" l; target ← int_at "target" l;
        Some (mkReference epoch measurement target)
      else None
  | _ => None
  end.

Definition read_evolution : Py -> option ApiOperation :=
  read_dict "evolve" ["start"; "tick"; "drives"; "acquisitions"]%string (fun l =>
    start ← int_at "start" l; tick ← int_at "tick" l; drives ← list_at read_drive "drives" l;
    acquisitions ← list_at read_acquisition "acquisitions" l; Some (ApiEvolution start tick drives acquisitions)).
Definition read_application : Py -> option ApiOperation :=
  read_dict "apply" ["tick"; "gates"]%string (fun l =>
    tick ← int_at "tick" l; gates ← list_at read_api_gate "gates" l; Some (ApiApplication tick gates)).
Definition read_measurement : Py -> option ApiOperation :=
  read_dict "measure" ["tick"; "references"]%string (fun l =>
    tick ← int_at "tick" l; references ← list_at read_reference "references" l; Some (ApiMeasurement tick references)).

Definition read_operation (v : Py) : option ApiOperation :=
  match read_evolution v with
  | Some o => Some o
  | None => match read_application v with Some o => Some o | None => read_measurement v end
  end.

Definition read_batch (v : Py) : option (list ApiOperation) :=
  match v with PyList l => mapM read_operation l | _ => None end.

(** *** What the simulator means by an operation *)
Definition api_gate (a : EventSpec) : option ApiGate :=
  match ev_spec a with
  | SpecGate g => Some (mkApiGate (gate_operation g) (op_targets (gate_operands g)) (gate_amplitude g))
  | _ => None
  end.

Definition api_drive (x : BackendActivity) : option ApiDrive :=
  match ev_spec (ba_action x), ba_reference x with
  | SpecPulse p, None =>
      Some (mkApiDrive (pulse_operation p) (op_targets (pulse_operands p)) (ev_port (ba_action x))
              (pulse_amplitude p) (pulse_axis p) (ba_id x) (ba_start x) (ba_end x))
  | _, _ => None
  end.

Definition api_acquisition (x : BackendActivity) : option ApiAcquisition :=
  match ev_spec (ba_action x), ba_reference x with
  | SpecAcquire q, Some r =>
      Some (mkApiAcquisition (acquire_operation q) (op_targets (acquire_operands q)) (ev_port (ba_action x))
              (ba_id x) (ba_start x) (ba_end x) (ref_measurement r))
  | _, _ => None
  end.

(** [None] when an operation holds an action that has no place in it. *)
Definition api_operation (o : BackendOperation) : option ApiOperation :=
  match o with
  | BackendEvolution start tick drives acquisitions =>
      drives ← mapM api_drive drives; acquisitions ← mapM api_acquisition acquisitions;
      Some (ApiEvolution start tick drives acquisitions)
  | BackendGates tick gates => gates ← mapM api_gate gates; Some (ApiApplication tick gates)
  | BackendMeasurement tick references => Some (ApiMeasurement tick references)
  end.

(** *** Reading back *)
Lemma read_ints l : mapM read_int (map PyInt l) = Some l.
Proof. induction l as [|n l IH]; [done|]. simpl. by rewrite IH. Qed.

Lemma read_map {X A} (f : X -> option A) (write : X -> Py) (read : Py -> option A) :
  (forall x a, f x = Some a -> read (write x) = Some a) ->
  forall l r, mapM f l = Some r -> mapM read (map write l) = Some r.
Proof.
  intros Hf l. induction l as [|x l IH]; intros r H; [exact H|]. simpl in *.
  destruct (f x) as [a|] eqn:E; [|done]. rewrite (Hf _ _ E). simpl in *.
  destruct (mapM f l) as [s|]; [|done]. by rewrite (IH s eq_refl).
Qed.

Lemma read_api_gate_descriptor a g : api_gate a = Some g -> read_api_gate (PyDict (descriptor a)) = Some g.
Proof.
  unfold api_gate, descriptor. destruct a as [port delay duration [g0| | | |]]; simpl; try done.
  intros [= <-]. unfold list_at. simpl. by rewrite read_ints.
Qed.

Lemma read_drive_activity x d : api_drive x = Some d -> read_drive (activity x) = Some d.
Proof.
  unfold api_drive, activity, descriptor. destruct x as [id start stop [port delay duration [|p| | |]] [r|]]; simpl; try done.
  intros [= <-]. unfold list_at. simpl. by rewrite read_ints.
Qed.

Lemma read_acquisition_activity x q : api_acquisition x = Some q -> read_acquisition (activity x) = Some q.
Proof.
  unfold api_acquisition, activity, descriptor. destruct x as [id start stop [port delay duration [| |q0| |]] [r|]]; simpl; try done.
  intros [= <-]. unfold list_at. simpl. by rewrite read_ints.
Qed.

Lemma read_reference_entry r : read_reference (reference_entry r) = Some r.
Proof. by destruct r. Qed.

Lemma read_operation_entry o x : api_operation o = Some x -> read_operation (operation_entry o) = Some x.
Proof.
  destruct o as [start tick drives acquisitions | tick gates | tick references]; simpl; intros H.
  - destruct (mapM api_drive drives) as [ds|] eqn:E1; [|done].
    destruct (mapM api_acquisition acquisitions) as [qs|] eqn:E2; [|done]. simpl in H. injection H as <-.
    unfold read_operation, read_evolution, read_dict, list_at. simpl.
    rewrite (read_map _ _ _ read_drive_activity _ _ E1). simpl.
    by rewrite (read_map _ _ _ read_acquisition_activity _ _ E2).
  - destruct (mapM api_gate gates) as [gs|] eqn:E1; [|done]. simpl in H. injection H as <-.
    unfold read_operation, read_evolution, read_application, read_dict, list_at. simpl.
    by rewrite (read_map _ (fun a => PyDict (descriptor a)) _ read_api_gate_descriptor _ _ E1).
  - injection H as <-. unfold read_operation, read_evolution, read_application, read_measurement, read_dict, list_at. simpl.
    assert (Hs : mapM Some references = Some references) by (induction references as [|r l IH]; [done | by simpl; rewrite IH]).
    rewrite (read_map Some reference_entry read_reference) with (r := references); [done | | exact Hs].
    intros r a [= <-]. apply read_reference_entry.
Qed.

(** C27. What Python is given.  Every batch [execute] hands to a backend is a list of the records the
    backend API defines, with all of their keys and no others, from which the backend reads back
    exactly the simulator's operations: times, operations, targets, ports, amplitudes, axes, the
    complete intervals of activities and the references of measurements. *)
Theorem batch_read_back (operations : list BackendOperation) (records : list ApiOperation) :
  mapM api_operation operations = Some records -> read_batch (batch_entries operations) = Some records.
Proof. apply read_map, read_operation_entry. Qed.

(** ** Example: a drive and an acquisition, then the measurement *)
Definition python_drive : BackendActivity :=
  mkActivity 3 100 120
    (mkEvent 1 0 20 (SpecPulse (mkPulse "x" (mkOperands [1] []) (S754_zero false) "y" Always))) None.
Definition python_acquisition : BackendActivity :=
  mkActivity 4 100 140 (mkEvent 2 0 40 (SpecAcquire (mkAcquire "measure" (mkOperands [0] []) 20 false)))
    (Some (mkReference 1 9 0)).
Definition python_operations : list BackendOperation :=
  [BackendGates 100 [mkEvent 0 0 20 (SpecGate (mkGate "h" (mkOperands [1] []) (S754_zero false) Always))];
   BackendEvolution 100 120 [python_drive] [python_acquisition];
   BackendEvolution 120 140 [] [python_acquisition];
   BackendMeasurement 140 [mkReference 1 9 0]].

Lemma batch_read_back_witness :
  exists records, mapM api_operation python_operations = Some records /\ length records = 4%nat /\
    nth_error records 1 =
      Some (ApiEvolution 100 120 [mkApiDrive "x" [1] 1 (S754_zero false) "y" 3 100 120]
        [mkApiAcquisition "measure" [0] 2 4 100 140 9]) /\
    read_batch (batch_entries python_operations) = Some records.
Proof.
  destruct (mapM api_operation python_operations) as [records|] eqn:E; [|vm_compute in E; discriminate].
  exists records. split; [reflexivity|]. pose proof E as V. vm_compute in V. injection V as V.
  split; [by rewrite <-V|]. split; [by rewrite <-V|]. exact (batch_read_back python_operations records E).
Defined.
