(* ===== verification/BackendContract.v ===== *)
(** * What a backend may rely on (docs/backends.md, src/python/qsbit_backend/protocol.py)

    The backend protocol promises a backend batches of operations in order of time, evolution
    intervals that follow each other and lie inside the activities they carry, and at most one
    measurement, of distinct targets, at the end.  [validate_batch] is the check of protocol.py.  The
    file shows that whatever a device accepts of the launches a profile's operations make (targets inside
    the register, no negative durations), every batch it hands to its backend passes: the backend is [Logged], which notes the batches it is given and is otherwise any backend. *)

From Stdlib Require Import Floats.SpecFloat.
From S2P Require Import Prelude Error Time Event Trace Protocol Backend Resources Gates Readouts Electronics PythonBackend.

(** ** [validate_batch] *)
Definition api_tick (o : ApiOperation) : Tick :=
  match o with ApiEvolution _ t _ _ | ApiApplication t _ | ApiMeasurement t _ => t end.
Definition is_measurement (o : ApiOperation) : bool :=
  match o with ApiMeasurement _ _ => true | _ => false end.

(** [activity["start"] <= start < tick <= activity["end"]]. *)
Definition lies_inside (start tick first last : Tick) : bool :=
  (first <=? start) && (start <? tick) && (tick <=? last).

Definition valid_entry (epoch : Epoch) (qubits : Z) (o : ApiOperation) : bool :=
  match o with
  | ApiEvolution start tick drives acquisitions =>
      (start <=? tick) &&
      forallb (fun d => lies_inside start tick (ad_start d) (ad_end d)) drives &&
      forallb (fun q => lies_inside start tick (aq_start q) (aq_end q)) acquisitions
  | ApiApplication _ _ => true
  | ApiMeasurement _ references =>
      bool_decide (NoDup (map ref_target references)) &&
      forallb (fun r => (0 <=? ref_target r) && (ref_target r <? qubits)) references &&
      forallb (fun r => ref_epoch r =? epoch) references
  end.

(** The checks against the previous operation. *)
Definition follows (previous : option Tick) (o : ApiOperation) : bool :=
  match previous with
  | None => true
  | Some p => (p <=? api_tick o) && match o with ApiEvolution start _ _ _ => start =? p | _ => true end
  end.

(** The loop of [validate_batch]; the adapters' [validate] has been asked about every action before. *)
Fixpoint validate_from (epoch : Epoch) (qubits : Z) (previous : option Tick) (l : list ApiOperation) : bool :=
  match l with
  | [] => true
  | o :: l =>
      follows previous o && valid_entry epoch qubits o &&
      (negb (is_measurement o) || match l with [] => true | _ => false end) &&
      validate_from epoch qubits (Some (api_tick o)) l
  end.
Definition validate_batch (epoch : Epoch) (l : list ApiOperation) (qubits : Z) : bool :=
  validate_from epoch qubits None l.

(** What a backend is given: it reads as records that pass. *)
Definition conforms (qubits : Z) (batch : Epoch * list BackendOperation) : Prop :=
  snd batch <> [] /\ exists records, read_batch (batch_entries (snd batch)) = Some records /\
    validate_batch (fst batch) records qubits = true.

(** ** A backend that notes its batches *)
Record Logged (B : Type) := mkLogged { lg_backend : B; lg_batches : list (Epoch * list BackendOperation) }.
Arguments mkLogged {B}.
Arguments lg_backend {B}.
Arguments lg_batches {B}.
#[global] Instance eta_Logged {B} : Eta (Logged B) := fun b => mkLogged (lg_backend b) (lg_batches b).

#[global] Instance logged_backend {B} `{QuantumBackend B} : QuantumBackend (Logged B) := {|
  backend_validate b action := backend_validate (lg_backend b) action;
  backend_reset qubits seed := on lg_backend (backend_reset qubits seed);
  backend_execute epoch operations :=
    do! m_modify (fun b => b <| lg_batches ::= fun l => l ++ [(epoch, operations)] |>) in
    on lg_backend (backend_execute epoch operations) |}.

(** ** Appending to a batch *)
Lemma validate_snoc epoch qubits previous l o :
  validate_from epoch qubits previous l = true -> forallb (fun x => negb (is_measurement x)) l = true ->
  follows (match last l with Some x => Some (api_tick x) | None => previous end) o = true ->
  valid_entry epoch qubits o = true ->
  validate_from epoch qubits previous (l ++ [o]) = true.
Proof.
  revert previous. induction l as [|x l IH]; intros previous H Hm Hf Hv; simpl in *.
  - rewrite Hf, Hv. by destruct (is_measurement o).
  - apply andb_true_iff in H as [H1 H2], Hm as [M1 M2]. apply andb_true_iff in H1 as [H1 _]. rewrite H1, M1. simpl.
    rewrite last_cons in Hf. apply IH; [exact H2 | exact M2 | | exact Hv]. by destruct (last l).
Qed.

(** The batch that is being formed: it ends at the committed tick and holds no measurement. *)
Definition forming (epoch : Epoch) (qubits : Z) (tick : Tick) (l : list BackendOperation) : Prop :=
  exists records, mapM api_operation l = Some records /\ validate_from epoch qubits None records = true /\
    forallb (fun x => negb (is_measurement x)) records = true /\
    match last records with Some x => api_tick x = tick | None => True end.

Lemma forming_nil epoch qubits tick : forming epoch qubits tick [].
Proof. by exists []. Qed.

Lemma mapM_snoc {A X} (f : A -> option X) l a r x :
  mapM f l = Some r -> f a = Some x -> mapM f (l ++ [a]) = Some (r ++ [x]).
Proof. rewrite !mapM_Some. intros H1 H2. apply Forall2_app; [done | by repeat constructor]. Qed.

Lemma api_operation_tick o x : api_operation o = Some x -> api_tick x = operation_tick o.
Proof.
  destruct o; simpl; intros H; [|destruct (mapM api_gate gates); [|done]; by injection H as <- | by injection H as <-].
  destruct (mapM api_drive drives); [|done]. simpl in H. destruct (mapM api_acquisition acquisitions); [|done].
  by injection H as <-.
Qed.

(** An operation that can follow a batch being formed at [tick]. *)
Definition fits (epoch : Epoch) (qubits : Z) (tick : Tick) (o : BackendOperation) : Prop :=
  exists x, api_operation o = Some x /\ valid_entry epoch qubits x = true /\ follows (Some tick) x = true.

Lemma forming_snoc epoch qubits tick l o :
  forming epoch qubits tick l -> fits epoch qubits tick o ->
  conforms qubits (epoch, l ++ [o]) /\
  (operation_results o = 0 -> match o with BackendMeasurement _ _ => false | _ => true end = true ->
   forming epoch qubits (operation_tick o) (l ++ [o])).
Proof.
  intros (rs & H1 & H2 & H3 & H4) (x & X1 & X2 & X3).
  assert (Hv : validate_from epoch qubits None (rs ++ [x]) = true).
  { apply validate_snoc; [done..| |done]. destruct (last rs) as [y|]; [by rewrite H4 | done]. }
  pose proof (mapM_snoc _ _ _ _ _ H1 X1) as Hm. split.
  - split; [by destruct l|]. exists (rs ++ [x]). split; [|exact Hv].
    exact (read_map _ _ _ read_operation_entry _ _ Hm).
  - intros _ Hk. exists (rs ++ [x]). split_and!; [exact Hm | exact Hv | |].
    + rewrite forallb_app, H3. simpl. rewrite andb_true_r.
      destruct o; simpl in X1; [|destruct (mapM api_gate gates); [|done]; by injection X1 as <- | done].
      destruct (mapM api_drive drives); [|done]. simpl in X1. destruct (mapM api_acquisition acquisitions); [|done].
      by injection X1 as <-.
    + rewrite last_snoc. by apply api_operation_tick.
Qed.

(** ** [BackendExecution] *)
Section Execution.
Context {B : Type} `{HQ : QuantumBackend B} (qubits : Z).
#[local] Abbreviation Exec := (BackendExecution (Logged B)).

Record exec_ok (x : Exec) : Prop := {
  eo_forming : forming (be_epoch x) qubits (committed_tick x) (be_pending x);
  eo_log : Forall (conforms qubits) (lg_batches (be_backend x)) }.

(** Handing over what is pending. *)
Lemma execute_keeps t x r x' :
  Forall (conforms qubits) (lg_batches (be_backend x)) ->
  be_pending x = [] \/ conforms qubits (be_epoch x, be_pending x) ->
  forming (be_epoch x) qubits (committed_tick x) [] -> execution_execute t x = (r, x') -> exec_ok x'.
Proof using Type.
  intros Hlog Hp Hf H. unfold execution_execute in H. destruct (be_pending x) as [|o l] eqn:E.
  { injection H as _ <-. constructor; [rewrite E; apply forming_nil | exact Hlog]. }
  destruct Hp as [Hp|Hp]; [done|]. cbn [backend_execute logged_backend] in H.
  unfold m_bind, m_modify, m_zoom in H. destruct (backend_execute _ _ _) as [r1 b] eqn:Eb. injection H as _ <-.
  constructor; simpl; [apply forming_nil|]. apply Forall_app. split; [exact Hlog | by apply Forall_singleton].
Qed.

Lemma keeps_flush : keeps exec_ok (execution_flush (B := Logged B)).
Proof using Type.
  unfold execution_flush. apply keeps_bind; [|intros; apply keeps_ret]. intros x r x' [H1 H2] H.
  refine (execute_keeps 0 x r x' H2 _ (forming_nil _ _ _) H). destruct H1 as (rs & E1 & E2 & _ & _).
  destruct (be_pending x) as [|o l] eqn:E; [by left | right]. split; [done|]. exists rs. split; [|exact E2].
  exact (read_map _ _ _ read_operation_entry _ _ E1).
Qed.

(** Committing an operation that fits; a flush may fail. *)
Lemma commit_keeps o x r x' :
  exec_ok x -> fits (be_epoch x) qubits (committed_tick x) o -> operation_results o = 0 ->
  match o with BackendMeasurement _ _ => false | _ => true end = true ->
  execution_commit o x = (r, x') -> exec_ok x'.
Proof using Type.
  intros [H1 H2] Hfit Hr Hk H. destruct (forming_snoc _ _ _ _ _ H1 Hfit) as [Hc Hf].
  unfold execution_commit, m_bind, m_get, m_lift, m_modify in H.
  destruct (require _ _); [|injection H as _ <-; by constructor].
  set (x1 := x <| committed_tick := operation_tick o |> <| be_pending ::= fun l => l ++ [o] |>) in H.
  assert (Hx1 : exec_ok x1) by (constructor; [exact (Hf Hr Hk) | exact H2]).
  destruct (_ =? _); [exact (keeps_flush x1 r x' Hx1 H) | by injection H as _ <-].
Qed.

(** Activities whose intervals cover an evolution. *)
Definition covering {A} (from to : Tick) (f : BackendActivity -> option A) (l : list BackendActivity) : Prop :=
  Forall (fun a => ba_start a <= from /\ to <= ba_end a /\ is_Some (f a)) l.

Lemma covering_read {A} from to f (p : A -> bool) l :
  from < to -> covering from to f l ->
  (forall a x, f a = Some x -> ba_start a <= from -> to <= ba_end a -> p x = true) ->
  exists xs, mapM f l = Some xs /\ forallb p xs = true.
Proof using Type.
  intros Hlt Hl Hp. induction Hl as [|a l (H1 & H2 & x & Hx) _ (xs & E & Hxs)]; [by exists []|].
  exists (x :: xs). simpl. rewrite Hx, E. split; [done|]. by rewrite (Hp a x Hx H1 H2), Hxs.
Qed.

Lemma lies_inside_true start tick first last : first <= start -> start < tick -> tick <= last -> lies_inside start tick first last = true.
Proof using Type.
  intros H1 H2 H3. unfold lies_inside.
  by rewrite (proj2 (Z.leb_le _ _) H1), (proj2 (Z.ltb_lt _ _) H2), (proj2 (Z.leb_le _ _) H3).
Qed.

Lemma evolve_keeps from to drives acquisitions :
  from < to -> covering from to api_drive drives -> covering from to api_acquisition acquisitions ->
  keeps exec_ok (execution_evolve (B := Logged B) from to drives acquisitions).
Proof using Type.
  intros Hlt Hd Hq x r x' Hx H. unfold execution_evolve, m_bind, m_get, m_lift in H.
  destruct (require _ _) as [u|] eqn:E; [|by injection H as _ <-]. apply require_ok in E. reflect.
  rewrite (proj2 (Z.ltb_lt _ _) Hlt) in H. refine (commit_keeps (BackendEvolution from to drives acquisitions) x r x' Hx _ eq_refl eq_refl H).
  destruct (covering_read from to api_drive (fun d => lies_inside from to (ad_start d) (ad_end d)) drives Hlt Hd) as (ds & E1 & P1).
  { intros a d Hs ? ?. unfold api_drive in Hs. destruct (ev_spec (ba_action a)), (ba_reference a); try discriminate Hs.
    injection Hs as <-. by apply lies_inside_true. }
  destruct (covering_read from to api_acquisition (fun d => lies_inside from to (aq_start d) (aq_end d)) acquisitions Hlt Hq) as (qs & E2 & P2).
  { intros a d Hs ? ?. unfold api_acquisition in Hs. destruct (ev_spec (ba_action a)), (ba_reference a); try discriminate Hs.
    injection Hs as <-. by apply lies_inside_true. }
  exists (ApiEvolution from to ds qs). simpl. rewrite E1, E2, P1, P2. split_and!; [done | |].
  - by rewrite (proj2 (Z.leb_le from to)) by lia.
  - subst from. rewrite Z.eqb_refl. by rewrite (proj2 (Z.leb_le _ to)) by lia.
Qed.
Lemma apply_keeps now gates :
  Forall (fun a => is_Some (api_gate a)) gates -> keeps exec_ok (execution_apply (B := Logged B) now gates).
Proof using Type.
  intros Hg x r x' Hx H. unfold execution_apply, m_bind, m_get, m_lift in H.
  destruct (result_each _ gates); [|by injection H as _ <-]. destruct gates as [|g gates]; [by injection H as _ <-|].
  destruct (Z.leb_spec (committed_tick x) now) as [Hle|Hlt].
  - refine (commit_keeps (BackendGates now (g :: gates)) x r x' Hx _ eq_refl eq_refl H).
    apply mapM_is_Some_2 in Hg as (gs & Hgs). exists (ApiApplication now gs). simpl in *. rewrite Hgs.
    split_and!; [done..|]. by rewrite (proj2 (Z.leb_le _ _) Hle).
  - unfold execution_commit, m_bind, m_get, m_lift, require in H. simpl in H.
    rewrite (proj2 (Z.leb_gt _ _) Hlt) in H. by injection H as _ <-.
Qed.

(** The targets [check_measured] has seen. *)
Lemma check_measured_ok epoch references :
  check_measured epoch references = Ok () ->
  NoDup (map ref_target references) /\ forallb (fun r => ref_epoch r =? epoch) references = true.
Proof using Type.
  unfold check_measured. intros H. apply result_bind_ok in H as (seen & H & _).
  assert (Hall : NoDup (map ref_target references) /\ forallb (fun r => ref_epoch r =? epoch) references = true /\
    forall q, q ∈ seen <-> q ∈ map ref_target references); [|naive_solver].
  revert H. apply (result_fold_prefix (fun (done_ : list MeasurementReference) (seen : gset Z) => NoDup (map ref_target done_) /\
    forallb (fun r => ref_epoch r =? epoch) done_ = true /\ forall q, q ∈ seen <-> q ∈ map ref_target done_) _ references []).
  - split_and!; [constructor | done | intros q; simpl; set_solver].
  - intros done_ rf s s' _ (N & Eq & Hs) K. apply result_bind_ok in K as ([] & K & K2). apply Ok_inj in K2 as <-.
    apply require_ok in K. reflect. rewrite map_app, forallb_app, Eq. simpl. rewrite H, Z.eqb_refl. split_and!; [|done|].
    + apply NoDup_app. split_and!; [done | | apply NoDup_singleton]. intros q Hq [->|[]%elem_of_nil]%elem_of_cons.
      by rewrite <-Hs in Hq.
    + intros q. rewrite elem_of_union, elem_of_singleton, elem_of_app, list_elem_of_singleton, Hs. naive_solver.
Qed.

Lemma measure_keeps now references :
  Forall (fun r => 0 <= ref_target r < qubits) references ->
  keeps exec_ok (execution_measure (B := Logged B) now references).
Proof using Type.
  intros Hr x r x' Hx H. unfold execution_measure in H. destruct references as [|rf l]; [by injection H as _ <-|].
  unfold m_bind, m_get, m_lift, m_modify in H. destruct (require _ _) as [u|] eqn:E; [|by injection H as _ <-].
  apply require_ok in E. reflect. destruct (check_measured _ _) as [u'|] eqn:Ec; [|by injection H as _ <-].
  destruct u'. apply check_measured_ok in Ec as [N Eq]. destruct Hx as [H1 H2].
  apply execute_keeps in H; [exact H | exact H2 | right | apply forming_nil]. simpl.
  assert (Hfit : fits (be_epoch x) qubits (committed_tick x) (BackendMeasurement now (rf :: l))).
  { exists (ApiMeasurement now (rf :: l)). split_and!; [done | | by simpl; rewrite (proj2 (Z.leb_le _ _))].
    unfold valid_entry. rewrite bool_decide_eq_true_2, Eq by done. rewrite andb_true_r. apply andb_true_iff. split; [done|].
    apply forallb_forall. intros rf' Hin%list_elem_of_In. rewrite Forall_forall in Hr. destruct (Hr rf' Hin).
    by rewrite (proj2 (Z.leb_le _ _)), (proj2 (Z.ltb_lt _ _)). }
  exact (proj1 (forming_snoc _ _ _ _ _ H1 Hfit)).
Qed.

Lemma reset_keeps q sd epoch now : keeps exec_ok (execution_reset (B := Logged B) q sd epoch now).
Proof using Type.
  intros x r x' [H1 H2] H. unfold execution_reset, m_bind, m_modify, m_zoom in H. simpl in H. unfold m_zoom in H.
  destruct (backend_reset _ _ _) as [r1 b]. injection H as _ <-. constructor; [apply forming_nil | exact H2].
Qed.
End Execution.

(** ** The device's schedule *)
Lemma least_key_spec {A} (m : gmap Z A) k : least_key m = Some k -> forall j a, m !! j = Some a -> k <= j.
Proof.
  unfold least_key, ordered_entries. intros H j a Hj.
  assert (Hin : (j, a) ∈ merge_sort (key_le Z.leb) (map_to_list m)) by (by rewrite merge_sort_Permutation, elem_of_map_to_list).
  assert (Hs : StronglySorted (key_le (A := A) Z.leb) (merge_sort (key_le Z.leb) (map_to_list m))).
  { apply StronglySorted_merge_sort.
    - intros x y z. unfold key_le. rewrite !Is_true_true, !Z.leb_le. lia.
    - intros x y. unfold key_le. rewrite !Is_true_true, !Z.leb_le. lia. }
  destruct (merge_sort _ _) as [|[k0 a0] l]; [done|]. injection H as ->. inversion Hs as [|? ? _ Hall]; subst.
  apply elem_of_cons in Hin as [[= -> ->]|Hin]; [lia|]. rewrite Forall_forall in Hall. specialize (Hall _ Hin).
  unfold key_le in Hall. rewrite Is_true_true, Z.leb_le in Hall. exact Hall.
Qed.

(** What the profile guarantees of a launch: targets inside the register and no negative times. *)
Record event_ok (qubits : Z) (e : OperationEvent) : Prop := {
  ek_targets : Forall (fun q => 0 <= q < qubits) (targets (oe_action e));
  ek_duration : 0 <= ev_duration (oe_action e) }.
Definition launch_ok (qubits : Z) (batch : TriggeredEvents) : Prop := Forall (event_ok qubits) (tg_events batch).

(** An acquisition names the measurement of a qubit of the register. *)
Definition usable (qubits : Z) (a : ScheduledEvent) : Prop :=
  se_acquires a = true -> exists r, oe_reference (se_event a) = Some r /\ 0 <= ref_target r < qubits.

Section Schedule.
Context {B : Type} (qubits : Z).
#[local] Abbreviation Device := (ControlElectronics B).

(** Its end is among the boundaries. *)
Definition will_end (d : Device) (a : ScheduledEvent) : Prop :=
  se_start a <= se_end a /\ se_id a ∈ bd_ends (boundary_at (boundaries_ d) (se_end a)).

Record planned (d : Device) (t : Tick) (a : ScheduledEvent) : Prop := {
  pn_start : se_start a = t; pn_reserved : a ∈ reservations_ d; pn_idle : active_ d !! se_id a = None;
  pn_end : will_end d a; pn_usable : usable qubits a }.

Record running (d : Device) (id : Id) (a : ScheduledEvent) : Prop := {
  rn_id : se_id a = id; rn_reserved : a ∈ reservations_ d; rn_start : se_start a <= last_tick_ d;
  rn_end : will_end d a; rn_usable : usable qubits a }.

Record schedule_ok (d : Device) : Prop := {
  so_reserved : reserved_wf (reservations_ d);
  so_starts : forall t a, a ∈ bd_starts (boundary_at (boundaries_ d) t) -> planned d t a;
  so_active : forall id a, active_ d !! id = Some a -> running d id a }.

(** The parts the schedule is made of. *)
Definition schedule_parts (d : Device) := (reservations_ d, boundaries_ d, active_ d, last_tick_ d).

Lemma schedule_ext d d' : schedule_ok d -> schedule_parts d' = schedule_parts d -> schedule_ok d'.
Proof using Type.
  intros [H1 H2 H3] [= E1 E2 E3 E4]. constructor.
  - by rewrite E1.
  - intros t a Ha. rewrite E2 in Ha. destruct (H2 t a Ha) as [A1 A2 A3 A4 A5].
    constructor; unfold will_end; by rewrite ?E1, ?E2, ?E3.
  - intros id a Ha. rewrite E3 in Ha. destruct (H3 id a Ha) as [A1 A2 A3 A4 A5].
    constructor; unfold will_end; by rewrite ?E1, ?E2, ?E4.
Qed.

Lemma schedule_empty d :
  reservations_ d = [] -> boundaries_ d = ∅ -> active_ d = ∅ -> schedule_ok d.
Proof using Type.
  intros E1 E2 E3. constructor.
  - rewrite E1. split; constructor.
  - intros t a. unfold boundary_at. rewrite E2, lookup_empty. by intros ?%elem_of_nil.
  - intros id a. by rewrite E3, lookup_empty.
Qed.

(** Reservations are told apart by their identities. *)
Lemma reserved_unique d a b : schedule_ok d -> a ∈ reservations_ d -> b ∈ reservations_ d -> se_id a = se_id b -> a = b.
Proof using Type.
  intros [[H _] _ _]. revert H. generalize (reservations_ d). intros l. induction l as [|x l IH]; [by intros _ ?%elem_of_nil|].
  simpl. intros Hnd Ha Hb E. inversion Hnd as [|? ? Hx Hl]; subst.
  apply elem_of_cons in Ha as [->|Ha], Hb as [->|Hb]; [done | | | by apply IH].
  - exfalso. apply Hx, in_ids. by exists b.
  - exfalso. apply Hx, in_ids. by exists a.
Qed.

(** A launch is added. *)
Lemma schedule_accept d d' actions rs :
  schedule_ok d -> reserved_wf (reservations_ d ++ actions) ->
  (forall a, a ∈ actions -> se_start a <= se_end a /\ usable qubits a) ->
  reservations_ d' = reservations_ d ++ actions -> active_ d' = active_ d -> last_tick_ d' = last_tick_ d ->
  gains actions actions rs (boundaries_ d) (boundaries_ d') -> schedule_ok d'.
Proof using Type.
  intros Hs Hwf Hnew E1 E2 E3 Hg. pose proof Hs as [H1 H2 H3].
  assert (Hend : forall a, a ∈ actions -> will_end d' a).
  { intros a Ha. split; [by apply Hnew|]. rewrite Hg. simpl. apply elem_of_app. right. unfold ending_at.
    apply list_elem_of_In, in_map_iff. exists a. split; [done|]. apply filter_In. split; [by apply list_elem_of_In|].
    by apply Z.eqb_refl. }
  assert (Hold : forall a, will_end d a -> will_end d' a).
  { intros a [A1 A2]. split; [done|]. rewrite Hg. simpl. apply elem_of_app. by left. }
  constructor.
  - by rewrite E1.
  - intros t a Ha. rewrite Hg in Ha. simpl in Ha. apply elem_of_app in Ha as [Ha|Ha].
    + destruct (H2 t a Ha) as [A1 A2 A3 A4 A5]. constructor; [done | | by rewrite E2 | by apply Hold | done].
      rewrite E1. apply elem_of_app. by left.
    + apply list_elem_of_In, filter_In in Ha as [Ha Ht]. apply list_elem_of_In in Ha. apply Z.eqb_eq in Ht.
      constructor; [done | | | by apply Hend | by apply Hnew]; rewrite ?E1, ?E2; [apply elem_of_app; by right|].
      destruct (active_ d !! se_id a) as [b|] eqn:Eb; [|done]. destruct (H3 _ _ Eb) as [B1 B2 _ _ _]. exfalso.
      destruct Hwf as [Hnd _]. rewrite map_app in Hnd. apply NoDup_app in Hnd as (_ & Hnd & _).
      apply (Hnd (se_id a)); apply in_ids; [by exists b | by exists a].
  - intros id a Ha. rewrite E2 in Ha. destruct (H3 id a Ha) as [A1 A2 A3 A4 A5].
    constructor; [done | | by rewrite E3 | by apply Hold | done]. rewrite E1. apply elem_of_app. by left.
Qed.

(** A boundary has been processed: what ended is gone and what started runs. *)
Lemma schedule_process d d' now b :
  schedule_ok d -> last_tick_ d <= now -> least_key (boundaries_ d) = Some now -> boundaries_ d !! now = Some b ->
  (forall id, id ∈ bd_ends b -> active_ d !! id <> None) ->
  (forall id a, active_ d' !! id = Some a ->
     active_ d !! id = Some a /\ id ∉ bd_ends b \/ a ∈ bd_starts b /\ id = se_id a) ->
  reservations_ d' = discard_before now (reservations_ d) -> boundaries_ d' = delete now (boundaries_ d) ->
  last_tick_ d' = now -> schedule_ok d'.
Proof using Type.
  intros Hs Hlast Hleast Hb Hends Hact E1 E2 E3. pose proof Hs as [H1 H2 H3].
  assert (Hbn : boundary_at (boundaries_ d) now = b) by (unfold boundary_at; by rewrite Hb).
  assert (Hat : forall t, t <> now -> boundary_at (boundaries_ d') t = boundary_at (boundaries_ d) t).
  { intros t Ht. unfold boundary_at. by rewrite E2, lookup_delete_ne. }
  assert (Hlater : forall a, will_end d a -> now <= se_end a).
  { intros a [_ Ha]. unfold boundary_at in Ha. destruct (boundaries_ d !! se_end a) as [x|] eqn:Ex.
    - exact (least_key_spec _ _ Hleast _ _ Ex).
    - by apply elem_of_nil in Ha. }
  assert (Hkeep : forall a, a ∈ reservations_ d -> now <= se_end a -> a ∈ reservations_ d').
  { intros a Ha Hn. rewrite E1. apply list_elem_of_In, filter_In. split; [by apply list_elem_of_In|].
    by rewrite (proj2 (Z.ltb_ge _ _)). }
  assert (Hwill : forall a, will_end d a -> se_end a <> now -> will_end d' a).
  { intros a [A1 A2] Hn. split; [done|]. by rewrite Hat. }
  constructor.
  - rewrite E1. by apply discard_wf.
  - intros t a Ha. destruct (Z.eq_dec t now) as [->|Hne].
    { unfold boundary_at in Ha. rewrite E2, lookup_delete_eq in Ha. by apply elem_of_nil in Ha. }
    rewrite Hat in Ha by done. destruct (H2 t a Ha) as [A1 A2 A3 A4 A5].
    assert (Ht : now < t).
    { unfold boundary_at in Ha. destruct (boundaries_ d !! t) as [x|] eqn:Ex; [|by apply elem_of_nil in Ha].
      pose proof (least_key_spec _ _ Hleast _ _ Ex). lia. }
    pose proof (proj1 A4). constructor; [done | apply Hkeep; [done | lia] | | apply Hwill; [done | lia] | done].
    destruct (active_ d' !! se_id a) as [x|] eqn:Ex; [|done]. exfalso. destruct (Hact _ _ Ex) as [[Hx _]|[Hx Hid]]; [congruence|].
    rewrite <-Hbn in Hx. destruct (H2 now x Hx) as [X1 X2 _ _ _].
    rewrite (reserved_unique d a x Hs A2 X2 Hid) in A1. lia.
  - intros id a Ha. destruct (Hact id a Ha) as [[Hold Hne]|[Hnew ->]].
    + destruct (H3 id a Hold) as [A1 A2 A3 A4 A5]. pose proof (Hlater a A4) as Hn.
      assert (se_end a <> now). { intros E. destruct A4 as [_ A4]. rewrite E, Hbn, A1 in A4. done. }
      constructor; [done | by apply Hkeep | lia | by apply Hwill | done].
    + rewrite <-Hbn in Hnew. destruct (H2 now a Hnew) as [A1 A2 A3 A4 A5]. pose proof (Hlater a A4) as Hn.
      assert (se_end a <> now). { intros E. destruct A4 as [_ A4]. rewrite E, Hbn in A4. by apply (Hends _ A4). }
      constructor; [done | by apply Hkeep | lia | by apply Hwill | done].
Qed.
End Schedule.

(** ** The operations of the device *)
Section Device.
Context {B F : Type} `{HQ : QuantumBackend B} (qubits : Z) (deliver : Completion -> M F unit).
#[local] Abbreviation Device := (ControlElectronics (Logged B)).
#[local] Abbreviation World := (DeviceWorld (Logged B) F).

(** Every batch so far conforms, and so does the one being formed. *)
Definition log_ok (w : World) : Prop := exec_ok qubits (ce_backend (dw_device w)).

Lemma log_backend {A} (m : M (BackendExecution (Logged B)) A) :
  keeps (exec_ok qubits) m -> keeps log_ok (on_backend m).
Proof using Type. intros Hm. by apply (keeps_focus (exec_ok qubits) (fun w : World => ce_backend (dw_device w))). Qed.

Lemma log_zoom {A T} (get : World -> T) set (m : M T A) :
  (forall t w, ce_backend (dw_device (set t w)) = ce_backend (dw_device w)) -> keeps log_ok (m_zoom get set m).
Proof using Type. intros H. apply keeps_zoom. intros t w Hw. unfold log_ok. by rewrite H. Qed.

Lemma log_modify f : (forall d : Device, ce_backend (f d) = ce_backend d) -> keeps log_ok (modify_device (F := F) f).
Proof using Type. intros H. apply keeps_modify. intros w Hw. unfold log_ok. simpl. by rewrite H. Qed.

Ltac log_steps :=
  repeat (keep_steps; first
    [ by apply log_modify | by apply log_zoom | apply keeps_each; intros ]).

Lemma log_accept batch : keeps log_ok (device_accept batch).
Proof using Type.
  unfold device_accept. keep_steps; try (by apply log_zoom); apply keeps_each; intros;
    unfold accept_action; log_steps.
Qed.

Lemma log_reset now epoch : keeps log_ok (device_reset now epoch).
Proof using Type.
  unfold device_reset. keep_steps;
    first [by apply log_modify | apply log_backend, reset_keeps | apply keeps_each; intros; log_steps].
Qed.

Lemma log_finalize now : keeps log_ok (device_finalize now).
Proof using Type.
  intros w r w' Hw H. unfold device_finalize in H. unfold m_bind at 1, m_gets in H.
  revert Hw H. generalize (dw_device w). intros d. revert w r w'.
  enough (Hk : keeps log_ok
    (do! m_lift (require (device_drained d) Protocol) in
     do! m_lift (require (last_tick_ d <=? now) Protocol) in
     do! (if last_tick_ d <? now then on_backend (execution_evolve (last_tick_ d) now [] []) else m_ret ()) in
     do! modify_device (fun d => d <| last_tick_ := now |>) in
     on_backend execution_flush)) by exact Hk.
  apply keeps_bind; [apply keeps_lift | intros _]. apply keeps_bind; [apply keeps_lift | intros _].
  apply keeps_bind; [|intros _; apply keeps_bind; [by apply log_modify | intros _; apply log_backend, keeps_flush]].
  destruct (Z.ltb_spec (last_tick_ d) now); [|apply keeps_ret]. apply log_backend. by apply evolve_keeps; [|constructor..].
Qed.

(** *** What is prepared for a boundary *)
Lemma later_end (d : Device) now a : least_key (boundaries_ d) = Some now -> will_end d a -> now <= se_end a.
Proof using Type.
  intros Hl [_ Ha]. unfold boundary_at in Ha. destruct (boundaries_ d !! se_end a) as [x|] eqn:Ex.
  - exact (least_key_spec _ _ Hl _ _ Ex).
  - by apply elem_of_nil in Ha.
Qed.

(** The operations in progress cover the interval up to the next boundary. *)
Lemma activities_covering {A} (d : Device) now p reference (f : BackendActivity -> option A) :
  schedule_ok qubits d -> least_key (boundaries_ d) = Some now ->
  (forall id a, running qubits d id a -> p (se_action a) = true ->
     is_Some (f (mkActivity id (se_start a) (se_end a) (se_action a)
       (if reference : bool then oe_reference (se_event a) else None)))) ->
  covering (last_tick_ d) now f (activities p reference (active_ d)).
Proof using Type.
  intros [_ _ H3] Hl Hf. apply Forall_forall. intros x Hx. unfold activities in Hx.
  apply list_elem_of_omap in Hx as ([id a] & Hin & Hx). apply elem_of_ordered_entries in Hin.
  simpl in Hx. destruct (p (se_action a)) eqn:Hp; [|done]. injection Hx as <-. pose proof (H3 id a Hin) as Hr.
  split_and!; [exact (rn_start _ _ _ _ Hr) | exact (later_end d now a Hl (rn_end _ _ _ _ Hr)) | by apply Hf].
Qed.

Lemma drives_covering (d : Device) now :
  schedule_ok qubits d -> least_key (boundaries_ d) = Some now ->
  covering (last_tick_ d) now api_drive (activities is_pulse false (active_ d)).
Proof using Type.
  intros Hs Hl. apply activities_covering; [done..|]. intros id a _ Hp. unfold is_pulse in Hp. reflect.
  unfold api_drive, kind in *. simpl. destruct (ev_spec (se_action a)); try discriminate Hp. by eexists.
Qed.

Lemma acquisitions_covering (d : Device) now :
  schedule_ok qubits d -> least_key (boundaries_ d) = Some now ->
  covering (last_tick_ d) now api_acquisition (activities is_acquire true (active_ d)).
Proof using Type.
  intros Hs Hl. apply activities_covering; [done..|]. intros id a Hr Hp.
  destruct (rn_usable _ _ _ _ Hr Hp) as (r & Er & _). apply is_acquire_iff in Hp.
  unfold api_acquisition, kind in *. simpl. destruct (ev_spec (se_action a)); try discriminate Hp. rewrite Er. by eexists.
Qed.

Lemma samples_prepared (d : Device) ends samples :
  schedule_ok qubits d -> result_fold (collect_sample (active_ d)) ends [] = Ok samples ->
  (forall id, id ∈ ends -> active_ d !! id <> None) /\ Forall (fun r => 0 <= ref_target r < qubits) samples.
Proof using Type.
  intros [_ _ H3]. apply (result_fold_prefix (fun ids samples => (forall id, id ∈ ids -> active_ d !! id <> None) /\
    Forall (fun r => 0 <= ref_target r < qubits) samples) _ ends []).
  - split; [by intros id ?%elem_of_nil | constructor].
  - intros ids id l l' _ [Hi Hr] H. unfold collect_sample in H. destruct (active_ d !! id) as [a|] eqn:Ea; [|done].
    apply Ok_inj in H as <-. split.
    + intros j [Hj|[->|[]%elem_of_nil]%elem_of_cons]%elem_of_app; [by apply Hi | by rewrite Ea].
    + destruct (se_acquires a) eqn:Eq; [|done]. destruct (rn_usable _ _ _ _ (H3 id a Ea) Eq) as (r & -> & Hb).
      apply Forall_app. split; [done | by apply Forall_singleton].
Qed.

Lemma gates_prepared (d : Device) epoch sampled starts acc :
  result_fold (collect_start d epoch sampled) starts ([], ∅) = Ok acc -> Forall (fun a => is_Some (api_gate a)) (fst acc).
Proof using Type.
  apply (result_fold_prefix (fun _ acc => Forall (fun a => is_Some (api_gate a)) (fst acc)) _ starts []); [constructor|].
  intros done_ a [gates outputs] acc' _ IH H. unfold collect_start in H.
  apply result_bind_ok in H as ([] & _ & H). apply result_bind_ok in H as ([] & _ & H).
  destruct (is_gate (se_action a)) eqn:Eg; [|by apply Ok_inj in H as <-].
  apply result_bind_ok in H as ([] & _ & H). apply Ok_inj in H as <-.
  destruct (output_name (se_action a)) eqn:Eo; [exact IH|]. apply Forall_app. split; [exact IH|]. apply Forall_singleton.
  unfold is_gate, kind, output_name, api_gate in *. destruct (ev_spec (se_action a)); try done.
Qed.

Lemma paired_prepared profile now outputs gates :
  resolve_gate_outputs profile now outputs = Ok gates -> Forall (fun a => is_Some (api_gate a)) gates.
Proof using Type.
  apply (result_fold_prefix (fun _ gates => Forall (fun a => is_Some (api_gate a)) gates) _ outputs []); [constructor|].
  intros done_ [name os] l l' _ IH H. apply result_bind_ok in H as (a & Ha & H). apply Ok_inj in H as <-.
  apply resolve_gate_ok in Ha as (g & _ & -> & _). apply Forall_app. split; [exact IH|]. apply Forall_singleton. by eexists.
Qed.

Record boundary_prepared (d : Device) (b : Boundary) (samples : list MeasurementReference) (gates : list EventSpec) : Prop := {
  bp_ends : forall id, id ∈ bd_ends b -> active_ d !! id <> None;
  bp_samples : Forall (fun r => 0 <= ref_target r < qubits) samples;
  bp_gates : Forall (fun a => is_Some (api_gate a)) gates }.

Lemma prepare_boundary_ok (d : Device) now epoch b samples gates outputs :
  schedule_ok qubits d -> prepare_boundary d now epoch b = Ok (samples, gates, outputs) ->
  boundary_prepared d b samples gates.
Proof using Type.
  intros Hs H. unfold prepare_boundary in H. apply result_bind_ok in H as (ss & H1 & H).
  apply result_bind_ok in H as (sampled & _ & H). apply result_bind_ok in H as (acc & H2 & H). cbv zeta in H.
  apply result_bind_ok in H as (paired & H3 & H). apply Ok_inj in H. injection H as <- <- _.
  destruct (samples_prepared d _ _ Hs H1) as [A1 A2]. constructor; [exact A1 | exact A2|].
  apply Forall_app. split; [exact (gates_prepared _ _ _ _ _ H2) | exact (paired_prepared _ _ _ _ H3)].
Qed.
(** *** [process] *)

(** Whatever happens, only conforming batches are handed over. *)
Lemma log_boundary now epoch b d samples gates outputs :
  schedule_ok qubits d -> least_key (boundaries_ d) = Some now -> boundary_prepared d b samples gates ->
  keeps log_ok
    (do! (if last_tick_ d <? now
          then on_backend (execution_evolve (last_tick_ d) now (activities is_pulse false (active_ d))
                             (activities is_acquire true (active_ d)))
          else m_ret ()) in
     let! outcomes := on_backend (execution_measure now samples) in
     do! m_each (commit_sample now epoch) (combine samples outcomes) in
     do! m_each (commit_end now epoch) (bd_ends b) in
     do! on_backend (execution_apply now gates) in
     do! m_each (fun entry : string * list ScheduledEvent => commit_gate now epoch (fst entry)) outputs in
     do! m_each (commit_start now epoch) (bd_starts b) in
     do! m_each (commit_ready deliver now epoch) (bd_ready b) in
     modify_device (fun d => d <| last_tick_ := now |> <| processed_tick_ := Some now |>
       <| boundaries_ ::= delete now |> <| reservations_ ::= discard_before now |>)).
Proof using Type.
  intros Hs Hl [_ Hsamples Hgates]. apply keeps_bind; [|intros _].
  { destruct (Z.ltb_spec (last_tick_ d) now); [|apply keeps_ret]. apply log_backend, evolve_keeps;
      [done | by apply drives_covering | by apply acquisitions_covering]. }
  apply keeps_bind; [by apply log_backend, measure_keeps | intros outcomes].
  keep_steps; first [by apply log_modify | by apply log_backend, apply_keeps | apply keeps_each; intros x].
  - unfold commit_sample. log_steps.
  - unfold commit_end. log_steps.
  - unfold commit_gate. log_steps.
  - unfold commit_start. log_steps.
  - unfold commit_ready. log_steps.
Qed.

Lemma log_process now epoch w r w' :
  log_ok w -> schedule_ok qubits (dw_device w) -> least_key (boundaries_ (dw_device w)) = Some now ->
  device_process deliver now epoch w = (r, w') -> log_ok w'.
Proof using Type.
  intros Hw Hs Hl H. unfold device_process in H. unfold m_bind at 1, m_gets, m_bind, m_lift in H.
  destruct (require _ _); [|by injection H as _ <-].
  destruct (boundaries_ (dw_device w) !! now) as [b|]; [|by injection H as _ <-].
  unfold process_boundary in H. unfold m_bind at 1, m_gets at 1, m_bind at 1, m_lift at 1 in H.
  destruct (prepare_boundary _ _ _ _) as [[[samples gates] outputs]|] eqn:Ep; [|by injection H as _ <-].
  apply (prepare_boundary_ok _ _ _ _ _ _ _ Hs) in Ep.
  exact (log_boundary now epoch b (dw_device w) samples gates outputs Hs Hl Ep w r w' Hw H).
Qed.

(** Steps that leave the schedule alone. *)
Definition parts_are (x : list ScheduledEvent * gmap Z Boundary * gmap Z ScheduledEvent * Tick) (w : World) : Prop :=
  schedule_parts (dw_device w) = x.

Lemma parts_zoom {A T} x (get : World -> T) set (m : M T A) :
  (forall t w, schedule_parts (dw_device (set t w)) = schedule_parts (dw_device w)) -> keeps (parts_are x) (m_zoom get set m).
Proof using Type. intros H. apply keeps_zoom. intros t w <-. apply H. Qed.

Lemma parts_modify x f : (forall d : Device, schedule_parts (f d) = schedule_parts d) -> keeps (parts_are x) (modify_device (F := F) f).
Proof using Type. intros H. apply keeps_modify. intros w <-. apply H. Qed.

Lemma parts_same {A} (m : M World A) w r w' :
  (forall x, keeps (parts_are x) m) -> m w = (r, w') -> schedule_parts (dw_device w') = schedule_parts (dw_device w).
Proof using Type. intros Hm H. exact (Hm _ w r w' eq_refl H). Qed.

Ltac parts_steps :=
  repeat (keep_steps; first
    [ by apply parts_modify | by apply parts_zoom | apply keeps_each; intros ]).

(** The operations in progress after some ended, or some started. *)
Definition active_only (P : Id -> ScheduledEvent -> Prop) (d d' : Device) : Prop :=
  reservations_ d' = reservations_ d /\ boundaries_ d' = boundaries_ d /\ last_tick_ d' = last_tick_ d /\
  forall id a, active_ d' !! id = Some a -> P id a.

Lemma ends_removed now epoch ids (w : World) u w' :
  m_each (commit_end now epoch) ids w = (Ok u, w') ->
  active_only (fun id a => active_ (dw_device w) !! id = Some a /\ id ∉ ids) (dw_device w) (dw_device w').
Proof using Type.
  revert w. induction ids as [|i ids IH]; intros w H.
  { apply m_ret_ok in H as [_ ->]. split_and!; [done..|]. intros id a Ha. split; [done | by apply not_elem_of_nil]. }
  cbn [m_each] in H. apply m_bind_ok in H as (? & w1 & H1 & H). specialize (IH w1 H).
  unfold commit_end in H1. apply m_bind_ok in H1 as (d & s & E & H1). apply m_gets_ok in E as [-> ->].
  destruct (active_ (dw_device w) !! i) as [a|] eqn:Ea; [|discriminate H1].
  apply m_bind_ok in H1 as (? & w2 & H2 & H1). apply m_modify_ok in H1 as ->.
  apply m_zoom_ok in H2 as (t & _ & ->). destruct IH as (E1 & E2 & E3 & E4). simpl in *. split_and!; [done..|].
  intros id b Hb. destruct (E4 id b Hb) as [Hd Hn]. apply lookup_delete_Some in Hd as [Hi Hd].
  split; [done|]. by rewrite not_elem_of_cons.
Qed.

Lemma starts_added now epoch starts (w : World) u w' :
  m_each (commit_start now epoch) starts w = (Ok u, w') ->
  active_only (fun id a => active_ (dw_device w) !! id = Some a \/ a ∈ starts /\ id = se_id a) (dw_device w) (dw_device w').
Proof using Type.
  revert w. induction starts as [|s starts IH]; intros w H.
  { apply m_ret_ok in H as [_ ->]. split_and!; [done..|]. intros id a Ha. by left. }
  cbn [m_each] in H. apply m_bind_ok in H as (? & w1 & H1 & H). specialize (IH w1 H).
  unfold commit_start in H1. apply m_bind_ok in H1 as (d & s0 & E & H1). apply m_gets_ok in E as [-> ->].
  apply m_bind_lift_ok in H1 as (? & _ & H1). apply m_bind_ok in H1 as (? & w2 & H2 & H1). apply m_modify_ok in H2 as ->.
  apply m_zoom_ok in H1 as (t & _ & ->). destruct IH as (E1 & E2 & E3 & E4). simpl in *. split_and!; [done..|].
  intros id b Hb. destruct (E4 id b Hb) as [Hd|[Hin Hid]].
  - apply lookup_insert_Some in Hd as [[<- <-]|[_ Hd]]; [right; split; [by left | done] | by left].
  - right. split; [by right | done].
Qed.
Lemma process_schedule now epoch (w : World) u w' :
  schedule_ok qubits (dw_device w) -> least_key (boundaries_ (dw_device w)) = Some now ->
  device_process deliver now epoch w = (Ok u, w') -> schedule_ok qubits (dw_device w').
Proof using Type.
  intros Hs Hl H. unfold device_process in H. apply m_bind_ok in H as (d & s & E & H). apply m_gets_ok in E as [-> ->].
  apply m_bind_lift_ok in H as (? & Hr & H). apply require_ok, andb_true_iff in Hr as [Hlast%Z.leb_le _].
  destruct (boundaries_ (dw_device w) !! now) as [b|] eqn:Hb; [|by apply m_ret_ok in H as [_ ->]].
  unfold process_boundary in H. apply m_bind_ok in H as (d & s & E & H). apply m_gets_ok in E as [-> ->].
  apply m_bind_lift_ok in H as ([[samples gates] outputs] & Hp & H). pose proof (prepare_boundary_ok _ _ _ _ _ _ _ Hs Hp) as [P1 _ _].
  apply m_bind_ok in H as (? & w1 & H1 & H). apply m_bind_ok in H as (outcomes & w2 & H2 & H).
  apply m_bind_ok in H as (? & w3 & H3 & H). apply m_bind_ok in H as (? & w4 & H4 & H).
  apply m_bind_ok in H as (? & w5 & H5 & H). apply m_bind_ok in H as (? & w6 & H6 & H).
  apply m_bind_ok in H as (? & w7 & H7 & H). apply m_bind_ok in H as (? & w8 & H8 & H). apply m_modify_ok in H as ->.
  apply parts_same in H1; [|intros ?; destruct (_ <? _); [by apply parts_zoom | apply keeps_ret]].
  apply parts_same in H2; [|intros ?; by apply parts_zoom].
  apply parts_same in H3; [|intros ?; apply keeps_each; intros ?; unfold commit_sample; parts_steps].
  apply ends_removed in H4 as (A1 & A2 & A3 & A4).
  apply parts_same in H5; [|intros ?; by apply parts_zoom].
  apply parts_same in H6; [|intros ?; apply keeps_each; intros ?; unfold commit_gate; parts_steps].
  apply starts_added in H7 as (B1 & B2 & B3 & B4).
  apply parts_same in H8; [|intros ?; apply keeps_each; intros ?; unfold commit_ready; parts_steps].
  unfold schedule_parts in *. rewrite H2, H1 in H3. rewrite H5 in H6. clear H1 H2 H5.
  injection H3 as R3 N3 T3 L3. injection H6 as R6 N6 T6 L6. injection H8 as R8 N8 T8 L8.
  apply (schedule_process qubits (dw_device w) _ now b Hs); simpl; try done.
  - intros id a Ha. rewrite T8 in Ha. destruct (B4 id a Ha) as [Hd|?]; [left | by right].
    rewrite T6 in Hd. apply A4 in Hd. by rewrite T3 in Hd.
  - by rewrite R8, B1, R6, A1, R3.
  - by rewrite N8, B2, N6, A2, N3.
Qed.
(** *** [accept] *)
Lemma accept_action_gains batch a (w : World) u w' :
  accept_action batch a w = (Ok u, w') ->
  gains [a] [a] [] (boundaries_ (dw_device w)) (boundaries_ (dw_device w')) /\
  reservations_ (dw_device w') = reservations_ (dw_device w) /\ active_ (dw_device w') = active_ (dw_device w) /\
  last_tick_ (dw_device w') = last_tick_ (dw_device w).
Proof using Type.
  intros H. unfold accept_action in H. apply m_bind_ok in H as (? & w1 & H1 & H). apply m_modify_ok in H1 as ->.
  apply m_bind_ok in H as (? & w2 & H1 & H). apply m_modify_ok in H1 as ->. apply m_zoom_ok in H as (t & _ & ->).
  split_and!; [|done..]. intros k. simpl. rewrite !boundary_at_upsert. unfold join_boundary, starting_at, ending_at. simpl.
  destruct (boundary_at (boundaries_ (dw_device w)) k) as [st en rd] eqn:Eb.
  generalize (se_start a) as start, (se_end a) as stop. intros start stop.
  destruct (Z.eqb_spec start k), (Z.eqb_spec stop k);
    repeat (destruct (decide _); try congruence); subst; simpl; rewrite ?Eb; simpl; rewrite ?app_nil_r; reflexivity.
Qed.

Lemma accept_actions_gains batch actions (w : World) u w' :
  m_each (accept_action batch) actions w = (Ok u, w') ->
  gains actions actions [] (boundaries_ (dw_device w)) (boundaries_ (dw_device w')) /\
  reservations_ (dw_device w') = reservations_ (dw_device w) /\ active_ (dw_device w') = active_ (dw_device w) /\
  last_tick_ (dw_device w') = last_tick_ (dw_device w).
Proof using Type.
  revert w. induction actions as [|a l IH]; intros w H.
  { apply m_ret_ok in H as [_ ->]. split; [apply gains_nil | done]. }
  cbn [m_each] in H. apply m_bind_ok in H as (? & w1 & H1 & H).
  apply accept_action_gains in H1 as (G1 & E1 & E2 & E3). apply IH in H as (G2 & E4 & E5 & E6).
  split; [exact (gains_trans [a] [a] [] l l [] _ _ _ G1 G2) | by rewrite E4, E5, E6].
Qed.

Lemma resolved_events (d : Device) batch actions :
  launch_ok qubits batch -> device_resolve d batch = Ok actions ->
  forall a, a ∈ actions -> event_ok qubits (se_event a) /\ se_start a <= se_end a.
Proof using Type.
  intros Hok. unfold device_resolve. apply (result_fold_prefix (fun _ actions => forall a, a ∈ actions ->
    event_ok qubits (se_event a) /\ se_start a <= se_end a) _ (tg_events batch) []); [by intros a ?%elem_of_nil|].
  intros done_ e l l' He IH H. unfold resolve_event in H. apply result_bind_ok in H as ([] & _ & H).
  apply result_bind_ok in H as ([] & _ & H). apply result_bind_ok in H as (start & _ & H).
  apply result_bind_ok in H as (resolved & _ & H). apply result_bind_ok in H as (stop & Hs & H). apply Ok_inj in H as <-.
  apply checked_add_ok in Hs as [_ ->]. intros a [Ha|[->|[]%elem_of_nil]%elem_of_cons]%elem_of_app; [by apply IH|].
  simpl. unfold launch_ok in Hok. rewrite Forall_forall in Hok. specialize (Hok e He). pose proof (ek_duration _ _ Hok).
  split; [exact Hok | lia].
Qed.

Lemma prepared_usable pending actions epoch rs :
  readouts_prepare pending actions epoch = Ok rs -> forall a, a ∈ actions -> se_acquires a = true ->
  exists r, oe_reference (se_event a) = Some r /\ targets (se_action a) = [ref_target r].
Proof using Type.
  unfold readouts_prepare. intros H. apply result_bind_ok in H as (s & H & _). revert H.
  apply (result_fold_prefix (fun seen _ => forall a, a ∈ seen -> se_acquires a = true ->
    exists r, oe_reference (se_event a) = Some r /\ targets (se_action a) = [ref_target r]) _ actions []).
  { by intros a ?%elem_of_nil. }
  intros seen b x x' _ IH H a [Ha|[->|[]%elem_of_nil]%elem_of_cons]%elem_of_app Hq; [by apply IH|].
  unfold note_readout in H. rewrite Hq in H. simpl in H. destruct (oe_reference (se_event b)) as [r|]; [|done].
  apply result_bind_ok in H as ([] & _ & H). apply result_bind_ok in H as ([] & K & _). apply require_ok in K. reflect.
  by exists r.
Qed.

Lemma accept_schedule batch (w : World) u w' :
  launch_ok qubits batch -> schedule_ok qubits (dw_device w) -> device_accept batch w = (Ok u, w') ->
  schedule_ok qubits (dw_device w').
Proof using Type.
  intros Hok Hs H. unfold device_accept in H. apply m_bind_ok in H as (d & s & E & H). apply m_gets_ok in E as [-> ->].
  apply m_bind_lift_ok in H as ([actions rs] & Hp & H). apply device_prepare_ok in Hp as (Hr & Hc & Hread).
  apply m_bind_ok in H as (? & w1 & H1 & H). apply m_zoom_ok in H1 as (l & H1 & ->).
  unfold resources_reserve in H1. apply m_bind_ok in H1 as (l0 & s & E & H1). apply (m_gets_ok (fun s => s)) in E as [-> ->].
  apply m_bind_lift_ok in H1 as (? & _ & H1). apply m_modify_ok in H1 as ->.
  apply m_bind_ok in H as (? & w2 & H2 & H). apply m_zoom_ok in H2 as (ro & _ & ->).
  apply m_bind_ok in H as (? & w3 & H3 & H).
  match type of H3 with m_each _ _ ?x = _ => destruct (schedule_ready rs x) as (m & E3 & G3) end.
  rewrite E3 in H3. injection H3 as <- <-. apply accept_actions_gains in H as (G4 & R4 & A4 & L4). simpl in *.
  apply (schedule_accept qubits (dw_device w) _ actions rs Hs); [| | exact R4 | exact A4 | exact L4 |].
  - unfold resources_check in Hc. pose proof (check_actions_iff (reservations_ (dw_device w)) actions ∅ [] ltac:(set_solver)) as K.
    rewrite app_nil_r in K. apply K; [exact (so_reserved _ _ Hs)|]. destruct (result_fold _ actions _); [done | discriminate Hc].
  - intros a Ha. destruct (resolved_events _ _ _ Hok Hr a Ha) as [[Ht _] Hle]. split; [exact Hle|]. intros Hq.
    destruct (prepared_usable _ _ _ _ Hread a Ha Hq) as (r & Er & Et). exists r. split; [exact Er|].
    unfold se_action in Et. rewrite Et, Forall_singleton in Ht. exact Ht.
  - pose proof (gains_trans [] [] rs actions actions [] _ _ _ G3 G4) as G. rewrite app_nil_r in G. exact G.
Qed.

Lemma reset_schedule now epoch (w : World) u w' : device_reset now epoch w = (Ok u, w') -> schedule_ok qubits (dw_device w').
Proof using Type.
  intros H. unfold device_reset in H. apply m_bind_ok in H as (d & s & E & H). apply m_gets_ok in E as [-> ->].
  apply m_bind_ok in H as (? & w1 & _ & H). apply m_bind_ok in H as (? & w2 & H2 & H). apply m_modify_ok in H2 as ->.
  apply m_bind_ok in H as (? & w3 & H3 & H). apply m_zoom_ok in H3 as (backend & _ & ->). apply m_modify_ok in H as ->.
  by apply schedule_empty.
Qed.

Lemma finalize_schedule now (w : World) u w' :
  schedule_ok qubits (dw_device w) -> device_finalize now w = (Ok u, w') -> schedule_ok qubits (dw_device w').
Proof using Type.
  intros Hs H. unfold device_finalize in H. apply m_bind_ok in H as (d & s & E & H). apply m_gets_ok in E as [-> ->].
  apply m_bind_lift_ok in H as (? & Hd & H). apply require_ok in Hd. unfold device_drained in Hd.
  apply andb_true_iff in Hd as [[Hb Ha]%andb_true_iff _]. reflect. apply m_bind_lift_ok in H as (? & _ & H).
  apply m_bind_ok in H as (? & w1 & H1 & H). apply parts_same in H1; [|intros ?; destruct (_ <? _); [by apply parts_zoom | apply keeps_ret]].
  apply m_bind_ok in H as (? & w2 & H2 & H). apply m_modify_ok in H2 as ->. apply m_zoom_ok in H as (backend & _ & ->).
  injection H1 as R1 N1 T1 _. destruct Hs as [S1 _ _]. constructor; simpl.
  - by rewrite R1.
  - intros t a. unfold boundary_at. rewrite N1, Hb, lookup_empty. by intros ?%elem_of_nil.
  - intros id a. by rewrite T1, Ha, lookup_empty.
Qed.
(** ** Runs of the device *)

(** The calls of the simulator. *)
Inductive DeviceCall :=
| CallLaunch (batch : TriggeredEvents)
| CallStep (now : Tick) (epoch : Epoch)
| CallReset (now : Tick) (epoch : Epoch)
| CallFinalize (now : Tick).

(** [Simulator::barrier] processes the device when its next boundary is now. *)
Definition device_call (c : DeviceCall) : M World unit :=
  match c with
  | CallLaunch batch => device_accept batch
  | CallStep now epoch =>
      let! d := m_gets dw_device in
      if bool_decide (next_boundary d = Some now) then device_process deliver now epoch else m_ret ()
  | CallReset now epoch => device_reset now epoch
  | CallFinalize now => device_finalize now
  end.

Definition call_ok (c : DeviceCall) : Prop :=
  match c with CallLaunch batch => launch_ok qubits batch | _ => True end.

Lemma call_log c (w : World) r w' :
  log_ok w -> schedule_ok qubits (dw_device w) -> device_call c w = (r, w') -> log_ok w'.
Proof using Type.
  intros Hw Hs H. destruct c; cbn [device_call] in H.
  - exact (log_accept batch w r w' Hw H).
  - unfold m_bind, m_gets in H. destruct (bool_decide_reflect (next_boundary (dw_device w) = Some now)) as [Hl|_].
    + exact (log_process now epoch w r w' Hw Hs Hl H).
    + by injection H as _ <-.
  - exact (log_reset now epoch w r w' Hw H).
  - exact (log_finalize now w r w' Hw H).
Qed.

Lemma call_schedule c (w : World) u w' :
  call_ok c -> schedule_ok qubits (dw_device w) -> device_call c w = (Ok u, w') -> schedule_ok qubits (dw_device w').
Proof using Type.
  intros Hc Hs H. destruct c; cbn [device_call] in H.
  - exact (accept_schedule batch w u w' Hc Hs H).
  - unfold m_bind, m_gets in H. destruct (bool_decide_reflect (next_boundary (dw_device w) = Some now)) as [Hl|_].
    + exact (process_schedule now epoch w u w' Hs Hl H).
    + by injection H as _ <-.
  - exact (reset_schedule now epoch w u w' H).
  - exact (finalize_schedule now w u w' Hs H).
Qed.

Lemma calls_log calls (w : World) r w' :
  Forall call_ok calls -> log_ok w -> schedule_ok qubits (dw_device w) -> m_each device_call calls w = (r, w') -> log_ok w'.
Proof using Type.
  intros Hc. revert w. induction Hc as [|c calls Hok _ IH]; intros w Hw Hs H; [by injection H as _ <-|].
  cbn [m_each] in H. unfold m_bind in H. destruct (device_call c w) as [[u|e] w1] eqn:E.
  - exact (IH w1 (call_log c w _ w1 Hw Hs E) (call_schedule c w u w1 Hok Hs E) H).
  - injection H as _ <-. exact (call_log c w _ w1 Hw Hs E).
Qed.
End Device.

(** C14. The device keeps the backend protocol.  Build the electronics on any backend and let them
    accept launches, process boundaries, reset and finish in any order, with whatever result; a launch's
    events have targets inside the profile's register and no negative durations ([launch_ok]).  Then every batch the backend has been handed is a list of API records that passes
    the check of protocol.py.  Times do not decrease, evolution intervals follow each other and lie
    inside the complete intervals of the drives and acquisitions they carry, and a measurement comes
    last, names distinct qubits of the register and the epoch of its batch. *)
Theorem batches_conform {B F : Type} `{HQ : QuantumBackend B} (deliver : Completion -> M F unit) profile
    (backend : B) max_batch device trace env calls r w :
  electronics_new profile (mkLogged backend []) max_batch = Ok device ->
  Forall (call_ok (dp_qubits profile)) calls ->
  m_each (device_call deliver) calls (mkDeviceWorld device trace env) = (r, w) ->
  Forall (conforms (dp_qubits profile)) (lg_batches (be_backend (ce_backend (dw_device w)))).
Proof.
  intros Hnew Hok H. unfold electronics_new in Hnew. apply result_bind_ok in Hnew as (x & Hx & Hnew).
  destruct (execution_reset _ _ _ _ x) as [[u|] x1] eqn:E; [|done]. apply Ok_inj in Hnew as <-.
  assert (Hx0 : exec_ok (dp_qubits profile) x).
  { unfold execution_new in Hx. apply result_bind_ok in Hx as ([] & _ & Hx). apply Ok_inj in Hx as <-.
    constructor; [apply forming_nil | constructor]. }
  apply (calls_log (dp_qubits profile) deliver calls _ r w Hok) in H; [exact (eo_log _ _ H) | | by apply schedule_empty].
  exact (reset_keeps (dp_qubits profile) _ _ _ _ x _ x1 Hx0 E).
Qed.

(** ** Example: an acquisition and a pulse on two qubits *)
Definition contract_pulse : OperationEvent :=
  mkOperation 1 3 0 1 1 0 (mkEvent 1 10 20 (SpecPulse (mkPulse "x" (mkOperands [1] []) (S754_zero false) "x" Always)))
    None None.
Definition contract_launch : TriggeredEvents :=
  mkTriggered 1 1 100 [se_event (example_acquire true 1 100 140); se_event (example_arm 2 100 160); contract_pulse].
Definition contract_calls : list DeviceCall :=
  [CallLaunch contract_launch; CallStep 100 1; CallStep 110 1; CallStep 130 1; CallStep 140 1; CallStep 160 1;
   CallFinalize 200].
Definition contract_profile : DeviceProfile := mkDevice 2 0 ∅.
Definition contract_device : result (ControlElectronics (Logged MockBackend)) :=
  electronics_new contract_profile (mkLogged (mock_new {[9 := true]}) []) 3.
Definition contract_deliver : Completion -> M (list Completion) unit := fun c => m_modify (fun l => l ++ [c]).

Definition contract_run (device : ControlElectronics (Logged MockBackend)) :=
  m_each (device_call contract_deliver) contract_calls (mkDeviceWorld device trace_new []).

(** The batches of the run are full, then end with the measurement. *)
Lemma batches_conform_witness :
  exists device w, contract_device = Ok device /\ contract_run device = (Ok (), w) /\
    map (fun b => map operation_tick (snd b)) (lg_batches (be_backend (ce_backend (dw_device w)))) =
      [[100; 110; 130]; [140; 140]; [160; 200]] /\
    Forall (conforms 2) (lg_batches (be_backend (ce_backend (dw_device w)))).
Proof.
  destruct contract_device as [device|e] eqn:E; [|vm_compute in E; discriminate].
  exists device. destruct (contract_run device) as [r w] eqn:R.
  assert (V : match contract_device with
              | Ok d => (fst (contract_run d), map (fun b => map operation_tick (snd b))
                  (lg_batches (be_backend (ce_backend (dw_device (snd (contract_run d)))))))
              | Fault e => (Fault e, [])
              end = (Ok (), [[100; 110; 130]; [140; 140]; [160; 200]])) by (vm_compute; reflexivity).
  rewrite E, R in V. cbn [fst snd] in V. injection V as -> V. exists w.
  refine (conj eq_refl (conj eq_refl (conj V _))).
  refine (batches_conform contract_deliver contract_profile _ 3 device trace_new [] contract_calls (Ok ()) w E _ R).
  assert (Hlaunch : launch_ok 2 contract_launch).
  { repeat (apply Forall_cons_2; [constructor; [|vm_compute; discriminate]; vm_compute;
      repeat (apply Forall_cons_2; [split; congruence|]); apply Forall_nil_2|]). apply Forall_nil_2. }
  apply Forall_cons_2; [exact Hlaunch|]. repeat (apply Forall_cons_2; [exact I|]). apply Forall_nil_2.
Defined.
