(* ===== verification/CheckedBackend.v ===== *)
(** * Backends that check their batches (src/python/qsbit_backend/protocol.py)

    The adapters of the repository call [validate_batch] before they execute a batch: a measurement in
    the middle, a decreasing time or an evolution that does not adjoin is an exception.  [Checked] is
    any backend behind that check.  The laws of [LawfulBackend] hold of it whenever they hold of the
    backend itself, so what is proved of a lawful backend (batching cannot be observed) is proved of
    the adapters that reject what the documentation forbids. *)

From S2P Require Import Prelude Error Time Event Protocol Backend PythonBackend BackendContract.

Record Checked (B : Type) := mkChecked { ck_backend : B; ck_qubits : Z }.
Arguments mkChecked {B}.
Arguments ck_backend {B}.
Arguments ck_qubits {B}.
#[global] Instance eta_Checked {B} : Eta (Checked B) := fun b => mkChecked (ck_backend b) (ck_qubits b).

(** The operations read as records that pass. *)
Definition passes (qubits : Z) (epoch : Epoch) (l : list BackendOperation) : bool :=
  match mapM api_operation l with Some records => validate_batch epoch records qubits | None => false end.

#[global] Instance checked_backend {B} `{QuantumBackend B} : QuantumBackend (Checked B) := {|
  backend_validate b action := backend_validate (ck_backend b) action;
  backend_reset qubits seed :=
    do! m_modify (fun b => b <| ck_qubits := qubits |>) in on ck_backend (backend_reset qubits seed);
  backend_execute epoch operations :=
    let! b := m_get in
    do! m_lift (require (passes (ck_qubits b) epoch operations) BackendFailure) in
    on ck_backend (backend_execute epoch operations) |}.

#[global] Instance checked_equiv {B} `{Equiv B} : Equiv (Checked B) :=
  fun a b => ck_backend a ≡ ck_backend b /\ ck_qubits a = ck_qubits b.

(** ** The check and concatenation *)
Lemma validate_start epoch qubits previous l :
  validate_from epoch qubits previous l = true -> validate_from epoch qubits None l = true.
Proof. destruct l as [|o l]; [done|]. cbn [validate_from]. intros H.
  apply andb_true_iff in H as [H ->]. apply andb_true_iff in H as [H ->]. by apply andb_true_iff in H as [_ ->].
Qed.

Lemma validate_app epoch qubits previous l k :
  validate_from epoch qubits previous (l ++ k) = true ->
  validate_from epoch qubits previous l = true /\ validate_from epoch qubits None k = true.
Proof.
  revert previous. induction l as [|o l IH]; intros previous H; [split; [done | by eapply validate_start]|].
  cbn [app validate_from] in *. apply andb_true_iff in H as [H1 H2]. destruct (IH _ H2) as [L1 L2].
  split; [|done]. rewrite L1, andb_true_r. apply andb_true_iff in H1 as [H1 H3]. rewrite H1.
  destruct l as [|p l]; [|exact H3]. by rewrite orb_true_r.
Qed.

Lemma validate_join epoch qubits previous l k :
  validate_from epoch qubits previous l = true -> validate_from epoch qubits None k = true ->
  forallb (fun o => negb (is_measurement o)) l = true ->
  match k with
  | o :: _ => follows (match last l with Some p => Some (api_tick p) | None => previous end) o
  | [] => true
  end = true ->
  validate_from epoch qubits previous (l ++ k) = true.
Proof.
  revert previous. induction l as [|o l IH]; intros previous Hl Hk Hm Hf.
  - destruct k as [|o k]; [done|]. cbn [app last] in *. cbn [validate_from] in *. by rewrite Hf.
  - cbn [app validate_from forallb] in *. apply andb_true_iff in Hl as [H1 H2], Hm as [M1 M2].
    apply andb_true_iff in H1 as [H1 _]. rewrite H1, M1. simpl. apply IH; [done..|].
    rewrite last_cons in Hf. by destruct (last l).
Qed.

(** ** The records of operations *)
Lemma api_operation_measure o x : api_operation o = Some x -> is_measurement x = is_measure o.
Proof.
  destruct o; simpl; intros H; [|destruct (mapM api_gate gates); [|done]; by injection H as <- | by injection H as <-].
  destruct (mapM api_drive drives); [|done]. simpl in H. destruct (mapM api_acquisition acquisitions); [|done].
  by injection H as <-.
Qed.

Lemma api_operation_follows t o x : api_operation o = Some x -> follows (Some t) x = follows_tick t o.
Proof.
  intros H. unfold follows, follows_tick. rewrite (api_operation_tick _ _ H).
  destruct o; simpl in H; [|destruct (mapM api_gate gates); [|done]; by injection H as <- | by injection H as <-].
  destruct (mapM api_drive drives); [|done]. simpl in H. destruct (mapM api_acquisition acquisitions); [|done].
  by injection H as <-.
Qed.

Lemma passes_iff qubits epoch l :
  passes qubits epoch l = true <->
  exists rs, Forall2 (fun o x => api_operation o = Some x) l rs /\ validate_from epoch qubits None rs = true.
Proof.
  unfold passes. split.
  - destruct (mapM api_operation l) as [rs|] eqn:E; [|done]. apply mapM_Some in E. by exists rs.
  - intros (rs & H & Hv). apply mapM_Some in H. by rewrite H.
Qed.

Lemma passes_split qubits epoch l k :
  passes qubits epoch (l ++ k) = true -> passes qubits epoch l = true /\ passes qubits epoch k = true.
Proof.
  rewrite !passes_iff. intros (rs & H & Hv). apply Forall2_app_inv_l in H as (r1 & r2 & H1 & H2 & ->).
  apply validate_app in Hv as [V1 V2]. split; [by exists r1 | by exists r2].
Qed.

Lemma last_records l rs :
  Forall2 (fun o x => api_operation o = Some x) l rs ->
  match last l, last rs with
  | Some o, Some x => api_operation o = Some x | None, None => True | _, _ => False
  end.
Proof.
  induction 1 as [|o x l rs Hx _ IH]; [done|]. rewrite !last_cons. by destruct (last l), (last rs).
Qed.

Lemma passes_join qubits epoch l k :
  joins l k = true -> passes qubits epoch l = true -> passes qubits epoch k = true ->
  passes qubits epoch (l ++ k) = true.
Proof.
  rewrite !passes_iff. intros Hj (r1 & H1 & V1) (r2 & H2 & V2). exists (r1 ++ r2).
  split; [by apply Forall2_app|]. apply andb_true_iff in Hj as [Hq Hf]. apply validate_join; [done..| |].
  - clear Hf V1. induction H1 as [|o x l rs Hx _ IH]; [done|]. simpl in *.
    rewrite (api_operation_measure _ _ Hx). apply andb_true_iff in Hq as [-> Hq]. by apply IH.
  - pose proof (last_records _ _ H1) as Hlast. inversion H2 as [|o x k' r' Hx _]; subst; [done|].
    destruct (last l) as [p|], (last r1) as [y|]; try done.
    by rewrite (api_operation_tick _ _ Hlast), (api_operation_follows _ _ _ Hx).
Qed.

(** ** The laws *)
Section Laws.
Context {B : Type} `{HQ : QuantumBackend B} `{HE : Equiv B} {HL : LawfulBackend B}.

Lemma checked_execute_ok epoch l (s : Checked B) r s' :
  backend_execute epoch l s = (Ok r, s') <->
  passes (ck_qubits s) epoch l = true /\ ck_qubits s' = ck_qubits s /\
  backend_execute epoch l (ck_backend s) = (Ok r, ck_backend s').
Proof using Type.
  cbn [backend_execute checked_backend]. unfold m_bind, m_get, m_lift, m_zoom, require.
  destruct (passes (ck_qubits s) epoch l); [|naive_solver].
  destruct (backend_execute epoch l (ck_backend s)) as [q b]. destruct s as [b0 n], s' as [b1 n1]. simpl.
  split; [by intros [= -> <- <-] | by intros (_ & -> & [= -> ->])].
Qed.

#[global] Instance checked_lawful : LawfulBackend (Checked B).
Proof using HL.
  constructor.
  - split; [by intros x | intros x y [? ?]; by split | intros x y z [H1 ?] [H2 ?]; split; [by rewrite H1 | congruence]].
  - intros e l s1 s2 r s1' [Hb Hn] (P & N & X)%checked_execute_ok.
    destruct (execute_equiv _ _ _ _ _ _ Hb X) as (b & E & Hs). exists (mkChecked b (ck_qubits s2)).
    rewrite checked_execute_ok. rewrite Hn in P. split; [done|]. split; simpl; congruence.
  - intros s1 s2 a [Hb _]. exact (validate_equiv _ _ _ Hb).
  - intros e l s r s' a (_ & _ & X)%checked_execute_ok. exact (execute_validate _ _ _ _ _ _ X).
  - intros e s. destruct (execute_nil e (ck_backend s)) as (b & E & Hs). exists (mkChecked b (ck_qubits s)).
    rewrite checked_execute_ok. done.
  - intros e l k s r s' Hj ([P1 P2]%passes_split & N & X)%checked_execute_ok.
    destruct (execute_split _ _ _ _ _ _ Hj X) as (r1 & b1 & r2 & b2 & X1 & X2 & -> & Hs).
    exists r1, (mkChecked b1 (ck_qubits s)), r2, (mkChecked b2 (ck_qubits s)). rewrite !checked_execute_ok.
    by split_and!.
  - intros e l k s r1 s1 r2 s2 Hj (P1 & N1 & X1)%checked_execute_ok (P2 & N2 & X2)%checked_execute_ok.
    destruct (execute_join _ _ _ _ _ _ _ _ Hj X1 X2) as (b & X & Hs). exists (mkChecked b (ck_qubits s)).
    rewrite checked_execute_ok. rewrite N1 in P2. split; [by split; [apply passes_join|] | split; simpl; congruence].
  - intros e l s r s' (_ & _ & X)%checked_execute_ok. exact (execute_count _ _ _ _ _ X).
Qed.
End Laws.

(** ** Examples *)
Definition example_checked : Checked MockBackend := mkChecked example_mock 2.

(** A measurement before the end of a batch is rejected, so joined batches need not succeed. *)
Example checked_rejects_measurement_in_the_middle :
  let measure := BackendMeasurement 10 [mkReference 1 7 0] in
  let evolve := BackendEvolution 10 20 [] [] in
  fst (backend_execute 1 [measure] example_checked) = Ok [true] /\
  fst (backend_execute 1 [evolve] example_checked) = Ok [] /\
  fst (backend_execute 1 [measure; evolve] example_checked) = Fault BackendFailure /\
  fst (backend_execute 1 [evolve; BackendMeasurement 20 [mkReference 1 7 0]] example_checked) = Ok [true].
Proof. vm_compute. done. Qed.

(** The batched execution never asks for one. *)
Example checked_batches :
  fst (batched_run example_calls (mkExecution example_checked 2 [] 1 0)) = Ok [[]; []; []; [true]; []].
Proof. vm_compute. done. Qed.
