(* ===== verification/RunConfig.v ===== *)
(** * Run configurations (src/app/config.cpp, src/app/run_config.cpp, src/app/config.hpp)

    The command line and the JSON run files it names become a [RunConfig]; the cores it lists become
    the simulator's configuration.  The file system and the JSON reader are parameters: a file's
    text or nothing, what the JSON library makes of a text, and [std::filesystem]'s operations on
    paths.  An object's members are those of [JsonLib]. *)

From stdpp Require Import pretty.
From S2P Require Import Prelude Error Time Event Trace Profile TraceJson ProfileJson Image Feedback Sync Pipeline Core Arguments.
From S2P Require Import Mailbox Memory Protocol TimingControl Tcu.
#[local] Open Scope string_scope.
#[local] Open Scope list_scope.
#[local] Open Scope Z_scope.

Record CoreSpec := mkCoreSpec {
  cs_id : Z; cs_profile : Profile; cs_program : string; cs_cpu_model : string; cs_sync_capacity : Z }.

Record MemoryConfig := mkMemoryConfig { mc_base : Z; mc_size : Z; mc_raw_base : option Z }.

Section RunConfig.
Context {J : Type} `{HJ : JsonLib J}.

Record RunConfig := mkRunConfig {
  rc_profile : Profile; program : string; backend_name : string; trace_path : string; summary_path : string;
  module_directory : string; memory_dump : string; backend_command : string; backend_options : J;
  decoder_options : J; max_batch_operations : Z; cpu_model : string; rc_cores : list CoreSpec;
  rc_connections : list SyncConnection; multicore : bool; config_base : string; simulation_config : string;
  check_config : bool; trace_stalls : bool; memory_base : Z; memory_size : Z; raw_base : Z; raw : bool;
  rc_reverse : bool; help : bool; dump_profile : string; rc_resets : list Tick; outcomes : gmap Id bool;
  inspect : list Z }.
#[global] Instance eta_RunConfig : Eta RunConfig := fun r =>
  mkRunConfig (rc_profile r) (program r) (backend_name r) (trace_path r) (summary_path r) (module_directory r)
    (memory_dump r) (backend_command r) (backend_options r) (decoder_options r) (max_batch_operations r)
    (cpu_model r) (rc_cores r) (rc_connections r) (multicore r) (config_base r) (simulation_config r)
    (check_config r) (trace_stalls r) (memory_base r) (memory_size r) (raw_base r) (raw r) (rc_reverse r)
    (help r) (dump_profile r) (rc_resets r) (outcomes r) (inspect r).

(** The members' initializers; [default_profile] validates what it returns. *)
Definition run_new (directory : string) : outcome RunConfig :=
  let~ p := checked default_profile in
  Done (mkRunConfig p "" "mock" "trace.jsonl" "summary.json" directory "" "" (json_object []) (json_object []) 1024
          "rv32" [] [] false "" "" false true 0 65536 0 false false false "" [] ∅ []).

(** ** Values of a JSON file *)
Definition json_number (v : J) : result Z :=
  do? require (is_number_integer v && (is_number_unsigned v || (0 <=? get_i64 v))) InvalidProfile in
  Ok (get_u64 v).

Definition json_word (v : J) : result Z :=
  let? n := json_number v in
  do? require (n <=? max32) InvalidProfile in
  Ok n.

Definition json_text (v : J) : result string :=
  do? require (is_string v) InvalidProfile in
  get_string v.

(** [empty] of an array and of an object. *)
Definition array_empty (v : J) : bool := match elements v with [] => true | _ => false end.
Definition object_empty (v : J) : bool := match items v with [] => true | _ => false end.

Context (read_file : string -> option string) (parse_json : string -> outcome J).
(** [std::filesystem]: [join base path] is [(base / path).lexically_normal()]. *)
Context (absolute parent_path : string -> string) (join : string -> string -> string).

Definition read_json (path : string) : outcome J :=
  match read_file path with None => Thrown InvalidProfile | Some text => parse_json text end.

Definition relative_to (base : string) (v : J) : result string :=
  let? s := json_text v in Ok (join base s).

(** [apply_profile] on a profile of its own: what it leaves, if it returns. *)
Definition applied (p : Profile) (v : J) : result Profile :=
  match apply_profile v p with (Ok _, p) => Ok p | (Fault e, _) => Fault e end.

(** ** Cores and connections *)
Definition cpu_factory (model : string) : result (option CpuFactory) :=
  do? require (String.eqb model "rv32" || String.eqb model "vliw") InvalidProfile in
  Ok (if String.eqb model "vliw" then Some (fun clk entry => Some (vliw_cycle_model clk entry)) else None).

Definition core_keys : list string := ["id"; "program"; "profile"; "profile_file"; "cpu_model"; "sync_capacity"].

(** [settings.contains(key) ? f(settings[key]) : fallback]. *)
Definition setting {A} (settings : J) (key : string) (f : J -> result A) (fallback : A) : result A :=
  if contains settings key then let? v := at_key settings key in f v else Ok fallback.

Definition resolve_core (profile : Profile) (model base : string) (settings : J) : outcome CoreSpec :=
  do~ checked (require (is_object settings && contains settings "id" && contains settings "program") InvalidProfile) in
  do~ checked (result_each (fun item => require (bool_decide (fst item ∈ core_keys)) InvalidProfile) (items settings)) in
  let~ p :=
    (if contains settings "profile_file" then
       let~ path := checked (let? v := at_key settings "profile_file" in relative_to base v) in
       let~ v := read_json path in
       checked (applied profile v)
     else Done profile) in
  let~ p := checked (setting settings "profile" (applied p) p) in
  let~ model := checked (setting settings "cpu_model" json_text model) in
  let~ id := checked (let? v := at_key settings "id" in json_word v) in
  let~ path := checked (let? v := at_key settings "program" in relative_to base v) in
  let~ capacity := checked (setting settings "sync_capacity" json_word 8) in
  do~ checked (profile_validate p) in
  let~ _ := checked (cpu_factory model) in
  Done (mkCoreSpec id p path model capacity).

Fixpoint outcome_map {A B} (f : A -> outcome B) (l : list A) : outcome (list B) :=
  match l with
  | [] => Done []
  | x :: l => let~ y := f x in let~ rest := outcome_map f l in Done (y :: rest)
  end.

Definition resolve_cores (profile : Profile) (path : string) (core_settings : J) (model base : string)
    : outcome (list CoreSpec) :=
  if array_empty core_settings then
    let~ _ := checked (cpu_factory model) in
    Done [mkCoreSpec 0 profile path model 8]
  else outcome_map (resolve_core profile model base) (elements core_settings).

Definition connection_keys : list string := ["first"; "second"; "first_to_second"; "second_to_first"; "capacity"].

Definition configure_connection (settings : J) : result SyncConnection :=
  do? require (is_object settings) InvalidProfile in
  do? result_each (fun item => require (bool_decide (fst item ∈ connection_keys)) InvalidProfile) (items settings) in
  do? result_each (fun key => require (contains settings key) InvalidProfile)
        ["first"; "second"; "first_to_second"; "second_to_first"] in
  let? a := (let? v := at_key settings "first" in json_word v) in
  let? b := (let? v := at_key settings "second" in json_word v) in
  let? ab := (let? v := at_key settings "first_to_second" in json_number v) in
  let? ba := (let? v := at_key settings "second_to_first" in json_number v) in
  let? capacity := setting settings "capacity" json_word 8 in
  Ok (mkConnection a b ab ba capacity).

Definition configure_connections (connection_settings : J) : result (list SyncConnection) :=
  result_map configure_connection (elements connection_settings).

(** The images are read in the order of the cores. *)
Definition load_image (read_bytes : string -> option (list Z)) (memory : MemoryConfig) (path : string)
    : result ProgramImage :=
  match read_bytes path with
  | None => Fault InvalidImage
  | Some bytes =>
      match mc_raw_base memory with
      | Some address => image_raw bytes address (mc_base memory) (mc_size memory)
      | None => image_elf bytes (mc_base memory) (mc_size memory)
      end
  end.

Definition configure_core (read_bytes : string -> option (list Z)) (memory : MemoryConfig) (core : CoreSpec)
    : result CoreConfig :=
  let? image := load_image read_bytes memory (cs_program core) in
  let? factory := cpu_factory (cs_cpu_model core) in
  Ok (mkCoreConfig (cs_id core) (cs_profile core) image factory (cs_sync_capacity core)).

(** The result is [setup.cores] and [setup.models]. *)
Definition configure_cores (read_bytes : string -> option (list Z)) (cores : list CoreSpec) (memory : MemoryConfig)
    : result (list CoreConfig * list string) :=
  let? configs := result_map (configure_core read_bytes memory) cores in
  Ok (configs, map cs_cpu_model cores).

(** ** The run file *)
Record Settings := mkSettings { se_run : RunConfig; core_settings : J; connection_settings : J }.
#[global] Instance eta_Settings : Eta Settings :=
  fun s => mkSettings (se_run s) (core_settings s) (connection_settings s).

Definition run_keys : list string :=
  ["schema"; "program"; "backend"; "profile"; "profile_file"; "trace"; "summary"; "memory_dump"; "python_path";
   "memory_base"; "memory_size"; "raw_base"; "resets"; "inspect"; "outcomes"; "reverse_registration";
   "backend_options"; "$schema"; "trace_stalls"; "cpu_model"; "cores"; "sync_connections"; "backend_execution";
   "decoding"].

(** [if (config.contains(key)) ...]: [f] changes the settings by the value under the key. *)
Definition reading (config : J) (key : string) (f : J -> Settings -> outcome Settings) (s : Settings)
    : outcome Settings :=
  if contains config key then let~ v := checked (at_key config key) in f v s else Done s.

(** A member of the run that is read by [get]. *)
Definition into {A} (get : J -> result A) (set : A -> RunConfig -> RunConfig) (v : J) (s : Settings) : outcome Settings :=
  let~ a := checked (get v) in Done (s <| se_run ::= set a |>).

Definition json_boolean (v : J) : result bool :=
  do? require (is_boolean v) InvalidProfile in get_bool v.

Definition json_list {A} (get : J -> result A) (v : J) : result (list A) :=
  do? require (is_array v) InvalidProfile in result_map get (elements v).

(** [outcomes[id++] = ...] from [id]. *)
Fixpoint number_outcomes (id : Id) (bits : list bool) (m : gmap Id bool) : gmap Id bool :=
  match bits with
  | [] => m
  | b :: bits => number_outcomes (wrap64 (id + 1)) bits (<[id := b]> m)
  end.

Definition read_execution (v : J) (s : Settings) : outcome Settings :=
  do~ checked (require (is_object v) InvalidProfile) in
  let~ n := checked (result_fold (fun _ item =>
      do? require (String.eqb (fst item) "max_batch_operations") InvalidProfile in
      do? require (is_number_unsigned (snd item) && (0 <? get_u64 (snd item)) && (get_u64 (snd item) <=? max32))
            InvalidProfile in
      Ok (get_u64 (snd item))) (items v) (max_batch_operations (se_run s))) in
  Done (s <| se_run ::= fun r => r <| max_batch_operations := n |> |>).

Definition read_profile (v : J) (s : Settings) : outcome Settings :=
  let~ p := checked (applied (rc_profile (se_run s)) v) in
  Done (s <| se_run ::= fun r => r <| rc_profile := p |> |>).

Definition read_cores (v : J) (s : Settings) : outcome Settings :=
  do~ checked (require (is_array v && negb (array_empty v)) InvalidProfile) in
  Done (s <| core_settings := v |>).

Definition read_connections (v : J) (s : Settings) : outcome Settings :=
  do~ checked (require (is_array v) InvalidProfile) in
  Done (s <| connection_settings := v |>).

Definition read_decoding (v : J) (s : Settings) : outcome Settings :=
  do~ checked (require (is_object v && negb (object_empty v)) InvalidProfile) in
  Done (s <| se_run ::= fun r => r <| decoder_options := v |> |>).

Definition read_profile_file (base : string) (v : J) (s : Settings) : outcome Settings :=
  let~ path := checked (relative_to base v) in
  let~ v := read_json path in
  read_profile v s.

Definition apply_run_config (config : J) (base : string) (s : Settings) : outcome Settings :=
  do~ checked (require (is_object config) InvalidProfile) in
  do~ checked (result_each (fun item => require (bool_decide (fst item ∈ run_keys)) InvalidProfile) (items config)) in
  do~ checked (do? require (contains config "schema") InvalidProfile in
               let? v := at_key config "schema" in require (equals_int v 1) InvalidProfile) in
  let s := s <| se_run ::= fun r => r <| config_base := base |> |> in
  let~ s := reading config "cores" read_cores s in
  let~ s := reading config "sync_connections" read_connections s in
  let~ s := reading config "program" (into (relative_to base) (fun x r => r <| program := x |>)) s in
  let~ s := reading config "backend" (into json_text (fun x r => r <| backend_name := x |>)) s in
  let~ s := reading config "backend_options" (into Ok (fun x r => r <| backend_options := x |>)) s in
  let~ s := reading config "decoding" read_decoding s in
  let~ s := reading config "backend_execution" read_execution s in
  let~ s := reading config "cpu_model" (into json_text (fun x r => r <| cpu_model := x |>)) s in
  let~ s := reading config "trace_stalls" (into json_boolean (fun x r => r <| trace_stalls := x |>)) s in
  let~ s := reading config "profile_file" (read_profile_file base) s in
  let~ s := reading config "profile" read_profile s in
  let~ s := reading config "trace" (into (relative_to base) (fun x r => r <| trace_path := x |>)) s in
  let~ s := reading config "summary" (into (relative_to base) (fun x r => r <| summary_path := x |>)) s in
  let~ s := reading config "memory_dump" (into (relative_to base) (fun x r => r <| memory_dump := x |>)) s in
  let~ s := reading config "python_path" (into (relative_to base) (fun x r => r <| module_directory := x |>)) s in
  let~ s := reading config "memory_base" (into json_word (fun x r => r <| memory_base := x |>)) s in
  let~ s := reading config "memory_size" (into json_word (fun x r => r <| memory_size := x |>)) s in
  let~ s := reading config "raw_base" (into json_word (fun x r => r <| raw := true |> <| raw_base := x |>)) s in
  let~ s := reading config "resets" (into (json_list json_number) (fun x r => r <| rc_resets := x |>)) s in
  let~ s := reading config "inspect" (into (json_list json_word) (fun x r => r <| inspect := x |>)) s in
  let~ s := reading config "outcomes" (into (json_list json_boolean)
              (fun x r => r <| outcomes := number_outcomes 1 x ∅ |>)) s in
  reading config "reverse_registration" (into json_boolean (fun x r => r <| rc_reverse := x |>)) s.

(** ** The command line *)

(** [std::getline(input, bit, ',')] until it fails: nothing after a final comma. *)
Fixpoint getlines (line : string) (s : string) : list string :=
  match s with
  | EmptyString => match line with EmptyString => [] | _ => [line] end
  | String c s =>
      if code_of c =? 44 then line :: getlines "" s
      else getlines (line +:+ String c EmptyString) s
  end.

Definition read_bit (s : string) : result bool :=
  do? require (String.eqb s "0" || String.eqb s "1") InvalidOperand in
  Ok (String.eqb s "1").

(** What an option does: go on with new settings, or return the run at once. *)
Inductive Step := Continue (s : Settings) | Return (r : RunConfig).

(** An option by itself, or one that calls [value()] first. *)
Inductive Option_ := Plain (f : Settings -> Step) | Valued (f : string -> Settings -> outcome Step).

(** An option that sets members of the run. *)
Definition run_set (f : RunConfig -> RunConfig) : Option_ := Plain (fun s => Continue (s <| se_run ::= f |>)).
Definition run_value {A} (get : string -> outcome A) (set : A -> RunConfig -> RunConfig) : Option_ :=
  Valued (fun v s => let~ a := get v in Done (Continue (s <| se_run ::= set a |>))).

Definition text_value (set : string -> RunConfig -> RunConfig) : Option_ := run_value Done set.

(** [arguments]: the whole command line; a simulation strategy stands alone, or with --check-config. *)
Definition config_option (arguments : list string) (v : string) (s : Settings) : outcome Step :=
  let path := absolute v in
  let~ config := read_json path in
  do~ checked (require (is_object config) InvalidProfile) in
  if contains config "simulation" then
    let check_only := (size_of arguments =? 3) &&
      (check_config (se_run s) || bool_decide (last arguments = Some "--check-config")) in
    do~ checked (require ((size_of arguments =? 2) || check_only) InvalidOperand) in
    Done (Return (se_run s <| simulation_config := path |> <| check_config := check_only |>))
  else
    let~ s := apply_run_config config (parent_path path) s in
    Done (Continue s).

Definition outcomes_option (v : string) (s : Settings) : outcome Step :=
  let~ bits := checked (result_map read_bit (getlines "" v)) in
  Done (Continue (s <| se_run ::= fun r => r <| outcomes ::= number_outcomes 1 bits |> |>)).

Definition profile_option (path : string) (s : Settings) : outcome Step :=
  let~ v := read_json path in
  let~ s := read_profile v s in
  Done (Continue s).

Definition option_of (arguments : list string) (argument : string) : option Option_ :=
  if String.eqb argument "--help" then Some (Plain (fun s => Return (se_run s <| help := true |>)))
  else if String.eqb argument "--program" then Some (text_value (fun v r => r <| program := v |>))
  else if String.eqb argument "--config" then Some (Valued (config_option arguments))
  else if String.eqb argument "--list-backends" then Some (run_set (fun r => r <| backend_command := "list" |>))
  else if String.eqb argument "--help-backend" then Some (run_set (fun r => r <| backend_command := "help" |>))
  else if String.eqb argument "--backend-schema" then Some (run_set (fun r => r <| backend_command := "schema" |>))
  else if String.eqb argument "--generate-config" then Some (run_set (fun r => r <| backend_command := "generate" |>))
  else if String.eqb argument "--check-config" then Some (run_set (fun r => r <| check_config := true |>))
  else if String.eqb argument "--backend" then Some (text_value (fun v r => r <| backend_name := v |>))
  else if String.eqb argument "--cpu-model" then Some (text_value (fun v r => r <| cpu_model := v |>))
  else if String.eqb argument "--trace" then Some (text_value (fun v r => r <| trace_path := v |>))
  else if String.eqb argument "--summary" then Some (text_value (fun v r => r <| summary_path := v |>))
  else if String.eqb argument "--memory-dump" then Some (text_value (fun v r => r <| memory_dump := v |>))
  else if String.eqb argument "--python-path" then Some (text_value (fun v r => r <| module_directory := v |>))
  else if String.eqb argument "--memory-base" then Some (run_value word (fun n r => r <| memory_base := n |>))
  else if String.eqb argument "--memory-size" then Some (run_value word (fun n r => r <| memory_size := n |>))
  else if String.eqb argument "--raw-base" then Some (run_value word (fun n r => r <| raw := true |> <| raw_base := n |>))
  else if String.eqb argument "--seed" then Some (run_value word (fun n r => r <| rc_profile ::= fun p => p <| seed := n |> |>))
  else if String.eqb argument "--start" then Some (run_value number (fun n r => r <| rc_profile ::= fun p => p <| start := n |> |>))
  else if String.eqb argument "--reset" then Some (run_value number (fun n r => r <| rc_resets ::= fun l => l ++ [n] |>))
  else if String.eqb argument "--inspect" then Some (run_value word (fun n r => r <| inspect ::= fun l => l ++ [n] |>))
  else if String.eqb argument "--reverse-registration" then Some (run_set (fun r => r <| rc_reverse := true |>))
  else if String.eqb argument "--outcomes" then Some (Valued outcomes_option)
  else if String.eqb argument "--profile" then Some (Valued profile_option)
  else if String.eqb argument "--dump-default-profile" then
    Some (Valued (fun v s => Done (Return (se_run s <| dump_profile := v |>))))
  else None.

Fixpoint parse_arguments (arguments rest : list string) (s : Settings) : outcome Step :=
  match rest with
  | [] => Done (Continue s)
  | argument :: rest =>
      match option_of arguments argument with
      | None => Thrown InvalidOperand
      | Some (Plain f) =>
          match f s with Continue s => parse_arguments arguments rest s | Return r => Done (Return r) end
      | Some (Valued f) =>
          match rest with
          | [] => Thrown InvalidOperand
          | v :: rest =>
              let~ step := f v s in
              match step with Continue s => parse_arguments arguments rest s | Return r => Done (Return r) end
          end
      end
  end.

Definition finish_run (s : Settings) : outcome RunConfig :=
  let r := se_run s in
  if negb (String.eqb (backend_command r) "") then Done r else
  let none := array_empty (core_settings s) in
  do~ checked (require (negb (String.eqb (program r) "") || negb none) InvalidOperand) in
  do~ checked (require (none || (String.eqb (program r) "" && negb (raw r) &&
                                 match inspect r with [] => true | _ => false end && String.eqb (memory_dump r) ""))
                 InvalidProfile) in
  do~ checked (require (is_object (backend_options r)) InvalidProfile) in
  do~ checked (profile_validate (rc_profile r)) in
  let r := r <| multicore := negb none |> in
  let~ cores := resolve_cores (rc_profile r) (program r) (core_settings s) (cpu_model r) (config_base r) in
  let r := r <| rc_cores := cores |> in
  let~ connections := checked (configure_connections (connection_settings s)) in
  Done (r <| rc_connections := connections |>).

Definition parse_run_config (arguments : list string) (directory : string) : outcome RunConfig :=
  let~ r := run_new directory in
  let~ step := parse_arguments arguments arguments (mkSettings r (json_array []) (json_array [])) in
  match step with
  | Return r => Done r
  | Continue s => finish_run s
  end.
End RunConfig.
Arguments RunConfig : clear implicits.
Arguments Settings : clear implicits.
Arguments Step : clear implicits.
Arguments Option_ : clear implicits.

(** ** What the parser accepts *)
Section Accepted.
Context {J : Type} `{HJ : JsonLib J}.
Context (read_file : string -> option string) (parse_json : string -> outcome J).
Context (absolute parent_path : string -> string) (join : string -> string -> string).
(** [get<std::uint64_t>] returns one. *)
Context (Hget : forall v : J, u64 (get_u64 v)).
#[local] Abbreviation parse := (parse_arguments read_file parse_json absolute parent_path join).
#[local] Abbreviation parse_run := (parse_run_config read_file parse_json absolute parent_path join).

(** The members that have a width. *)
Record run_typed (r : RunConfig J) : Prop := {
  rt_memory : u32 (memory_base r) /\ u32 (memory_size r) /\ u32 (raw_base r);
  rt_inspect : Forall u32 (inspect r);
  rt_resets : Forall u64 (rc_resets r);
  rt_batch : 0 < max_batch_operations r <= max32;
  rt_outcomes : forall id, is_Some (outcomes r !! id) -> u64 id }.

(** A run that is still being configured. *)
Record open_run (s : Settings J) : Prop := {
  or_typed : run_typed (se_run s);
  or_cores : rc_cores (se_run s) = [] /\ rc_connections (se_run s) = [] /\ multicore (se_run s) = false;
  or_help : help (se_run s) = false;
  or_dump : dump_profile (se_run s) = "";
  or_simulation : simulation_config (se_run s) = "" }.

Lemma json_number_u64 (v : J) n : json_number v = Ok n -> u64 n.
Proof using Hget. unfold json_number. intros H. apply result_bind_ok in H as (? & _ & H). by apply Ok_inj in H as <-. Qed.

Lemma json_word_u32 (v : J) n : json_word v = Ok n -> u32 n.
Proof using Hget.
  unfold json_word. intros H. apply result_bind_ok in H as (m & Hm & H). apply json_number_u64 in Hm.
  apply result_bind_ok in H as (? & Hr & H). apply require_ok, Z.leb_le in Hr. apply Ok_inj in H as <-.
  unfold u64 in Hm. unfold u32. lia.
Qed.

Lemma result_map_forall {A B} (f : A -> result B) (P : B -> Prop) l l' :
  (forall x y, f x = Ok y -> P y) -> result_map f l = Ok l' -> Forall P l'.
Proof using Type.
  intros Hf H. unfold result_map in H. refine (result_fold_invariant (Forall P) _ _ _ _ (Forall_nil_2 _) _ H).
  intros b x b' _ Hb Hx. apply result_bind_ok in Hx as (y & Hy & Hx). apply Ok_inj in Hx as <-.
  apply Forall_app. split; [done|]. apply Forall_singleton. eauto.
Qed.

Lemma outcome_map_forall {A B} (f : A -> outcome B) (P : B -> Prop) l l' :
  (forall x y, f x = Done y -> P y) -> outcome_map f l = Done l' -> Forall P l' /\ length l' = length l.
Proof using Type.
  intros Hf. revert l'. induction l as [|x l IH]; intros l' H; simpl in H; [apply Done_inj in H as <-; by split|].
  apply outcome_bind_done in H as (y & Hy & H). apply outcome_bind_done in H as (ys & Hys & H). apply Done_inj in H as <-.
  apply IH in Hys as [Hl Hlen]. simpl. rewrite Hlen. split; [constructor; eauto | done].
Qed.

Lemma number_outcomes_keys id bits m :
  u64 id -> (forall k, is_Some (m !! k) -> u64 k) ->
  forall k, is_Some (number_outcomes id bits m !! k) -> u64 k.
Proof using Type.
  revert id m. induction bits as [|b bits IH]; intros id m Hid Hm; simpl; [done|].
  apply IH; [apply wrap64_u64|]. intros k [x Hk]. destruct (decide (k = id)) as [->|]; [done|].
  rewrite lookup_insert_ne in Hk by done. by apply Hm.
Qed.

(** Reading one member of a run file. *)
Lemma reading_open config key f s s' :
  (forall v s s', open_run s -> f v s = Done s' -> open_run s') ->
  open_run s -> reading config key f s = Done s' -> open_run s'.
Proof using Type.
  unfold reading. intros Hf Hs H. destruct (contains config key); [|by apply Done_inj in H as <-].
  apply outcome_bind_done in H as (v & _ & H). eauto.
Qed.

(** An update of members without a width. *)
Definition untyped (f : RunConfig J -> RunConfig J) : Prop := forall r,
  memory_base (f r) = memory_base r /\ memory_size (f r) = memory_size r /\ raw_base (f r) = raw_base r /\
  inspect (f r) = inspect r /\ rc_resets (f r) = rc_resets r /\ max_batch_operations (f r) = max_batch_operations r /\
  outcomes (f r) = outcomes r /\ rc_cores (f r) = rc_cores r /\ rc_connections (f r) = rc_connections r /\
  multicore (f r) = multicore r /\ help (f r) = help r /\ dump_profile (f r) = dump_profile r /\
  simulation_config (f r) = simulation_config r.

Lemma untyped_run f r : untyped f -> run_typed r -> run_typed (f r).
Proof using Type.
  intros Hf [H1 H2 H3 H4 H5]. destruct (Hf r) as (E1 & E2 & E3 & E4 & E5 & E6 & E7 & _).
  constructor; by rewrite ?E1, ?E2, ?E3, ?E4, ?E5, ?E6, ?E7.
Qed.

Lemma untyped_open f s : untyped f -> open_run s -> open_run (s <| se_run ::= f |>).
Proof using Type.
  intros Hf [H1 H2 H3 H4 H5]. destruct (Hf (se_run s)) as (_ & _ & _ & _ & _ & _ & _ & E8 & E9 & E10 & E11 & E12 & E13).
  constructor; simpl; [by apply untyped_run | by rewrite E8, E9, E10 | by rewrite E11 | by rewrite E12 | by rewrite E13].
Qed.

Lemma into_open {A} (get : J -> result A) set v s s' :
  (forall a s, get v = Ok a -> open_run s -> open_run (s <| se_run ::= set a |>)) ->
  open_run s -> into get set v s = Done s' -> open_run s'.
Proof using Type.
  unfold into. intros Hset Hs H. apply outcome_bind_done in H as (a & Ha & H). apply checked_done in Ha.
  apply Done_inj in H as <-. by apply Hset.
Qed.

(** The updates of members with a width. *)
Lemma open_update f s :
  (run_typed (se_run s) -> run_typed (f (se_run s))) ->
  (forall r, rc_cores (f r) = rc_cores r /\ rc_connections (f r) = rc_connections r /\ multicore (f r) = multicore r /\
     help (f r) = help r /\ dump_profile (f r) = dump_profile r /\ simulation_config (f r) = simulation_config r) ->
  open_run s -> open_run (s <| se_run ::= f |>).
Proof using Type.
  intros Ht Hf [H1 H2 H3 H4 H5]. destruct (Hf (se_run s)) as (E1 & E2 & E3 & E4 & E5 & E6).
  constructor; simpl; [by apply Ht | by rewrite E1, E2, E3 | by rewrite E4 | by rewrite E5 | by rewrite E6].
Qed.

Lemma set_memory_base n s : u32 n -> open_run s -> open_run (s <| se_run ::= fun r => r <| memory_base := n |> |>).
Proof using Type. intros Hn. apply open_update; [|done]. intros [[? [? ?]] ? ? ? ?]. by constructor. Qed.

Lemma set_memory_size n s : u32 n -> open_run s -> open_run (s <| se_run ::= fun r => r <| memory_size := n |> |>).
Proof using Type. intros Hn. apply open_update; [|done]. intros [[? [? ?]] ? ? ? ?]. by constructor. Qed.

Lemma set_raw_base n s :
  u32 n -> open_run s -> open_run (s <| se_run ::= fun r => r <| raw := true |> <| raw_base := n |> |>).
Proof using Type. intros Hn. apply open_update; [|done]. intros [[? [? ?]] ? ? ? ?]. by constructor. Qed.

Lemma set_resets l s :
  (Forall u64 (rc_resets (se_run s)) -> Forall u64 (l (rc_resets (se_run s)))) -> open_run s ->
  open_run (s <| se_run ::= fun r => r <| rc_resets ::= l |> |>).
Proof using Type. intros Hn. apply open_update; [|done]. intros [? ? ? ? ?]. constructor; simpl; eauto. Qed.

Lemma set_inspect l s :
  (Forall u32 (inspect (se_run s)) -> Forall u32 (l (inspect (se_run s)))) -> open_run s ->
  open_run (s <| se_run ::= fun r => r <| inspect ::= l |> |>).
Proof using Type. intros Hn. apply open_update; [|done]. intros [? ? ? ? ?]. constructor; simpl; eauto. Qed.

Lemma set_outcomes bits m s :
  (forall id, is_Some (m (outcomes (se_run s)) !! id) -> is_Some (outcomes (se_run s) !! id)) -> open_run s ->
  open_run (s <| se_run ::= fun r => r <| outcomes ::= fun o => number_outcomes 1 bits (m o) |> |>).
Proof using Type.
  intros Hm. apply open_update; [|done]. intros [? ? ? ? ?]. constructor; simpl; try done.
  apply number_outcomes_keys; [done | eauto].
Qed.

Lemma read_execution_open v s s' : open_run s -> read_execution v s = Done s' -> open_run s'.
Proof using Type.
  unfold read_execution. intros Hs H. apply outcome_bind_done in H as (? & _ & H).
  apply outcome_bind_done in H as (n & Hn & H). apply checked_done in Hn. apply Done_inj in H as <-.
  assert (Hr : 0 < n <= max32).
  { refine (result_fold_invariant (fun n => 0 < n <= max32) _ _ _ _ (rt_batch _ (or_typed _ Hs)) _ Hn).
    intros b item b' _ _ Hx. apply result_bind_ok in Hx as (? & _ & Hx). apply result_bind_ok in Hx as (? & Hr & Hx).
    apply require_ok in Hr. apply Ok_inj in Hx as <-. rewrite !andb_true_iff in Hr. destruct Hr as [[_ H1%Z.ltb_lt] H2%Z.leb_le]. done. }
  revert Hs. apply open_update; [|done]. intros [? ? ? ? ?]. by constructor.
Qed.

Lemma read_profile_open v s s' : open_run s -> read_profile v s = Done s' -> open_run s'.
Proof using Type.
  unfold read_profile. intros Hs H. apply outcome_bind_done in H as (p & _ & H). apply Done_inj in H as <-. by apply untyped_open.
Qed.

Lemma read_profile_file_open base v s s' :
  open_run s -> read_profile_file read_file parse_json join base v s = Done s' -> open_run s'.
Proof using Type.
  unfold read_profile_file. intros Hs H. apply outcome_bind_done in H as (path & _ & H).
  apply outcome_bind_done in H as (w & _ & H). by apply read_profile_open in H.
Qed.

Lemma read_cores_open v s s' : open_run s -> read_cores v s = Done s' -> open_run s'.
Proof using Type.
  unfold read_cores. intros [] H. apply outcome_bind_done in H as (? & _ & H). apply Done_inj in H as <-. by constructor.
Qed.

Lemma read_connections_open v s s' : open_run s -> read_connections v s = Done s' -> open_run s'.
Proof using Type.
  unfold read_connections. intros [] H. apply outcome_bind_done in H as (? & _ & H). apply Done_inj in H as <-. by constructor.
Qed.

Lemma read_decoding_open v s s' : open_run s -> read_decoding v s = Done s' -> open_run s'.
Proof using Type.
  unfold read_decoding. intros Hs H. apply outcome_bind_done in H as (? & _ & H). apply Done_inj in H as <-. by apply untyped_open.
Qed.

Lemma json_list_forall {A} (get : J -> result A) (P : A -> Prop) v l :
  (forall v a, get v = Ok a -> P a) -> json_list get v = Ok l -> Forall P l.
Proof using Type.
  unfold json_list. intros Hp H. apply result_bind_ok in H as (? & _ & H). by apply (result_map_forall get P) in H.
Qed.

(** Each member of a run file is one of these. *)
Ltac member_open :=
  intros ? ? ? Ho Hv;
  first
    [ by apply read_cores_open in Hv | by apply read_connections_open in Hv | by apply read_decoding_open in Hv
    | by apply read_execution_open in Hv | by apply read_profile_open in Hv | by apply read_profile_file_open in Hv
    | eapply into_open in Hv; [exact Hv | | exact Ho]; intros ? ? Ha ?;
      first
        [ by apply untyped_open
        | apply set_memory_base; [by apply json_word_u32 in Ha | done]
        | apply set_memory_size; [by apply json_word_u32 in Ha | done]
        | apply set_raw_base; [by apply json_word_u32 in Ha | done]
        | apply (set_resets (fun _ => _)); [intros _; exact (json_list_forall _ _ _ _ json_number_u64 Ha) | done]
        | apply (set_inspect (fun _ => _)); [intros _; exact (json_list_forall _ _ _ _ json_word_u32 Ha) | done]
        | apply (set_outcomes _ (fun _ => ∅)); [by intros ? [? ?] | done] ] ].

Lemma apply_run_config_open config base s s' :
  open_run s -> apply_run_config read_file parse_json join config base s = Done s' -> open_run s'.
Proof using Hget.
  unfold apply_run_config. intros Hs H.
  apply outcome_bind_done in H as (? & _ & H). apply outcome_bind_done in H as (? & _ & H).
  apply outcome_bind_done in H as (? & _ & H). cbv zeta in H.
  apply (untyped_open (fun r => r <| config_base := base |>)) in Hs; [|done].
  repeat (let H1 := fresh in let t := fresh in apply outcome_bind_done in H as (t & H1 & H);
          apply reading_open in H1; [clear Hs; rename H1 into Hs | member_open | exact Hs]).
  revert H. apply reading_open; [member_open | exact Hs].
Qed.

(** ** The options *)

(** [v] is given to [argument] somewhere on the command line. *)
Definition given (arguments : list string) (argument v : string) : Prop :=
  exists before after, arguments = before ++ argument :: v :: after.

(** A run that an option returns at once lists no cores. *)
Definition returned (arguments : list string) (r : RunConfig J) : Prop :=
  run_typed r /\ rc_cores r = [] /\ rc_connections r = [] /\
  (help r = true \/ (exists v, simulation_config r = absolute v) \/ dump_profile r <> "" \/
   given arguments "--dump-default-profile" "").

Definition step_ok (arguments : list string) (step : Step J) : Prop :=
  match step with Continue s => open_run s | Return r => returned arguments r end.

Definition option_ok (arguments : list string) (argument : string) (o : Option_ J) : Prop :=
  match o with
  | Plain f => forall s, open_run s -> step_ok arguments (f s)
  | Valued f => forall v s step, given arguments argument v -> open_run s -> f v s = Done step -> step_ok arguments step
  end.

Lemma run_set_ok arguments argument f : untyped f -> option_ok arguments argument (run_set f).
Proof using Type. intros Hf s Hs. by apply untyped_open. Qed.

Lemma run_value_ok {A} arguments argument (get : string -> outcome A) set :
  (forall v a s, get v = Done a -> open_run s -> open_run (s <| se_run ::= set a |>)) ->
  option_ok arguments argument (run_value get set).
Proof using Type.
  intros Hset v s step _ Hs H. apply outcome_bind_done in H as (a & Ha & H). apply Done_inj in H as <-. by apply (Hset v).
Qed.

Lemma config_option_ok arguments argument :
  option_ok arguments argument (Valued (config_option read_file parse_json absolute parent_path join arguments)).
Proof using Hget.
  intros v s step _ Hs H. unfold config_option in H. apply outcome_bind_done in H as (config & _ & H).
  apply outcome_bind_done in H as (? & _ & H). cbv zeta in H. destruct (contains config "simulation").
  - apply outcome_bind_done in H as (? & _ & H). apply Done_inj in H as <-. destruct Hs as [Ht (H1 & H2 & _) _ _ _].
    split_and!; [|done..|right; left; by exists v]. destruct Ht. by constructor.
  - apply outcome_bind_done in H as (s' & Hs' & H). apply Done_inj in H as <-. by apply apply_run_config_open in Hs'.
Qed.

Lemma outcomes_option_ok arguments argument : option_ok arguments argument (Valued outcomes_option).
Proof using Type.
  intros v s step _ Hs H. unfold outcomes_option in H. apply outcome_bind_done in H as (bits & _ & H).
  apply Done_inj in H as <-. by apply (set_outcomes bits (fun o => o)).
Qed.

Lemma profile_option_ok arguments argument : option_ok arguments argument (Valued (profile_option read_file parse_json)).
Proof using Type.
  intros v s step _ Hs H. unfold profile_option in H. apply outcome_bind_done in H as (j & _ & H).
  apply outcome_bind_done in H as (s' & Hs' & H). apply Done_inj in H as <-. by apply read_profile_open in Hs'.
Qed.

Lemma help_ok arguments argument : option_ok arguments argument (Plain (fun s => Return (se_run s <| help := true |>))).
Proof using Type. intros s [[] (? & ? & ?) ? ? ?]. split_and!; [by constructor | done | done | by left]. Qed.

Lemma dump_ok arguments :
  option_ok arguments "--dump-default-profile" (Valued (fun v s => Done (Return (se_run s <| dump_profile := v |>)))).
Proof using Type.
  intros v s step Ha [[] (? & ? & ?) ? ? ?] Hd. apply Done_inj in Hd as <-.
  split_and!; [by constructor | done | done |]. right; right. destruct (String.eqb_spec v "") as [->|Hv]; [by right | by left].
Qed.

Ltac value_ok :=
  apply run_value_ok; intros ? ? ? Hv ?;
  first
    [ by apply untyped_open
    | apply set_memory_base; [by apply word_u32 in Hv | done]
    | apply set_memory_size; [by apply word_u32 in Hv | done]
    | apply set_raw_base; [by apply word_u32 in Hv | done]
    | apply (set_resets (fun l => l ++ [_])); [intros ?; apply Forall_app_2; [done | by apply Forall_singleton, (number_u64 _ _ Hv)] | done]
    | apply (set_inspect (fun l => l ++ [_])); [intros ?; apply Forall_app_2; [done | by apply Forall_singleton, (word_u32 _ _ Hv)] | done] ].

Lemma option_of_ok arguments argument o :
  option_of read_file parse_json absolute parent_path join arguments argument = Some o -> option_ok arguments argument o.
Proof using Hget.
  unfold option_of. intros H.
  repeat match type of H with
  | (if String.eqb argument ?k then Some ?o' else _) = _ =>
      let E := fresh "E" in destruct (String.eqb argument k) eqn:E;
      [injection H as <-;
       first [ apply help_ok | apply config_option_ok | apply outcomes_option_ok | apply profile_option_ok
             | apply String.eqb_eq in E as ->; apply dump_ok | by apply run_set_ok | value_ok ]
      | clear E]
  end.
  discriminate H.
Qed.

Lemma parse_arguments_ok arguments rest s step :
  (exists before, arguments = before ++ rest) -> open_run s -> parse arguments rest s = Done step -> step_ok arguments step.
Proof using Hget.
  remember (length rest) as n eqn:En. assert (Hn : (length rest <= n)%nat) by lia. clear En.
  revert rest s Hn. induction n as [|n IH]; intros [|argument rest] s Hn Hsub Hs H; simpl in Hn, H; try lia;
    try (by apply Done_inj in H as <-).
  destruct Hsub as [before Hsub].
  assert (Hrest : exists before, arguments = before ++ rest)
    by (exists (before ++ [argument]); by rewrite <-app_assoc).
  destruct (option_of _ _ _ _ _ _ argument) as [[f|f]|] eqn:Eo; [| |done]; apply option_of_ok in Eo; try done.
  - specialize (Eo s Hs). destruct (f s) as [s'|r]; [|by apply Done_inj in H as <-]. by apply (IH rest s'); [lia|..].
  - destruct rest as [|v rest]; [done|]. apply outcome_bind_done in H as (st & Hf & H). specialize (Eo v s st (ex_intro _ before (ex_intro _ rest Hsub)) Hs Hf).
    destruct st as [s'|r]; [|by apply Done_inj in H as <-].
    apply (IH rest s'); [simpl in Hn; lia | | done..].
    exists (before ++ [argument; v]). by rewrite <-app_assoc.
Qed.

(** ** The cores and connections of a run *)
Definition core_accepted (c : CoreSpec) : Prop :=
  u32 (cs_id c) /\ u32 (cs_sync_capacity c) /\ profile_validate (cs_profile c) = Ok () /\
  (cs_cpu_model c = "rv32" \/ cs_cpu_model c = "vliw").

Definition connection_typed (c : SyncConnection) : Prop :=
  u32 (first c) /\ u32 (second c) /\ u64 (first_to_second c) /\ u64 (second_to_first c) /\ u32 (connection_capacity c).

Lemma cpu_factory_ok model f : cpu_factory model = Ok f -> model = "rv32" \/ model = "vliw".
Proof using Type.
  unfold cpu_factory. intros H. apply result_bind_ok in H as (? & H & _). apply require_ok, orb_true_iff in H.
  rewrite !String.eqb_eq in H. done.
Qed.

Lemma setting_u32 (v : J) key fallback n : u32 fallback -> setting v key json_word fallback = Ok n -> u32 n.
Proof using Hget.
  unfold setting. intros Hf H. destruct (contains v key); [|by apply Ok_inj in H as <-].
  apply result_bind_ok in H as (w & _ & H). by apply json_word_u32 in H.
Qed.

Lemma resolve_core_ok profile model base (v : J) c :
  resolve_core read_file parse_json join profile model base v = Done c -> core_accepted c.
Proof using Hget.
  unfold resolve_core. intros H. apply outcome_bind_done in H as (? & _ & H). apply outcome_bind_done in H as (? & _ & H).
  apply outcome_bind_done in H as (p0 & _ & H). apply outcome_bind_done in H as (p & _ & H).
  apply outcome_bind_done in H as (m & _ & H). apply outcome_bind_done in H as (id & Hid & H).
  apply outcome_bind_done in H as (path & _ & H). apply outcome_bind_done in H as (capacity & Hc & H).
  apply outcome_bind_done in H as ([] & Hp & H). apply outcome_bind_done in H as (f & Hm & H).
  apply Done_inj in H as <-. apply checked_done in Hid, Hc, Hp, Hm. apply result_bind_ok in Hid as (w & _ & Hid).
  apply json_word_u32 in Hid. apply setting_u32 in Hc; [|done]. apply cpu_factory_ok in Hm. by split_and!.
Qed.

Lemma configure_connection_ok (v : J) c : configure_connection v = Ok c -> connection_typed c.
Proof using Hget.
  unfold configure_connection. intros H. do 3 apply result_bind_ok in H as ([] & _ & H).
  apply result_bind_ok in H as (a & Ha & H). apply result_bind_ok in H as (b & Hb & H).
  apply result_bind_ok in H as (ab & Hab & H). apply result_bind_ok in H as (ba & Hba & H).
  apply result_bind_ok in H as (capacity & Hc & H). apply Ok_inj in H as <-.
  apply result_bind_ok in Ha as (? & _ & Ha). apply result_bind_ok in Hb as (? & _ & Hb).
  apply result_bind_ok in Hab as (? & _ & Hab). apply result_bind_ok in Hba as (? & _ & Hba).
  apply json_word_u32 in Ha, Hb. apply json_number_u64 in Hab, Hba. apply setting_u32 in Hc; [|done]. by split_and!.
Qed.

Lemma resolve_cores_ok profile path (settings : J) model base cores :
  profile_validate profile = Ok () -> resolve_cores read_file parse_json join profile path settings model base = Done cores ->
  Forall core_accepted cores /\ cores <> [] /\
  (array_empty settings = true -> cores = [mkCoreSpec 0 profile path model 8]).
Proof using Hget.
  unfold resolve_cores, array_empty. intros Hv H. destruct (elements settings) as [|e es].
  - apply outcome_bind_done in H as (f & Hf & H). apply checked_done, cpu_factory_ok in Hf. apply Done_inj in H as <-.
    split_and!; [|done..]. apply Forall_singleton. by split_and!.
  - apply (outcome_map_forall _ core_accepted) in H as [Hc Hlen]; [|intros v c; apply resolve_core_ok].
    split_and!; [done | by destruct cores | done].
Qed.

Lemma run_new_open directory r (a b : J) : run_new directory = Done r -> open_run (mkSettings r a b).
Proof using Type.
  unfold run_new. intros H. apply outcome_bind_done in H as (p & _ & H). apply Done_inj in H as <-.
  constructor; try done. constructor; simpl; try done. by intros id [? ?].
Qed.

(** A run that the simulator executes. *)
Definition executes (r : RunConfig J) : Prop :=
  backend_command r = "" /\ help r = false /\ dump_profile r = "" /\ simulation_config r = "".

Definition run_cores_ok (r : RunConfig J) : Prop :=
  rc_cores r <> [] /\ profile_validate (rc_profile r) = Ok () /\
  if multicore r then program r = "" /\ raw r = false /\ inspect r = [] /\ memory_dump r = ""
  else rc_cores r = [mkCoreSpec 0 (rc_profile r) (program r) (cpu_model r) 8] /\ program r <> "".

Lemma finish_run_ok s r :
  open_run s -> finish_run read_file parse_json join s = Done r ->
  run_typed r /\ Forall core_accepted (rc_cores r) /\ Forall connection_typed (rc_connections r) /\
  (executes r -> run_cores_ok r).
Proof using Hget.
  intros [Ht (Hc & Hs & Hm) Hh Hd Hsim] H. unfold finish_run in H. cbv zeta in H.
  destruct (String.eqb_spec (backend_command (se_run s)) "") as [E|E]; cbn [negb] in H.
  2: { apply Done_inj in H as <-. rewrite Hc, Hs. split_and!; [done | constructor | constructor | by intros [? _]]. }
  apply outcome_bind_done in H as ([] & H1 & H). apply outcome_bind_done in H as ([] & H2 & H).
  apply outcome_bind_done in H as ([] & _ & H). apply outcome_bind_done in H as ([] & Hv & H).
  apply outcome_bind_done in H as (cores & Hcores & H). apply outcome_bind_done in H as (links & Hl & H).
  apply Done_inj in H as <-. apply checked_done in H1, H2, Hv, Hl. apply require_ok in H1, H2.
  apply resolve_cores_ok in Hcores as (K1 & K2 & K3); [|done].
  apply (result_map_forall _ connection_typed) in Hl; [|intros v c; apply configure_connection_ok].
  split_and!; [by destruct Ht | done | done|]. intros _. split_and!; [done | done|]. simpl.
  destruct (array_empty (core_settings s)); simpl in *.
  - split; [by apply K3|]. rewrite orb_false_r in H1. apply negb_true_iff, String.eqb_neq in H1. done.
  - rewrite !andb_true_iff, negb_true_iff, !String.eqb_eq in H2. destruct H2 as [[[? ?] ?] ?].
    split_and!; try done. by destruct (inspect _).
Qed.

(** C28. A command line that is accepted gives a well-formed run.  Members fit their C++ types; every
    core has a profile that validates, a known CPU model and word-size numbers; connections fit their
    types; and a run that is to be executed has cores: one, made of the run's own program and profile,
    or those of a run file, which then excludes a program, raw_base, inspect and memory_dump.  The one
    exception is a command line that gives --dump-default-profile an empty path: its run has no cores.
    Absolute paths are assumed not to be empty, as std::filesystem::absolute promises. *)
Theorem parsed_run_valid (arguments : list string) (directory : string) (r : RunConfig J) :
  (forall v, absolute v <> "") -> parse_run arguments directory = Done r ->
  run_typed r /\ Forall core_accepted (rc_cores r) /\ Forall connection_typed (rc_connections r) /\
  (executes r -> run_cores_ok r \/ rc_cores r = [] /\ given arguments "--dump-default-profile" "").
Proof using Hget.
  intros Habs H. unfold parse_run_config in H. apply outcome_bind_done in H as (r0 & H0 & H).
  apply outcome_bind_done in H as (step & H1 & H).
  apply parse_arguments_ok in H1; [|by exists [] | exact (run_new_open _ _ _ _ H0)].
  destruct step as [s|r1].
  { apply finish_run_ok in H as (K1 & K2 & K3 & K4); [|done]. split_and!; [done..|]. intros Hx. left. by apply K4. }
  apply Done_inj in H as <-. destruct H1 as (Ht & -> & -> & Hr). split_and!; [done | constructor | constructor|].
  intros (_ & He & Hd & Hsim). destruct Hr as [Hr|[[v Hr]|[Hr|Hr]]]; [congruence | | done | by right].
  exfalso. apply (Habs v). congruence.
Qed.

(** ** The order of the options *)

(** A list of options none of which lacks its value. *)
Fixpoint complete (arguments l : list string) : bool :=
  match l with
  | [] => true
  | argument :: rest =>
      match option_of read_file parse_json absolute parent_path join arguments argument with
      | None => false
      | Some (Plain _) => complete arguments rest
      | Some (Valued _) => match rest with [] => false | _ :: rest => complete arguments rest end
      end
  end.

Definition then_parse (arguments after : list string) (step : Step J) : outcome (Step J) :=
  match step with Continue s => parse arguments after s | Return r => Done (Return r) end.

Lemma parse_app arguments before after s :
  complete arguments before = true ->
  parse arguments (before ++ after) s = outcome_bind (parse arguments before s) (then_parse arguments after).
Proof using Type.
  remember (length before) as n eqn:En. assert (Hn : (length before <= n)%nat) by lia. clear En.
  revert before s Hn. induction n as [|n IH]; intros [|argument rest] s Hn H; simpl in *; try done; try lia.
  destruct (option_of _ _ _ _ _ _ argument) as [[f|f]|]; [| |done].
  - destruct (f s) as [s'|r]; [|done]. apply IH; [lia | done].
  - destruct rest as [|v rest]; [done|]. simpl. destruct (f v s) as [[s'|r]| |]; cbn [outcome_bind]; try done.
    apply IH; [simpl in Hn; lia | done].
Qed.

(** The options that set one value. *)
Definition scalar_options : list string :=
  ["--program"; "--backend"; "--cpu-model"; "--trace"; "--summary"; "--memory-dump"; "--python-path"; "--memory-base";
   "--memory-size"; "--raw-base"; "--seed"; "--start"].

(** An option whose value replaces what the same option set before. *)
Definition overrides (o : Option_ J) : Prop :=
  match o with
  | Plain _ => False
  | Valued f => forall v w s step, f v s = Done step -> exists s1, step = Continue s1 /\ f w s1 = f w s
  end.

Lemma run_value_overrides {A} (get : string -> outcome A) set :
  (forall a b (r : RunConfig J), set b (set a r) = set b r) -> overrides (run_value get set).
Proof using Type.
  intros Hset v w s step H. apply outcome_bind_done in H as (a & _ & H). apply Done_inj in H as <-.
  eexists. split; [reflexivity|]. destruct (get w) as [b| |]; [|done..]. simpl. by rewrite Hset.
Qed.

Lemma scalar_overrides arguments k :
  k ∈ scalar_options ->
  exists o, option_of read_file parse_json absolute parent_path join arguments k = Some o /\ overrides o.
Proof using Type.
  intros Hk.
  repeat (apply elem_of_cons in Hk as [->|Hk]; [eexists; split; [reflexivity | by apply run_value_overrides]|]).
  by apply elem_of_nil in Hk.
Qed.

(** Options are applied from left to right and later values override earlier ones.  Parsing a list
    of complete options and then more is parsing the one and continuing with its settings, unless it
    has returned or failed; and a single-valued option given twice behaves as if only the second were
    there, provided the first is accepted. *)
Theorem options_in_order (arguments before after : list string) (s : Settings J) :
  complete arguments before = true ->
  parse arguments (before ++ after) s = outcome_bind (parse arguments before s) (then_parse arguments after) /\
  (forall k v w, k ∈ scalar_options -> is_Some (match parse arguments [k; v] s with Done x => Some x | _ => None end) ->
     parse arguments (k :: v :: k :: w :: after) s = parse arguments (k :: w :: after) s).
Proof using Type.
  intros Hb. split; [by apply parse_app|]. intros k v w Hk [step Hstep].
  destruct (scalar_overrides arguments k Hk) as (o & Ho & Hover). simpl in *. rewrite Ho in *.
  destruct o as [f|f]; [done|]. destruct (f v s) as [st| |] eqn:Ef; [|done..]. simpl in *.
  destruct (Hover v w s st Ef) as (s1 & -> & E). by rewrite E.
Qed.
End Accepted.

(** ** Examples: a file system of two run files *)
Definition example_files (path : string) : option string :=
  if String.eqb path "/a/run.json" || String.eqb path "/b/more.json" then Some path else None.
Definition example_json (text : string) : outcome Json :=
  if String.eqb text "/a/run.json" then
    Done (JObject [("schema", JUnsigned 1);
                   ("cores", JArray [JObject [("id", JUnsigned 3); ("program", JString "p.elf")]]);
                   ("outcomes", JArray [JBool true; JBool true])])
  else Done (JObject [("schema", JUnsigned 1); ("trace_stalls", JBool false)]).
Definition example_parent (path : string) : string := String.substring 0 2 path.
Definition example_join (base path : string) : string := base +:+ "/" +:+ path.
Definition example_parse (arguments : list string) : outcome (RunConfig Json) :=
  parse_run_config example_files example_json (fun p => p) example_parent example_join arguments "".

Lemma json_u64 (v : Json) : u64 (get_u64 v).
Proof. destruct v; simpl; try apply wrap64_u64; done. Qed.

Definition absolute_path (p : string) : string := String.append "/" (String.substring 1 (String.length p) p).

Definition example_command : list string := ["--config"; "/a/run.json"; "--memory-size"; "0x1000"; "--trace"; "t"].

Lemma example_has_cores r :
  parse_run_config example_files example_json absolute_path example_parent example_join example_command "" = Done r ->
  rc_cores r <> [].
Proof.
  assert (E : match parse_run_config example_files example_json absolute_path example_parent example_join example_command "" with
              | Done r => rc_cores r <> [] | _ => True end) by (vm_compute; discriminate).
  intros Er. rewrite Er in E. exact E.
Qed.

Lemma parsed_run_valid_witness :
  exists r, parse_run_config example_files example_json absolute_path example_parent example_join example_command "" = Done r /\
    memory_size r = 4096 /\ executes r /\ run_cores_ok r /\ Forall core_accepted (rc_cores r).
Proof.
  assert (E : match parse_run_config example_files example_json absolute_path example_parent example_join example_command "" with
              | Done r => memory_size r = 4096 /\ executes r | _ => False end) by (vm_compute; by split_and!).
  destruct (parse_run_config _ _ _ _ _ _ _) as [r| |] eqn:Er; [|done..]. exists r. destruct E as [E1 E2].
  destruct (parsed_run_valid example_files example_json absolute_path example_parent example_join json_u64
    example_command "" r ltac:(intros v H; discriminate H) Er) as (_ & Hc & _ & Hx).
  destruct (Hx E2) as [Hok|[Hnone _]].
  - exact (conj eq_refl (conj E1 (conj E2 (conj Hok Hc)))).
  - exfalso. revert E1 Er Hnone. clear. intros _ Er Hnone. apply example_has_cores in Er. contradiction.
Defined.

(** With an empty path the run is neither a dump nor one that has cores. *)
Example empty_dump_has_no_cores :
  match example_parse ["--dump-default-profile"; ""] with
  | Done r => executes r /\ rc_cores r = [] /\ help r = false
  | _ => False
  end.
Proof. vm_compute. by split_and!. Qed.

Lemma options_in_order_witness :
  exists s : Settings Json,
    parse_arguments example_files example_json absolute_path example_parent example_join example_command
      ["--seed"; "1"; "--seed"; "2"] s =
    parse_arguments example_files example_json absolute_path example_parent example_join example_command ["--seed"; "2"] s.
Proof.
  destruct (run_new (J := Json) "") as [r| |] eqn:Er; [|vm_compute in Er; discriminate Er..].
  exists (mkSettings r (JArray []) (JArray [])).
  refine (proj2 (options_in_order example_files example_json absolute_path example_parent example_join example_command
    [] [] (mkSettings r (JArray []) (JArray [])) eq_refl) "--seed" "1" "2" _ _).
  - apply (bool_decide_unpack _). vm_compute. exact I.
  - vm_compute. by eexists.
Defined.

(** Bits that a run file sets and the option omits keep the file's value. *)
Example outcomes_not_cleared :
  match example_parse ["--config"; "/a/run.json"; "--outcomes"; "0"] with
  | Done r => outcomes r !! 1 = Some false /\ outcomes r !! 2 = Some true
  | _ => False
  end.
Proof. vm_compute. by split. Qed.

(** The programs of an earlier run file's cores are found relative to the last run file. *)
Example cores_follow_last_config :
  match example_parse ["--config"; "/a/run.json"; "--config"; "/b/more.json"] with
  | Done r => map cs_program (rc_cores r) = ["/b/p.elf"]
  | _ => False
  end.
Proof. vm_compute. reflexivity. Qed.

(** ** From a run to the simulator's cores *)
Section Build.
Context (show_double : double -> string) (read_bytes : string -> option (list Z)) (memory : MemoryConfig).

Lemma mailbox_builds {T} cap rx lat :
  0 < cap -> clock_validate rx = Ok () -> 0 < lat -> exists m : Mailbox T, mailbox_new cap rx lat = Ok m.
Proof using Type.
  intros Hc Hx Hl. unfold mailbox_new, require. rewrite Hx. apply Z.ltb_lt in Hc, Hl. rewrite Hc, Hl. simpl. by eexists.
Qed.

Lemma port_builds c : clock_validate c = Ok () -> exists p, port_new c = Ok p.
Proof using Type.
  intros Hc. unfold port_new. destruct (mailbox_builds (T := MemoryRequest) 1 c 1) as [a ->]; [done..|].
  destruct (mailbox_builds (T := MemoryResponse) 1 c 1) as [b ->]; [done..|]. by eexists.
Qed.

Lemma links_build t :
  clock_validate (tr_cpu t) = Ok () -> clock_validate (tr_tcu t) = Ok () -> 0 < tr_command t -> 0 < tr_reply t ->
  0 < tr_cpu_result t -> 0 < tr_fast_result t -> 0 < tr_result_capacity t -> exists l, links_new t = Ok l.
Proof using Type.
  intros Hc Ht H1 H2 H3 H4 H5. unfold links_new.
  repeat match goal with |- context [@mailbox_new ?T ?a ?c ?l] =>
    let E := fresh "E" in destruct (mailbox_builds (T := T) a c l) as [? E]; [done..|]; rewrite E; clear E; cbn [result_bind] end.
  by eexists.
Qed.

(** What the construction of a core checks beyond its profile is the capacity of its synchronization unit. *)
Lemma core_builds config identify :
  profile_bounded (cc_profile config) -> profile_validate (cc_profile config) = Ok () ->
  is_Some (make_cpu (cc_factory config) (cpu_clock (cc_profile config)) (entry (cc_image config))) ->
  if 0 <? cc_sync_capacity config then
    exists c, core_new show_double config identify = Ok c /\ core_id c = cc_id config /\ co_profile c = cc_profile config /\
      mem_image (co_memory c) = cc_image config /\
      make_cpu (cc_factory config) (cpu_clock (cc_profile config)) (entry (cc_image config)) = Some (co_cpu c)
  else core_new show_double config identify = Fault InvalidProfile.
Proof using Type.
  intros Hb Hv [cpu Hcpu]. pose proof (profile_validate_ok _ Hb Hv) as P. pose proof (pv_positive _ P) as Hpos.
  rewrite !Forall_cons in Hpos. destruct Hpos as (Hlat & ? & ? & ? & ? & ? & ? & ? & ? & _). apply Z.ltb_lt in Hlat.
  destruct (timing_config_of_valid show_double _ P) as (timing & Ht & _). unfold core_new. cbv zeta. rewrite Ht.
  cbn [result_bind]. destruct (links_build (transport_config (cc_profile config))) as [l ->];
    [apply (pv_cpu _ P) | apply (pv_tcu _ P) | done.. |]. cbn [result_bind].
  destruct (port_builds _ (pv_cpu _ P)) as [port ->]. cbn [result_bind]. unfold memory_new. rewrite (pv_cpu _ P), Hlat.
  unfold tcu_config. rewrite Ht. unfold tcu_new. rewrite Hv, Hcpu.
  destruct (0 <? cc_sync_capacity config); [|reflexivity]. eexists. by split_and!.
Qed.

(** C29. Every core of an accepted run can be built.  When the program of a core is read, the
    simulator's core has the core's number, its profile, its program and the pipeline of its CPU model,
    waiting at the program's entry; its construction succeeds if the synchronization capacity is not
    zero, which is the one thing the run's checks leave open. *)
Theorem accepted_core_builds (spec : CoreSpec) (config : CoreConfig) (identify : bool) :
  core_accepted spec -> profile_bounded (cs_profile spec) -> configure_core read_bytes memory spec = Ok config ->
  load_image read_bytes memory (cs_program spec) = Ok (cc_image config) /\
  if 0 <? cs_sync_capacity spec then
    exists c, core_new show_double config identify = Ok c /\ core_id c = cs_id spec /\ co_profile c = cs_profile spec /\
      mem_image (co_memory c) = cc_image config /\ pc_ (co_cpu c) = entry (cc_image config) /\
      issue_ (co_cpu c) = (if String.eqb (cs_cpu_model spec) "vliw" then DualCodeword else Scalar)
  else core_new show_double config identify = Fault InvalidProfile.
Proof using Type.
  intros (_ & Hcap & Hv & Hmodel) Hb H. unfold configure_core in H. apply result_bind_ok in H as (image & Hi & H).
  apply result_bind_ok in H as (factory & Hf & H). apply Ok_inj in H as <-. split; [exact Hi|].
  set (config := mkCoreConfig _ _ _ _ _).
  assert (Hcpu : exists cpu, make_cpu factory (cpu_clock (cs_profile spec)) (entry image) = Some cpu /\ pc_ cpu = entry image /\
    issue_ cpu = (if String.eqb (cs_cpu_model spec) "vliw" then DualCodeword else Scalar)).
  { unfold cpu_factory in Hf. apply result_bind_ok in Hf as (? & _ & Hf). apply Ok_inj in Hf as <-.
    destruct (String.eqb (cs_cpu_model spec) "vliw"); by eexists. }
  destruct Hcpu as (cpu & Hcpu & Hpc & Hissue).
  pose proof (core_builds config identify Hb Hv ltac:(by exists cpu)) as Hbuild. change (cc_sync_capacity config) with (cs_sync_capacity spec) in Hbuild.
  destruct (0 <? cs_sync_capacity spec); [|exact Hbuild]. destruct Hbuild as (c & H1 & H2 & H3 & H4 & H5).
  change (make_cpu factory (cpu_clock (cs_profile spec)) (entry image) = Some (co_cpu c)) in H5.
  assert (E : co_cpu c = cpu) by congruence. exists c. rewrite E. by split_and!.
Qed.
End Build.

Definition example_bytes (path : string) : option (list Z) := Some [19; 0; 0; 0].
Definition example_memory : MemoryConfig := mkMemoryConfig 4096 4096 (Some 4096).
Definition example_spec : CoreSpec := mkCoreSpec 3 default_unchecked "p.bin" "vliw" 8.

Lemma accepted_core_builds_witness :
  exists config c, configure_core example_bytes example_memory example_spec = Ok config /\
    core_new (fun _ => "0"%string) config true = Ok c /\ core_id c = 3 /\ issue_ (co_cpu c) = DualCodeword.
Proof.
  destruct (configure_core example_bytes example_memory example_spec) as [config|] eqn:E; [|vm_compute in E; discriminate E].
  assert (Hs : core_accepted example_spec) by (split_and!; [done..| vm_compute; reflexivity | by right]).
  destruct (accepted_core_builds (fun _ => "0"%string) example_bytes example_memory example_spec config true Hs default_bounded E)
    as (_ & c & H1 & H2 & _ & _ & _ & H6).
  exact (ex_intro _ config (ex_intro _ c (conj eq_refl (conj H1 (conj H2 H6))))).
Defined.
