(* ===== verification/Output.v ===== *)
(** * The run summary (src/app/output.cpp)

    [simulation_summary] collects what a finished simulation leaves into one JSON object.  Reading the
    quantum state executes what the backend still has pending.  The backend's state and density matrix
    are parameters ([IQuantumBackend::state], [IQuantumBackend::density_matrix]), which may throw any
    exception, as are the time stamp of SystemC, the text of a fault and how doubles are printed in the
    fingerprint. *)

From stdpp Require Import pretty.
From S2P Require Import Prelude Error Time Event Trace Mailbox Isa ControlCommand Image Memory Mmio Decoder.
From S2P Require Import Feedback Profile Protocol TimingControl Tcu Sync Backend Resources Gates Readouts Electronics Pipeline Core.
From S2P Require Import Simulator Schedule ProfileJson Arguments.
#[local] Open Scope string_scope.
#[local] Open Scope list_scope.
#[local] Open Scope Z_scope.

(** [object[key] = value]. *)
Fixpoint set_member {A} (key : string) (v : A) (l : list (string * A)) : list (string * A) :=
  match l with
  | [] => [(key, v)]
  | (k, x) :: l => if String.eqb k key then (k, v) :: l else (k, x) :: set_member key v l
  end.

(** [object.update(other)]. *)
Definition update_members {A} (l other : list (string * A)) : list (string * A) :=
  fold_left (fun l m => set_member (fst m) (snd m) l) other l.

(** A computation on a state that also throws exceptions other than faults. *)
Definition m_throwing {S A C} (m : M S (outcome A)) (k : A -> M S (outcome C)) : M S (outcome C) :=
  m_bind m (fun x =>
    match x with Done a => k a | Thrown e => m_ret (Thrown e) | StdException => m_ret StdException end).
Notation "'let^!' x ':=' c 'in' k" := (m_throwing c (fun x => k))
  (at level 10, x name, c at level 99, k at level 200) : qsbit_scope.

Lemma m_throwing_done {S A C} (m : M S (outcome A)) (k : A -> M S (outcome C)) s c s' :
  m_throwing m k s = (Ok (Done c), s') -> exists a s1, m s = (Ok (Done a), s1) /\ k a s1 = (Ok (Done c), s').
Proof.
  intros H. apply m_bind_ok in H as (x & s1 & H1 & H). destruct x as [a|e|]; [by exists a, s1 | discriminate H..].
Qed.

Section Output.
Context {J : Type} `{HJ : JsonLib J} {B : Type} `{HQ : QuantumBackend B}.
Context (json_null : J) (show_double : double -> string).
Context (backend_state : B -> outcome (list (double * double))).
Context (backend_density : B -> outcome (list (list (double * double)))).

Definition measurement_json (r : MeasurementRegister) : J :=
  json_object [("pending", json_unsigned (reg_pending r)); ("valid", json_bool (reg_pending r =? 0));
               ("value", json_bool (reg_value r))].

Definition core_summary (c : Core) (model : string) : list (string * J) :=
  [("cpu_model", json_string model); ("configuration", profile_json (co_profile c));
   ("registers", json_array (map json_unsigned (registers_ (co_cpu c)))); ("pc", json_unsigned (pc_ (co_cpu c)));
   ("exit_code", if halted_ (co_cpu c) then json_unsigned (register (co_cpu c) 10) else json_null);
   ("measurement_registers", json_array (map measurement_json (registers (co_registers c))))].

(** A core of a run with several. *)
Definition core_entry (c : Core) (model : string) : J :=
  json_object (set_member "drained" (json_bool (core_drained c))
                (set_member "id" (json_unsigned (core_id c)) (core_summary c model))).

Definition connection_json (n : SyncConnection) : J :=
  json_object [("first", json_unsigned (first n)); ("second", json_unsigned (second n));
    ("first_to_second", json_unsigned (first_to_second n)); ("second_to_first", json_unsigned (second_to_first n));
    ("capacity", json_unsigned (connection_capacity n))].

Definition amplitude_json (a : double * double) : J := json_array [json_double (fst a); json_double (snd a)].

(** [sim.memory()]: the memory of the first core; [cores_] is not empty. *)
Definition sim_memory (s : Simulator B) : result ProgramImage :=
  match cores_ s with c :: _ => Ok (mem_image (co_memory c)) | [] => Fault Protocol end.

(** [sim.backend()]: [state] and [density_matrix] flush first. *)
Definition on_sim_backend {A} (m : M (BackendExecution B) A) : M (Simulator B) A :=
  m_zoom (fun s => ce_backend (device_ s)) (fun b s => s <| device_ ::= fun d => d <| ce_backend := b |> |>) m.
Definition read_backend {A} (f : B -> outcome A) : M (Simulator B) (outcome A) :=
  on_sim_backend (do! execution_flush in let! x := m_get in m_ret (f (be_backend x))).

Record SummaryOptions := mkSummaryOptions {
  so_backend : string; so_options : J; so_batch : Z; so_models : list string;
  so_connections : list SyncConnection; so_inspect : list Z; so_multicore : bool }.

(** The members of the literal [result] starts as, and of [if (sim.fault())]. *)
Definition verdict_members (stop : Tick) (message : string) (o : SummaryOptions) (s : Simulator B) : list (string * J) :=
  let l := [("schema", json_unsigned 1); ("success", json_bool (success_ s)); ("stop_tick", json_unsigned stop);
            ("backend", json_string (so_backend o)); ("backend_options", so_options o);
            ("backend_execution", json_object [("max_batch_operations", json_unsigned (so_batch o))]);
            ("statevector", json_array []); ("memory", json_object [])] in
  match fault_ s with
  | Some code => set_member "message" (json_string message) (set_member "fault" (json_string (error_name code)) l)
  | None => l
  end.

(** [models[i]] is as long as the cores. *)
Definition core_members (o : SummaryOptions) (s : Simulator B) (l : list (string * J)) : result (list (string * J)) :=
  if so_multicore o then
    let entries := map (fun p => core_entry (fst p) (snd p)) (zip (cores_ s) (so_models o)) in
    Ok (set_member "sync_connections" (json_array (map connection_json (so_connections o)))
          (set_member "cores" (json_array entries) l))
  else
    match cores_ s, so_models o with
    | c :: _, model :: _ =>
        Ok (set_member "configuration_hash" (json_string (fingerprint show_double (co_profile c)))
              (update_members l (core_summary c model)))
    | _, _ => Fault Protocol
    end.

Definition density_members (rows : list (list (double * double))) (l : list (string * J)) : list (string * J) :=
  match rows with
  | [] => l
  | _ => set_member "density_matrix" (json_array (map (fun row => json_array (map amplitude_json row)) rows)) l
  end.

(** [result["memory"][std::to_string(address)]] for the inspected words, in order. *)
Definition inspected (image : ProgramImage) (addresses : list Z) : result (list (string * J)) :=
  result_fold (fun l address =>
    let? w := image_read image address 4 false in
    Ok (set_member (pretty address) (json_unsigned w) l)) addresses [].

Definition simulation_summary (stop : Tick) (message : string) (o : SummaryOptions) : M (Simulator B) (outcome J) :=
  let! s := m_get in
  let! l := m_lift (core_members o s (verdict_members stop message o s)) in
  let^! amplitudes := read_backend backend_state in
  let l := set_member "statevector" (json_array (map amplitude_json amplitudes)) l in
  let^! density := read_backend backend_density in
  let l := density_members density l in
  let! s := m_get in
  let! words := m_lift (let? image := sim_memory s in inspected image (so_inspect o)) in
  m_ret (Done (json_object (set_member "memory" (json_object words) l))).
End Output.
Arguments SummaryOptions : clear implicits.

(** ** Members *)
Lemma set_member_keys {A} key (v : A) l :
  map fst (set_member key v l) = if bool_decide (key ∈ map fst l) then map fst l else map fst l ++ [key].
Proof.
  induction l as [|[k x] l IH]; [done|]. simpl. destruct (String.eqb_spec k key) as [->|Hne]; simpl.
  - by rewrite bool_decide_eq_true_2 by by left.
  - rewrite IH. destruct (bool_decide_reflect (key ∈ map fst l)) as [Hin|Hout].
    + by rewrite bool_decide_eq_true_2 by by right.
    + rewrite bool_decide_eq_false_2; [done|]. by intros [->|?]%elem_of_cons.
Qed.

Lemma set_member_nodup {A} key (v : A) l : NoDup (map fst l) -> NoDup (map fst (set_member key v l)).
Proof.
  intros H. rewrite set_member_keys. destruct (bool_decide_reflect (key ∈ map fst l)); [done|].
  apply NoDup_app. split_and!; [done | | apply NoDup_singleton]. intros k Hk ->%list_elem_of_singleton. done.
Qed.

Lemma assoc_set_member {A} key k (v : A) l :
  assoc k (set_member key v l) = if String.eqb key k then Some v else assoc k l.
Proof.
  induction l as [|[k' x] l IH]; simpl; [done|]. destruct (String.eqb_spec k' key) as [->|Hne]; simpl.
  - by destruct (String.eqb key k).
  - rewrite IH. destruct (String.eqb_spec k' k) as [->|]; [|done]. destruct (String.eqb_spec key k); congruence.
Qed.

Lemma assoc_perm {A} k (l l' : list (string * A)) : l ≡ₚ l' -> NoDup (map fst l) -> assoc k l = assoc k l'.
Proof.
  induction 1 as [|[x v] l l' _ IH|[x v] [y w] l|l l1 l' H1 IH1 _ IH2]; intros Hn; simpl in *; [done | | |].
  - destruct (String.eqb x k); [done | apply IH]. by inversion Hn.
  - destruct (String.eqb_spec y k) as [->|], (String.eqb_spec x k) as [->|]; try done. inversion Hn. set_solver.
  - rewrite IH1, IH2 by (by rewrite <-?H1). done.
Qed.

Lemma update_members_nodup {A} (l other : list (string * A)) :
  NoDup (map fst l) -> NoDup (map fst (update_members l other)).
Proof.
  unfold update_members. revert l. induction other as [|m other IH]; intros l H; [done|]. simpl.
  by apply IH, set_member_nodup.
Qed.

Lemma assoc_update_members {A} k (l other : list (string * A)) :
  k ∉ map fst other -> assoc k (update_members l other) = assoc k l.
Proof.
  unfold update_members. revert l. induction other as [|[k' v] other IH]; intros l H; [done|]. simpl in *.
  rewrite IH by set_solver. rewrite assoc_set_member. destruct (String.eqb_spec k' k); [set_solver | done].
Qed.

Section Summary.
Context {J : Type} {Lib : JsonLib J} {Laws : LawfulJson J} {B : Type} `{HQ : QuantumBackend B}.
Context (json_null : J) (show_double : double -> string).
Context (backend_state : B -> outcome (list (double * double))).
Context (backend_density : B -> outcome (list (list (double * double)))).

(** Reading the backend changes nothing but the device. *)
Definition same_but_device (s s' : Simulator B) : Prop := s' = s <| device_ := device_ s' |>.

Lemma read_backend_device {A} (f : B -> outcome A) s a s' : read_backend f s = (Ok a, s') -> same_but_device s s'.
Proof using Type. intros H. apply m_zoom_ok in H as (b & _ & ->). by destruct s. Qed.

Lemma same_but_device_trans s s1 s2 : same_but_device s s1 -> same_but_device s1 s2 -> same_but_device s s2.
Proof using Type. unfold same_but_device. intros -> ->. by destruct s. Qed.

Lemma verdict_nodup stop message (o : SummaryOptions J) (s : Simulator B) :
  NoDup (map fst (verdict_members stop message o s)).
Proof using Type.
  unfold verdict_members. destruct (fault_ s); [do 2 apply set_member_nodup|];
    simpl; apply (bool_decide_unpack _); vm_compute; exact I.
Qed.

(** The members of the cores' part leave those of the verdict alone. *)
Lemma core_members_verdict o (s : Simulator B) l l' :
  core_members json_null show_double o s l = Ok l' -> NoDup (map fst l) ->
  NoDup (map fst l') /\
  forall k, k ∈ ["success"; "stop_tick"; "fault"; "message"; "backend"] -> assoc k l' = assoc k l.
Proof using Type.
  intros H Hn. unfold core_members in H. destruct (so_multicore o).
  - apply Ok_inj in H as <-. split; [by do 2 apply set_member_nodup|]. intros k Hk. rewrite !assoc_set_member.
    repeat (apply elem_of_cons in Hk as [->|Hk]; [done|]). by apply elem_of_nil in Hk.
  - destruct (cores_ s) as [|c cs]; [done|]. destruct (so_models o) as [|model ms]; [done|]. apply Ok_inj in H as <-.
    split; [by apply set_member_nodup, update_members_nodup|]. intros k Hk. rewrite assoc_set_member.
    repeat (apply elem_of_cons in Hk as [->|Hk];
      [apply assoc_update_members; simpl; apply (bool_decide_unpack _); vm_compute; exact I|]).
    by apply elem_of_nil in Hk.
Qed.

Lemma inspected_words image addresses words :
  inspected (J := J) image addresses = Ok words ->
  NoDup (map fst words) /\
  forall a, a ∈ addresses -> exists w, image_read image a 4 false = Ok w /\ assoc (pretty a) words = Some (json_unsigned w).
Proof using Type.
  intros H. unfold inspected in H.
  pose (I := fun (done : list Z) (l : list (string * J)) => NoDup (map fst l) /\
    forall a, a ∈ done -> exists w, image_read image a 4 false = Ok w /\ assoc (pretty a) l = Some (json_unsigned w)).
  refine (result_fold_prefix I _ addresses [] [] words _ _ H); [by split; [constructor | intros a ?%elem_of_nil]|].
  intros dn x l l' _ [Hn Hl] Hx. apply result_bind_ok in Hx as (w & Hw & Hx). apply Ok_inj in Hx as <-.
  split; [by apply set_member_nodup|]. intros a Ha. rewrite assoc_set_member.
  destruct (String.eqb_spec (pretty x) (pretty a)) as [E|E].
  - apply (inj pretty) in E as ->. by exists w.
  - apply elem_of_app in Ha as [Ha|Ha%list_elem_of_singleton]; [by apply Hl | by subst].
Qed.

Lemma simulation_summary_ok stop message o (s s' : Simulator B) (j : J) :
  simulation_summary json_null show_double backend_state backend_density stop message o s = (Ok (Done j), s') ->
  same_but_device s s' /\
  exists l density image words, core_members json_null show_double o s (verdict_members stop message o s) = Ok l /\
    sim_memory s = Ok image /\ inspected image (so_inspect o) = Ok words /\
    exists amplitudes, j = json_object (set_member "memory" (json_object words)
      (density_members density (set_member "statevector" amplitudes l))).
Proof using Type.
  intros H. unfold simulation_summary in H. cbv zeta in H. apply m_bind_ok in H as (s0 & s1 & H0 & H).
  apply (m_gets_ok (fun x => x)) in H0 as [-> ->]. apply m_bind_lift_ok in H as (l & Hl & H).
  apply m_throwing_done in H as (amplitudes & s1 & H1 & H). apply read_backend_device in H1.
  apply m_throwing_done in H as (density & s2 & H2 & H). apply read_backend_device in H2.
  apply m_bind_ok in H as (s3 & s4 & H3 & H). apply (m_gets_ok (fun x => x)) in H3 as [-> ->].
  apply m_bind_lift_ok in H as (words & Hw & H). apply m_ret_ok in H as [H ->]. apply Done_inj in H as ->.
  apply result_bind_ok in Hw as (image & Hi & Hw). pose proof (same_but_device_trans _ _ _ H1 H2) as Hs.
  split; [done|]. exists l, density, image, words. split_and!; [done | | done | by eexists].
  rewrite <-Hi. by rewrite Hs.
Qed.

(** The members of a summary. *)
Record summary_members (stop : Tick) (o : SummaryOptions J) (s : Simulator B) (l : list (string * J)) : Prop := {
  sm_nodup : NoDup (map fst l);
  sm_success : assoc "success" l = Some (json_bool (success_ s));
  sm_stop : assoc "stop_tick" l = Some (json_unsigned stop);
  sm_fault : assoc "fault" l = match fault_ s with Some code => Some (json_string (error_name code)) | None => None end;
  sm_exit : so_multicore o = false -> exists c rest, cores_ s = c :: rest /\
    assoc "exit_code" l =
      Some (if halted_ (co_cpu c) then json_unsigned (register (co_cpu c) 10) else json_null);
  sm_words : exists image words, sim_memory s = Ok image /\ inspected image (so_inspect o) = Ok words /\
    assoc "memory" l = Some (json_object words) }.

Lemma summary_has_members stop message o (s s' : Simulator B) (j : J) :
  simulation_summary json_null show_double backend_state backend_density stop message o s = (Ok (Done j), s') ->
  same_but_device s s' /\ exists l, j = json_object l /\ summary_members stop o s l.
Proof using Laws.
  intros H. apply simulation_summary_ok in H as (Hs & l & density & image & words & Hl & Hi & Hw & amplitudes & ->).
  pose proof (core_members_verdict _ _ _ _ Hl (verdict_nodup stop message o s)) as [Hn Hv].
  split; [exact Hs|]. set (members := set_member "memory" _ _).
  assert (Hother : forall k, k ∉ ["memory"; "density_matrix"; "statevector"] -> assoc k members = assoc k l).
  { intros k Hk. unfold members, density_members. rewrite assoc_set_member.
    destruct density; rewrite ?assoc_set_member;
      repeat match goal with |- context [String.eqb ?x k] => destruct (String.eqb_spec x k); [set_solver|] end; done. }
  exists members. split; [done|]. constructor.
  - apply set_member_nodup. unfold density_members. destruct density; [|apply set_member_nodup]; by apply set_member_nodup.
  - rewrite Hother, Hv by set_solver. unfold verdict_members. by destruct (fault_ s).
  - rewrite Hother, Hv by set_solver. unfold verdict_members. by destruct (fault_ s).
  - rewrite Hother, Hv by set_solver. unfold verdict_members. by destruct (fault_ s).
  - intros Hm. unfold core_members in Hl. rewrite Hm in Hl. destruct (cores_ s) as [|c rest]; [done|].
    destruct (so_models o) as [|model ms]; [done|]. apply Ok_inj in Hl as <-. exists c, rest. split; [done|].
    rewrite Hother by set_solver. rewrite assoc_set_member. unfold core_summary, update_members. cbn [fold_left fst snd].
    by rewrite !assoc_set_member.
  - exists image, words. split_and!; [done..|]. unfold members. by rewrite assoc_set_member.
Qed.

(** The summary reports the simulation it is made from: whether it succeeded, when it stopped, the
    fault that stopped it, if any, the exit code of the only core and every inspected word of memory
    under its address.  Making it changes nothing but the device, whose pending work is executed. *)
Theorem summary_reports stop message o (s s' : Simulator B) (j : J) :
  simulation_summary json_null show_double backend_state backend_density stop message o s = (Ok (Done j), s') ->
  same_but_device s s' /\
  at_key j "success" = Ok (json_bool (success_ s)) /\ at_key j "stop_tick" = Ok (json_unsigned stop) /\
  match fault_ s with
  | Some code => at_key j "fault" = Ok (json_string (error_name code))
  | None => contains j "fault" = false
  end /\
  (so_multicore o = false -> exists c rest, cores_ s = c :: rest /\
     at_key j "exit_code" = Ok (if halted_ (co_cpu c) then json_unsigned (register (co_cpu c) 10) else json_null)) /\
  exists image memory, sim_memory s = Ok image /\ at_key j "memory" = Ok memory /\
    forall a, a ∈ so_inspect o -> exists w, image_read image a 4 false = Ok w /\ at_key memory (pretty a) = Ok (json_unsigned w).
Proof using Laws.
  intros (Hs & l & -> & Hm)%summary_has_members. pose proof (sm_nodup _ _ _ _ Hm) as Hn. split; [exact Hs|]. split_and!.
  - exact (law_at _ _ _ Hn (sm_success _ _ _ _ Hm)).
  - exact (law_at _ _ _ Hn (sm_stop _ _ _ _ Hm)).
  - pose proof (sm_fault _ _ _ _ Hm) as Hf. destruct (fault_ s) as [code|]; [by apply law_at | by rewrite law_contains, Hf].
  - intros (c & rest & Hc & He)%(sm_exit _ _ _ _ Hm). exists c, rest. split; [exact Hc | by apply law_at].
  - destruct (sm_words _ _ _ _ Hm) as (image & words & Hi & Hw & Ha). exists image, (json_object words).
    split_and!; [exact Hi | by apply law_at|]. destruct (inspected_words image _ words Hw) as [Hnw Hin].
    intros a Hin'. destruct (Hin a Hin') as (w & H1 & H2). exists w. split; [exact H1 | by apply law_at].
Qed.
End Summary.

(** ** Example: the simulation of Schedule.v before its first tick *)
Definition example_summary : option (Json * Simulator MockBackend) :=
  match example_simulator with
  | Ok s =>
      match simulation_summary JNull (fun _ => "0") (fun _ => Done []) (fun _ => Done []) 0 ""
              (mkSummaryOptions "mock" (json_object []) 1024 ["rv32"] [] [4100] false) s with
      | (Ok (Done j), s') => Some (j, s')
      | _ => None
      end
  | Fault _ => None
  end.

Example example_summary_reports :
  exists j s', example_summary = Some (j, s') /\ at_key j "success" = Ok (JBool false) /\ contains j "fault" = false.
Proof.
  assert (Hb : match example_simulator with Ok s => (success_ s, fault_ s) | Fault _ => (true, None) end = (false, None))
    by (vm_compute; reflexivity).
  assert (Hs : is_Some example_summary) by (apply (bool_decide_unpack _); vm_compute; exact I).
  destruct Hs as [[j s'] E]. exists j, s'. split; [exact E|]. unfold example_summary in E.
  destruct example_simulator as [s|]; [|discriminate E]. injection Hb as Hok Hf.
  destruct (simulation_summary _ _ _ _ _ _ _ s) as [[[j'| |]|] s''] eqn:Es; [|discriminate E..]. injection E as -> ->.
  destruct (summary_reports _ _ _ _ _ _ _ _ _ _ Es) as (_ & H1 & _ & H2 & _). rewrite Hok in H1. rewrite Hf in H2.
  exact (conj H1 H2).
Defined.
