(* ===== verification/Main.v ===== *)
(** * The program (src/main.cpp)

    [sc_main]: from the command line to the files it leaves and its exit code.  What QSBIT_HAS_PYTHON
    selects is a record of [Adapters]; [no_python] is a build without it, where only the mock backend
    runs, and PythonMain.v the build with it.  The SystemC kernel is [kernel_run], which may run the
    processes in any order [kernel_step] allows; the file system, the JSON library and the text of a
    fault are parameters. *)

From stdpp Require Import pretty.
From S2P Require Import Prelude Error Time Event Trace Mailbox Isa ControlCommand Image Memory Mmio Decoder.
From S2P Require Import Feedback Profile TraceJson Protocol TimingControl Tcu Sync Backend Resources Gates Readouts Electronics Pipeline Core.
From S2P Require Import Simulator Schedule ProfileJson Output Arguments Runtime RunConfig.
#[local] Open Scope string_scope.
#[local] Open Scope list_scope.
#[local] Open Scope Z_scope.

Inductive Contents := TextFile (text : string) | ByteFile (data : list Z).

(** What the program leaves: standard output, standard error and the files it wrote; [world] is the
    state of the Python interpreter. *)
Record Console (W : Type) := mkConsole {
  printed : list string; errors : list string; files : gmap string Contents; world : W }.
Arguments mkConsole {W}.
Arguments printed {W}.
Arguments errors {W}.
Arguments files {W}.
Arguments world {W}.
#[global] Instance eta_Console {W} : Eta (Console W) := fun c => mkConsole (printed c) (errors c) (files c) (world c).
Definition console_new {W} (w : W) : Console W := mkConsole [] [] ∅ w.

(** A computation with output that may throw: the effects before the exception remain. *)
Definition Program (W A : Type) : Type := Console W -> outcome A * Console W.
Definition p_ret {W A} (a : A) : Program W A := fun c => (Done a, c).
Definition p_lift {W A} (x : outcome A) : Program W A := fun c => (x, c).
Definition p_bind {W A B} (m : Program W A) (k : A -> Program W B) : Program W B := fun c =>
  match m c with
  | (Done a, c') => k a c'
  | (Thrown e, c') => (Thrown e, c')
  | (StdException, c') => (StdException, c')
  end.
Notation "'let*' p ':=' c 'in' k" := (p_bind c (fun p => k))
  (at level 10, p pattern, c at level 99, k at level 200) : qsbit_scope.
Notation "'do*' c 'in' k" := (p_bind c (fun _ : unit => k))
  (at level 10, c at level 99, k at level 200) : qsbit_scope.

Definition print {W} (s : string) : Program W unit := fun c => (Done (), c <| printed ::= fun l => l ++ [s] |>).

(** What QSBIT_HAS_PYTHON selects: the installed backends' directory, a run of a simulation strategy, the
    answers to --list-backends and its siblings, a backend by name with its options, the decoders (given
    whether the interpreter runs already), the backend as it is when the simulator is built and what a
    backend tells of its state. *)
Record Adapters (J B W : Type) := mkAdapters {
  ad_layout : RuntimeLayout -> Program W RuntimeLayout;
  ad_strategy : RunConfig J -> Program W Z;
  ad_command : RunConfig J -> Program W Z;
  ad_mock : MockBackend -> B;
  ad_backend : RunConfig J -> Program W (B * J);
  ad_decoders : RunConfig J -> bool -> Program W DecoderSystemConfig;
  ad_ready : B -> Program W B;
  ad_state : B -> outcome (list (double * double));
  ad_density : B -> outcome (list (list (double * double))) }.
Arguments mkAdapters {J B W}.
Arguments ad_layout {J B W}.
Arguments ad_strategy {J B W}.
Arguments ad_command {J B W}.
Arguments ad_mock {J B W}.
Arguments ad_backend {J B W}.
Arguments ad_decoders {J B W}.
Arguments ad_ready {J B W}.
Arguments ad_state {J B W}.
Arguments ad_density {J B W}.

(** The defaults of [DecoderSystemConfig]. *)
Definition default_decoding : DecoderSystemConfig := mkDecoderSystemConfig 0x40000000 16 16 1 1 16 [].

(** [Trace::include_stalls]. *)
Definition include_stalls {B} (enabled : bool) (s : Simulator B) : Simulator B :=
  s <| sm_trace ::= fun t => t <| tr_include_stalls := enabled |> |>.

(** The answer to --list-backends. *)
Definition mock_backends : string :=
  let quoted s := quote_mark +:+ s +:+ quote_mark in
  "[{" +:+ quoted "name" +:+ ":" +:+ quoted "mock" +:+ "," +:+ quoted "missing_dependencies" +:+ ":[]}]" +:+ newline.

(** A build without Python.  [MockBackend] has neither a state vector nor a density matrix. *)
Definition no_python {J W} : Adapters J MockBackend W := {|
  ad_layout l := p_ret l;
  ad_strategy _ := p_lift (Thrown UnsupportedCapability);
  ad_command run :=
    if String.eqb (backend_command run) "list"
    then do* print mock_backends in p_ret 0
    else p_lift (Thrown UnsupportedCapability);
  ad_mock b := b;
  ad_backend _ := p_lift (Thrown UnsupportedCapability);
  ad_decoders _ _ := p_lift (Thrown UnsupportedCapability);
  ad_ready b := p_ret b;
  ad_state _ := Done [];
  ad_density _ := Done [] |}.

Section Main.
Context {J : Type} `{HJ : JsonLib J} {B : Type} `{HQ : QuantumBackend B} {W : Type} (adapters : Adapters J B W).
Context (json_null : J) (dump : option Z -> J -> string) (show_double : double -> string).
Context (layout : outcome RuntimeLayout) (usage : string) (fault_message : Simulator B -> string).
(** The file system. *)
Context (read_file : string -> option string) (read_bytes : string -> option (list Z)) (parse_json : string -> outcome J).
Context (absolute parent_path : string -> string) (join : string -> string -> string).
Context (make_parent can_open can_write : string -> bool).
(** [sc_start(limit)]: the time it ends at and what it leaves. *)
Context (kernel_run : Simulator B -> Tick -> Tick * Simulator B).

(** [ensure_parent]: [create_directories] may throw. *)
Definition ensure_parent (path : string) : Program W unit := p_lift (if make_parent path then Done () else StdException).

Definition store (path : string) (data : Contents) : Program W unit := fun c =>
  (Done (), c <| files ::= fun m => <[path := data]> m |>).

Definition write_json (path : string) (v : J) : Program W unit :=
  do* ensure_parent path in
  do* p_lift (checked (require (can_open path) InvalidOperand)) in
  do* p_lift (checked (require (can_write path) Protocol)) in
  store path (TextFile (dump (Some 2) v +:+ newline)).

Definition write_trace (path : string) (t : Trace) : Program W unit :=
  do* ensure_parent path in
  do* p_lift (checked (require (can_open path) InvalidOperand)) in
  let* text := p_lift (checked (write_jsonl (can_write path) t)) in
  store path (TextFile text).

Definition write_memory (path : string) (s : Simulator B) : Program W unit :=
  if String.eqb path "" then p_ret () else
  do* ensure_parent path in
  let* image := p_lift (checked (sim_memory s)) in
  do* p_lift (checked (require (can_open path && can_write path) Protocol)) in
  store path (ByteFile (bytes image)).

Definition summary_options (run : RunConfig J) (models : list string) (options : J) : SummaryOptions J :=
  mkSummaryOptions (backend_name run) options (RunConfig.max_batch_operations run) models
    (rc_connections run) (inspect run) (multicore run).

(** [result["decoding"] = run.decoder_options]. *)
Definition with_decoding (run : RunConfig J) (summary : J) : J :=
  if object_empty (decoder_options run) then summary
  else json_object (set_member "decoding" (decoder_options run) (items summary)).

Definition summarize (run : RunConfig J) (stop : Tick) (o : SummaryOptions J) (s : Simulator B) : outcome J * Simulator B :=
  let '(r, s') :=
    simulation_summary json_null show_double (ad_state adapters) (ad_density adapters) stop (fault_message s) o s in
  (let~ v := checked r in let~ v := v in Done (with_decoding run v), s').

(** From [configure_cores] to the end of the [Simulator]'s construction: the simulator, the CPU models
    and the backend's options. *)
Definition build_simulator (run : RunConfig J) : Program W (Simulator B * list string * J) :=
  let* (cores, models) := p_lift (checked (configure_cores read_bytes (rc_cores run)
      (mkMemoryConfig (memory_base run) (memory_size run) (if raw run then Some (raw_base run) else None)))) in
  let mock := String.eqb (backend_name run) "mock" in
  let* (backend, options) :=
    (if mock then
       do* p_lift (checked (require (object_empty (backend_options run)) InvalidProfile)) in
       p_ret (ad_mock adapters (mock_new (RunConfig.outcomes run)), backend_options run)
     else ad_backend adapters run) in
  let* decoding :=
    (if object_empty (decoder_options run) then p_ret default_decoding else ad_decoders adapters run (negb mock)) in
  let* backend := ad_ready adapters backend in
  let* s := p_lift (checked (simulator_new show_double true cores (rc_connections run) (Some backend) (rc_resets run)
                       (rc_reverse run) (RunConfig.max_batch_operations run) decoding)) in
  p_ret (include_stalls (trace_stalls run) s, models, options).

(** What is printed when a simulation has ended. *)
Definition verdict_line (run : RunConfig J) (stop : Tick) (s : Simulator B) : string :=
  (if success_ s then "Completed" else "Failed") +:+ " at tick " +:+ pretty stop +:+ "; trace: " +:+
  trace_path run +:+ newline.

Definition finish (run : RunConfig J) (models : list string) (options : J) (stop : Tick) (s : Simulator B) : Program W Z :=
  do* write_trace (trace_path run) (sm_trace s) in
  let '(summary, s) := summarize run stop (summary_options run models options) s in
  let* v := p_lift summary in
  do* write_json (summary_path run) v in
  do* write_memory (memory_dump run) s in
  do* print (verdict_line run stop s) in
  p_ret (if success_ s then 0 else 1).

Definition run_program (arguments : list string) : Program W Z :=
  if bool_decide (arguments = ["--installation-info"]) then
    let* l := p_lift layout in
    let* l := ad_layout adapters l in
    do* print (dump None (installation_json json_null l) +:+ newline) in
    p_ret 0
  else
    let* run := p_lift (parse_run_config read_file parse_json absolute parent_path join arguments "") in
    if help run then do* print usage in p_ret 0
    else if negb (String.eqb (dump_profile run) "") then
      do* write_json (dump_profile run) (profile_json (rc_profile run)) in p_ret 0
    else if negb (String.eqb (simulation_config run) "") then ad_strategy adapters run
    else if negb (String.eqb (backend_command run) "") then ad_command adapters run
    else
      let* (s, models, options) := build_simulator run in
      if check_config run then do* print ("Configuration valid" +:+ newline) in p_ret 0
      else
        let* limit := p_lift (checked (checked_add (watchdog (sm_profile s)) (period (tcu_clock (sm_profile s))))) in
        let '(stop, s) := kernel_run s limit in
        finish run models options stop s.

Definition report (e : string) (c : Console W) : Z * Console W := (2, c <| errors ::= fun l => l ++ [e] |>).

Definition sc_main (arguments : list string) (w : W) : Z * Console W :=
  match run_program arguments (console_new w) with
  | (Done code, c) => (code, c)
  | (Thrown code, c) => report (error_name code) c
  | (StdException, c) => report "Configuration or backend error" c
  end.
End Main.

(** ** A kernel

    [drive] runs the processes of a tick in the order they are due, and ends when the simulation stops
    or nothing is due up to the limit. *)
Section Drive.
Context {B : Type} `{HQ : QuantumBackend B}.

Fixpoint next_due (n : nat) (s : Simulator B) (t : Tick) : option Tick :=
  match n with
  | O => None
  | S n => match due_at s t with [] => next_due n s (t + 1) | _ => Some t end
  end.

Fixpoint drive (fuel : nat) (limit : Tick) (k : Kernel B) : Kernel B :=
  match fuel with
  | O => k
  | S fuel =>
      let '(mkKernel now due s) := k in
      if stopped_ s then k else
      match due with
      | p :: due => drive fuel limit (mkKernel now due (snd (run_process p now s)))
      | [] =>
          if barrier_ s then drive fuel limit (mkKernel now [] (snd (barrier now (s <| barrier_ := false |>))))
          else match next_due (Z.to_nat (limit - now)) s (now + 1) with
               | Some t => drive fuel limit (kernel_at t s)
               | None => k
               end
      end
  end.

(** A run of the kernel for a duration: it has stopped, or has nothing left to do in time. *)
Definition kernel_ran (s : Simulator B) (limit : Tick) (r : Tick * Simulator B) : Prop :=
  exists k, rtc kernel_step (kernel_start s) k /\ r = (kn_now k, kn_sim k) /\
    (stopped_ (kn_sim k) = true \/ forall k', kernel_step k k' -> limit < kn_now k').

Lemma next_due_some n s t u :
  next_due n s t = Some u -> t <= u /\ due_at s u <> [] /\ forall v, t <= v < u -> due_at s v = [].
Proof using Type.
  revert t. induction n as [|n IH]; intros t; simpl; [done|]. destruct (due_at s t) as [|p l] eqn:E.
  - intros (H1 & H2 & H3)%IH. split_and!; [lia | done|]. intros v Hv. destruct (Z.eq_dec v t) as [->|]; [done | apply H3; lia].
  - intros [= <-]. split_and!; [lia | by rewrite E | intros v ?; lia].
Qed.

Lemma next_due_none n s t : next_due n s t = None -> forall v, t <= v < t + Z.of_nat n -> due_at s v = [].
Proof using Type.
  revert t. induction n as [|n IH]; intros t H v Hv; [lia|]. simpl in H. destruct (due_at s t) as [|p l] eqn:E; [|done].
  destruct (Z.eq_dec v t) as [->|]; [done | apply (IH _ H); lia].
Qed.

Lemma drive_steps fuel limit k : rtc kernel_step k (drive fuel limit k).
Proof using Type.
  revert k. induction fuel as [|fuel IH]; intros [now due s]; [apply rtc_refl|]. cbn [drive].
  destruct (stopped_ s) eqn:Hs; [apply rtc_refl|]. destruct due as [|p due].
  - destruct (barrier_ s) eqn:Hb.
    + eapply rtc_l; [by apply kernel_barrier | apply IH].
    + destruct (next_due _ _ _) as [t|] eqn:E; [|apply rtc_refl]. apply next_due_some in E as (H1 & H2 & H3).
      eapply rtc_l; [|apply IH]. apply kernel_advance; try done; [lia|]. intros u Hu. apply H3. lia.
  - eapply rtc_l; [exact (kernel_run now [] p due s Hs) | apply IH].
Qed.

(** Fuel for every step there is makes a complete run. *)
Lemma drive_done w rs fuel limit k :
  strictly_increasing rs = true -> kernel_inv w rs k -> w <= limit -> (kernel_measure w k + 2 <= fuel)%nat ->
  stopped_ (kn_sim (drive fuel limit k)) = true.
Proof using Type.
  intros Hs. revert k. induction fuel as [|fuel IH]; intros k Hk Hl Hf; [lia|].
  destruct (kernel_progress _ _ _ Hk) as [He|Hp].
  { destruct k as [now due s]. destruct He as [He _]. change (stopped_ s = true) in He. simpl. by rewrite He. }
  assert (Hnext : forall k', kernel_step k k' -> (kernel_measure w k' + 2 <= fuel)%nat \/ stopped_ (kn_sim k') = true).
  { intros k' Hstep. destruct (stopped_ (kn_sim k')) eqn:E; [by right | left].
    pose proof (kernel_step_measure w rs k k' Hs Hk Hstep) as Hm.
    assert (~ ended (status (kn_sim k'))) as Hne by (intros [K _]; change (stopped_ (kn_sim k') = true) in K; congruence).
    specialize (Hm Hne). lia. }
  assert (Hdrive : forall k', kernel_step k k' -> stopped_ (kn_sim (drive fuel limit k')) = true).
  { intros k' Hstep. destruct (Hnext k' Hstep) as [Hm|Hstop].
    - apply IH; [by eapply kernel_inv_step | done | done].
    - destruct fuel; [done|]. destruct k' as [now' due' s']. simpl in *. by rewrite Hstop. }
  destruct k as [now due s]. cbn [drive]. destruct (stopped_ s) eqn:Hst; [done|]. destruct due as [|p due].
  - destruct (barrier_ s) eqn:Hb; [by apply Hdrive, kernel_barrier|].
    destruct (next_due _ _ _) as [t|] eqn:E.
    + apply next_due_some in E as (H1 & H2 & H3). apply Hdrive, kernel_advance; try done; [lia|]. intros u Hu. apply H3. lia.
    + exfalso. destruct Hp as [k' Hstep]. pose proof (kernel_inv_step _ _ _ _ Hs Hk Hstep) as [Hn _].
      inversion Hstep as [|? ? ? ? Hb'|? t ? ? ? Hlt Hd Hq]; subst; [by destruct before | congruence|].
      apply Hd. apply (next_due_none _ _ _ E). simpl in Hn. lia.
  - apply Hdrive. exact (kernel_run now [] p due s Hst).
Qed.
End Drive.

(** Whether stalls are traced makes no difference to the kernel. *)
Lemma stalls_inv {B} `{QuantumBackend B} show resolution configs connections backend resets reverse batch decoding
    (s : Simulator B) enabled :
  simulator_new show resolution configs connections backend resets reverse batch decoding = Ok s ->
  strictly_increasing resets = true /\
  kernel_inv (watchdog (sm_profile s)) resets (kernel_start (include_stalls enabled s)).
Proof.
  intros Hb. destruct (kernel_inv_start _ _ _ _ _ _ _ _ _ s Hb) as (_ & Hs & _ & Hinv). split; [done|].
  unfold kernel_inv, kernel_start, kernel_at in *. cbn [kn_now kn_due kn_sim] in *.
  rewrite status_take_wakeup in Hinv |- *. exact Hinv.
Qed.

Lemma stalls_run {B} `{QuantumBackend B} show resolution configs connections backend resets reverse batch decoding
    (s : Simulator B) enabled limit stop final :
  simulator_new show resolution configs connections backend resets reverse batch decoding = Ok s ->
  watchdog (sm_profile s) <= limit -> kernel_ran (include_stalls enabled s) limit (stop, final) ->
  stop <= watchdog (sm_profile s) /\ concluded final.
Proof.
  intros Hb Hl (k & Hrun & [= -> ->] & Hend). destruct (stalls_inv _ _ _ _ _ _ _ _ _ s enabled Hb) as [Hs Hinv].
  assert (Hk : kernel_inv (watchdog (sm_profile s)) resets k).
  { clear Hend. revert Hinv. induction Hrun as [k|k k1 k2 Hstep _ IH]; [done|]. intros Hinv. apply IH. by apply (kernel_inv_step _ _ k). }
  split; [apply Hk|]. destruct (kernel_progress _ _ _ Hk) as [He|[k' Hstep]]; [exact He|].
  destruct Hend as [Hstop|Hlate].
  - exfalso. destruct Hstep; simpl in Hstop; congruence.
  - specialize (Hlate k' Hstep). pose proof (kernel_inv_step _ _ _ _ Hs Hk Hstep) as [Hle _]. lia.
Qed.

(** The clock of the timing control units is a clock. *)
Lemma built_period {B} `{QuantumBackend B} show resolution configs connections backend resets reverse batch decoding
    (s : Simulator B) :
  simulator_new show resolution configs connections backend resets reverse batch decoding = Ok s ->
  0 < period (tcu_clock (sm_profile s)).
Proof.
  unfold simulator_new. intros Hb. apply result_bind_ok in Hb as (p & _ & Hb). apply result_bind_ok in Hb as (? & _ & Hb).
  destruct backend as [b|]; [|done]. apply result_bind_ok in Hb as (network & Hn & Hb).
  do 2 apply result_bind_ok in Hb as (? & _ & Hb). apply result_bind_ok in Hb as ([] & _ & Hb).
  apply result_bind_ok in Hb as ([[cores offsets] o] & _ & Hb). set (s0 := mkSimulator _ _ _ _ _ _ _ _ _ _ _ _ _ _ _ _ _ _ _) in Hb.
  destruct ((do! _ in schedule_wakeup 0) s0) as [[u|e] s2] eqn:E; [|done]. apply Ok_inj in Hb as <-.
  apply m_bind_ok in E as (u1 & s1 & E1 & E2). pose proof (framed_emit _ _ _ _ _ eq_refl E1) as F.
  unfold schedule_wakeup in E2. cbv zeta in E2. apply m_bind_ok in E2 as (s3 & s4 & E3 & E2).
  apply (m_gets_ok (fun x => x)) in E3 as [-> ->]. apply m_bind_lift_ok in E2 as ([] & _ & E2).
  apply m_modify_ok in E2 as ->. change (sm_profile _) with (su_profile (status s1)). rewrite F. simpl.
  unfold network_new in Hn. apply result_bind_ok in Hn as ([] & Hc & _). unfold clock_validate in Hc.
  apply require_ok in Hc. reflect. lia.
Qed.

(** A simulator as [sc_main] builds it. *)
Definition constructed {B} `{QuantumBackend B} (s : Simulator B) : Prop :=
  exists show resolution configs connections backend resets reverse batch decoding s0 enabled,
    simulator_new show resolution configs connections backend resets reverse batch decoding = Ok s0 /\
    s = include_stalls enabled s0.

(** [drive] with fuel for every step up to the watchdog. *)
Definition drive_kernel {B} `{QuantumBackend B} (s : Simulator B) (limit : Tick) : Tick * Simulator B :=
  let k := drive (kernel_measure (watchdog (sm_profile s)) (kernel_start s) + 2) limit (kernel_start s) in
  (kn_now k, kn_sim k).

Lemma drive_kernel_ran {B} `{QuantumBackend B} (s : Simulator B) limit :
  constructed s -> watchdog (sm_profile s) <= limit -> kernel_ran s limit (drive_kernel s limit).
Proof.
  intros (show & resolution & configs & connections & backend & resets & reverse & batch & decoding & s0 & enabled & Hb & ->) Hl.
  destruct (stalls_inv _ _ _ _ _ _ _ _ _ s0 enabled Hb) as [Hs Hinv].
  exists (drive (kernel_measure (watchdog (sm_profile s0)) (kernel_start (include_stalls enabled s0)) + 2) limit
    (kernel_start (include_stalls enabled s0))).
  split; [apply drive_steps|]. split; [reflexivity|]. left. by apply (drive_done _ resets _ _ _ Hs Hinv).
Qed.

Lemma p_bind_done {W A B} (m : Program W A) (k : A -> Program W B) c b c' :
  p_bind m k c = (Done b, c') -> exists a c1, m c = (Done a, c1) /\ k a c1 = (Done b, c').
Proof. unfold p_bind. destruct (m c) as [[a| |] c1]; [eauto | discriminate..]. Qed.

Lemma p_lift_done {W A} (x : outcome A) (c : Console W) a c' : p_lift x c = (Done a, c') -> x = Done a /\ c' = c.
Proof. unfold p_lift. by intros [= -> ->]. Qed.

(** ** What the program asks of its adapters: they report no error but by an exception, and a run they
    answer ends with 0. *)
Definition quiet {W A} (m : Program W A) : Prop := forall c a c', m c = (Done a, c') -> errors c' = errors c.
Definition answers {W} (m : Program W Z) : Prop :=
  forall c code c', m c = (Done code, c') -> code = 0 /\ errors c' = errors c.

Record LawfulAdapters {J B W} (adapters : Adapters J B W) : Prop := {
  la_layout l : quiet (ad_layout adapters l);
  la_strategy run : answers (ad_strategy adapters run);
  la_command run : answers (ad_command adapters run);
  la_backend run : quiet (ad_backend adapters run);
  la_decoders run opened : quiet (ad_decoders adapters run opened);
  la_ready b : quiet (ad_ready adapters b) }.

Lemma quiet_ret {W A} (a : A) : quiet (W := W) (p_ret a).
Proof. by intros c b c' [= _ <-]. Qed.

Lemma quiet_lift {W A} (x : outcome A) : quiet (W := W) (p_lift x).
Proof. by intros c b c' [= _ <-]. Qed.

Lemma quiet_bind {W A B} (m : Program W A) (k : A -> Program W B) : quiet m -> (forall a, quiet (k a)) -> quiet (p_bind m k).
Proof. intros Hm Hk c b c' (a & c1 & H1 & H2)%p_bind_done. by rewrite (Hk _ _ _ _ H2), (Hm _ _ _ H1). Qed.

Lemma quiet_print {W} s : quiet (W := W) (print s).
Proof. by intros c a c' [= _ <-]. Qed.

Lemma answers_after {W A} (m : Program W A) : quiet m -> answers (p_bind m (fun _ => p_ret 0)).
Proof. intros Hm c code c' (a & c1 & H1 & [= <- <-])%p_bind_done. split; [done | exact (Hm _ _ _ H1)]. Qed.

#[global] Hint Resolve quiet_ret quiet_lift quiet_print answers_after : qsbit.

Lemma no_python_lawful {J W} : LawfulAdapters (J := J) (W := W) no_python.
Proof.
  constructor; simpl; auto with qsbit; intros run; [done|].
  destruct (String.eqb _ _); [by apply answers_after, quiet_print | done].
Qed.

Section Verdict.
Context {J : Type} {Lib : JsonLib J} {Laws : LawfulJson J} {B : Type} `{HQ : QuantumBackend B} {W : Type}.
Context (adapters : Adapters J B W) (Hadapters : LawfulAdapters adapters).
Context (json_null : J) (dump : option Z -> J -> string) (show_double : double -> string).
Context (layout : outcome RuntimeLayout) (usage : string) (fault_message : Simulator B -> string).
Context (read_file : string -> option string) (read_bytes : string -> option (list Z)) (parse_json : string -> outcome J).
Context (absolute parent_path : string -> string) (join : string -> string -> string).
Context (make_parent can_open can_write : string -> bool).
Context (kernel_run : Simulator B -> Tick -> Tick * Simulator B).

#[local] Abbreviation parse := (parse_run_config read_file parse_json absolute parent_path join).
#[local] Abbreviation build := (build_simulator adapters show_double read_bytes).
#[local] Abbreviation ending := (finish adapters json_null dump show_double fault_message make_parent can_open can_write).
#[local] Abbreviation body :=
  (run_program adapters json_null dump show_double layout usage fault_message read_file read_bytes parse_json absolute
     parent_path join make_parent can_open can_write kernel_run).
#[local] Abbreviation main :=
  (sc_main adapters json_null dump show_double layout usage fault_message read_file read_bytes parse_json absolute
     parent_path join make_parent can_open can_write kernel_run).

Lemma write_json_done path v (c : Console W) c' :
  write_json dump make_parent can_open can_write path v c = (Done (), c') ->
  c' = c <| files ::= fun m => <[path := TextFile (dump (Some 2) v +:+ newline)]> m |>.
Proof using Type.
  unfold write_json. intros H. do 3 (apply p_bind_done in H as (? & ? & [_ ->]%p_lift_done & H)). by injection H as <-.
Qed.

Lemma write_trace_done path t (c : Console W) c' :
  write_trace make_parent can_open can_write path t c = (Done (), c') ->
  exists text, write_jsonl true t = Ok text /\ c' = c <| files ::= fun m => <[path := TextFile text]> m |>.
Proof using Type.
  unfold write_trace. intros H. do 2 (apply p_bind_done in H as (? & ? & [_ ->]%p_lift_done & H)).
  apply p_bind_done in H as (text & c1 & [Ht ->]%p_lift_done & H). injection H as <-. exists text. split; [|done].
  apply checked_done in Ht. unfold write_jsonl in *. apply result_bind_ok in Ht as (? & Hg & Ht). by rewrite <-Ht.
Qed.

(** The memory dump adds its own file only. *)
Lemma write_memory_done path (s : Simulator B) (c : Console W) c' :
  write_memory make_parent can_open can_write path s c = (Done (), c') ->
  printed c' = printed c /\ errors c' = errors c /\ (forall p, p <> path -> files c' !! p = files c !! p) /\
  (path <> "" -> exists image, sim_memory s = Ok image /\ files c' !! path = Some (ByteFile (bytes image))) /\
  (path = "" -> c' = c).
Proof using Type.
  unfold write_memory. destruct (String.eqb_spec path "") as [->|Hne].
  - intros [= <-]. done.
  - intros H. apply p_bind_done in H as (? & ? & [_ ->]%p_lift_done & H).
    apply p_bind_done in H as (image & ? & [Hi ->]%p_lift_done & H).
    apply p_bind_done in H as (? & ? & [_ ->]%p_lift_done & H). injection H as <-. apply checked_done in Hi.
    split_and!; try done; simpl; [intros p Hp; by rewrite lookup_insert_ne by done|]. intros _. exists image.
    by rewrite lookup_insert_eq.
Qed.

(** What a run that simulates leaves behind. *)
Definition reported (run : RunConfig J) (stop : Tick) (final : Simulator B) (c : Console W) : Prop :=
  exists text summary, write_jsonl true (sm_trace final) = Ok text /\
    at_key summary "success" = Ok (json_bool (success_ final)) /\
    at_key summary "stop_tick" = Ok (json_unsigned stop) /\
    match fault_ final with
    | Some code => at_key summary "fault" = Ok (json_string (error_name code))
    | None => contains summary "fault" = false
    end /\
    (trace_path run <> summary_path run -> memory_dump run <> trace_path run -> memory_dump run <> summary_path run ->
     files c !! trace_path run = Some (TextFile text) /\
     files c !! summary_path run = Some (TextFile (dump (Some 2) summary +:+ newline)) /\
     (memory_dump run <> "" -> exists image, sim_memory final = Ok image /\
        files c !! memory_dump run = Some (ByteFile (bytes image)))).

(** Adding the decoders' configuration keeps the other members. *)
Lemma with_decoding_keeps run l :
  NoDup (map fst l) -> exists l', with_decoding run (json_object l) = json_object l' /\ NoDup (map fst l') /\
    forall k, k <> "decoding" -> assoc k l' = assoc k l.
Proof using Laws.
  intros Hn. unfold with_decoding. destruct (object_empty _); [by exists l|].
  exists (set_member "decoding" (decoder_options run) (items (json_object l))). pose proof (law_items l Hn) as Hp.
  assert (Hn' : NoDup (map fst (items (json_object l)))) by (by rewrite Hp).
  split; [done|]. split; [by apply set_member_nodup|]. intros k Hk. rewrite assoc_set_member.
  destruct (String.eqb_spec "decoding" k); [congruence|]. by apply assoc_perm.
Qed.

Lemma summarize_members run stop o (s s' : Simulator B) v :
  summarize adapters json_null show_double fault_message run stop o s = (Done v, s') ->
  same_but_device s s' /\ exists l, v = json_object l /\ NoDup (map fst l) /\
    assoc "success" l = Some (json_bool (success_ s)) /\ assoc "stop_tick" l = Some (json_unsigned stop) /\
    assoc "fault" l = match fault_ s with Some code => Some (json_string (error_name code)) | None => None end.
Proof using Laws.
  unfold summarize. destruct (simulation_summary _ _ _ _ _ _ _ s) as [r s1] eqn:E. intros [= H <-].
  apply outcome_bind_done in H as (j & ->%checked_done & H). apply outcome_bind_done in H as (u & -> & H).
  apply Done_inj in H as <-. apply summary_has_members in E as (Hs & l & -> & Hm). split; [exact Hs|].
  destruct (with_decoding_keeps run l (sm_nodup _ _ _ _ _ Hm)) as (l' & -> & Hn & Hk). exists l'.
  split_and!; [done | exact Hn | ..]; rewrite Hk by done; apply Hm.
Qed.

Lemma finish_done run models options stop final (c : Console W) code c' :
  ending run models options stop final c = (Done code, c') ->
  code = (if success_ final then 0 else 1) /\ errors c' = errors c /\ reported run stop final c'.
Proof using Laws.
  unfold finish. intros H. apply p_bind_done in H as ([] & c1 & H1 & H).
  destruct (summarize _ _ _ _ _ _ _ final) as [r s'] eqn:Es. apply p_bind_done in H as (j & ? & [-> ->]%p_lift_done & H).
  apply summarize_members in Es as (Hs & l & -> & Hn & S1 & S2 & S3).
  apply p_bind_done in H as ([] & c2 & H2 & H). apply p_bind_done in H as ([] & c3 & H3 & H).
  apply p_bind_done in H as ([] & c4 & H4 & H). injection H4 as <-. injection H as <- <-.
  apply write_trace_done in H1 as (text & Ht & ->). apply write_json_done in H2 as ->.
  apply write_memory_done in H3 as (_ & He & Hf & Hm & _). simpl in *.
  split; [by rewrite Hs|]. split; [done|]. exists text, (json_object l). split_and!; [done | by apply law_at.. | |].
  { destruct (fault_ final); [by apply law_at | by rewrite law_contains, S3]. }
  intros N1 N2 N3. split_and!.
  - rewrite Hf by done. by rewrite lookup_insert_ne, lookup_insert_eq by done.
  - rewrite Hf by done. by rewrite lookup_insert_eq.
  - intros Hne. destruct (Hm Hne) as (image & Hi & Hl). exists image. split; [|done]. rewrite <-Hi. by rewrite Hs.
Qed.

Lemma build_simulator_done run (c : Console W) s models options c' :
  build run c = (Done (s, models, options), c') ->
  errors c' = errors c /\
  exists configs backend decoding s0,
    simulator_new show_double true configs (rc_connections run) (Some backend) (rc_resets run) (rc_reverse run)
      (RunConfig.max_batch_operations run) decoding = Ok s0 /\ s = include_stalls (trace_stalls run) s0.
Proof using Hadapters.
  unfold build_simulator. intros H. apply p_bind_done in H as ([configs ms] & ? & [_ ->]%p_lift_done & H). cbv zeta in H.
  apply p_bind_done in H as ([backend os] & c1 & Hb & H). apply p_bind_done in H as (decoding & c2 & Hd & H).
  apply p_bind_done in H as (ready & c3 & Hr%(la_ready _ Hadapters) & H).
  apply p_bind_done in H as (s0 & ? & [Hs%checked_done ->]%p_lift_done & H). injection H as <- _ _ <-.
  assert (E1 : errors c1 = errors c).
  { revert Hb. destruct (String.eqb _ _); [|apply (la_backend _ Hadapters)]. apply quiet_bind; auto with qsbit. }
  assert (E2 : errors c2 = errors c1).
  { revert Hd. destruct (object_empty (decoder_options run)); [apply quiet_ret | apply (la_decoders _ Hadapters)]. }
  split; [by rewrite Hr, E2 | by exists configs, ready, decoding, s0].
Qed.

(** The runs that do not simulate here. *)
Definition answered (arguments : list string) : Prop :=
  arguments = ["--installation-info"] \/
  exists run, parse arguments "" = Done run /\
    (help run = true \/ dump_profile run <> "" \/ simulation_config run <> "" \/ backend_command run <> "" \/
     check_config run = true).

#[local] Ltac asked H := left; split; [done|]; split; [done | apply H; tauto].

Lemma body_done arguments w code c :
  body arguments (console_new w) = (Done code, c) ->
  (code = 0 /\ errors c = [] /\ answered arguments) \/
  exists run models options s c1, parse arguments "" = Done run /\ build run (console_new w) = (Done (s, models, options), c1) /\
    errors c1 = [] /\ exists limit, watchdog (sm_profile s) <= limit /\
    ending run models options (fst (kernel_run s limit)) (snd (kernel_run s limit)) c1 = (Done code, c).
Proof using Hadapters.
  unfold run_program. case_bool_decide as Hinfo.
  { intros H. apply p_bind_done in H as (l & ? & [_ ->]%p_lift_done & H). apply p_bind_done in H as (l' & c1 & Hl & H).
    apply (la_layout _ Hadapters) in Hl. injection H as <- <-. left. split; [done|]. split; [exact Hl | by left]. }
  intros H. apply p_bind_done in H as (run & ? & [Hp ->]%p_lift_done & H).
  assert (Hquiet : help run = true \/ dump_profile run <> "" \/ simulation_config run <> "" \/ backend_command run <> "" \/
    check_config run = true -> answered arguments) by (intros Hq; exact (or_intror (ex_intro _ run (conj Hp Hq)))).
  destruct (help run) eqn:Eh; [injection H as <- <-; asked Hquiet|].
  destruct (String.eqb_spec (dump_profile run) "") as [_|Hd]; cbn [negb] in H.
  2: { apply p_bind_done in H as ([] & ? & ->%write_json_done & H). injection H as <- <-. asked Hquiet. }
  destruct (String.eqb_spec (simulation_config run) "") as [_|Hc]; cbn [negb] in H.
  2: { apply (la_strategy _ Hadapters) in H as [-> He]. asked Hquiet. }
  destruct (String.eqb_spec (backend_command run) "") as [_|Hc]; cbn [negb] in H.
  2: { apply (la_command _ Hadapters) in H as [-> He]. asked Hquiet. }
  apply p_bind_done in H as ([[s models] options] & c1 & Hb & H). pose proof Hb as (He & configs & b & d & s0 & Hnew & -> )%build_simulator_done.
  destruct (check_config run) eqn:Ek; [injection H as <- <-; asked Hquiet|].
  apply p_bind_done in H as (limit & ? & [Hl ->]%p_lift_done & H). apply checked_done, checked_add_ok in Hl as [_ ->].
  right. set (s := include_stalls _ s0) in *. exists run, models, options, s, c1. refine (conj Hp (conj Hb (conj He _))).
  exists (watchdog (sm_profile s) + period (tcu_clock (sm_profile s))). split; [|destruct (kernel_run s _); exact H].
  apply (built_period _ _ _ _ _ _ _ _ _ s0) in Hnew. change (sm_profile s) with (sm_profile s0). lia.
Qed.

(** C11. The exit code tells what happened.  In a build with or without Python, and however the kernel
    orders the processes: the program ends with 0, 1 or 2.  With 2 it has reported an error.  With 0 or 1
    it has reported none, and either it was only asked a question or handed the run to Python and simulated
    nothing, or it has run the configured simulation to its end, at the watchdog's tick at the latest, with
    code 0 if that succeeded and 1 if a fault stopped it; then the summary says the same as the code and,
    when the output paths are distinct, the trace file holds the whole trace and the other files their
    contents. *)
Theorem exit_code_reports arguments w code c :
  (forall s limit, constructed s -> watchdog (sm_profile s) <= limit -> kernel_ran s limit (kernel_run s limit)) ->
  main arguments w = (code, c) ->
  (code = 2 /\ errors c <> []) \/
  (code = 0 /\ errors c = [] /\ answered arguments) \/
  errors c = [] /\
  exists run s models options c0 stop final, parse arguments "" = Done run /\
    build run (console_new w) = (Done (s, models, options), c0) /\
    (exists k, rtc kernel_step (kernel_start s) k /\ kn_now k = stop /\ kn_sim k = final) /\
    stop <= watchdog (sm_profile s) /\ concluded final /\ code = (if success_ final then 0 else 1) /\
    reported run stop final c.
Proof using Laws Hadapters.
  intros Hkernel H. unfold sc_main in H. destruct (body arguments _) as [[code'|e|] c'] eqn:E;
    [|injection H as <- <-; left; split; [done | simpl; by intros [_ ?]%app_nil]..].
  injection H as -> ->. right.
  apply body_done in E as [(-> & He & Ha)|(run & models & options & s & c1 & Hp & Hb & He & limit & Hl & E)]; [by left | right].
  pose proof Hb as (_ & configs & b & d & s0 & Hnew & ->)%build_simulator_done.
  assert (Hk : kernel_ran (include_stalls (trace_stalls run) s0) limit (kernel_run (include_stalls (trace_stalls run) s0) limit)).
  { apply Hkernel; [|exact Hl]. unfold constructed. repeat eexists. exact Hnew. }
  destruct (kernel_run _ limit) as [stop final]. simpl in E. pose proof (stalls_run _ _ _ _ _ _ _ _ _ _ _ _ _ _ Hnew Hl Hk) as [Hw Hc].
  apply finish_done in E as (-> & He' & Hr). split; [by rewrite He'|].
  exists run, (include_stalls (trace_stalls run) s0), models, options, c1, stop, final.
  refine (conj Hp (conj Hb (conj _ (conj Hw (conj Hc (conj eq_refl Hr)))))).
  destruct Hk as (k & Hrun & Hr' & _). exists k. split; [exact Hrun | split; congruence].
Qed.
End Verdict.

(** ** Example: the program of Handshake.v, run from the command line *)
Definition example_arguments : list string :=
  ["--profile"; "p.json"; "--program"; "p.bin"; "--raw-base"; "0x1000"; "--memory-base"; "0x1000"; "--memory-size"; "64"; "--trace"; "out/t.jsonl"].

Definition example_bytes : list Z := [0x0b; 0x20; 5; 0; 0x0b; 0x20; 5; 0; 0x93; 0x08; 0xd0; 0x05; 0x73; 0; 0; 0].

Definition example_main (arguments : list string) : Z * Console unit :=
  sc_main no_python JNull (fun _ _ => "json") (fun _ => "0") StdException "usage" (fun _ => "fault")
    (fun _ => Some "") (fun _ => Some example_bytes)
    (fun _ => Done (json_object [("schema", json_unsigned 1); ("watchdog", json_unsigned 2000)])) (fun p => p) (fun _ => "") (fun a b => a +:+ b)
    (fun _ => true) (fun _ => true) (fun _ => true) drive_kernel arguments ().

Definition example_parsed : outcome (RunConfig Json) :=
  parse_run_config (fun _ => Some "") (fun _ => Done (json_object [("schema", json_unsigned 1); ("watchdog", json_unsigned 2000)]))
    (fun p => p) (fun _ => "") (fun a b => a +:+ b) example_arguments "".

(** The example completes before its watchdog. *)
Lemma exit_code_reports_witness :
  exists c, example_main example_arguments = (0, c) /\ errors c = [] /\
    exists (s final : Simulator MockBackend) stop, stop <= watchdog (sm_profile s) /\ concluded final /\ success_ final = true /\
      exists k, rtc kernel_step (kernel_start s) k /\ kn_now k = stop /\ kn_sim k = final.
Proof.
  assert (Hc : (let (code, c) := example_main example_arguments in (code, errors c)) = (0, [])) by (vm_compute; reflexivity).
  destruct (example_main example_arguments) as [code c] eqn:E. injection Hc as -> He. exists c.
  refine (conj eq_refl (conj He _)). unfold example_main in E.
  destruct (exit_code_reports no_python no_python_lawful _ _ _ _ _ _ _ _ _ _ _ _ _ _ _ _ _ _ _ _ drive_kernel_ran E)
    as [[K _]|[(_ & _ & K)|(_ & K)]].
  - discriminate K.
  - exfalso. assert (Hp : (match example_parsed with
        | Done r => (help r, String.eqb (dump_profile r) "", String.eqb (simulation_config r) "",
                     String.eqb (backend_command r) "", check_config r)
        | _ => (true, true, true, true, true) end) = (false, true, true, true, false)) by (vm_compute; reflexivity).
    destruct K as [K|(run & K & Hq)]; [discriminate K|]. unfold example_parsed in Hp. rewrite K in Hp.
    injection Hp as H1 H2 H3 H4 H5. apply String.eqb_eq in H2, H3, H4.
    destruct Hq as [Hq|[Hq|[Hq|[Hq|Hq]]]]; congruence.
  - destruct K as (run & s & models & options & c0 & stop & final & _ & _ & Hk & Hw & Hf & Hcode & _).
    exists s, final, stop. refine (conj Hw (conj Hf (conj _ Hk))). by destruct (success_ final).
Defined.

(** An address to inspect is read only when the summary is made: one outside the memory loses the summary
    of a simulation that has run, and the program ends with 2 although the trace is written. *)
Example inspection_loses_summary :
  let (code, c) := example_main (example_arguments ++ ["--inspect"; "0"]) in
  code = 2 /\ errors c = ["LoadAccess"] /\ is_Some (files c !! "out/t.jsonl") /\ files c !! "summary.json" = None.
Proof.
  assert (H : (let (code, c) := example_main (example_arguments ++ ["--inspect"; "0"]) in
      (code, errors c, bool_decide (is_Some (files c !! "out/t.jsonl")), bool_decide (files c !! "summary.json" = None))) =
    (2, ["LoadAccess"], true, true)) by (vm_compute; reflexivity).
  destruct (example_main _) as [code c]. injection H as -> -> H1 H2. apply bool_decide_eq_true in H1, H2. done.
Qed.

(** An empty path for the default profile is no request for it: the run, which has no cores, is built, and
    the simulator refuses it. *)
Example empty_dump_path_is_refused :
  let (code, c) := example_main ["--dump-default-profile"; String.EmptyString] in
  code = 2 /\ errors c = ["InvalidProfile"] /\ files c = ∅.
Proof. vm_compute. by split_and!. Qed.
