(* ===== verification/PythonMain.v ===== *)
(** * The program of a build with Python (src/main.cpp, QSBIT_HAS_PYTHON)

    The branches of [sc_main] that QSBIT_HAS_PYTHON selects: a session of the interpreter is opened when
    it is needed, a backend that is not the mock backend is an adapter, strategies and the questions about
    backends are answered by Python, and so are the decoders.  The interpreter's state is the console's
    [world]; from the construction of the simulator on it belongs to the backend. *)

From S2P Require Import Prelude Error Time Event Trace Mailbox Isa ControlCommand Image Memory Mmio Decoder.
From S2P Require Import Feedback Profile TraceJson Protocol TimingControl Tcu Sync Backend Resources Gates Readouts Electronics Pipeline Core.
From S2P Require Import Simulator Schedule ProfileJson Output Arguments Runtime PythonBackend RunConfig Main.
#[local] Open Scope string_scope.
#[local] Open Scope list_scope.
#[local] Open Scope Z_scope.

(** One of two backends, as [std::unique_ptr<IQuantumBackend>]. *)
#[global] Instance either_backend {A B} `{QuantumBackend A} `{QuantumBackend B} : QuantumBackend (A + B) := {|
  backend_validate b action :=
    match b with inl b => backend_validate b action | inr b => backend_validate b action end;
  backend_reset qubits seed b :=
    match b with
    | inl b => let '(r, b) := backend_reset qubits seed b in (r, inl b)
    | inr b => let '(r, b) := backend_reset qubits seed b in (r, inr b)
    end;
  backend_execute epoch operations b :=
    match b with
    | inl b => let '(r, b) := backend_execute epoch operations b in (r, inl b)
    | inr b => let '(r, b) := backend_execute epoch operations b in (r, inr b)
    end |}.

(** [py::error_already_set] and [py::cast_error] are standard exceptions. *)
Definition as_outcome {A} (x : reply A) : outcome A :=
  match x with
  | Value a => Done a
  | CppFault code => Thrown code
  | PythonError | CastError => StdException
  end.

Section WithPython.
Context {P J : Type} `{HP : Python P} `{HJ : JsonLib J}.
#[local] Abbreviation Backends := (MockBackend + PythonBackend * P)%type.
(** [start]: the configuration and start of the interpreter; [executable]: [argv[0]]. *)
Context (start : string -> Run P bool) (decide : Py -> list Z -> result (list bool)) (executable : string).
Context (dump : option Z -> J -> string) (layout : outcome RuntimeLayout) (parse_json : string -> outcome J).
Context (parent_path : string -> string).

Definition p_python {A} (m : Run P A) : Program P A := fun c =>
  let '(r, p) := m (world c) in (as_outcome r, c <| world := p |>).

Definition open_session (directory : string) : Program P unit :=
  let* l := p_lift layout in p_python (session_open start (python l) directory).

(** The backend works on the interpreter as the adapters have left it. *)
Definition ready (b : Backends) : Program P Backends := fun c =>
  (Done (match b with inl b => inl b | inr b => inr (fst b, world c) end), c).

Definition with_python : Adapters J Backends P := {|
  ad_layout l :=
    do* open_session "" in
    let* directory := p_python (backend_directory parent_path) in
    p_ret (l <| python_backend := directory |>);
  ad_strategy run :=
    do* open_session (module_directory run) in
    do* p_python (run_simulation (simulation_config run) executable (check_config run)) in
    p_ret 0;
  ad_command run :=
    do* open_session (module_directory run) in
    let* text := p_python (inspect_backend (backend_name run) (backend_command run)) in
    do* print (text +:+ newline) in
    p_ret 0;
  ad_mock b := inl b;
  ad_backend run :=
    do* open_session (module_directory run) in
    let* adapter := p_python (python_backend_new (backend_name run) (dump None (backend_options run))) in
    let* options := p_lift (parse_json (pb_options adapter)) in
    fun c => (Done (inr (adapter, world c), options), c);
  ad_decoders run opened :=
    do* (if opened : bool then p_ret () else open_session (module_directory run)) in
    p_python (python_decoders decide (dump None (decoder_options run)));
  ad_ready := ready;
  ad_state b := match b with inl _ => Done [] | inr b => as_outcome (fst (python_state (fst b) (snd b))) end;
  ad_density b :=
    match b with inl _ => Done [] | inr b => as_outcome (fst (python_density_matrix (fst b) (snd b))) end |}.

Lemma quiet_python {A} (m : Run P A) : quiet (p_python m).
Proof using Type. intros c a c'. unfold p_python. destruct (m (world c)) as [r p]. by intros [= _ <-]. Qed.
#[local] Hint Resolve quiet_python quiet_bind : qsbit.

Lemma quiet_session directory : quiet (open_session directory).
Proof using Type. apply quiet_bind; auto with qsbit. Qed.
#[local] Hint Resolve quiet_session : qsbit.

(** The adapters report no errors of their own. *)
Lemma with_python_lawful : LawfulAdapters with_python.
Proof using Type.
  constructor; simpl.
  - auto 6 with qsbit.
  - intros run c code c' H. apply p_bind_done in H as ([] & c1 & H1%quiet_session & H).
    apply p_bind_done in H as ([] & c2 & H2%quiet_python & [= <- <-]). split; [done | by rewrite H2].
  - intros run c code c' H. apply p_bind_done in H as ([] & c1 & H1%quiet_session & H).
    apply p_bind_done in H as (text & c2 & H2%quiet_python & H).
    apply p_bind_done in H as ([] & c3 & H3%quiet_print & [= <- <-]). split; [done | by rewrite H3, H2].
  - intros run. repeat (apply quiet_bind; [auto with qsbit | intros ?]). by intros console made after [= _ <-].
  - intros run opened. apply quiet_bind; [destruct opened; auto with qsbit | auto with qsbit].
  - intros b c a c' [= _ <-]. done.
Qed.

(** *** A session that cannot be opened *)
Section Failure.
Context (json_null : J) (show_double : double -> string) (usage : string) (fault_message : Simulator Backends -> string).
Context (read_file : string -> option string) (read_bytes : string -> option (list Z)).
Context (absolute : string -> string) (join : string -> string -> string).
Context (make_parent can_open can_write : string -> bool).
Context (kernel_run : Simulator Backends -> Tick -> Tick * Simulator Backends).

#[local] Arguments open_session : simpl never.
#[local] Arguments console_new : simpl never.

(** What needs Python: a strategy, a question about backends, a backend other than the mock. *)
Definition needs_python (run : RunConfig J) : Prop :=
  help run = false /\ dump_profile run = "" /\
  (simulation_config run <> "" \/ backend_command run <> "" \/ backend_name run <> "mock").

(** Without a usable interpreter and package nothing that needs Python is started: the program ends with 2,
    one error and no output. *)
Theorem no_session_no_run arguments run cores models code w w' l :
  arguments <> ["--installation-info"] ->
  parse_run_config read_file parse_json absolute parent_path join arguments "" = Done run -> needs_python run ->
  configure_cores read_bytes (rc_cores run)
    (mkMemoryConfig (memory_base run) (memory_size run) (if raw run then Some (raw_base run) else None)) = Ok (cores, models) ->
  layout = Done l -> session_open start (python l) (module_directory run) w = (CppFault code, w') ->
  sc_main with_python json_null dump show_double layout usage fault_message read_file read_bytes parse_json absolute
    parent_path join make_parent can_open can_write kernel_run arguments w =
    (2, mkConsole [] [error_name code] ∅ w').
Proof using Type.
  intros Hi Hp (Hh & Hd & Hn) Hc Hl Hs. unfold sc_main.
  assert (Ho : open_session (module_directory run) (console_new w) = (Thrown code, mkConsole [] [] ∅ w')).
  { unfold open_session, p_bind, p_lift, p_python. rewrite Hl. simpl. by rewrite Hs. }
  assert (Hr : run_program with_python json_null dump show_double layout usage fault_message read_file read_bytes
    parse_json absolute parent_path join make_parent can_open can_write kernel_run arguments (console_new w) =
    (Thrown code, mkConsole [] [] ∅ w')); [|by rewrite Hr].
  unfold run_program. rewrite bool_decide_eq_false_2 by done. unfold p_bind at 1, p_lift at 1.
  rewrite Hp, Hh, Hd. simpl. destruct (String.eqb_spec (simulation_config run) "") as [E1|_]; simpl;
    [|unfold p_bind; by rewrite Ho].
  destruct (String.eqb_spec (backend_command run) "") as [E2|_]; simpl; [|unfold p_bind; by rewrite Ho].
  unfold build_simulator, p_bind, p_lift. rewrite Hc. simpl.
  destruct (String.eqb_spec (backend_name run) "mock") as [E3|_]; [tauto | simpl; unfold p_bind; by rewrite Ho].
Qed.
End Failure.
End WithPython.

(** ** Example: the program of Main.v with a backend in Python

    A small interpreter that notes the methods called; its backend answers a batch it can read with
    [False] for every measured qubit. *)
Definition Toy : Type := list string.

Definition toy_results (o : ApiOperation) : list Py :=
  match o with ApiMeasurement _ references => map (fun _ => PyBool false) references | _ => [] end.

Definition toy_answer (name : string) (arguments : list Py) : reply Py :=
  if String.eqb name "loads" then Value (PyDict [])
  else if String.eqb name "create" then Value (PyList [PyObject 1; PyDict []])
  else if String.eqb name "dumps" then Value (PyStr "{}")
  else if String.eqb name "execute" then
    match arguments with
    | [_; batch] =>
        match read_batch batch with
        | Some records => Value (PyList (concat (map toy_results records)))
        | None => PythonError
        end
    | _ => PythonError
    end
  else Value (PyObject 0).

#[local] Instance toy_python : Python Toy := {|
  import_module name := run_ret (PyStr name);
  attr object name := run_ret (if String.eqb name "API_VERSION" then PyInt 4 else PyList [object; PyStr name]);
  hasattr _ name := run_ret (negb (bool_decide (name ∈ ["state"; "density_matrix"])));
  PyCallable_Check _ := true;
  item object index :=
    run_throw (match object, index with
               | PyList l, PyInt i => match nth_error l (Z.to_nat i) with Some v => Value v | None => PythonError end
               | _, _ => PythonError
               end);
  call f arguments p :=
    match f with
    | PyList [_; PyStr name] => (toy_answer name arguments, p ++ [name])
    | _ => (PythonError, p)
    end;
  iterate v := run_throw (match v with PyList l => Value l | _ => PythonError end);
  cast_unsigned bits v := match v with PyInt n => if (0 <=? n) && (n <? 2 ^ bits) then Some n else None | _ => None end;
  cast_string v := match v with PyStr s => Some s | _ => None end;
  cast_bools v :=
    match v with PyList l => mapM (fun v => match v with PyBool b => Some b | _ => None end) l | _ => None end;
  cast_amplitudes _ := None;
  cast_matrix _ := None |}.

Definition toy_main (started : bool) (arguments : list string) : Z * Console Toy :=
  let layout := Done (mkLayout true true "web" "python3" "" "1" "1") in
  let parse_json := fun _ => Done (json_object [("schema", json_unsigned 1); ("watchdog", json_unsigned 2000)]) in
  sc_main (with_python (fun _ => run_ret started) (fun _ _ => Ok []) "qsbit" (fun _ _ => "{}") layout parse_json (fun p => p))
    JNull (fun _ _ => "json") (fun _ => "0") layout "usage" (fun _ => "fault")
    (fun _ => Some "") (fun _ => Some example_bytes) parse_json (fun p => p) (fun _ => "") (fun a b => a +:+ b)
    (fun _ => true) (fun _ => true) (fun _ => true) drive_kernel arguments [].

Definition toy_arguments : list string := example_arguments ++ ["--backend"; "toy"].

(** The run completes, with the backend of Python. *)
Example toy_run_completes :
  let (code, c) := toy_main true toy_arguments in
  code = 0 /\ errors c = [] /\ world c = ["loads"; "create"; "dumps"] /\ is_Some (files c !! "out/t.jsonl").
Proof. vm_compute. by eauto. Qed.

(** The interpreter does not start: the program ends with 2 and leaves nothing. *)
Example toy_run_fails : toy_main false toy_arguments = (2, mkConsole [] ["BackendFailure"] ∅ []).
Proof. vm_compute. reflexivity. Qed.
